(** * Emma (emulator manager): a shallow embedding of the status engine

    The development follows the TypeScript sources:
    - [cli.ts]: the command runner and the input validators;
    - [platform.ts]: availability probes and tool path resolution;
    - [iosEmulator.ts]: the simulator listing parser, the category and
      version derivations, the boot command;
    - [androidEmulator.ts]: the AVD listing parser and the status resolver;
    - [emulatorProvider.ts]: the reconciling store behind the tree view.

    Conventions.  A JavaScript string is a [string]: a sequence of code
    units, of which the model keeps the first 256.  An [await]ed call is a
    value of [Run]: it returns, throws, or never settles.  Objects that the
    provider mutates in place live in a heap and are held by reference. *)

From Stdlib Require Import ZArith Lia String Ascii List Bool.
From stdpp Require Import base strings list gmap.

Local Open Scope string_scope.
Local Open Scope list_scope.
Set Warnings "-register-all,-abstract-large-number".

(* ===================================================================== *)
(** * Part I: definitions *)
(* ===================================================================== *)

(** ** JavaScript strings *)

Definition code (c : ascii) : N := N_of_ascii c.

(** [lo <= c <= hi] on code units: a range [lo-hi] of a character class. *)
Definition in_range (lo hi c : ascii) : bool :=
  ((code lo <=? code c) && (code c <=? code hi))%N.

(** WhiteSpace and LineTerminator code units below 256: what [trim] strips
    and what the class [\s] matches. *)
Definition isWhiteSpace (c : ascii) : bool :=
  existsb (N.eqb (code c)) [9; 10; 11; 12; 13; 32; 160]%N.

Definition isDigit (c : ascii) : bool := in_range "0" "9" c.

(** [String.prototype.toLowerCase] on one code unit (A-Z and the Latin-1
    capitals). *)
Definition lower_char (c : ascii) : ascii :=
  let n := code c in
  if (((65 <=? n) && (n <=? 90))
      || ((192 <=? n) && (n <=? 222) && negb (n =? 215)))%N
  then ascii_of_N (n + 32) else c.

Fixpoint toLowerCase (s : string) : string :=
  match s with
  | "" => ""
  | String c s' => String (lower_char c) (toLowerCase s')
  end.

Fixpoint trimStart (s : string) : string :=
  match s with
  | "" => ""
  | String c s' => if isWhiteSpace c then trimStart s' else s
  end.

Fixpoint trimEnd (s : string) : string :=
  match s with
  | "" => ""
  | String c s' =>
      match trimEnd s' with
      | "" => if isWhiteSpace c then "" else String c ""
      | t => String c t
      end
  end.

Definition trim (s : string) : string := trimEnd (trimStart s).

(** [s.startsWith(p)] *)
Fixpoint startsWith (s p : string) : bool :=
  match p, s with
  | "", _ => true
  | String _ _, "" => false
  | String a p', String b s' => Ascii.eqb a b && startsWith s' p'
  end.

(** [s.includes(sub)] *)
Fixpoint includes (s sub : string) : bool :=
  startsWith s sub
  || match s with
     | "" => false
     | String _ s' => includes s' sub
     end.

(** [s.split(sep)] for a one-character separator. *)
Fixpoint split (sep : ascii) (s : string) : list string :=
  match s with
  | "" => [""]
  | String c s' =>
      if Ascii.eqb c sep then "" :: split sep s'
      else match split sep s' with
           | t :: ts => String c t :: ts
           | [] => [String c ""]
           end
  end.

(** [s.split(/\s+/)]: the pieces between maximal runs of white space. *)
Fixpoint split_ws_from (in_sep : bool) (s : string) : list string :=
  match s with
  | "" => [""]
  | String c s' =>
      if isWhiteSpace c
      then (if in_sep then split_ws_from true s'
            else "" :: split_ws_from true s')
      else match split_ws_from false s' with
           | t :: ts => String c t :: ts
           | [] => [String c ""]
           end
  end.

Definition split_ws (s : string) : list string := split_ws_from false s.

(** [s.replace(/pat/g, rep)] for a literal, non-empty [pat]: [skip] counts
    the characters of a match still to be passed over. *)
Fixpoint replace_from (pat rep : string) (skip : nat) (s : string) : string :=
  match s with
  | "" => ""
  | String c s' =>
      match skip with
      | S k => replace_from pat rep k s'
      | O =>
          if startsWith s pat
          then rep +:+ replace_from pat rep (String.length pat - 1) s'
          else String c (replace_from pat rep 0 s')
      end
  end.

Definition replaceAll (pat rep s : string) : string := replace_from pat rep 0 s.

(** Truthiness of a string: [""] is falsy. *)
Definition truthy (s : string) : bool := negb (String.eqb s "").

(** Truthiness of an optional string property: [undefined] and [""] are
    falsy. *)
Definition truthy_opt (o : option string) : bool :=
  match o with
  | Some s => truthy s
  | None => false
  end.

(** [a || b] on strings. *)
Definition or_else (a b : string) : string := if truthy a then a else b.

(** ** Regular expressions

    The fragment of ECMAScript regular expressions the sources use:
    character classes, sequence, alternation, greedy [?] on a
    sub-expression, greedy [+] on a class, capture groups and the anchors
    [^] and [$] (no multiline flag anywhere).  Matching backtracks like
    the specification's matcher: a continuation receives the position
    reached. *)

Inductive regex : Type :=
| Eps
| Bol
| Eol
| Cls (p : ascii -> bool)
| Seq (r1 r2 : regex)
| Alt (r1 r2 : regex)
| Opt (r : regex)
| Plus (p : ascii -> bool)
| Grp (n : nat) (r : regex).

Definition captures := list (nat * string).

Fixpoint plus_from {R : Type} (p : ascii -> bool) (pos : nat) (s : string)
    (k : nat -> string -> option R) : option R :=
  match s with
  | "" => None
  | String c s' =>
      if p c
      then match plus_from p (S pos) s' k with
           | Some x => Some x
           | None => k (S pos) s'
           end
      else None
  end.

Fixpoint rmatch {R : Type} (r : regex) (pos : nat) (s : string) (g : captures)
    (k : nat -> string -> captures -> option R) : option R :=
  match r with
  | Eps => k pos s g
  | Bol => if Nat.eqb pos 0 then k pos s g else None
  | Eol => match s with "" => k pos s g | String _ _ => None end
  | Cls p =>
      match s with
      | "" => None
      | String c s' => if p c then k (S pos) s' g else None
      end
  | Seq r1 r2 => rmatch r1 pos s g (fun pos' s' g' => rmatch r2 pos' s' g' k)
  | Alt r1 r2 =>
      match rmatch r1 pos s g k with
      | Some x => Some x
      | None => rmatch r2 pos s g k
      end
  | Opt r1 =>
      match rmatch r1 pos s g k with
      | Some x => Some x
      | None => k pos s g
      end
  | Plus p => plus_from p pos s (fun pos' s' => k pos' s' g)
  | Grp n r1 =>
      rmatch r1 pos s g
        (fun pos' s' g' => k pos' s' ((n, substring 0 (pos' - pos) s) :: g'))
  end.

(** The result array of [String.prototype.match] / [RegExp.prototype.exec]:
    where the match starts, its text, and the text of each group. *)
Record MatchResult := mkMatch {
  index : nat;
  matched : string;
  groups : captures
}.

(** [m[n]]: the text of group [n], [undefined] when it took no part. *)
Fixpoint group (n : nat) (g : captures) : option string :=
  match g with
  | [] => None
  | (i, t) :: g' => if Nat.eqb i n then Some t else group n g'
  end.

(** The leftmost match, trying each start position in turn. *)
Fixpoint regex_search (r : regex) (pos : nat) (s : string) : option MatchResult :=
  match rmatch r pos s []
          (fun pos' _ g => Some (mkMatch pos (substring 0 (pos' - pos) s) g)) with
  | Some m => Some m
  | None =>
      match s with
      | "" => None
      | String _ s' => regex_search r (S pos) s'
      end
  end.

Definition regex_match (r : regex) (s : string) : option MatchResult :=
  regex_search r 0 s.

Definition regex_test (r : regex) (s : string) : bool :=
  match regex_match r s with Some _ => true | None => false end.

(** Pattern characters.  Under the [i] flag two code units match when
    their canonical forms agree, which below 256 is agreement after
    [lower_char]. *)
Definition chr (c : ascii) : ascii -> bool := Ascii.eqb c.
Definition chr_i (c : ascii) : ascii -> bool :=
  fun x => Ascii.eqb (lower_char x) (lower_char c).
Definition upper_char (c : ascii) : ascii :=
  let n := code c in
  if (((97 <=? n) && (n <=? 122))
      || ((224 <=? n) && (n <=? 254) && negb (n =? 247)))%N
  then ascii_of_N (n - 32) else c.
Definition cls_i (p : ascii -> bool) : ascii -> bool :=
  fun x => p x || p (lower_char x) || p (upper_char x).
Definition cls_or (p q : ascii -> bool) : ascii -> bool := fun x => p x || q x.

(** A literal run of pattern characters. *)
Fixpoint lit (ci : bool) (s : string) : regex :=
  match s with
  | "" => Eps
  | String c s' => Seq (Cls (if ci then chr_i c else chr c)) (lit ci s')
  end.

(** [r{n}] *)
Fixpoint rep (n : nat) (r : regex) : regex :=
  match n with
  | O => Eps
  | S n' => Seq r (rep n' r)
  end.

Definition seqs (rs : list regex) : regex := foldr Seq Eps rs.
Definition alts (r : regex) (rs : list regex) : regex := foldl Alt r rs.

(** ** Awaited calls, promises and the environment *)

(** A JavaScript error value: its [name] (["Error"], ["SyntaxError"],
    ["TypeError"]), its [message], and for a rejection of [execFile] what
    the child wrote before it failed. *)
Record JSError := mkError {
  err_name : string;
  message : string;
  err_stdout : option string;
  err_stderr : option string
}.

(** [new Error(msg)] *)
Definition Error (msg : string) : JSError := mkError "Error" msg None None.

(** [String(error)], as a template literal [`${error}`] takes it:
    [Error.prototype.toString] gives the name, a colon and the message,
    or the one of the two that is not empty. *)
Definition error_to_string (error : JSError) : string :=
  if negb (truthy (err_name error)) then message error
  else if negb (truthy (message error)) then err_name error
  else err_name error +:+ ": " +:+ message error.

(** What an awaited call does: it returns, it throws, or it never settles. *)
Inductive Run (A : Type) : Type :=
| Returns (a : A)
| Throws (e : JSError)
| Hangs.
Arguments Returns {A} a.
Arguments Throws {A} e.
Arguments Hangs {A}.

Definition bind {A B : Type} (m : Run A) (k : A -> Run B) : Run B :=
  match m with
  | Returns a => k a
  | Throws e => Throws e
  | Hangs => Hangs
  end.

(** [try { m } catch (e) { h e }] *)
Definition try_catch {A : Type} (m : Run A) (h : JSError -> Run A) : Run A :=
  match m with
  | Returns a => Returns a
  | Throws e => h e
  | Hangs => Hangs
  end.

Notation "'let*' x := m 'in' k" := (bind m (fun x => k))
  (at level 10, x name, m at level 100, k at level 200).

Inductive Settlement (A : Type) : Type :=
| Fulfilled (a : A)
| Rejected (e : JSError).
Arguments Fulfilled {A} a.
Arguments Rejected {A} e.

(** A promise, seen from its creation: [None] never settles, [Some (t, o)]
    settles with [o] after [t] milliseconds. *)
Definition Promise (A : Type) : Type := option (nat * Settlement A).

Definition await {A : Type} (p : Promise A) : Run A :=
  match p with
  | None => Hangs
  | Some (_, Fulfilled a) => Returns a
  | Some (_, Rejected e) => Throws e
  end.

(** [Promise.race([p, q])]: the first to settle decides; [p] stands first
    in the array and wins a tie. *)
Definition race {A : Type} (p q : Promise A) : Promise A :=
  match p, q with
  | None, _ => q
  | _, None => p
  | Some (tp, _), Some (tq, _) => if Nat.leb tp tq then p else q
  end.

(** The delay [setTimeout] really waits: a delay below 1 or above
    2^31 - 1 is replaced by 1. *)
Definition timer_delay (ms : Z) : nat :=
  if ((ms <? 1) || (2147483647 <? ms))%Z then 1 else Z.to_nat ms.

(** [new Promise((_, reject) => setTimeout(() => reject(e), ms))] *)
Definition reject_after {A : Type} (ms : Z) (e : JSError) : Promise A :=
  Some (timer_delay ms, Rejected e).

(** [ExecFileOptions], as far as the sources set them. *)
Record ExecFileOptions := mkOptions {
  timeout : option Z;
  maxBuffer : option Z
}.

Record ExecOutput := mkOutput {
  out_stdout : string;
  out_stderr : string
}.

(** A synchronous call of the environment: it throws or it returns. *)
Definition call {A : Type} (r : JSError + A) : Run A :=
  match r with
  | inl e => Throws e
  | inr a => Returns a
  end.

(** The machine the extension runs on, as one snapshot: what the operating
    system, the file system and the child processes answer. *)
Record World := mkWorld {
  os_platform : string;
  os_homedir : JSError + string;
  process_env : string -> option string;
  path_join : list string -> string;
  fs_existsSync : string -> bool;
  (** [promisify(execFile)(command, args, options)]: it throws at once (an
      argument refused) or hands back the promise of the child's output. *)
  execFileAsync : string -> list string -> ExecFileOptions -> JSError + Promise ExecOutput;
  (** [spawn(command, args, ...)]: it throws at once, or gives a child
      that emits ['error'] after some milliseconds, or never does. *)
  spawn : string -> list string -> JSError + option (nat * JSError);
  (** The wording of the engine's own errors: the message of the
      [SyntaxError] that [JSON.parse] throws for a text, and of the
      [TypeError] for reading a property of [null]. *)
  json_parse_message : string -> string;
  null_property_message : string -> string
}.

(** ** cli.ts *)

Module CLICommandResult.
Record t := mk {
  success : bool;
  stdout : string;
  stderr : string;
  error : option JSError
}.
End CLICommandResult.
Abbreviation CLICommandResult := CLICommandResult.t.

Definition DEFAULT_TIMEOUT : Z := 30000.

(** [options.timeout || DEFAULT_TIMEOUT] *)
Definition effective_timeout (options : ExecFileOptions) : Z :=
  match timeout options with
  | Some t => if (t =? 0)%Z then DEFAULT_TIMEOUT else t
  | None => DEFAULT_TIMEOUT
  end.

(** The [catch] branch of [executeCommand]. *)
Definition failure_result (e : JSError) : CLICommandResult :=
  CLICommandResult.mk false
    (match err_stdout e with Some s => s | None => "" end)
    (match err_stderr e with Some s => s | None => "" end)
    (Some e).

Definition executeCommand (w : World) (command : string) (args : list string)
    (options : ExecFileOptions) : Promise CLICommandResult :=
  let timeout := effective_timeout options in
  match execFileAsync w command args
          (mkOptions (Some timeout) (Some (10 * 1024 * 1024)%Z)) with
  | inl e => Some (0, Fulfilled (failure_result e))
  | inr child =>
      match race child (reject_after timeout (Error "Command timeout")) with
      | None => None
      | Some (t, Fulfilled result) =>
          Some (t, Fulfilled (CLICommandResult.mk true (out_stdout result)
                                (out_stderr result) None))
      | Some (t, Rejected e) => Some (t, Fulfilled (failure_result e))
      end
  end.

(** No options given: [options = {}]. *)
Definition no_options : ExecFileOptions := mkOptions None None.
Definition with_timeout (ms : Z) : ExecFileOptions := mkOptions (Some ms) None.

Definition validateCommandInput (input : string) : bool :=
  let dangerousChars :=
    Cls (fun c => existsb (Ascii.eqb c)
           [";"; "&"; "|"; "`"; "$"; "("; ")"; "{"; "}"; "["; "]"; "<"; ">";
            "\"; "010"; "013"]%char) in
  negb (regex_test dangerousChars input).

Definition hexClass : ascii -> bool :=
  cls_i (cls_or (in_range "0" "9") (in_range "A" "F")).

Definition uuidRegex : regex :=
  seqs [Bol; rep 8 (Cls hexClass); Cls (chr "-");
        rep 4 (Cls hexClass); Cls (chr "-");
        rep 4 (Cls hexClass); Cls (chr "-");
        rep 4 (Cls hexClass); Cls (chr "-");
        rep 12 (Cls hexClass); Eol].

Definition validateUDID (udid : string) : bool := regex_test uuidRegex udid.

Definition avdNameClass : ascii -> bool :=
  cls_or (in_range "a" "z")
    (cls_or (in_range "A" "Z")
       (cls_or (in_range "0" "9") (cls_or (chr "_") (chr "-")))).

Definition avdNameRegex : regex := seqs [Bol; Plus avdNameClass; Eol].

Definition validateAVDName (name : string) : bool :=
  regex_test avdNameRegex name
  && Nat.ltb 0 (String.length name) && Nat.ltb (String.length name) 100.

(** ** platform.ts *)

Definition isMacOS (w : World) : bool := String.eqb (os_platform w) "darwin".
Definition isWindows (w : World) : bool := String.eqb (os_platform w) "win32".
Definition isLinux (w : World) : bool := String.eqb (os_platform w) "linux".

(** [await execFileAsync(command, args, { timeout: 5000 })], the output
    dropped. *)
Definition probe (w : World) (command : string) (args : list string) : Run unit :=
  let* child := call (execFileAsync w command args (with_timeout 5000)) in
  let* _ := await child in
  Returns tt.

Definition checkXcodeAvailable (w : World) : Run bool :=
  if negb (isMacOS w) then Returns false
  else try_catch (let* _ := probe w "xcrun" ["--version"] in Returns true)
         (fun _ => Returns false).

(** [process.env.A || process.env.B] *)
Definition env_or (w : World) (a b : string) : option string :=
  if truthy_opt (process_env w a) then process_env w a else process_env w b.

(** The per-platform default locations of a tool below the SDK root:
    [sub] is the folder, [exe] the tool without its [.exe]. *)
Definition default_tool_paths (w : World) (sub exe : string) : Run (list string) :=
  let platform := os_platform w in
  if String.eqb platform "darwin" then
    let* home := call (os_homedir w) in
    Returns [path_join w [home; "Library"; "Android"; "sdk"; sub; exe]]
  else if String.eqb platform "win32" then
    let localAppData :=
      match process_env w "LOCALAPPDATA" with Some s => s | None => "" end in
    let userProfile :=
      match process_env w "USERPROFILE" with Some s => s | None => "" end in
    Returns
      ((if truthy localAppData
        then [path_join w [localAppData; "Android"; "Sdk"; sub; exe +:+ ".exe"]]
        else [])
       ++ (if truthy userProfile
           then [path_join w [userProfile; "AppData"; "Local"; "Android"; "Sdk";
                              sub; exe +:+ ".exe"]]
           else []))%list
  else if String.eqb platform "linux" then
    let* home := call (os_homedir w) in
    let* home' := call (os_homedir w) in
    Returns [path_join w [home; "Android"; "Sdk"; sub; exe];
             path_join w [home'; "android-sdk"; sub; exe]]
  else Returns [].

Definition getDefaultAndroidPaths (w : World) : Run (list string) :=
  default_tool_paths w "emulator" "emulator".

Definition getDefaultAdbPaths (w : World) : Run (list string) :=
  default_tool_paths w "platform-tools" "adb".

Definition checkAndroidAvailable (w : World) : Run bool :=
  let emulatorCmd := if isWindows w then "emulator.exe" else "emulator" in
  try_catch (let* _ := probe w emulatorCmd ["-version"] in Returns true)
    (fun _ =>
       let androidHome := env_or w "ANDROID_HOME" "ANDROID_SDK_ROOT" in
       let emulatorExe := if isWindows w then "emulator.exe" else "emulator" in
       if match androidHome with
          | Some home =>
              truthy home
              && fs_existsSync w (path_join w [home; "emulator"; emulatorExe])
          | None => false
          end
       then Returns true
       else
         let* defaultPaths := getDefaultAndroidPaths w in
         Returns (existsb (fs_existsSync w) defaultPaths)).

(** The common shape of [getAndroidEmulatorPath] and [getAndroidAdbPath]:
    the environment variable, then the default locations, then the
    [which] / [where] lookup of the bare name. *)
Definition resolve_tool (w : World) (sub : string) (exe : string)
    (defaults : Run (list string)) : Run (option string) :=
  let androidHome := env_or w "ANDROID_HOME" "ANDROID_SDK_ROOT" in
  let fromEnv :=
    match androidHome with
    | Some home =>
        if truthy home && fs_existsSync w (path_join w [home; sub; exe])
        then Some (path_join w [home; sub; exe]) else None
    | None => None
    end in
  match fromEnv with
  | Some p => Returns (Some p)
  | None =>
      let* defaultPaths := defaults in
      match List.find (fs_existsSync w) defaultPaths with
      | Some p => Returns (Some p)
      | None =>
          try_catch
            (let* _ := probe w (if isWindows w then "where" else "which") [exe] in
             Returns (Some exe))
            (fun _ => Returns None)
      end
  end.

Definition getAndroidEmulatorPath (w : World) : Run (option string) :=
  resolve_tool w "emulator" (if isWindows w then "emulator.exe" else "emulator")
    (getDefaultAndroidPaths w).

Definition getAndroidAdbPath (w : World) : Run (option string) :=
  resolve_tool w "platform-tools" (if isWindows w then "adb.exe" else "adb")
    (getDefaultAdbPaths w).

(** ** JSON values and [JSON.parse] *)

Inductive json : Type :=
| JNull
| JBool (b : bool)
| JNumber (lexeme : string)
| JString (s : string)
| JArray (items : list json)
| JObject (fields : list (string * json)).

(** The own properties of an object, in property order. *)
Definition jsobject : Type := list (string * json).

Definition dquote : ascii := "034"%char.
Definition backslash : ascii := "092"%char.

Fixpoint span (p : ascii -> bool) (s : string) : string * string :=
  match s with
  | "" => ("", "")
  | String c s' =>
      if p c then let '(a, b) := span p s' in (String c a, b) else ("", s)
  end.

Definition is_json_ws (c : ascii) : bool :=
  existsb (N.eqb (code c)) [32; 9; 10; 13]%N.

Definition skip_ws (s : string) : string := snd (span is_json_ws s).

Definition hex_value (c : ascii) : option N :=
  if in_range "0" "9" c then Some (code c - 48)%N
  else if in_range "a" "f" c then Some (code c - 87)%N
  else if in_range "A" "F" c then Some (code c - 55)%N
  else None.

(** Where the scanner of a string literal stands: in plain text, after a
    backslash, or inside the four hex digits of a [\u] escape. *)
Inductive str_mode : Type :=
| Plain
| Escaped
| Hex (remaining : nat) (acc : N).

(** The text of a string literal whose opening quote was read, and what
    follows its closing quote.  An escape that names a code unit the model
    does not keep (256 and above) is refused. *)
Fixpoint parse_string (mode : str_mode) (s : string) : option (string * string) :=
  match s with
  | "" => None
  | String c s' =>
      let cons x := match parse_string Plain s' with
                    | Some (t, r) => Some (String x t, r)
                    | None => None
                    end in
      match mode with
      | Plain =>
          if Ascii.eqb c dquote then Some ("", s')
          else if Ascii.eqb c backslash then parse_string Escaped s'
          else if (code c <? 32)%N then None
          else cons c
      | Escaped =>
          if Ascii.eqb c dquote then cons dquote
          else if Ascii.eqb c backslash then cons backslash
          else if Ascii.eqb c "/" then cons "/"%char
          else if Ascii.eqb c "b" then cons "008"%char
          else if Ascii.eqb c "f" then cons "012"%char
          else if Ascii.eqb c "n" then cons "010"%char
          else if Ascii.eqb c "r" then cons "013"%char
          else if Ascii.eqb c "t" then cons "009"%char
          else if Ascii.eqb c "u" then parse_string (Hex 4 0) s'
          else None
      | Hex remaining acc =>
          match hex_value c with
          | None => None
          | Some d =>
              let acc' := (16 * acc + d)%N in
              match remaining with
              | 1 => if (acc' <? 256)%N then cons (ascii_of_N acc') else None
              | _ => parse_string (Hex (remaining - 1) acc') s'
              end
          end
      end
  end.

(** The lexeme of a number at the head of [s], if there is one: an
    optional minus sign, an integer part without a leading zero (or zero
    alone), an optional fraction, an optional exponent. *)
Definition parse_number (s : string) : option (string * string) :=
  let '(sign, s1) :=
    match s with
    | String "-" r => ("-", r)
    | _ => ("", s)
    end in
  let '(int, s2) := span isDigit s1 in
  let int_ok :=
    match int with
    | "" => false
    | String "0" (String _ _) => false
    | _ => true
    end in
  if negb int_ok then None else
  let frac :=
    match s2 with
    | String "." r =>
        let '(ds, r') := span isDigit r in
        if truthy ds then Some ("." +:+ ds, r') else None
    | _ => Some ("", s2)
    end in
  match frac with
  | None => None
  | Some (fr, s3) =>
      match s3 with
      | String e r =>
          if Ascii.eqb e "e" || Ascii.eqb e "E" then
            let '(sg, r1) :=
              match r with
              | String "+" r' => ("+", r')
              | String "-" r' => ("-", r')
              | _ => ("", r)
              end in
            let '(ds, r2) := span isDigit r1 in
            if truthy ds
            then Some (sign +:+ int +:+ fr +:+ String e sg +:+ ds, r2)
            else None
          else Some (sign +:+ int +:+ fr, s3)
      | "" => Some (sign +:+ int +:+ fr, s3)
      end
  end.

(** An array index as a property key: a canonical numeral below 2^32 - 1. *)
Definition array_index (k : string) : option N :=
  match k with
  | "" => None
  | String "0" "" => Some 0%N
  | String "0" _ => None
  | _ =>
      let '(ds, r) := span isDigit k in
      if truthy r then None
      else
        let n := fold_left (fun acc c => (10 * acc + (code c - 48))%N)
                   (list_ascii_of_string ds) 0%N in
        if (n <? 4294967295)%N then Some n else None
  end.

(** [o[k] = v] on the own properties: a known key keeps its place. *)
Fixpoint set_prop (k : string) (v : json) (o : jsobject) : jsobject :=
  match o with
  | [] => [(k, v)]
  | (k', v') :: o' =>
      if String.eqb k' k then (k', v) :: o' else (k', v') :: set_prop k v o'
  end.

Fixpoint insert_index (n : N) (kv : string * json) (o : list (N * (string * json)))
    : list (N * (string * json)) :=
  match o with
  | [] => [(n, kv)]
  | (m, kv') :: o' =>
      if (n <? m)%N then (n, kv) :: o else (m, kv') :: insert_index n kv o'
  end.

(** Property order: array indices ascending, then the other keys as they
    were first written. *)
Definition property_order (o : jsobject) : jsobject :=
  let indexed :=
    fold_left (fun acc kv => match array_index (fst kv) with
                             | Some n => insert_index n kv acc
                             | None => acc
                             end) o [] in
  (List.map snd indexed
   ++ List.filter (fun kv => match array_index (fst kv) with
                             | Some _ => false
                             | None => true
                             end) o)%list.

(** The object a member list denotes: a repeated key keeps its first place
    and its last value. *)
Definition object_of_members (members : list (string * json)) : json :=
  JObject (property_order
             (fold_left (fun o kv => set_prop (fst kv) (snd kv) o) members [])).

Fixpoint drop_chars (n : nat) (s : string) : string :=
  match n, s with
  | S n', String _ s' => drop_chars n' s'
  | _, _ => s
  end.

Definition starts_with_char (c : ascii) (s : string) : option string :=
  match s with
  | String c' r => if Ascii.eqb c c' then Some r else None
  | "" => None
  end.

(** Recursive descent; [fuel] bounds the nesting of calls and the length of
    the input bounds what a parse needs. *)
Fixpoint parse_value (fuel : nat) (s : string) : option (json * string) :=
  match fuel with
  | O => None
  | S n =>
      match skip_ws s with
      | "" => None
      | String c r as s0 =>
          if Ascii.eqb c "{" then
            match starts_with_char "}" (skip_ws r) with
            | Some r' => Some (JObject [], r')
            | None =>
                match parse_members n r with
                | Some (ms, r') => Some (object_of_members ms, r')
                | None => None
                end
            end
          else if Ascii.eqb c "[" then
            match starts_with_char "]" (skip_ws r) with
            | Some r' => Some (JArray [], r')
            | None =>
                match parse_elements n r with
                | Some (vs, r') => Some (JArray vs, r')
                | None => None
                end
            end
          else if Ascii.eqb c dquote then
            match parse_string Plain r with
            | Some (t, r') => Some (JString t, r')
            | None => None
            end
          else if startsWith s0 "true" then Some (JBool true, drop_chars 4 s0)
          else if startsWith s0 "false" then Some (JBool false, drop_chars 5 s0)
          else if startsWith s0 "null" then Some (JNull, drop_chars 4 s0)
          else match parse_number s0 with
               | Some (lexeme, r') => Some (JNumber lexeme, r')
               | None => None
               end
      end
  end
with parse_elements (fuel : nat) (s : string) : option (list json * string) :=
  match fuel with
  | O => None
  | S n =>
      match parse_value n s with
      | None => None
      | Some (v, r) =>
          match skip_ws r with
          | String c r' =>
              if Ascii.eqb c "," then
                match parse_elements n r' with
                | Some (vs, r'') => Some (v :: vs, r'')
                | None => None
                end
              else if Ascii.eqb c "]" then Some ([v], r')
              else None
          | "" => None
          end
      end
  end
with parse_members (fuel : nat) (s : string) : option (list (string * json) * string) :=
  match fuel with
  | O => None
  | S n =>
      match starts_with_char dquote (skip_ws s) with
      | None => None
      | Some r0 =>
          match parse_string Plain r0 with
          | None => None
          | Some (k, r1) =>
              match starts_with_char ":" (skip_ws r1) with
              | None => None
              | Some r2 =>
                  match parse_value n r2 with
                  | None => None
                  | Some (v, r3) =>
                      match skip_ws r3 with
                      | String c r4 =>
                          if Ascii.eqb c "," then
                            match parse_members n r4 with
                            | Some (ms, r5) => Some ((k, v) :: ms, r5)
                            | None => None
                            end
                          else if Ascii.eqb c "}" then Some ([(k, v)], r4)
                          else None
                      | "" => None
                      end
                  end
              end
          end
      end
  end.

(** [JSON.parse(text)]: a value, or a [SyntaxError] with the message the
    engine gives it. *)
Definition JSON_parse (w : World) (text : string) : Run json :=
  let syntaxError := mkError "SyntaxError" (json_parse_message w text) None None in
  match parse_value (2 * String.length text + 2) text with
  | Some (v, r) =>
      if truthy (skip_ws r) then Throws syntaxError else Returns v
  | None => Throws syntaxError
  end.

(** ** types.ts *)

Module IOSSimulator.
Record t := mk {
  udid : string;
  name : string;
  state : string;
  deviceTypeIdentifier : string;
  runtime : string
}.
End IOSSimulator.
Abbreviation IOSSimulator := IOSSimulator.t.

Inductive Status : Type := running | starting | stopped.

Module AndroidEmulator.
Record t := mk {
  name : string;
  path : option string;
  status : option Status
}.
End AndroidEmulator.
Abbreviation AndroidEmulator := AndroidEmulator.t.

Inductive EmulatorPlatform : Type := ios | android.

Inductive IOSDeviceSubtype : Type :=
| iPhone
| iPad
| AppleWatch
| AppleVision
| AppleTV
| Other.

(** ** iosEmulator.ts *)

Definition get_own (k : string) (o : jsobject) : option json :=
  snd <$> List.find (fun kv => String.eqb (fst kv) k) o.

(** [v.k] for a key that no prototype defines: [undefined] on everything
    but an object that has it, a [TypeError] on [null]. *)
Definition get_prop (w : World) (v : json) (k : string) : Run (option json) :=
  match v with
  | JNull => Throws (mkError "TypeError" (null_property_message w k) None None)
  | JObject o => Returns (get_own k o)
  | _ => Returns None
  end.

Fixpoint indexed {A : Type} (i : N) (xs : list A) : list (N * A) :=
  match xs with
  | [] => []
  | x :: xs' => (i, x) :: indexed (i + 1)%N xs'
  end.

Fixpoint decimal_digits (fuel : nat) (n : N) (acc : string) : string :=
  match fuel with
  | O => acc
  | S f =>
      let acc' := String (ascii_of_N (48 + n mod 10)) acc in
      if (n <? 10)%N then acc' else decimal_digits f (n / 10)%N acc'
  end.

(** [String(n)] for an array index. *)
Definition index_key (n : N) : string := decimal_digits 20 n "".

(** The enumerable own properties of a value, in property order: what
    [for (k in v)] visits and what [{...v}] copies. *)
Definition own_properties (v : json) : jsobject :=
  match v with
  | JObject o => o
  | JArray xs => List.map (fun ix => (index_key (fst ix), snd ix)) (indexed 0 xs)
  | JString s =>
      List.map (fun ix => (index_key (fst ix), JString (String (snd ix) "")))
        (indexed 0 (list_ascii_of_string s))
  | _ => []
  end.

(** The number a run of decimal digits writes. *)
Definition digits_value (ds : string) : N :=
  fold_left (fun acc c => (10 * acc + (code c - 48))%N) (list_ascii_of_string ds) 0%N.

(** Whether the number that a JSON lexeme writes is [0] (or [-0]) once it
    is a double.  The lexeme writes [m * 10^e], [m] being its digits
    without the point.  Rounded to the nearest double, ties to even, it is
    zero exactly when [m] is zero or [m * 10^e] is at most [2^-1075], half
    of the least positive double. *)
Definition number_is_zero (lexeme : string) : bool :=
  let unsigned := match lexeme with String "-" r => r | _ => lexeme end in
  let '(int, r1) := span isDigit unsigned in
  let '(frac, r2) :=
    match r1 with
    | String "." r => span isDigit r
    | _ => ("", r1)
    end in
  let exponent :=
    match r2 with
    | String _ (String "-" ds) => (- Z.of_N (digits_value ds))%Z
    | String _ (String "+" ds) => Z.of_N (digits_value ds)
    | String _ ds => Z.of_N (digits_value ds)
    | "" => 0%Z
    end in
  let m := digits_value (int +:+ frac) in
  let e := (exponent - Z.of_nat (String.length frac))%Z in
  (m =? 0)%N
  || (if (0 <=? e)%Z then false
      else (m * 2 ^ 1075 <=? 10 ^ Z.to_N (- e))%N).

(** Truthiness of a JSON value: [null], [false], a number that is zero
    and the empty string are falsy. *)
Definition js_truthy (v : json) : bool :=
  match v with
  | JNull => false
  | JBool b => b
  | JNumber lexeme => negb (number_is_zero lexeme)
  | JString s => truthy s
  | JArray _ | JObject _ => true
  end.

(** [{ ...device, runtime: device.runtime || runtime }] *)
Definition with_runtime (w : World) (runtime : string) (device : json) : Run jsobject :=
  let* own := get_prop w device "runtime" in
  let value :=
    match own with
    | Some v => if js_truthy v then v else JString runtime
    | None => JString runtime
    end in
  Returns (set_prop "runtime" value (own_properties device)).

Fixpoint mapM {A B : Type} (f : A -> Run B) (xs : list A) : Run (list B) :=
  match xs with
  | [] => Returns []
  | x :: xs' =>
      let* y := f x in
      let* ys := mapM f xs' in
      Returns (y :: ys)
  end.

(** The loop over [data.devices]: every array found under a key adds its
    devices, the key standing in for a missing runtime. *)
Fixpoint collect_devices (w : World) (entries : jsobject) : Run (list jsobject) :=
  match entries with
  | [] => Returns []
  | (runtime, devices) :: rest =>
      let* here :=
        match devices with
        | JArray ds => mapM (with_runtime w runtime) ds
        | _ => Returns []
        end in
      let* more := collect_devices w rest in
      Returns (here ++ more)%list
  end.

Definition parseIOSSimulatorList (w : World) (jsonString : string) : Run (list jsobject) :=
  try_catch
    (let* data := JSON_parse w jsonString in
     let* devices := get_prop w data "devices" in
     match devices with
     | Some by_runtime => collect_devices w (own_properties by_runtime)
     | None => Returns []
     end)
    (fun error =>
       Throws (Error ("Failed to parse iOS simulator list: " +:+ error_to_string error))).

(** The declared type of a listed device: an object read as an
    [IOSSimulator] has its five fields, all strings. *)
Definition asIOSSimulator (o : jsobject) : option IOSSimulator :=
  match get_own "udid" o, get_own "name" o, get_own "state" o,
        get_own "deviceTypeIdentifier" o, get_own "runtime" o with
  | Some (JString u), Some (JString n), Some (JString s),
    Some (JString d), Some (JString r) => Some (IOSSimulator.mk u n s d r)
  | _, _, _, _, _ => None
  end.

Fixpoint traverse_opt {A B : Type} (f : A -> option B) (xs : list A) : option (list B) :=
  match xs with
  | [] => Some []
  | x :: xs' =>
      match f x, traverse_opt f xs' with
      | Some y, Some ys => Some (y :: ys)
      | _, _ => None
      end
  end.

(** [result.stderr || result.error?.message] *)
Definition failure_text (result : CLICommandResult) : string :=
  if truthy (CLICommandResult.stderr result) then CLICommandResult.stderr result
  else match CLICommandResult.error result with
       | Some e => message e
       | None => "undefined"
       end.

(** A listing whose devices do not have the declared type lies outside
    the typed model of the provider; it is reported as a throw. *)
Definition listIOSSimulators (w : World) : Run (list IOSSimulator) :=
  let* isAvailable := checkXcodeAvailable w in
  if negb isAvailable
  then Throws (Error "Xcode command line tools are not available")
  else
    let* result := await (executeCommand w "xcrun" ["simctl"; "list"; "--json"; "devices"] no_options) in
    if negb (CLICommandResult.success result)
    then Throws (Error ("Failed to list iOS simulators: " +:+ failure_text result))
    else
      let* objects :=
        try_catch (parseIOSSimulatorList w (CLICommandResult.stdout result))
          (fun error =>
             Throws (Error ("Failed to parse simulator list: " +:+ error_to_string error))) in
      match traverse_opt asIOSSimulator objects with
      | Some simulators => Returns simulators
      | None => Throws (Error "TypeError")
      end.

Definition bootIOSSimulator (w : World) (udid : string) : Run unit :=
  if negb (validateUDID udid)
  then Throws (Error ("Invalid UDID format: " +:+ udid))
  else
    let* isAvailable := checkXcodeAvailable w in
    if negb isAvailable
    then Throws (Error "Xcode command line tools are not available")
    else
      let* result := await (executeCommand w "xcrun" ["simctl"; "boot"; udid] no_options) in
      if negb (CLICommandResult.success result)
      then
        if includes (CLICommandResult.stderr result) "already booted"
        then Returns tt
        else Throws (Error ("Failed to boot simulator: " +:+ failure_text result))
      else
        try_catch
          (let* _ := await (executeCommand w "open" ["-a"; "Simulator"] no_options) in
           Returns tt)
          (fun _ => Returns tt).

Definition isSimulatorBooted (simulator : IOSSimulator) : bool :=
  String.eqb (IOSSimulator.state simulator) "Booted".

Definition getIOSDeviceSubtype (simulator : IOSSimulator) : IOSDeviceSubtype :=
  let identifier := toLowerCase (IOSSimulator.deviceTypeIdentifier simulator) in
  let name := toLowerCase (IOSSimulator.name simulator) in
  if includes identifier "iphone" then iPhone
  else if includes identifier "ipad" then iPad
  else if includes identifier "watch" || includes identifier "apple watch" then AppleWatch
  else if includes identifier "vision" || includes identifier "vision pro" then AppleVision
  else if includes identifier "tv" || includes identifier "appletv" then AppleTV
  else if includes name "iphone" then iPhone
  else if includes name "ipad" then iPad
  else if includes name "watch" then AppleWatch
  else if includes name "vision" then AppleVision
  else if includes name "tv" then AppleTV
  else Other.

(** [(?:iOS|watchOS|tvOS|visionOS)], under the [i] flag. *)
Definition osName : regex :=
  alts (lit true "iOS") [lit true "watchOS"; lit true "tvOS"; lit true "visionOS"].

(** [\d+\.\d+(?:\.\d+)?] *)
Definition dottedVersion : regex :=
  seqs [Plus isDigit; Cls (chr "."); Plus isDigit;
        Opt (seqs [Cls (chr "."); Plus isDigit])].

(** [/(?:iOS|watchOS|tvOS|visionOS)\s+(\d+\.\d+(?:\.\d+)?)/i] *)
Definition simpleRegex : regex :=
  seqs [osName; Plus isWhiteSpace; Grp 1 dottedVersion].

(** [/(?:iOS|watchOS|tvOS|visionOS)-(\d+)-(\d+)/i] *)
Definition identifierRegex : regex :=
  seqs [osName; Cls (chr "-"); Grp 1 (Plus isDigit); Cls (chr "-");
        Grp 2 (Plus isDigit)].

(** [/(\d+\.\d+(?:\.\d+)?)/] *)
Definition versionRegex : regex := Grp 1 dottedVersion.

Definition extractIOSVersion (runtime : string) : option string :=
  if negb (truthy runtime) then None
  else
    match regex_match simpleRegex runtime with
    | Some simpleMatch => group 1 (groups simpleMatch)
    | None =>
        match regex_match identifierRegex runtime with
        | Some identifierMatch =>
            match group 1 (groups identifierMatch), group 2 (groups identifierMatch) with
            | Some major, Some minor => Some (major +:+ "." +:+ minor)
            | _, _ => None
            end
        | None =>
            match regex_match versionRegex runtime with
            | Some versionMatch => group 1 (groups versionMatch)
            | None => None
            end
        end
    end.

(** ** androidEmulator.ts *)

Definition newline : ascii := "010"%char.

Definition nonblank (line : string) : bool :=
  Nat.ltb 0 (String.length (trim line)).

Definition parseAndroidEmulatorList (output : string) : list AndroidEmulator :=
  let lines := List.filter nonblank (split newline (trim output)) in
  List.map (fun name => AndroidEmulator.mk (trim name) None (Some stopped)) lines.

Definition listAndroidEmulators (w : World) : Run (list AndroidEmulator) :=
  let* isAvailable := checkAndroidAvailable w in
  if negb isAvailable
  then Throws (Error "Android emulator tools are not available. Please install Android Studio and ensure emulator is in PATH.")
  else
    let* emulatorPath := getAndroidEmulatorPath w in
    match emulatorPath with
    | None => Throws (Error "Android emulator command not found. Please ensure ANDROID_HOME is set or emulator is in PATH.")
    | Some emulatorPath =>
        if negb (truthy emulatorPath)
        then Throws (Error "Android emulator command not found. Please ensure ANDROID_HOME is set or emulator is in PATH.")
        else
          let* result := await (executeCommand w emulatorPath ["-list-avds"] no_options) in
          if negb (CLICommandResult.success result)
          then Throws (Error ("Failed to list Android emulators: " +:+ failure_text result))
          else Returns (parseAndroidEmulatorList (CLICommandResult.stdout result))
    end.

(** [new RegExp(`[-_]avd[\\s=]+${escapedName}`, 'i')]: the replacement
    before it puts a backslash in front of every syntax character of the
    lower-cased name, so the name stands in the pattern as a literal. *)
Definition avdPattern (emulatorName : string) : regex :=
  seqs [Cls (cls_or (chr "-") (chr "_")); lit true "avd";
        Plus (cls_or isWhiteSpace (chr "="));
        lit true (toLowerCase emulatorName)].

Definition getAVDNameFromProcesses (w : World) (emulatorName : string) : Run bool :=
  try_catch
    (let platform := os_platform w in
     let '(command, args) :=
       if String.eqb platform "win32"
       then ("wmic", ["process"; "where"; "name=" +:+ String dquote "emulator.exe" +:+ String dquote ""; "get"; "commandline"])
       else if String.eqb platform "darwin"
       then ("ps", ["ax"; "-o"; "command"])
       else ("ps", ["-eo"; "command"]) in
     let* result := await (executeCommand w command args (with_timeout 3000)) in
     if CLICommandResult.success result
     then
       let output := toLowerCase (CLICommandResult.stdout result) in
       Returns (regex_test (avdPattern emulatorName) output)
     else Returns false)
    (fun _ => Returns false).

(** One of the three methods of [isAndroidSystemRunning] and of
    [getEmulatorAVDName]: run the command inside [try], hand the result to
    [read], and fall through ([None]) on a failure or a throw. *)
Definition attempt {A : Type} (w : World) (command : string) (args : list string)
    (ms : Z) (read : string -> option A) : Run (option A) :=
  try_catch
    (let* result := await (executeCommand w command args (with_timeout ms)) in
     if CLICommandResult.success result
     then Returns (read (CLICommandResult.stdout result))
     else Returns None)
    (fun _ => Returns None).

(** The first method that answers, tried in order. *)
Fixpoint first_of {A : Type} (methods : list (Run (option A))) : Run (option A) :=
  match methods with
  | [] => Returns None
  | m :: rest =>
      let* r := m in
      match r with
      | Some a => Returns (Some a)
      | None => first_of rest
      end
  end.

Definition isAndroidSystemRunning (w : World) (adbCmd serial : string) : Run bool :=
  let has_output stdout :=
    if Nat.ltb 0 (String.length (trim stdout)) then Some tt else None in
  let* r :=
    first_of
      [attempt w adbCmd ["-s"; serial; "shell"; "service"; "list"] 3000 has_output;
       attempt w adbCmd ["-s"; serial; "shell"; "dumpsys"; "activity"; "services"] 3000 has_output;
       attempt w adbCmd ["-s"; serial; "shell"; "getprop"; "sys.boot_completed"] 2000
         (fun stdout => if String.eqb (trim stdout) "1" then Some tt else None)] in
  Returns (match r with Some _ => true | None => false end).

Definition truthy_name (avdName : string) : option string :=
  if truthy avdName then Some avdName else None.

Definition getEmulatorAVDName (w : World) (adbCmd serial : string) : Run (option string) :=
  first_of
    [attempt w adbCmd ["-s"; serial; "emu"; "avd"; "name"] 3000
       (fun stdout =>
          truthy_name
            (trim (replaceAll (String newline "") " "
                     (replaceAll (String "013"%char (String newline "")) (String newline "")
                        (replaceAll "OK" "" stdout)))));
     attempt w adbCmd ["-s"; serial; "shell"; "getprop"; "ro.boot.qemu.avd_name"] 3000
       (fun stdout => truthy_name (trim stdout));
     attempt w adbCmd ["-s"; serial; "shell"; "getprop"; "ro.kernel.qemu.avd_name"] 3000
       (fun stdout => truthy_name (trim stdout))].

(** A [Map] in insertion order: [set] on a known key keeps its place. *)
Fixpoint map_set {V : Type} (k : string) (v : V) (m : list (string * V)) : list (string * V) :=
  match m with
  | [] => [(k, v)]
  | (k', v') :: m' =>
      if String.eqb k' k then (k', v) :: m' else (k', v') :: map_set k v m'
  end.

Fixpoint map_get {V : Type} (k : string) (m : list (string * V)) : option V :=
  match m with
  | [] => None
  | (k', v) :: m' => if String.eqb k' k then Some v else map_get k m'
  end.

(** The emulator serials of [adb devices -l], header line skipped. *)
Definition emulator_serials (stdout : string) : list (string * string) :=
  let lines := List.filter nonblank (split newline stdout) in
  List.flat_map
    (fun line =>
       match split_ws (trim line) with
       | serial :: status :: _ =>
           if startsWith serial "emulator-" then [(serial, status)] else []
       | _ => []
       end)
    (List.tl lines).

(** The second loop of [getAllRunningEmulators]; the [catch] around it
    returns the map as far as it was filled. *)
Fixpoint resolve_serials (w : World) (adbCmd : string)
    (emulatorSerials : list (string * string))
    (runningEmulators : list (string * Status)) : Run (list (string * Status)) :=
  match emulatorSerials with
  | [] => Returns runningEmulators
  | (serial, status) :: rest =>
      match getEmulatorAVDName w adbCmd serial with
      | Hangs => Hangs
      | Throws _ => Returns runningEmulators
      | Returns None => resolve_serials w adbCmd rest runningEmulators
      | Returns (Some avdName) =>
          if String.eqb status "device" then
            match isAndroidSystemRunning w adbCmd serial with
            | Hangs => Hangs
            | Throws _ => Returns runningEmulators
            | Returns isRunning =>
                resolve_serials w adbCmd rest
                  (map_set avdName (if isRunning then running else starting)
                     runningEmulators)
            end
          else resolve_serials w adbCmd rest (map_set avdName starting runningEmulators)
      end
  end.

Definition getAllRunningEmulators (w : World) (adbCmd : string)
    : Run (list (string * Status)) :=
  match await (executeCommand w adbCmd ["devices"; "-l"] no_options) with
  | Hangs => Hangs
  | Throws _ => Returns []
  | Returns result =>
      if negb (CLICommandResult.success result)
         && Nat.eqb (String.length (trim (CLICommandResult.stdout result))) 0
      then Returns []
      else resolve_serials w adbCmd
             (emulator_serials (CLICommandResult.stdout result)) []
  end.

(** [let adbCmd = await getAndroidAdbPath(); if (!adbCmd) adbCmd = ...]:
    the bare name stands in for a bridge that was not found. *)
Definition adb_command (w : World) : Run string :=
  let* found := getAndroidAdbPath w in
  let fallback := if String.eqb (os_platform w) "win32" then "adb.exe" else "adb" in
  Returns (match found with
           | Some p => if truthy p then p else fallback
           | None => fallback
           end).

Definition getAndroidEmulatorStatus (w : World) (emulatorName : string) : Run Status :=
  try_catch
    (let* adbCmd := adb_command w in
     let* runningEmulators := getAllRunningEmulators w adbCmd in
     match map_get emulatorName runningEmulators with
     | Some status => Returns status
     | None =>
         let* foundInProcesses := getAVDNameFromProcesses w emulatorName in
         if foundInProcesses then
           match runningEmulators with
           | [(_, onlyStatus)] => Returns onlyStatus
           | [] => Returns starting
           | _ :: _ :: _ => Returns stopped
           end
         else Returns stopped
     end)
    (fun _ => Returns stopped).

Definition isAndroidEmulatorRunning (w : World) (emulatorName : string) : Run bool :=
  let* status := getAndroidEmulatorStatus w emulatorName in
  Returns (match status with running => true | _ => false end).

(** The promise [bootAndroidEmulator] ends with: rejected by an ['error']
    of the child that comes first, resolved after 100 ms otherwise. *)
Definition spawn_detached (w : World) (emulatorPath avdName : string) : Run unit :=
  let* child := call (spawn w emulatorPath ["-avd"; avdName]) in
  match child with
  | Some (t, error) =>
      if Nat.ltb t 100
      then Throws (Error ("Failed to start emulator: " +:+ message error))
      else Returns tt
  | None => Returns tt
  end.

Definition bootAndroidEmulator (w : World) (avdName : string) : Run unit :=
  if negb (validateAVDName avdName)
  then Throws (Error ("Invalid AVD name format: " +:+ avdName))
  else
    let* isAvailable := checkAndroidAvailable w in
    if negb isAvailable
    then Throws (Error "Android emulator tools are not available")
    else
      let* emulatorPath := getAndroidEmulatorPath w in
      match emulatorPath with
      | None => Throws (Error "Android emulator command not found")
      | Some emulatorPath =>
          if negb (truthy emulatorPath)
          then Throws (Error "Android emulator command not found")
          else
            let* isRunning := isAndroidEmulatorRunning w avdName in
            if isRunning then Returns tt
            else spawn_detached w emulatorPath avdName
      end.

(** ** emulatorProvider.ts: the records and the store *)

(** A reference to an [EmulatorItem] object: its address in the heap. *)
Abbreviation ref := nat.

Module EmulatorItem.
Record t := mk {
  id : string;
  label : string;
  platform : EmulatorPlatform;
  status : Status;
  udid : option string;
  name : option string;
  icon : option string;
  isCategory : bool;
  isSubtype : bool;
  subtype : option IOSDeviceSubtype;
  iosVersion : option string;
  children : option (list ref)
}.

(** [item.status = s; item.icon = i] *)
Definition set_status_icon (s : Status) (i : string) (x : t) : t :=
  mk (id x) (label x) (platform x) s (udid x) (name x) (Some i)
     (isCategory x) (isSubtype x) (subtype x) (iosVersion x) (children x).

(** [item.iosVersion = v] *)
Definition set_iosVersion (v : option string) (x : t) : t :=
  mk (id x) (label x) (platform x) (status x) (udid x) (name x) (icon x)
     (isCategory x) (isSubtype x) (subtype x) v (children x).
End EmulatorItem.
Abbreviation EmulatorItem := EmulatorItem.t.

#[global] Instance Status_eq_dec : EqDecision Status.
Proof. solve_decision. Defined.

#[global] Instance IOSDeviceSubtype_eq_dec : EqDecision IOSDeviceSubtype.
Proof. solve_decision. Defined.

#[global] Instance EmulatorPlatform_eq_dec : EqDecision EmulatorPlatform.
Proof. solve_decision. Defined.

Abbreviation Heap := (list EmulatorItem).

(** A new object: it takes the next free address. *)
Definition alloc (h : Heap) (x : EmulatorItem) : Heap * ref := (h ++ [x], length h).

(** The [Map<IOSDeviceSubtype, EmulatorItem[]>] of a refresh, in insertion
    order. *)
Definition SubtypeMap : Type := list (IOSDeviceSubtype * list ref).

Fixpoint subtype_get (k : IOSDeviceSubtype) (m : SubtypeMap) : option (list ref) :=
  match m with
  | [] => None
  | (k', v) :: m' => if bool_decide (k' = k) then Some v else subtype_get k m'
  end.

(** [if (!m.has(k)) m.set(k, []); m.get(k).push(r)] *)
Fixpoint subtype_push (k : IOSDeviceSubtype) (r : ref) (m : SubtypeMap) : SubtypeMap :=
  match m with
  | [] => [(k, [r])]
  | (k', v) :: m' =>
      if bool_decide (k' = k) then (k', v ++ [r]) :: m'
      else (k', v) :: subtype_push k r m'
  end.

(** The provider: its fields, and what it did to the editor (the change
    events fired, the error messages shown, the re-checks scheduled). *)
Record Store := mkStore {
  heap : Heap;
  iosEmulators : list ref;
  iosEmulatorsBySubtype : SubtypeMap;
  androidEmulators : list ref;
  fired : nat;
  shown : list string;
  timers : list nat
}.

Definition with_heap (h : Heap) (st : Store) : Store :=
  mkStore h (iosEmulators st) (iosEmulatorsBySubtype st) (androidEmulators st)
    (fired st) (shown st) (timers st).

(** [this._onDidChangeTreeData.fire()] *)
Definition fire (st : Store) : Store :=
  mkStore (heap st) (iosEmulators st) (iosEmulatorsBySubtype st) (androidEmulators st)
    (S (fired st)) (shown st) (timers st).

(** [vscode.window.showErrorMessage(msg)] *)
Definition showErrorMessage (msg : string) (st : Store) : Store :=
  mkStore (heap st) (iosEmulators st) (iosEmulatorsBySubtype st) (androidEmulators st)
    (fired st) (shown st ++ [msg]) (timers st).

(** [setTimeout(() => this.checkStatusChanges(), ms)] *)
Definition schedule_check (ms : nat) (st : Store) : Store :=
  mkStore (heap st) (iosEmulators st) (iosEmulatorsBySubtype st) (androidEmulators st)
    (fired st) (shown st) (timers st ++ [ms]).

(** Code that awaits while it holds state: the state reached is kept when
    the code throws, and when it never settles. *)
Definition Step (S A : Type) : Type := S -> Run A * S.

Definition sret {S A : Type} (a : A) : Step S A := fun s => (Returns a, s).

Definition sbind {S A B : Type} (m : Step S A) (k : A -> Step S B) : Step S B :=
  fun s =>
    match m s with
    | (Returns a, s') => k a s'
    | (Throws e, s') => (Throws e, s')
    | (Hangs, s') => (Hangs, s')
    end.

Definition stry {S A : Type} (m : Step S A) (h : JSError -> Step S A) : Step S A :=
  fun s =>
    match m s with
    | (Throws e, s') => h e s'
    | other => other
    end.

(** [await m] *)
Definition lift {S A : Type} (m : Run A) : Step S A := fun s => (m, s).

(** A statement that changes the state. *)
Definition exec {S : Type} (f : S -> S) : Step S unit := fun s => (Returns tt, f s).

Notation "'do*' x := m 'in' k" := (sbind m (fun x => k))
  (at level 10, x name, m at level 100, k at level 200).
Notation "m ';;' k" := (sbind m (fun _ => k))
  (at level 100, k at level 200, right associativity).

Definition circle_filled : string := "$(circle-filled)".
Definition circle_outline : string := "$(circle-outline)".
Definition sync_spin : string := "$(sync~spin)".

Definition subtype_label (s : IOSDeviceSubtype) : string :=
  match s with
  | iPhone => "iPhone"
  | iPad => "iPad"
  | AppleWatch => "Apple Watch"
  | AppleVision => "Apple Vision"
  | AppleTV => "Apple TV"
  | Other => "Other"
  end.

Definition subtypeOrder : list IOSDeviceSubtype :=
  [iPhone; iPad; AppleWatch; AppleVision; AppleTV; Other].

(** [for (const e of children) m.set(e.id, e)] *)
Definition index_items (h : Heap) (items : list ref) (m : gmap string ref)
    : gmap string ref :=
  foldl (fun m r => match h !! r with
                    | Some e => <[EmulatorItem.id e := r]> m
                    | None => m
                    end) m items.

(** The children of a store entry that is a subtype group. *)
Definition group_children (h : Heap) (r : ref) : list ref :=
  match h !! r with
  | Some subtypeItem =>
      if EmulatorItem.isSubtype subtypeItem
      then match EmulatorItem.children subtypeItem with
           | Some cs => cs
           | None => []
           end
      else []
  | None => []
  end.

Definition existingIOS (st : Store) : gmap string ref :=
  foldl (fun m r => index_items (heap st) (group_children (heap st) r) m)
    ∅ (iosEmulators st).

Definition existingAndroid (st : Store) : gmap string ref :=
  index_items (heap st) (androidEmulators st) ∅.

(** [findIOSEmulator(id)]: the first child with that id, group by group. *)
Definition find_by_id (h : Heap) (id : string) (items : list ref) : option ref :=
  List.find (fun r => match h !! r with
                      | Some e => String.eqb (EmulatorItem.id e) id
                      | None => false
                      end) items.

Fixpoint first_some {A B : Type} (f : A -> option B) (xs : list A) : option B :=
  match xs with
  | [] => None
  | x :: xs' => match f x with Some b => Some b | None => first_some f xs' end
  end.

Definition findIOSEmulator (st : Store) (id : string) : option ref :=
  first_some (fun r => find_by_id (heap st) id (group_children (heap st) r))
    (iosEmulators st).

(** [this.androidEmulators.findIndex(e => e.id === id)], as the object
    found there. *)
Definition findAndroidEmulator (st : Store) (id : string) : option ref :=
  find_by_id (heap st) id (androidEmulators st).

(** ** emulatorProvider.ts: [loadEmulators] *)

(** The local variables of one [loadEmulators] call, with the provider. *)
Record LoadFrame := mkFrame {
  store : Store;
  iosItems : list ref;
  androidItems : list ref;
  hasChanges : bool
}.

(** The new item of a simulator first seen. *)
Definition ios_item (sim : IOSSimulator) : EmulatorItem :=
  let isRunning := isSimulatorBooted sim in
  EmulatorItem.mk ("ios-" +:+ IOSSimulator.udid sim) (IOSSimulator.name sim) ios
    (if isRunning then running else stopped)
    (Some (IOSSimulator.udid sim)) None
    (Some (if isRunning then circle_filled else circle_outline))
    false false (Some (getIOSDeviceSubtype sim))
    (extractIOSVersion (IOSSimulator.runtime sim)) None.

(** [if (existing.status !== newStatus || existing.icon !== newIcon) { ... }]:
    the heap after it, and whether the branch was taken. *)
Definition update_status (newStatus : Status) (newIcon : string) (existing : ref)
    (h : Heap) : Heap * bool :=
  match h !! existing with
  | Some e =>
      if bool_decide (EmulatorItem.status e = newStatus)
         && bool_decide (EmulatorItem.icon e = Some newIcon)
      then (h, false)
      else (alter (EmulatorItem.set_status_icon newStatus newIcon) existing h, true)
  | None => (h, false)
  end.

(** [if (existing.iosVersion !== iosVersion) { ... }] *)
Definition update_version (iosVersion : option string) (existing : ref)
    (h : Heap) : Heap * bool :=
  match h !! existing with
  | Some e =>
      if bool_decide (EmulatorItem.iosVersion e = iosVersion)
      then (h, false)
      else (alter (EmulatorItem.set_iosVersion iosVersion) existing h, true)
  | None => (h, false)
  end.

(** One turn of the loop over the listed simulators. *)
Definition ios_step (existing : gmap string ref) (acc : Heap * SubtypeMap * bool)
    (sim : IOSSimulator) : Heap * SubtypeMap * bool :=
  let '(h, subtypeMap, changed) := acc in
  let id := "ios-" +:+ IOSSimulator.udid sim in
  let isRunning := isSimulatorBooted sim in
  let newStatus := if isRunning then running else stopped in
  let newIcon := if isRunning then circle_filled else circle_outline in
  let subtype := getIOSDeviceSubtype sim in
  let iosVersion := extractIOSVersion (IOSSimulator.runtime sim) in
  match existing !! id with
  | Some r =>
      let '(h1, c1) := update_status newStatus newIcon r h in
      let '(h2, c2) := update_version iosVersion r h1 in
      (h2, subtype_push subtype r subtypeMap, changed || c1 || c2)
  | None =>
      let '(h1, r) := alloc h (ios_item sim) in
      (h1, subtype_push subtype r subtypeMap, true)
  end.

(** One turn of the loop over [subtypeOrder]: a group item for a subtype
    that has emulators. *)
Definition add_group (subtypeMap : SubtypeMap) (acc : Heap * list ref)
    (subtype : IOSDeviceSubtype) : Heap * list ref :=
  let '(h, items) := acc in
  match subtype_get subtype subtypeMap with
  | Some ((_ :: _) as emulators) =>
      let '(h1, r) :=
        alloc h (EmulatorItem.mk ("ios-subtype-" +:+ subtype_label subtype)
                   (subtype_label subtype) ios stopped None None None false true
                   (Some subtype) None (Some emulators)) in
      (h1, items ++ [r])
  | _ => acc
  end.

Definition placeholder (id label : string) (platform : EmulatorPlatform)
    (icon : string) : EmulatorItem :=
  EmulatorItem.mk id label platform stopped None None (Some icon)
    false false None None None.

(** [iosItems.push({ ...placeholder }); hasChanges = true] *)
Definition push_ios (x : EmulatorItem) (f : LoadFrame) : LoadFrame :=
  let '(h, r) := alloc (heap (store f)) x in
  mkFrame (with_heap h (store f)) (iosItems f ++ [r]) (androidItems f) true.

Definition push_android (x : EmulatorItem) (f : LoadFrame) : LoadFrame :=
  let '(h, r) := alloc (heap (store f)) x in
  mkFrame (with_heap h (store f)) (iosItems f) (androidItems f ++ [r]) true.

(** The body of the [try] over the listed simulators, once the listing is
    there. *)
Definition ios_listed (existing : gmap string ref) (iosSimulators : list IOSSimulator)
    (f : LoadFrame) : LoadFrame :=
  let '(h, subtypeMap, changed) :=
    foldl (ios_step existing) (heap (store f), [], hasChanges f) iosSimulators in
  let '(h', items) := foldl (add_group subtypeMap) (h, iosItems f) subtypeOrder in
  let st := store f in
  mkFrame (mkStore h' (iosEmulators st) subtypeMap (androidEmulators st)
             (fired st) (shown st) (timers st))
    items (androidItems f) changed.

Definition load_ios (w : World) (existing : gmap string ref) : Step LoadFrame unit :=
  do* iosAvailable := lift (checkXcodeAvailable w) in
  if iosAvailable : bool then
    stry (do* iosSimulators := lift (listIOSSimulators w) in
          exec (ios_listed existing iosSimulators))
      (fun error => exec (push_ios (placeholder "ios-error" (message error) ios "$(error)")))
  else exec (push_ios (placeholder "ios-unavailable" "Xcode not available" ios "$(warning)")).

Definition android_icon (newStatus : Status) : string :=
  match newStatus with
  | running => circle_filled
  | starting => sync_spin
  | stopped => circle_outline
  end.

(** One turn of the loop over the listed AVDs, once its status is there. *)
Definition android_step (existing : gmap string ref) (emu : AndroidEmulator)
    (newStatus : Status) (f : LoadFrame) : LoadFrame :=
  let id := "android-" +:+ AndroidEmulator.name emu in
  let newIcon := android_icon newStatus in
  match existing !! id with
  | Some r =>
      let '(h, c) := update_status newStatus newIcon r (heap (store f)) in
      mkFrame (with_heap h (store f)) (iosItems f) (androidItems f ++ [r])
        (hasChanges f || c)
  | None =>
      push_android
        (EmulatorItem.mk id (AndroidEmulator.name emu) android newStatus None
           (Some (AndroidEmulator.name emu)) (Some newIcon) false false None None None)
        f
  end.

Fixpoint android_loop (w : World) (existing : gmap string ref)
    (androidEmulators : list AndroidEmulator) : Step LoadFrame unit :=
  match androidEmulators with
  | [] => sret tt
  | emu :: rest =>
      do* newStatus := lift (getAndroidEmulatorStatus w (AndroidEmulator.name emu)) in
      exec (android_step existing emu newStatus) ;;
      android_loop w existing rest
  end.

Definition load_android (w : World) (existing : gmap string ref) : Step LoadFrame unit :=
  do* androidAvailable := lift (checkAndroidAvailable w) in
  if androidAvailable : bool then
    stry (do* androidEmulators := lift (listAndroidEmulators w) in
          android_loop w existing androidEmulators)
      (fun error =>
         exec (push_android (placeholder "android-error" (message error) android "$(error)")))
  else
    exec (push_android
            (placeholder "android-unavailable" "Android Studio not available" android
               "$(warning)")).

(** The last statement of the [try]: the lists are replaced and the event
    fired when the flag is set or a length differs. *)
Definition commit (f : LoadFrame) : LoadFrame :=
  let st := store f in
  if hasChanges f
     || negb (Nat.eqb (length (iosEmulators st)) (length (iosItems f)))
     || negb (Nat.eqb (length (androidEmulators st)) (length (androidItems f)))
  then mkFrame (fire (mkStore (heap st) (iosItems f) (iosEmulatorsBySubtype st)
                        (androidItems f) (fired st) (shown st) (timers st)))
         (iosItems f) (androidItems f) (hasChanges f)
  else f.

Definition show_in_frame (msg : string) (f : LoadFrame) : LoadFrame :=
  mkFrame (showErrorMessage msg (store f)) (iosItems f) (androidItems f) (hasChanges f).

Definition load_frame (w : World) (st : Store) : Run unit * LoadFrame :=
  stry (load_ios w (existingIOS st) ;; load_android w (existingAndroid st) ;; exec commit)
    (fun error => exec (show_in_frame ("Failed to load emulators: " +:+ message error)))
    (mkFrame st [] [] false).

Definition loadEmulators (w : World) (st : Store) : Run unit * Store :=
  (fst (load_frame w st), store (snd (load_frame w st))).

(** [refresh()] *)
Definition refresh (w : World) (st : Store) : Store := snd (loadEmulators w st).

(** ** emulatorProvider.ts: [startEmulator] *)

(** The store's record of an item, as [startEmulator] looks it up. *)
Definition find_record (st : Store) (item : EmulatorItem) : option ref :=
  match EmulatorItem.platform item with
  | ios => findIOSEmulator st (EmulatorItem.id item)
  | android => findAndroidEmulator st (EmulatorItem.id item)
  end.

(** [r.status = s; r.icon = i] on the record found. *)
Definition mark (s : Status) (i : string) (r : ref) (st : Store) : Store :=
  with_heap (alter (EmulatorItem.set_status_icon s i) r (heap st)) st.

Definition mark_starting (item : EmulatorItem) (st : Store) : Store :=
  match find_record st item with
  | Some r => fire (mark starting sync_spin r st)
  | None => st
  end.

Definition reset_status (item : EmulatorItem) (st : Store) : Store :=
  match find_record st item with
  | Some r => fire (mark stopped circle_outline r st)
  | None => st
  end.

(** The body of the [try] of [startEmulator]. *)
Definition boot (w : World) (item : EmulatorItem) : Step Store unit :=
  (match EmulatorItem.platform item, EmulatorItem.udid item, EmulatorItem.name item with
   | ios, Some udid, _ =>
       if truthy udid then lift (bootIOSSimulator w udid) else sret tt
   | android, _, Some name =>
       if truthy name
       then lift (bootAndroidEmulator w name) ;;
            exec (schedule_check 1000) ;;
            exec (schedule_check 3000) ;;
            exec (schedule_check 5000)
       else sret tt
   | _, _, _ => sret tt
   end) ;;
  exec (schedule_check 2000).

Definition startEmulator (w : World) (item : ref) : Step Store unit :=
  fun st =>
    match heap st !! item with
    | None => (Returns tt, st)
    | Some it =>
        if EmulatorItem.isCategory it || EmulatorItem.isSubtype it then (Returns tt, st)
        else if bool_decide (EmulatorItem.status it = running) then (Returns tt, st)
        else
          (exec (mark_starting it) ;;
           stry (boot w it)
             (fun error =>
                exec (showErrorMessage ("Failed to start emulator: " +:+ message error)) ;;
                exec (reset_status it))) st
    end.

(** ** emulatorProvider.ts: [checkStatusChanges] *)

(** The provider and the local [hasChanges]. *)
Definition CheckFrame : Type := Store * bool.

Definition check_ios_step (acc : CheckFrame) (sim : IOSSimulator) : CheckFrame :=
  let '(st, changed) := acc in
  match findIOSEmulator st ("ios-" +:+ IOSSimulator.udid sim) with
  | Some existing =>
      match heap st !! existing with
      | Some e =>
          let isRunning := isSimulatorBooted sim in
          let newStatus := if isRunning then running else stopped in
          if bool_decide (EmulatorItem.status e = newStatus) then acc
          else (mark newStatus (if isRunning then circle_filled else circle_outline)
                  existing st, true)
      | None => acc
      end
  | None => acc
  end.

Definition check_ios (w : World) : Step CheckFrame unit :=
  do* iosAvailable := lift (checkXcodeAvailable w) in
  if iosAvailable : bool then
    stry (do* iosSimulators := lift (listIOSSimulators w) in
          exec (fun acc => foldl check_ios_step acc iosSimulators))
      (fun _ => sret tt)
  else sret tt.

Definition check_android_update (existing : ref) (newStatus : Status)
    (acc : CheckFrame) : CheckFrame :=
  let '(st, changed) := acc in
  match heap st !! existing with
  | Some e =>
      if bool_decide (EmulatorItem.status e = newStatus) then acc
      else (mark newStatus (android_icon newStatus) existing st, true)
  | None => acc
  end.

Definition check_android_step (w : World) (emu : AndroidEmulator) : Step CheckFrame unit :=
  fun acc =>
    match findAndroidEmulator (fst acc) ("android-" +:+ AndroidEmulator.name emu) with
    | Some existing =>
        stry (do* newStatus := lift (getAndroidEmulatorStatus w (AndroidEmulator.name emu)) in
              exec (check_android_update existing newStatus))
          (fun _ => sret tt) acc
    | None => (Returns tt, acc)
    end.

Fixpoint check_android_loop (w : World) (androidEmulators : list AndroidEmulator)
    : Step CheckFrame unit :=
  match androidEmulators with
  | [] => sret tt
  | emu :: rest => check_android_step w emu ;; check_android_loop w rest
  end.

Definition check_android (w : World) : Step CheckFrame unit :=
  do* androidAvailable := lift (checkAndroidAvailable w) in
  if androidAvailable : bool then
    stry (do* androidEmulators := lift (listAndroidEmulators w) in
          check_android_loop w androidEmulators)
      (fun _ => sret tt)
  else sret tt.

Definition fire_if_changed (acc : CheckFrame) : CheckFrame :=
  if snd acc then (fire (fst acc), snd acc) else acc.

Definition check_frame (w : World) (st : Store) : Run unit * CheckFrame :=
  stry (check_ios w ;; check_android w ;; exec fire_if_changed)
    (fun _ => sret tt) (st, false).

Definition checkStatusChanges (w : World) (st : Store) : Run unit * Store :=
  (fst (check_frame w st), fst (snd (check_frame w st))).

(** ** Sample environments

    Concrete machines on which the statements below are exercised: a
    table says what each command line answers; a command that is not in
    the table is not installed. *)

(** A child that exits after 10 ms with the given code. *)
Definition exits (exit_code : Z) (out err : string) : JSError + Promise ExecOutput :=
  inr (Some (10, if (exit_code =? 0)%Z
                 then Fulfilled (mkOutput out err)
                 else Rejected (mkError "Error" "Command failed" (Some out) (Some err)))).

(** No such program. *)
Definition not_installed : JSError + Promise ExecOutput :=
  inr (Some (0, Rejected (mkError "Error" "spawn ENOENT" (Some "") (Some "")))).

Definition CommandTable : Type :=
  list (string * list string * (JSError + Promise ExecOutput)).

Definition answer (table : CommandTable) (command : string) (args : list string)
    : JSError + Promise ExecOutput :=
  match List.find (fun row => bool_decide (fst row = (command, args))) table with
  | Some row => snd row
  | None => not_installed
  end.

Definition slash_join (parts : list string) : string :=
  String.concat "/" parts.

(** Messages in the wording of one engine. *)
Definition v8_json_message (text : string) : string :=
  if truthy text then "Unexpected token in JSON" else "Unexpected end of JSON input".
Definition v8_null_message (key : string) : string :=
  "Cannot read properties of null (reading '" +:+ key +:+ "')".

(** A machine with no SDK variable set and no SDK on disk. *)
Definition machine (platform : string) (table : CommandTable) : World :=
  mkWorld platform (inr "/home/dev") (fun _ => None) slash_join (fun _ => false)
    (fun command args _ => answer table command args)
    (fun _ _ => inr None)
    v8_json_message v8_null_message.

(** Lines of text, each ended by a line feed. *)
Definition text (lines : list string) : string :=
  String.concat "" (List.map (fun l => l +:+ String newline "") lines).

(** JSON text is written here with ['] for the double quote. *)
Fixpoint quoted (s : string) : string :=
  match s with
  | "" => ""
  | String c s' => String (if Ascii.eqb c "'" then dquote else c) (quoted s')
  end.

(** ** Vocabulary of the statements *)

(** What [executeCommand] hands to [execFile]. *)
Definition child_options (options : ExecFileOptions) : ExecFileOptions :=
  mkOptions (Some (effective_timeout options)) (Some (10 * 1024 * 1024)%Z).

(** The deadline of a call, in milliseconds. *)
Definition deadline (options : ExecFileOptions) : nat :=
  timer_delay (effective_timeout options).

(** The characters of a string. *)
Fixpoint all_chars (P : ascii -> Prop) (s : string) : Prop :=
  match s with
  | "" => True
  | String c s' => P c /\ all_chars P s'
  end.

Fixpoint char_in (c : ascii) (s : string) : Prop :=
  match s with
  | "" => False
  | String c' s' => c' = c \/ char_in c s'
  end.

Fixpoint string_forallb (p : ascii -> bool) (s : string) : bool :=
  match s with
  | "" => true
  | String c s' => p c && string_forallb p s'
  end.

(** A letter, a digit, an underscore or a hyphen: the class
    [[A-Za-z0-9_-]], by code unit. *)
Definition is_avd_char (c : ascii) : Prop :=
  (97 <= code c <= 122)%N \/ (65 <= code c <= 90)%N \/ (48 <= code c <= 57)%N
  \/ c = "_"%char \/ c = "-"%char.

(** Group [n] takes part in every match of [r]. *)
Fixpoint must_set (n : nat) (r : regex) : bool :=
  match r with
  | Grp m r1 => Nat.eqb m n || must_set n r1
  | Seq r1 r2 => must_set n r1 || must_set n r2
  | Alt r1 r2 => must_set n r1 && must_set n r2
  | _ => false
  end.

(** The listing of the round-trip example, as the specification prints
    it, and the same listing under the [devices] key that [simctl] writes
    and the parser reads. *)
Definition example_devices : string :=
  quoted "{'iOS-17-0': [{'udid':'AAAAAAAA-BBBB-CCCC-DDDD-EEEEEEEEEEEE','name':'iPhone 15','state':'Booted','deviceTypeIdentifier':'...iPhone15,2','runtime':''}]}".

Definition example_listing : string :=
  quoted "{'devices': " +:+ example_devices +:+ "}".

(** Every child process fails: [execFile] throws at once or its promise
    is rejected. *)
Definition all_queries_fail (w : World) : Prop :=
  forall command args options,
    match execFileAsync w command args options with
    | inl _ => True
    | inr (Some (_, Rejected _)) => True
    | inr _ => False
    end.

(** The answers of [adb] for an attached emulator whose AVD name cannot be
    found out: the console command fails and both properties are unset. *)
Definition unnamed_device (serial : string) : CommandTable :=
  [("adb", ["-s"; serial; "emu"; "avd"; "name"],
    exits 1 "" "error: could not connect to TCP port");
   ("adb", ["-s"; serial; "shell"; "getprop"; "ro.boot.qemu.avd_name"],
    exits 0 (text [""]) "");
   ("adb", ["-s"; serial; "shell"; "getprop"; "ro.kernel.qemu.avd_name"],
    exits 0 (text [""]) "")].

(** A process table in which an emulator runs the AVD [Pixel_5]. *)
Definition ps_with_pixel : CommandTable :=
  [("ps", ["-eo"; "command"],
    exits 0 (text ["COMMAND"; "/sbin/init";
                   "/opt/sdk/emulator/qemu/linux-x86_64/qemu-system-x86_64 -avd Pixel_5 -no-snapshot"])
      "")].

(** Two emulators attached, neither of which tells its AVD name, while
    the process table shows [Pixel_5] running. *)
Definition two_unnamed_devices : World :=
  machine "linux"
    ([("which", ["adb"], exits 0 (text ["/usr/bin/adb"]) "");
      ("adb", ["devices"; "-l"],
       exits 0 (text ["List of devices attached";
                      "emulator-5554          device product:sdk_gphone64_x86_64 model:sdk_gphone64_x86_64";
                      "emulator-5556          device product:sdk_gphone64_x86_64 model:sdk_gphone64_x86_64";
                      ""]) "")]
     ++ unnamed_device "emulator-5554" ++ unnamed_device "emulator-5556"
     ++ ps_with_pixel).

(** One emulator attached, booted, that names itself [Nexus_6], while the
    process table shows [Pixel_5] running. *)
Definition one_named_device : World :=
  machine "linux"
    ([("which", ["adb"], exits 0 (text ["/usr/bin/adb"]) "");
      ("adb", ["devices"; "-l"],
       exits 0 (text ["List of devices attached";
                      "emulator-5554          device product:sdk_gphone64_x86_64 model:sdk_gphone64_x86_64";
                      ""]) "");
      ("adb", ["-s"; "emulator-5554"; "emu"; "avd"; "name"],
       exits 0 (text ["Nexus_6"; "OK"]) "");
      ("adb", ["-s"; "emulator-5554"; "shell"; "service"; "list"],
       exits 0 (text ["Found 212 services:"; "0 sip: [android.net.sip.ISipService]"]) "")]
     ++ ps_with_pixel).

(** No device bridge anywhere, while the process table shows [Pixel_5]
    running. *)
Definition no_device_bridge : World := machine "linux" ps_with_pixel.

(** What no operation of the provider changes in an object. *)
Definition shape (e : EmulatorItem) : string * bool * option (list ref) :=
  (EmulatorItem.id e, EmulatorItem.isSubtype e, EmulatorItem.children e).

(** The run state of the object at [r]. *)
Definition status_at (st : Store) (r : ref) : option Status :=
  EmulatorItem.status <$> heap st !! r.

(** Every object of [h] is still in [h'], with its id, and its run state
    there is the one it had or one that [P] allows for its id. *)
Definition moves (P : string -> Status -> Prop) (h h' : Heap) : Prop :=
  forall r e,
    h !! r = Some e ->
    exists e',
      h' !! r = Some e'
      /\ EmulatorItem.id e' = EmulatorItem.id e
      /\ (EmulatorItem.status e' = EmulatorItem.status e
          \/ P (EmulatorItem.id e) (EmulatorItem.status e')).

(** [s] is the run state a probe on [w] reports for the device behind the
    record id [id]: the listed simulator of that UDID is booted or not,
    or the resolver answers [s] for the listed AVD of that name. *)
Definition probed (w : World) (id : string) (s : Status) : Prop :=
  (exists simulators sim,
     listIOSSimulators w = Returns simulators
     /\ In sim simulators
     /\ id = "ios-" +:+ IOSSimulator.udid sim
     /\ s = if isSimulatorBooted sim then running else stopped)
  \/ (exists emulators emu,
        listAndroidEmulators w = Returns emulators
        /\ In emu emulators
        /\ id = "android-" +:+ AndroidEmulator.name emu
        /\ getAndroidEmulatorStatus w (AndroidEmulator.name emu) = Returns s).

(** What a boot request writes: Starting, and Stopped when it fails. *)
Definition boot_marks (id : string) (s : Status) : Prop :=
  s = starting \/ s = stopped.

(** The state kept by a piece of code satisfies [I] after it if it did
    before, however the code ends. *)
Definition preserves {S A : Type} (I : S -> Prop) (m : Step S A) : Prop :=
  forall s, I s -> I (snd (m s)).

Definition example_udid : string := "AAAAAAAA-BBBB-CCCC-DDDD-EEEEEEEEEEEE".

(** What [simctl list --json devices] prints for one phone in the given
    state. *)
Definition simctl_listing (state : string) : string :=
  quoted ("{'devices': {'com.apple.CoreSimulator.SimRuntime.iOS-17-0': [{'udid':'"
          +:+ example_udid
          +:+ "','name':'iPhone 15','state':'" +:+ state
          +:+ "','deviceTypeIdentifier':'com.apple.CoreSimulator.SimDeviceType.iPhone-15','runtime':''}]}}").

(** A Mac with the toolchain and that one phone; [boot] is what
    [simctl boot] answers for it.  No Android SDK. *)
Definition mac_with_phone (state : string) (boot : JSError + Promise ExecOutput) : World :=
  machine "darwin"
    [("xcrun", ["--version"], exits 0 (text ["xcrun version 70."]) "");
     ("xcrun", ["simctl"; "list"; "--json"; "devices"], exits 0 (simctl_listing state) "");
     ("xcrun", ["simctl"; "boot"; example_udid], boot);
     ("open", ["-a"; "Simulator"], exits 0 "" "")].

Definition already_booted : JSError + Promise ExecOutput :=
  exits 149 "" (text ["Unable to boot device: already booted"]).

Definition boot_refused : JSError + Promise ExecOutput :=
  exits 148 "" (text ["Invalid device: " +:+ example_udid]).

(** The provider before its first refresh. *)
Definition empty_store : Store := mkStore [] [] [] [] 0 [] [].

(** The maps of existing items send an id to an object that has it. *)
Definition keyed_by_id (h : Heap) (m : gmap string ref) : Prop :=
  forall k r, m !! k = Some r -> exists e, h !! r = Some e /\ EmulatorItem.id e = k.

(** The status the resolver settles on for an AVD. *)
Definition resolved (w : World) (name : string) : Status :=
  match getAndroidEmulatorStatus w name with
  | Returns s => s
  | _ => stopped
  end.

(** The loop over the listed AVDs when every status resolves. *)
Definition android_listed (w : World) (existing : gmap string ref)
    (emulators : list AndroidEmulator) (f : LoadFrame) : LoadFrame :=
  foldl (fun f emu => android_step existing emu (resolved w (AndroidEmulator.name emu)) f)
    f emulators.

(** Every reference the provider holds is to an object. *)
Definition well_formed (st : Store) : Prop :=
  (forall g, In g (iosEmulators st) ->
     g < length (heap st)
     /\ forall r, In r (group_children (heap st) g) -> r < length (heap st))
  /\ (forall a, In a (androidEmulators st) -> a < length (heap st)).

(** Simulators listed under one UDID agree in what the provider shows. *)
Definition consistent (simulators : list IOSSimulator) : Prop :=
  forall s1 s2,
    In s1 simulators -> In s2 simulators ->
    IOSSimulator.udid s1 = IOSSimulator.udid s2 ->
    isSimulatorBooted s1 = isSimulatorBooted s2
    /\ extractIOSVersion (IOSSimulator.runtime s1)
       = extractIOSVersion (IOSSimulator.runtime s2).

(** The object shows what the listing says of the simulator. *)
Definition shows_ios (sim : IOSSimulator) (e : EmulatorItem) : Prop :=
  EmulatorItem.status e = (if isSimulatorBooted sim then running else stopped)
  /\ EmulatorItem.icon e
     = Some (if isSimulatorBooted sim then circle_filled else circle_outline)
  /\ EmulatorItem.iosVersion e = extractIOSVersion (IOSSimulator.runtime sim).

(** The object shows the resolved status of the AVD. *)
Definition shows_android (w : World) (emu : AndroidEmulator) (e : EmulatorItem) : Prop :=
  EmulatorItem.status e = resolved w (AndroidEmulator.name emu)
  /\ EmulatorItem.icon e = Some (android_icon (resolved w (AndroidEmulator.name emu))).

(** The object is the up-to-date record of some listed simulator. *)
Definition fresh_ios (simulators : list IOSSimulator) (e : EmulatorItem) : Prop :=
  exists sim,
    In sim simulators
    /\ EmulatorItem.id e = "ios-" +:+ IOSSimulator.udid sim
    /\ shows_ios sim e.

Definition fresh_android (w : World) (emulators : list AndroidEmulator)
    (e : EmulatorItem) : Prop :=
  exists emu,
    In emu emulators
    /\ EmulatorItem.id e = "android-" +:+ AndroidEmulator.name emu
    /\ shows_android w emu e.

(** Every listed simulator has an existing record, and it is up to date:
    the loop over the listing will change nothing. *)
Definition ios_synced (existing : gmap string ref) (h : Heap)
    (simulators : list IOSSimulator) : Prop :=
  forall sim,
    In sim simulators ->
    exists r e,
      existing !! ("ios-" +:+ IOSSimulator.udid sim) = Some r
      /\ h !! r = Some e /\ shows_ios sim e.

Definition android_synced (w : World) (existing : gmap string ref) (h : Heap)
    (emulators : list AndroidEmulator) : Prop :=
  forall emu,
    In emu emulators ->
    exists r e,
      existing !! ("android-" +:+ AndroidEmulator.name emu) = Some r
      /\ h !! r = Some e /\ shows_android w emu e.

(** The subtype has emulators in the map. *)
Definition has_group (m : SubtypeMap) (k : IOSDeviceSubtype) : bool :=
  match subtype_get k m with
  | Some (_ :: _) => true
  | _ => false
  end.

(** Some listed simulator is of the subtype. *)
Definition listed_subtype (simulators : list IOSSimulator) (k : IOSDeviceSubtype) : bool :=
  existsb (fun sim => bool_decide (getIOSDeviceSubtype sim = k)) simulators.

(** The number of subtype groups a listing makes. *)
Definition group_count (simulators : list IOSSimulator) : nat :=
  length (List.filter (listed_subtype simulators) subtypeOrder).

(** The provider is in step with the listings. *)
Definition synced (w : World) (simulators : list IOSSimulator)
    (emulators : list AndroidEmulator) (st : Store) : Prop :=
  ios_synced (existingIOS st) (heap st) simulators
  /\ android_synced w (existingAndroid st) (heap st) emulators
  /\ length (iosEmulators st) = group_count simulators
  /\ length (androidEmulators st) = length emulators.

(** Every object of [h] is in [h'] with its shape, and unchanged unless
    its id is one of [Q]. *)
Definition keeps (Q : string -> Prop) (h h' : Heap) : Prop :=
  forall r e,
    h !! r = Some e ->
    exists e',
      h' !! r = Some e' /\ shape e' = shape e
      /\ (e' = e \/ Q (EmulatorItem.id e)).

Definition is_ios_id (id : string) : Prop := exists udid, id = "ios-" +:+ udid.
Definition is_android_id (id : string) : Prop := exists name, id = "android-" +:+ name.

(** A Mac with both toolchains, one phone shut down and one AVD that is
    not running. *)
Definition mac_with_both : World :=
  machine "darwin"
    [("xcrun", ["--version"], exits 0 (text ["xcrun version 70."]) "");
     ("xcrun", ["simctl"; "list"; "--json"; "devices"],
      exits 0 (simctl_listing "Shutdown") "");
     ("emulator", ["-version"], exits 0 (text ["Android emulator version 34.1.19.0"]) "");
     ("which", ["emulator"], exits 0 (text ["/usr/local/bin/emulator"]) "");
     ("emulator", ["-list-avds"], exits 0 (text ["Pixel_5"]) "");
     ("which", ["adb"], exits 0 (text ["/usr/local/bin/adb"]) "");
     ("adb", ["devices"; "-l"], exits 0 (text ["List of devices attached"; ""]) "");
     ("ps", ["ax"; "-o"; "command"], exits 0 (text ["COMMAND"; "/sbin/launchd"]) "")].

(** A machine with neither toolchain. *)
Definition bare_linux : World := machine "linux" [].

(** Where the loop of a refresh over the listed simulators stands after
    the simulators [done]: [h0] is the heap it started from, with the
    map, empty, and the flag, unset. *)
Definition ios_inv (simulators : list IOSSimulator) (existing : gmap string ref)
    (h0 : Heap) (done : list IOSSimulator) (acc : Heap * SubtypeMap * bool) : Prop :=
  keeps is_ios_id h0 (fst (fst acc))
  /\ (forall k rs r,
        subtype_get k (snd (fst acc)) = Some rs -> In r rs ->
        exists e, fst (fst acc) !! r = Some e /\ fresh_ios simulators e)
  /\ (forall sim,
        In sim done ->
        exists rs r e,
          subtype_get (getIOSDeviceSubtype sim) (snd (fst acc)) = Some rs
          /\ In r rs
          /\ fst (fst acc) !! r = Some e
          /\ EmulatorItem.id e = "ios-" +:+ IOSSimulator.udid sim)
  /\ (forall k, has_group (snd (fst acc)) k = listed_subtype done k)
  /\ (snd acc = false -> fst (fst acc) = h0 /\ ios_synced existing h0 done).

(** Two stores that differ in their heaps at most. *)
Definition same_fields (st st' : Store) : Prop :=
  iosEmulators st' = iosEmulators st
  /\ iosEmulatorsBySubtype st' = iosEmulatorsBySubtype st
  /\ androidEmulators st' = androidEmulators st
  /\ fired st' = fired st
  /\ shown st' = shown st
  /\ timers st' = timers st.

(** Where the loop of a refresh over the listed AVDs stands after the
    AVDs [done]: [f0] is the frame it started from, with no Android item
    yet. *)
Definition android_inv (w : World) (emulators : list AndroidEmulator)
    (existing : gmap string ref) (f0 : LoadFrame) (done : list AndroidEmulator)
    (f : LoadFrame) : Prop :=
  keeps is_android_id (heap (store f0)) (heap (store f))
  /\ (forall a, In a (androidItems f) ->
        exists e, heap (store f) !! a = Some e /\ fresh_android w emulators e)
  /\ (forall emu, In emu done ->
        exists a e,
          In a (androidItems f)
          /\ heap (store f) !! a = Some e
          /\ EmulatorItem.id e = "android-" +:+ AndroidEmulator.name emu)
  /\ length (androidItems f) = length (androidItems f0) + length done
  /\ (hasChanges f = false ->
      hasChanges f0 = false
      /\ heap (store f) = heap (store f0)
      /\ android_synced w existing (heap (store f0)) done)
  /\ iosItems f = iosItems f0
  /\ same_fields (store f0) (store f).


(** The frame a refresh reaches before its last statement when both
    listings are there and every status resolves. *)
Definition listed_frame (w : World) (simulators : list IOSSimulator)
    (emulators : list AndroidEmulator) (st : Store) : LoadFrame :=
  android_listed w (existingAndroid st) emulators
    (ios_listed (existingIOS st) simulators (mkFrame st [] [] false)).

(** What the listings of [mac_with_both] hold. *)
Definition shut_phone : IOSSimulator :=
  IOSSimulator.mk example_udid "iPhone 15" "Shutdown"
    "com.apple.CoreSimulator.SimDeviceType.iPhone-15"
    "com.apple.CoreSimulator.SimRuntime.iOS-17-0".

Definition pixel_avd : AndroidEmulator := AndroidEmulator.mk "Pixel_5" None (Some stopped).

(* ===================================================================== *)
(** * Part III: what the patterns mean, and further statement vocabulary *)
(* ===================================================================== *)

(** What a pattern consumes: the text [t], found at position [pos] with
    [rest] after it.  Groups consume what their body does. *)
Fixpoint consumes (r : regex) (pos : nat) (t rest : string) : Prop :=
  match r with
  | Eps => t = ""
  | Bol => t = "" /\ pos = 0
  | Eol => t = "" /\ rest = ""
  | Cls p => exists c, t = String c "" /\ p c = true
  | Seq r1 r2 =>
      exists t1 t2,
        t = t1 +:+ t2
        /\ consumes r1 pos t1 (t2 +:+ rest)
        /\ consumes r2 (pos + String.length t1) t2 rest
  | Alt r1 r2 => consumes r1 pos t rest \/ consumes r2 pos t rest
  | Opt r1 => consumes r1 pos t rest \/ t = ""
  | Plus p => t <> "" /\ all_chars (fun c => p c = true) t
  | Grp _ r1 => consumes r1 pos t rest
  end.

(** The text [u] is one that group [n] of [r] can hold. *)
Fixpoint captured (r : regex) (n : nat) (u : string) : Prop :=
  match r with
  | Grp m r1 => (m = n /\ exists pos rest, consumes r1 pos u rest) \/ captured r1 n u
  | Seq r1 r2 | Alt r1 r2 => captured r1 n u \/ captured r2 n u
  | Opt r1 => captured r1 n u
  | _ => False
  end.

(** A continuation whose success does not depend on the groups. *)
Definition blind {R : Type} (k : nat -> string -> captures -> option R) : Prop :=
  forall pos s g g', is_Some (k pos s g) -> is_Some (k pos s g').

(** The characters [validateCommandInput] refuses. *)
Definition dangerous_chars : list ascii :=
  [";"; "&"; "|"; "`"; "$"; "("; ")"; "{"; "}"; "["; "]"; "<"; ">";
   "\"; "010"; "013"]%char.

(** A hexadecimal digit, in either case. *)
Definition is_hex_char (c : ascii) : Prop :=
  (48 <= code c <= 57)%N \/ (65 <= code c <= 70)%N \/ (97 <= code c <= 102)%N.

(** [8-4-4-4-12] hexadecimal digits. *)
Definition uuid_shape (s : string) : Prop :=
  exists a b c d e,
    s = a +:+ "-" +:+ b +:+ "-" +:+ c +:+ "-" +:+ d +:+ "-" +:+ e
    /\ String.length a = 8 /\ String.length b = 4 /\ String.length c = 4
    /\ String.length d = 4 /\ String.length e = 12
    /\ all_chars is_hex_char a /\ all_chars is_hex_char b
    /\ all_chars is_hex_char c /\ all_chars is_hex_char d
    /\ all_chars is_hex_char e.

(** Every code unit the model keeps. *)
Definition all_ascii : list ascii := List.map ascii_of_nat (seq 0 256).

(** A Linux machine with the SDK in its default place and nothing on the
    search path. *)
Definition linux_with_sdk : World :=
  mkWorld "linux" (inr "/home/dev") (fun _ => None) slash_join
    (fun p => String.eqb p "/home/dev/Android/Sdk/emulator/emulator")
    (fun _ _ _ => not_installed)
    (fun _ _ => inr None)
    v8_json_message v8_null_message.

(** The bare names of the two tools. *)
Definition emulator_exe (w : World) : string :=
  if isWindows w then "emulator.exe" else "emulator".
Definition adb_exe (w : World) : string :=
  if isWindows w then "adb.exe" else "adb".

(** A string that is empty or starts with a character that is not white
    space. *)
Definition head_ok (s : string) : Prop :=
  match s with
  | "" => True
  | String c _ => isWhiteSpace c = false
  end.

(** A name as a line of [emulator -list-avds] gives it: not empty, no
    white space at either end, on one line. *)
Definition line_name (n : string) : Prop :=
  n <> "" /\ trim n = n /\ ~ char_in newline n.

(** The keywords [getIOSDeviceSubtype] looks for, in the order it looks. *)
Definition subtype_keywords : list (string * IOSDeviceSubtype) :=
  [("iphone", iPhone); ("ipad", iPad); ("watch", AppleWatch);
   ("vision", AppleVision); ("tv", AppleTV)].

(** The subtype of the first keyword that [s] includes. *)
Fixpoint first_keyword (s : string) (table : list (string * IOSDeviceSubtype))
    : option IOSDeviceSubtype :=
  match table with
  | [] => None
  | (keyword, subtype) :: rest =>
      if includes s keyword then Some subtype else first_keyword s rest
  end.

(** A run of decimal digits, not empty. *)
Definition digit_run (s : string) : Prop :=
  s <> "" /\ all_chars (fun c => isDigit c = true) s.

(** The command that lists the processes, by platform. *)
Definition process_listing (w : World) : string * list string :=
  if String.eqb (os_platform w) "win32"
  then ("wmic", ["process"; "where";
                 "name=" +:+ String dquote "emulator.exe" +:+ String dquote "";
                 "get"; "commandline"])
  else if String.eqb (os_platform w) "darwin"
  then ("ps", ["ax"; "-o"; "command"])
  else ("ps", ["-eo"; "command"]).

(** The text holds [-avd] or [_avd], then white space or equals signs,
    then the name. *)
Definition names_avd (output name : string) : Prop :=
  exists pre c sep post,
    output = pre +:+ String c "avd" +:+ sep +:+ name +:+ post
    /\ (c = "-"%char \/ c = "_"%char)
    /\ sep <> ""
    /\ all_chars (fun x => isWhiteSpace x = true \/ x = "="%char) sep.

(** What a status map may hold: a name that is not empty and has no
    white space at its ends, with a status other than Stopped. *)
Definition map_entry_ok (entry : string * Status) : Prop :=
  fst entry <> "" /\ trim (fst entry) = fst entry /\ snd entry <> stopped.

(** The same machine with another answer to [spawn]. *)
Definition with_spawn
    (behaviour : string -> list string -> JSError + option (nat * JSError))
    (w : World) : World :=
  mkWorld (os_platform w) (os_homedir w) (process_env w) (path_join w)
    (fs_existsSync w) (execFileAsync w) behaviour
    (json_parse_message w) (null_property_message w).

(** Every child process of the machine ends: no promise of [execFile]
    stays pending for ever. *)
Definition children_settle (w : World) : Prop :=
  forall command args options, execFileAsync w command args options <> inr None.

(** A reference to an object of the heap whose children, if it is a
    group, are objects of the heap. *)
Definition valid_group (h : Heap) (g : ref) : Prop :=
  g < length h /\ forall r, In r (group_children h g) -> r < length h.

(** Where a refresh of [st0] stands before its last statement: the
    provider still has its lists and has told the editor nothing, the
    objects it had are there with their shape, and the items collected so
    far are objects. *)
Definition frame_ok (st0 : Store) (f : LoadFrame) : Prop :=
  keeps (fun _ => True) (heap st0) (heap (store f))
  /\ iosEmulators (store f) = iosEmulators st0
  /\ androidEmulators (store f) = androidEmulators st0
  /\ fired (store f) = fired st0
  /\ shown (store f) = shown st0
  /\ timers (store f) = timers st0
  /\ (forall g, In g (iosItems f) -> valid_group (heap (store f)) g)
  /\ (forall a, In a (androidItems f) -> a < length (heap (store f))).

(** Code that holds state does not stay waiting. *)
Definition finishes {S A : Type} (m : Step S A) : Prop :=
  forall s, fst (m s) <> Hangs.

(** The heap [h'] holds the objects of [h], each as it was or with
    another status and icon. *)
Definition restatused (h h' : Heap) : Prop :=
  length h' = length h
  /\ forall r e,
       h !! r = Some e ->
       exists e',
         h' !! r = Some e'
         /\ (e' = e \/ exists s i, e' = EmulatorItem.set_status_icon s i e).

(** Where a status re-check of [st0] stands: only statuses and icons
    differ, and nothing at all while the flag is unset. *)
Definition check_ok (st0 : Store) (acc : CheckFrame) : Prop :=
  restatused (heap st0) (heap (fst acc))
  /\ same_fields st0 (fst acc)
  /\ (snd acc = false -> fst acc = st0).

(** Simulators listed under one UDID agree in whether they are booted. *)
Definition agree_on_state (simulators : list IOSSimulator) : Prop :=
  forall s1 s2,
    In s1 simulators -> In s2 simulators ->
    IOSSimulator.udid s1 = IOSSimulator.udid s2 ->
    isSimulatorBooted s1 = isSimulatorBooted s2.

(** The status a listing gives a simulator. *)
Definition ios_status (sim : IOSSimulator) : Status :=
  if isSimulatorBooted sim then running else stopped.

(** The record found for each of the simulators has the status of the
    listing: a re-check would not touch it. *)
Definition ios_settled (simulators : list IOSSimulator) (st : Store) : Prop :=
  forall sim r e,
    In sim simulators ->
    findIOSEmulator st ("ios-" +:+ IOSSimulator.udid sim) = Some r ->
    heap st !! r = Some e ->
    EmulatorItem.status e = ios_status sim.

Definition android_settled (w : World) (emulators : list AndroidEmulator)
    (st : Store) : Prop :=
  forall emu r e,
    In emu emulators ->
    findAndroidEmulator st ("android-" +:+ AndroidEmulator.name emu) = Some r ->
    heap st !! r = Some e ->
    EmulatorItem.status e = resolved w (AndroidEmulator.name emu).

(** Two providers in which the same ids find the same records. *)
Definition same_finds (st st' : Store) : Prop :=
  (forall id, findIOSEmulator st' id = findIOSEmulator st id)
  /\ (forall id, findAndroidEmulator st' id = findAndroidEmulator st id).

(** One turn of the loop of a re-check over the listed AVDs when the
    status resolves. *)
Definition check_android_pure (w : World) (acc : CheckFrame) (emu : AndroidEmulator)
    : CheckFrame :=
  match findAndroidEmulator (fst acc) ("android-" +:+ AndroidEmulator.name emu) with
  | Some existing =>
      check_android_update existing (resolved w (AndroidEmulator.name emu)) acc
  | None => acc
  end.

(** The two halves of a re-check on a machine where every child process
    ends. *)
Definition ios_pass (w : World) (acc : CheckFrame) : CheckFrame :=
  match checkXcodeAvailable w, listIOSSimulators w with
  | Returns true, Returns simulators => foldl check_ios_step acc simulators
  | _, _ => acc
  end.

Definition android_pass (w : World) (acc : CheckFrame) : CheckFrame :=
  match checkAndroidAvailable w, listAndroidEmulators w with
  | Returns true, Returns emulators => foldl (check_android_pure w) acc emulators
  | _, _ => acc
  end.

(** The group item a refresh makes for a subtype. *)
Definition group_item (subtype : IOSDeviceSubtype) (emulators : list ref) : EmulatorItem :=
  EmulatorItem.mk ("ios-subtype-" +:+ subtype_label subtype) (subtype_label subtype) ios
    stopped None None None false true (Some subtype) None (Some emulators).

(** The listed simulators of one subtype, in listing order. *)
Definition of_subtype (subtype : IOSDeviceSubtype) (simulators : list IOSSimulator)
    : list IOSSimulator :=
  List.filter (fun sim => bool_decide (getIOSDeviceSubtype sim = subtype)) simulators.

Definition ios_id (sim : IOSSimulator) : string := "ios-" +:+ IOSSimulator.udid sim.
Definition android_id (emu : AndroidEmulator) : string :=
  "android-" +:+ AndroidEmulator.name emu.

(** The references are to the objects of the listed devices, one by one:
    same length, same order, same ids. *)
Definition records_of {A : Type} (h : Heap) (key : A -> string) (refs : list ref)
    (devices : list A) : Prop :=
  Forall2 (fun r x => exists e, h !! r = Some e /\ EmulatorItem.id e = key x) refs devices.

(** The lists of the subtype map follow the listing. *)
Definition ios_order (done : list IOSSimulator) (acc : Heap * SubtypeMap * bool) : Prop :=
  forall k,
    records_of (fst (fst acc)) ios_id
      (match subtype_get k (snd (fst acc)) with Some rs => rs | None => [] end)
      (of_subtype k done).

(** The record shown for a simulator, for an AVD. *)
Definition shows_simulator (h : Heap) (r : ref) (sim : IOSSimulator) : Prop :=
  exists e, h !! r = Some e /\ EmulatorItem.id e = ios_id sim /\ shows_ios sim e.

Definition shows_avd (w : World) (h : Heap) (a : ref) (emu : AndroidEmulator) : Prop :=
  exists e, h !! a = Some e /\ EmulatorItem.id e = android_id emu /\ shows_android w emu e.

(** A second phone, and a Mac whose listing has both phones. *)
Definition second_udid : string := "11111111-2222-3333-4444-555555555555".

Definition second_phone : IOSSimulator :=
  IOSSimulator.mk second_udid "iPhone 15 Pro" "Shutdown"
    "com.apple.CoreSimulator.SimDeviceType.iPhone-15-Pro"
    "com.apple.CoreSimulator.SimRuntime.iOS-17-0".

Definition two_phones_listing : string :=
  quoted ("{'devices': {'com.apple.CoreSimulator.SimRuntime.iOS-17-0': [{'udid':'"
          +:+ example_udid
          +:+ "','name':'iPhone 15','state':'Shutdown"
          +:+ "','deviceTypeIdentifier':'com.apple.CoreSimulator.SimDeviceType.iPhone-15','runtime':''},{'udid':'"
          +:+ second_udid
          +:+ "','name':'iPhone 15 Pro','state':'Shutdown"
          +:+ "','deviceTypeIdentifier':'com.apple.CoreSimulator.SimDeviceType.iPhone-15-Pro','runtime':''}]}}").

Definition mac_with_two_phones : World :=
  machine "darwin"
    [("xcrun", ["--version"], exits 0 (text ["xcrun version 70."]) "");
     ("xcrun", ["simctl"; "list"; "--json"; "devices"], exits 0 two_phones_listing "");
     ("emulator", ["-version"], exits 0 (text ["Android emulator version 34.1.19.0"]) "");
     ("which", ["emulator"], exits 0 (text ["/usr/local/bin/emulator"]) "");
     ("emulator", ["-list-avds"], exits 0 (text ["Pixel_5"]) "");
     ("which", ["adb"], exits 0 (text ["/usr/local/bin/adb"]) "");
     ("adb", ["devices"; "-l"], exits 0 (text ["List of devices attached"; ""]) "");
     ("ps", ["ax"; "-o"; "command"], exits 0 (text ["COMMAND"; "/sbin/launchd"]) "")].

(** The simulator has a record among the children of a group of the
    iOS list. *)
Definition shown_simulator (st : Store) (sim : IOSSimulator) : Prop :=
  exists g r e,
    In g (iosEmulators st)
    /\ In r (group_children (heap st) g)
    /\ heap st !! r = Some e
    /\ EmulatorItem.id e = ios_id sim.

(** Where the Android half of a refresh stands, [f1] being the frame the
    iOS half left: the objects that are not records of AVDs are as they
    were, the iOS items and the provider's fields too, and a flag that
    was set is still set. *)
Definition android_side (f1 f : LoadFrame) : Prop :=
  keeps is_android_id (heap (store f1)) (heap (store f))
  /\ iosItems f = iosItems f1
  /\ (hasChanges f1 = true -> hasChanges f = true)
  /\ same_fields (store f1) (store f).

(** What a refresh leaves when it shows the item [x] in place of the
    iOS list, in place of the Android list: one new object, the event
    fired, no message. *)
Definition ios_replaced_by (x : EmulatorItem) (st st1 : Store) : Prop :=
  fired st1 = S (fired st)
  /\ shown st1 = shown st
  /\ iosEmulators st1 = [length (heap st)]
  /\ heap st1 !! length (heap st) = Some x.

Definition android_replaced_by (x : EmulatorItem) (st st1 : Store) : Prop :=
  fired st1 = S (fired st)
  /\ shown st1 = shown st
  /\ exists a,
       androidEmulators st1 = [a]
       /\ length (heap st) <= a
       /\ heap st1 !! a = Some x.

(** A word of a line: not empty, no white space.  A gap between two
    words of a line: white space, not empty, no line feed. *)
Definition word (s : string) : Prop :=
  s <> "" /\ all_chars (fun c => isWhiteSpace c = false) s.

Definition gap (s : string) : Prop :=
  s <> "" /\ all_chars (fun c => isWhiteSpace c = true /\ c <> newline) s.

(** Nothing, or text that starts with white space. *)
Definition head_blank (s : string) : Prop :=
  match s with
  | "" => True
  | String c _ => isWhiteSpace c = true
  end.

(** A device line of [adb devices -l]: the serial, the state, and what
    follows on the line. *)
Record AdbRow := mkRow {
  row_serial : string;
  row_gap : string;
  row_state : string;
  row_tail : string
}.

Definition row_line (row : AdbRow) : string :=
  row_serial row +:+ row_gap row +:+ row_state row +:+ row_tail row.

Definition row_ok (row : AdbRow) : Prop :=
  word (row_serial row) /\ gap (row_gap row) /\ word (row_state row)
  /\ head_blank (row_tail row) /\ ~ char_in newline (row_tail row).

(** ** iosEmulator.ts, androidEmulator.ts: the running devices *)

Definition getRunningIOSSimulators (w : World) : Run (list IOSSimulator) :=
  let* simulators := listIOSSimulators w in
  Returns (List.filter isSimulatorBooted simulators).

(** The loop of [getRunningAndroidEmulators] over the listed AVDs;
    [found] is its array [running] as filled so far. *)
Fixpoint running_loop (w : World) (allEmulators found : list AndroidEmulator)
    : Run (list AndroidEmulator) :=
  match allEmulators with
  | [] => Returns found
  | emulator :: rest =>
      let* isRunning := isAndroidEmulatorRunning w (AndroidEmulator.name emulator) in
      running_loop w rest
        (if isRunning : bool
         then found ++ [AndroidEmulator.mk (AndroidEmulator.name emulator)
                          (AndroidEmulator.path emulator) (Some running)]
         else found)
  end.

Definition getRunningAndroidEmulators (w : World) : Run (list AndroidEmulator) :=
  let* allEmulators := listAndroidEmulators w in
  running_loop w allEmulators [].

(** The resolver answers Running for the AVD. *)
Definition resolves_running (w : World) (emulator : AndroidEmulator) : bool :=
  match getAndroidEmulatorStatus w (AndroidEmulator.name emulator) with
  | Returns running => true
  | _ => false
  end.

(** What a boot request that went through leaves: the record marked
    Starting, the change event fired once, the re-checks scheduled. *)
Definition boot_requested (r : ref) (delays : list nat) (st st' : Store) : Prop :=
  heap st' !! r = EmulatorItem.set_status_icon starting sync_spin <$> heap st !! r
  /\ fired st' = S (fired st)
  /\ shown st' = shown st
  /\ timers st' = timers st ++ delays.

(** What a boot request that failed leaves: the record marked Stopped,
    the change event fired twice, one message. *)
Definition boot_given_up (r : ref) (e : JSError) (st st' : Store) : Prop :=
  heap st' !! r = EmulatorItem.set_status_icon stopped circle_outline <$> heap st !! r
  /\ fired st' = S (S (fired st))
  /\ shown st' = shown st ++ ["Failed to start emulator: " +:+ message e]
  /\ timers st' = timers st.

(** ** What the version extractor looks for, in words of the runtime string *)








(* ===================================================================== *)
(** * Part II: theorems *)
(* ===================================================================== *)

(** ** The command runner *)

Section CommandRunner.
Variable w : World.
Variables (command : string) (args : list string).

Lemma effective_timeout_nonzero options :
  effective_timeout options <> 0%Z.
Proof.
  unfold effective_timeout, DEFAULT_TIMEOUT.
  destruct (timeout options) as [t|]; [|lia].
  destruct (Z.eqb_spec t 0); lia.
Qed.

Lemma race_timer_settles {A : Type} (child : Promise A) ms e :
  exists t o, race child (reject_after ms e) = Some (t, o) /\ t <= timer_delay ms.
Proof.
  unfold race, reject_after.
  destruct child as [[tc oc]|]; [|eauto].
  destruct (Nat.leb_spec tc (timer_delay ms)); eauto.
Qed.

Lemma executeCommand_settles options :
  exists t result,
    executeCommand w command args options = Some (t, Fulfilled result)
    /\ t <= deadline options.
Proof.
  unfold executeCommand, deadline.
  destruct (execFileAsync w command args _) as [e|child].
  - exists 0, (failure_result e). split; [done|lia].
  - destruct (race_timer_settles child (effective_timeout options)
                (Error "Command timeout")) as (t & o & -> & Ht).
    destruct o; eauto.
Qed.

(** An awaited [executeCommand] returns: it neither throws nor hangs. *)
Lemma await_executeCommand options :
  exists result, await (executeCommand w command args options) = Returns result.
Proof.
  destruct (executeCommand_settles options) as (t & result & -> & _). eauto.
Qed.
End CommandRunner.

(** C5.  For every command, argument list and options the call settles
    with a result value (it is never rejected and never left pending), and
    it does so by the deadline.  When the child is rejected (a nonzero
    exit) before the deadline the result has [success = false] and carries
    the child's error; when the child has not settled by the deadline, or
    never settles, the result has [success = false] and carries the
    timer's "Command timeout" error, at the deadline itself.  The deadline
    is the caller's: a timeout of [ms] milliseconds, from 1 up to
    2^31 - 1, is handed to the child and gives a deadline of [ms]
    milliseconds, so that a child still running after [ms] milliseconds is
    reported as failed at [ms]; no timeout, or a timeout of 0, gives
    30000; a timeout below 0 or above 2^31 - 1 gives a timer of 1
    millisecond. *)
Theorem executeCommand_reports_failures :
  forall (w : World) (command : string) (args : list string)
         (options : ExecFileOptions),
  (exists t result,
     executeCommand w command args options = Some (t, Fulfilled result)
     /\ t <= deadline options
     /\ (forall child tc e,
           execFileAsync w command args (child_options options) = inr child ->
           child = Some (tc, Rejected e) -> tc <= deadline options ->
           t = tc
           /\ CLICommandResult.success result = false
           /\ CLICommandResult.error result = Some e)
     /\ (forall child,
           execFileAsync w command args (child_options options) = inr child ->
           (child = None \/ exists tc o, child = Some (tc, o) /\ deadline options < tc) ->
           t = deadline options
           /\ CLICommandResult.success result = false
           /\ CLICommandResult.error result = Some (Error "Command timeout")))
  /\ (forall ms,
        timeout options = Some ms -> (1 <= ms <= 2147483647)%Z ->
        deadline options = Z.to_nat ms
        /\ child_options options = mkOptions (Some ms) (Some 10485760%Z)
        /\ forall child,
             execFileAsync w command args (mkOptions (Some ms) (Some 10485760%Z))
             = inr child ->
             (child = None \/ exists tc o, child = Some (tc, o) /\ Z.to_nat ms < tc) ->
             executeCommand w command args options
             = Some (Z.to_nat ms, Fulfilled (failure_result (Error "Command timeout"))))
  /\ (timeout options = None \/ timeout options = Some 0%Z ->
      deadline options = 30000)
  /\ (forall ms,
        timeout options = Some ms -> (ms < 0 \/ 2147483647 < ms)%Z ->
        deadline options = 1).
Proof.
  intros w command args options. split; [|split; [|split]].
  - destruct (executeCommand_settles w command args options) as (t & result & Hrun & Ht).
    exists t, result. split; [done|]. split; [done|].
    unfold executeCommand in Hrun. fold (child_options options) in Hrun.
    split.
    + intros child tc e Hchild -> Htc. rewrite Hchild in Hrun.
      unfold race, reject_after in Hrun. fold (deadline options) in Hrun.
      destruct (Nat.leb_spec tc (deadline options)); [|lia].
      by inversion Hrun.
    + intros child Hchild Hlate. rewrite Hchild in Hrun.
      unfold race, reject_after in Hrun. fold (deadline options) in Hrun.
      destruct Hlate as [->|(tc & o & -> & Hlate)].
      * by inversion Hrun.
      * destruct (Nat.leb_spec tc (deadline options)); [lia|]. by inversion Hrun.
  - intros ms Hms Hrange.
    assert (effective_timeout options = ms) as Heff.
    { unfold effective_timeout. rewrite Hms.
      destruct (Z.eqb_spec ms 0); [lia | done]. }
    assert (deadline options = Z.to_nat ms) as Hdeadline.
    { unfold deadline, timer_delay. rewrite Heff.
      destruct (Z.ltb_spec ms 1); [lia|].
      destruct (Z.ltb_spec 2147483647 ms); [lia | done]. }
    split; [done|]. split; [unfold child_options; by rewrite Heff|].
    intros child Hchild Hlate. unfold executeCommand. rewrite Heff.
    change (10 * 1024 * 1024)%Z with 10485760%Z. rewrite Hchild.
    unfold deadline in Hdeadline. rewrite Heff in Hdeadline.
    unfold race, reject_after. rewrite Hdeadline.
    destruct Hlate as [->|(tc & o & -> & Hlate)]; [done|].
    destruct (Nat.leb_spec tc (Z.to_nat ms)); [lia | done].
  - intros Hnone. unfold deadline, effective_timeout.
    by destruct Hnone as [-> | ->].
  - intros ms Hms Hrange. unfold deadline, effective_timeout, timer_delay. rewrite Hms.
    destruct (Z.eqb_spec ms 0); [lia|].
    destruct (Z.ltb_spec ms 1); [done|].
    destruct (Z.ltb_spec 2147483647 ms); [done | lia].
Qed.

(** C10.  A zero timeout does not disable the deadline: with
    [options.timeout = 0], as with no timeout at all, the effective timeout
    is the default of 30 seconds, so the call behaves as with
    [timeout = 30000], whatever the command and its arguments; a child
    that never settles is then cut off after 30000 ms. *)
Theorem executeCommand_zero_timeout_is_default :
  forall (w : World) (command : string) (args : list string) (mb : option Z),
    DEFAULT_TIMEOUT = 30000%Z
    /\ effective_timeout (mkOptions (Some 0%Z) mb) = DEFAULT_TIMEOUT
    /\ effective_timeout (mkOptions None mb) = DEFAULT_TIMEOUT
    /\ executeCommand w command args (mkOptions (Some 0%Z) mb)
       = executeCommand w command args (mkOptions (Some 30000%Z) mb)
    /\ executeCommand w command args (mkOptions None mb)
       = executeCommand w command args (mkOptions (Some 30000%Z) mb)
    /\ deadline (mkOptions (Some 0%Z) mb) = 30000
    /\ deadline (mkOptions None mb) = 30000
    /\ (execFileAsync w command args
          (mkOptions (Some 30000%Z) (Some (10 * 1024 * 1024)%Z)) = inr None ->
        executeCommand w command args (mkOptions (Some 0%Z) mb)
        = Some (30000, Fulfilled (failure_result (Error "Command timeout")))).
Proof.
  intros w command args mb. repeat split; try reflexivity.
  intros Hhung. unfold executeCommand. cbn [effective_timeout timeout Z.eqb].
  unfold DEFAULT_TIMEOUT. by rewrite Hhung.
Qed.

(** ** The regular-expression matcher *)

Section Matcher.
Context {R : Type}.

(** A greedy [+] followed by the end of input: the whole rest must lie
    in the class, and be non-empty. *)
Lemma plus_from_to_end (p : ascii -> bool) (k : nat -> string -> option R) :
  (forall pos c s, k pos (String c s) = None) ->
  (forall pos, is_Some (k pos "")) ->
  forall s pos,
    is_Some (plus_from p pos s k) <-> s <> "" /\ string_forallb p s = true.
Proof.
  intros Hmore Hend. induction s as [|c s IH]; intros pos; cbn.
  - split; [intros [x Hx]; discriminate | intros [H _]; congruence].
  - destruct (p c); cbn.
    + destruct (plus_from p (S pos) s k) eqn:Hrec.
      * assert (is_Some (plus_from p (S pos) s k)) as Hs by (rewrite Hrec; eauto).
        apply IH in Hs as [_ Hall]. split; [intros _; split; [discriminate|done] | eauto].
      * destruct s as [|c' s'].
        -- split; [intros _; split; [discriminate|done] | intros _; apply Hend].
        -- rewrite Hmore. split.
           ++ intros [x Hx]; discriminate.
           ++ intros [_ Hall].
              assert (is_Some (plus_from p (S pos) (String c' s') k)) as [x Hx]
                by (apply IH; split; [discriminate|done]).
              congruence.
    + split; [intros [x Hx]; discriminate | intros [_ H]; discriminate].
Qed.

(** Whatever a match returns, the continuation returned it, with the
    groups that were set before still set and with every group that
    takes part in all matches of [r] set. *)
Lemma plus_from_result (p : ascii -> bool) (k : nat -> string -> option R) :
  forall s pos x,
    plus_from p pos s k = Some x -> exists pos' s', k pos' s' = Some x.
Proof.
  induction s as [|c s IH]; intros pos x; cbn; [discriminate|].
  destruct (p c); [|discriminate].
  destruct (plus_from p (S pos) s k) eqn:Hrec.
  - intros [= <-]. eauto.
  - eauto.
Qed.

Lemma rmatch_result (r : regex) :
  forall pos s g (k : nat -> string -> captures -> option R) x,
    rmatch r pos s g k = Some x ->
    exists pos' s' g',
      k pos' s' g' = Some x
      /\ (forall n, is_Some (group n g) -> is_Some (group n g'))
      /\ (forall n, must_set n r = true -> is_Some (group n g')).
Proof.
  induction r as [| | |p|r1 IH1 r2 IH2|r1 IH1 r2 IH2|r1 IH1|p|m r1 IH1];
    intros pos s g k x; cbn [rmatch must_set].
  - intros H. exists pos, s, g. by repeat split.
  - destruct (Nat.eqb pos 0); [|discriminate].
    intros H. exists pos, s, g. by repeat split.
  - destruct s; [|discriminate].
    intros H. exists pos, "", g. by repeat split.
  - destruct s as [|c s]; [discriminate|]. destruct (p c); [|discriminate].
    intros H. exists (S pos), s, g. by repeat split.
  - intros H. apply IH1 in H as (p1 & s1 & g1 & H & Hkeep1 & Hset1).
    apply IH2 in H as (p2 & s2 & g2 & H & Hkeep2 & Hset2).
    exists p2, s2, g2. split; [done|]. split; [eauto|].
    intros n Hn. apply orb_true_iff in Hn as [Hn|Hn]; eauto.
  - destruct (rmatch r1 pos s g k) eqn:H1.
    + intros [= <-]. apply IH1 in H1 as (p1 & s1 & g1 & H & Hkeep1 & Hset1).
      exists p1, s1, g1. split; [done|]. split; [done|].
      intros n Hn. apply andb_true_iff in Hn as [Hn _]. eauto.
    + intros H. apply IH2 in H as (p2 & s2 & g2 & H & Hkeep2 & Hset2).
      exists p2, s2, g2. split; [done|]. split; [done|].
      intros n Hn. apply andb_true_iff in Hn as [_ Hn]. eauto.
  - destruct (rmatch r1 pos s g k) eqn:H1.
    + intros [= <-]. apply IH1 in H1 as (p1 & s1 & g1 & H & Hkeep1 & _).
      exists p1, s1, g1. by repeat split.
    + intros H. exists pos, s, g. by repeat split.
  - intros H. apply plus_from_result in H as (p1 & s1 & H).
    exists p1, s1, g. by repeat split.
  - intros H. apply IH1 in H as (p1 & s1 & g1 & H & Hkeep1 & Hset1).
    eexists p1, s1, _. split; [exact H|].
    split.
    + intros n Hn. cbn. destruct (Nat.eqb m n); [by eexists | eauto].
    + intros n Hn. cbn. destruct (Nat.eqb m n); cbn in Hn; [by eexists | eauto].
Qed.
End Matcher.

Lemma regex_search_groups (r : regex) :
  forall s pos m,
    regex_search r pos s = Some m ->
    forall n, must_set n r = true -> is_Some (group n (groups m)).
Proof.
  induction s as [|c s IH]; intros pos m; cbn [regex_search].
  - destruct (rmatch r pos "" [] _) eqn:H; [|discriminate].
    intros [= <-] n Hn.
    apply rmatch_result in H as (p1 & s1 & g1 & [= <-] & _ & Hset). cbn. eauto.
  - destruct (rmatch r pos (String c s) [] _) eqn:H.
    + intros [= <-] n Hn.
      apply rmatch_result in H as (p1 & s1 & g1 & [= <-] & _ & Hset). cbn. eauto.
    + apply IH.
Qed.

(** A pattern that starts with [^] matches at the start or nowhere. *)
Lemma regex_search_anchored (r : regex) :
  forall s pos, regex_search (Seq Bol r) (S pos) s = None.
Proof.
  induction s as [|c s IH]; intros pos; cbn; [done|]. apply IH.
Qed.

(** ** The validators *)

Lemma avdNameClass_spec (c : ascii) :
  avdNameClass c = true <-> is_avd_char c.
Proof.
  unfold avdNameClass, cls_or, in_range, chr, is_avd_char.
  rewrite !orb_true_iff, !andb_true_iff, !N.leb_le, !Ascii.eqb_eq.
  cbn [code N_of_ascii]. change (code "a") with 97%N. change (code "z") with 122%N.
  change (code "A") with 65%N. change (code "Z") with 90%N.
  change (code "0") with 48%N. change (code "9") with 57%N.
  intuition.
Qed.

Lemma string_forallb_all (p : ascii -> bool) (P : ascii -> Prop) :
  (forall c, p c = true <-> P c) ->
  forall s, string_forallb p s = true <-> all_chars P s.
Proof.
  intros Hp. induction s as [|c s IH]; cbn; [done|].
  rewrite andb_true_iff, Hp, IH. done.
Qed.

Lemma all_chars_in (P : ascii -> Prop) :
  forall s c, all_chars P s -> char_in c s -> P c.
Proof.
  induction s as [|c' s IH]; cbn; [done|].
  intros c [Hc Hs] [->|Hin]; eauto.
Qed.

Lemma avdNameRegex_spec (name : string) :
  regex_test avdNameRegex name = true
  <-> name <> "" /\ all_chars is_avd_char name.
Proof.
  rewrite <- (string_forallb_all avdNameClass is_avd_char avdNameClass_spec).
  unfold regex_test, regex_match, avdNameRegex.
  change (seqs [Bol; Plus avdNameClass; Eol])
    with (Seq Bol (Seq (Plus avdNameClass) (Seq Eol Eps))).
  destruct name as [|c s]; cbn [regex_search rmatch Nat.eqb].
  - cbn. split; [discriminate | intros [H _]; congruence].
  - rewrite regex_search_anchored.
    match goal with
    | |- context [plus_from ?p ?pos ?s0 ?k] =>
        assert (is_Some (plus_from p pos s0 k)
                <-> s0 <> "" /\ string_forallb p s0 = true) as Hplus
          by (apply plus_from_to_end; [done | intros; by eexists]);
        destruct (plus_from p pos s0 k) eqn:H
    end.
    + rewrite <- Hplus. split; [intros _; by eexists | done].
    + rewrite <- Hplus. split; [discriminate | intros [x Hx]; discriminate].
Qed.

(** C7.  The validator accepts exactly the strings of 1 to 99 characters
    drawn from letters, digits, underscore and hyphen: it rejects the empty
    string, every string of 100 characters or more, and every string with
    a character outside the set, a space or a slash among them. *)
Theorem validateAVDName_accepts_exactly :
  (forall name,
     validateAVDName name = true
     <-> 1 <= String.length name <= 99 /\ all_chars is_avd_char name)
  /\ validateAVDName "" = false
  /\ (forall name, 100 <= String.length name -> validateAVDName name = false)
  /\ (forall name c, char_in c name -> ~ is_avd_char c -> validateAVDName name = false)
  /\ (forall name, char_in " " name \/ char_in "/" name -> validateAVDName name = false).
Proof.
  assert (forall name,
            validateAVDName name = true
            <-> 1 <= String.length name <= 99 /\ all_chars is_avd_char name) as Hiff.
  { intros name. unfold validateAVDName.
    rewrite !andb_true_iff, avdNameRegex_spec, !Nat.ltb_lt.
    split.
    - intros [[[_ Hall] H1] H2]. split; [lia|done].
    - intros [Hlen Hall]. repeat split; try lia; try done.
      intros ->. cbn in Hlen. lia. }
  assert (forall name c, char_in c name -> ~ is_avd_char c -> validateAVDName name = false)
    as Hout.
  { intros name c Hin Hc. apply not_true_is_false. intros Hv.
    apply Hiff in Hv as [_ Hall]. exact (Hc (all_chars_in _ _ _ Hall Hin)). }
  split; [exact Hiff|]. split; [reflexivity|]. split; [|split; [exact Hout|]].
  - intros name Hlen. apply not_true_is_false. intros Hv. apply Hiff in Hv. lia.
  - intros name [H|H]; eapply Hout; try exact H;
      unfold is_avd_char; cbn; intros Hc;
      repeat (destruct Hc as [Hc|Hc]; try lia; try discriminate); discriminate.
Qed.

(** ** The iOS inventory parser *)

Lemma regex_match_groups (r : regex) (s : string) (m : MatchResult) (n : nat) :
  regex_match r s = Some m -> must_set n r = true ->
  exists t, group n (groups m) = Some t.
Proof.
  intros Hm Hn. exact (regex_search_groups r s 0 m Hm n Hn).
Qed.

(** C3, as the specification prints the listing: without the [devices]
    key the parser reads, the listing yields no record at all. *)
Lemma parse_example_devices_yields_nothing :
  (forall w, parseIOSSimulatorList w example_devices = Returns [])
  /\ ~ (exists w record, parseIOSSimulatorList w example_devices = Returns [record]).
Proof.
  assert (forall w, parseIOSSimulatorList w example_devices = Returns []) as H
    by (intros w; vm_compute; reflexivity).
  split; [exact H|]. intros (w & record & Hrecord). rewrite H in Hrecord. discriminate.
Qed.

(** C3, amended.  Fed the listing under the [devices] key, the parser
    yields exactly one record; read as an [IOSSimulator] its runtime is
    defaulted to the key ["iOS-17-0"], its category is the phone category,
    its version is ["17.0"], and it is booted, so that the item the
    provider makes of it is running. *)
Theorem parse_example_listing :
  exists record simulator,
    (forall w, parseIOSSimulatorList w example_listing = Returns [record])
    /\ asIOSSimulator record = Some simulator
    /\ IOSSimulator.runtime simulator = "iOS-17-0"
    /\ getIOSDeviceSubtype simulator = iPhone
    /\ extractIOSVersion (IOSSimulator.runtime simulator) = Some "17.0"
    /\ IOSSimulator.state simulator = "Booted"
    /\ isSimulatorBooted simulator = true
    /\ EmulatorItem.status (ios_item simulator) = running.
Proof.
  eexists _, (IOSSimulator.mk "AAAAAAAA-BBBB-CCCC-DDDD-EEEEEEEEEEEE" "iPhone 15"
                "Booted" "...iPhone15,2" "iOS-17-0").
  split; [intros w; vm_compute; reflexivity|].
  repeat split; vm_compute; reflexivity.
Qed.

(** ** The Android status resolver *)

Lemma default_tool_paths_settles (w : World) (sub exe : string) :
  default_tool_paths w sub exe <> Hangs.
Proof.
  unfold default_tool_paths.
  destruct (String.eqb (os_platform w) "darwin").
  { destruct (os_homedir w); done. }
  destruct (String.eqb (os_platform w) "win32"); [done|].
  destruct (String.eqb (os_platform w) "linux"); [|done].
  destruct (os_homedir w); done.
Qed.

Section Resolver.
Variable w : World.

Lemma attempt_returns {A : Type} command args ms (read : string -> option A) :
  exists r, attempt w command args ms read = Returns r.
Proof.
  unfold attempt.
  destruct (await_executeCommand w command args (with_timeout ms)) as [result ->].
  cbn. destruct (CLICommandResult.success result); cbn; eauto.
Qed.

Lemma first_of_returns {A : Type} (methods : list (Run (option A))) :
  Forall (fun m => exists r, m = Returns r) methods ->
  exists r, first_of methods = Returns r.
Proof.
  induction 1 as [|m rest [r ->] _ IH]; cbn; [eauto|].
  destruct r; eauto.
Qed.

Lemma first_of_none {A : Type} (methods : list (Run (option A))) :
  Forall (fun m => m = Returns None) methods ->
  first_of methods = Returns None.
Proof.
  induction 1 as [|m rest -> _ IH]; cbn; done.
Qed.

Lemma getEmulatorAVDName_returns adbCmd serial :
  exists r, getEmulatorAVDName w adbCmd serial = Returns r.
Proof.
  apply first_of_returns. repeat constructor; apply attempt_returns.
Qed.

Lemma isAndroidSystemRunning_returns adbCmd serial :
  exists r, isAndroidSystemRunning w adbCmd serial = Returns r.
Proof.
  unfold isAndroidSystemRunning.
  match goal with
  | |- context [first_of ?ms] =>
      destruct (first_of_returns ms) as [r ->];
      [repeat constructor; apply attempt_returns | cbn; eauto]
  end.
Qed.

(** The map holds nothing but what was put in for an attached emulator
    whose AVD name was found out. *)
Lemma resolve_serials_spec adbCmd :
  forall emulatorSerials runningEmulators,
  exists result,
    resolve_serials w adbCmd emulatorSerials runningEmulators = Returns result
    /\ (forall name,
          map_get name result <> None ->
          map_get name runningEmulators <> None
          \/ exists serial status,
               In (serial, status) emulatorSerials
               /\ getEmulatorAVDName w adbCmd serial = Returns (Some name))
    /\ ((forall serial status,
           In (serial, status) emulatorSerials ->
           getEmulatorAVDName w adbCmd serial = Returns None) ->
        result = runningEmulators).
Proof.
  assert (forall (k k' : string) (v : Status) m,
            map_get k (map_set k' v m) <> None -> k = k' \/ map_get k m <> None)
    as Hset.
  { intros k k' v m. induction m as [|[k0 v0] m IH]; cbn.
    - destruct (String.eqb_spec k' k); [by left | done].
    - destruct (String.eqb_spec k0 k'); cbn.
      + destruct (String.eqb_spec k0 k); [right; done | intros H; by right].
      + destruct (String.eqb_spec k0 k); [right; done | exact IH]. }
  induction emulatorSerials as [|[serial status] rest IH]; intros m; cbn [resolve_serials].
  - exists m. split; [done|]. split; [by left | done].
  - destruct (getEmulatorAVDName_returns adbCmd serial) as [[avdName|] Hname];
      rewrite Hname.
    + assert (forall m',
                exists result,
                  resolve_serials w adbCmd rest (map_set avdName m' m) = Returns result
                  /\ (forall name,
                        map_get name result <> None ->
                        map_get name m <> None
                        \/ exists serial0 status0,
                             In (serial0, status0) ((serial, status) :: rest)
                             /\ getEmulatorAVDName w adbCmd serial0 = Returns (Some name))
                  /\ ((forall serial0 status0,
                         In (serial0, status0) ((serial, status) :: rest) ->
                         getEmulatorAVDName w adbCmd serial0 = Returns None) ->
                      result = m)) as Hput.
      { intros m'. destruct (IH (map_set avdName m' m)) as (result & -> & Hin & _).
        exists result. split; [done|]. split.
        - intros name Hname'. destruct (Hin name Hname') as [Hm|(s0 & st0 & Hs0 & Hn0)].
          + apply Hset in Hm as [->|Hm]; [|by left].
            right. exists serial, status. split; [by left | done].
          + right. exists s0, st0. split; [by right | done].
        - intros Hnone. specialize (Hnone serial status (or_introl eq_refl)).
          congruence. }
      destruct (String.eqb status "device"); [|apply Hput].
      destruct (isAndroidSystemRunning_returns adbCmd serial) as [isRunning ->].
      apply Hput.
    + destruct (IH m) as (result & -> & Hin & Hnone).
      exists result. split; [done|]. split.
      * intros name Hname'. destruct (Hin name Hname') as [Hm|(s0 & st0 & Hs0 & Hn0)];
          [by left|]. right. exists s0, st0. split; [by right | done].
      * intros H. apply Hnone. intros s0 st0 Hs0. apply (H s0 st0). by right.
Qed.

Lemma getAllRunningEmulators_returns adbCmd :
  exists result, getAllRunningEmulators w adbCmd = Returns result.
Proof.
  unfold getAllRunningEmulators.
  destruct (await_executeCommand w adbCmd ["devices"; "-l"] no_options) as [result ->].
  destruct (_ && _); [eauto|].
  destruct (resolve_serials_spec adbCmd
              (emulator_serials (CLICommandResult.stdout result)) [])
    as (m & -> & _). eauto.
Qed.

Lemma getAVDNameFromProcesses_returns emulatorName :
  exists found, getAVDNameFromProcesses w emulatorName = Returns found.
Proof.
  unfold getAVDNameFromProcesses.
  destruct (if String.eqb (os_platform w) "win32" then _ else _) as [command args].
  destruct (await_executeCommand w command args (with_timeout 3000)) as [result ->].
  cbn. destruct (CLICommandResult.success result); cbn; eauto.
Qed.

(** When every child process fails. *)
Hypothesis Hfail : all_queries_fail w.

Lemma executeCommand_fails command args options :
  exists result,
    await (executeCommand w command args options) = Returns result
    /\ CLICommandResult.success result = false.
Proof.
  unfold executeCommand.
  pose proof (Hfail command args (child_options options)) as H.
  fold (child_options options).
  destruct (execFileAsync w command args (child_options options)) as [e|child].
  - cbn. eauto.
  - destruct child as [[t [out|e]]|]; try done.
    unfold race, reject_after. destruct (Nat.leb _ _); cbn; eauto.
Qed.

Lemma attempt_fails {A : Type} command args ms (read : string -> option A) :
  attempt w command args ms read = Returns None.
Proof.
  unfold attempt.
  destruct (executeCommand_fails command args (with_timeout ms)) as (result & -> & Hr).
  cbn. by rewrite Hr.
Qed.

Lemma probe_fails command args :
  exists e, probe w command args = Throws e.
Proof.
  unfold probe. pose proof (Hfail command args (with_timeout 5000)) as H.
  destruct (execFileAsync w command args (with_timeout 5000)) as [e|child]; cbn; [eauto|].
  destruct child as [[t [out|e]]|]; try done. cbn. eauto.
Qed.

Lemma adb_command_settles_when_failing :
  adb_command w <> Hangs.
Proof.
  unfold adb_command, getAndroidAdbPath, resolve_tool.
  destruct (match env_or w _ _ with Some _ => _ | None => _ end); [done|].
  pose proof (default_tool_paths_settles w "platform-tools" "adb") as Hpaths.
  unfold getDefaultAdbPaths.
  destruct (default_tool_paths w "platform-tools" "adb"); cbn; try done.
  destruct (List.find _ _); [done|].
  destruct (probe_fails (if isWindows w then "where" else "which")
              [if isWindows w then "adb.exe" else "adb"]) as [e ->].
  done.
Qed.

Lemma status_when_failing emulatorName :
  getAndroidEmulatorStatus w emulatorName = Returns stopped.
Proof.
  unfold getAndroidEmulatorStatus.
  pose proof adb_command_settles_when_failing as Hadb.
  destruct (adb_command w) as [adbCmd|e|]; cbn; [|done|done].
  unfold getAllRunningEmulators.
  destruct (executeCommand_fails adbCmd ["devices"; "-l"] no_options)
    as (result & -> & Hr).
  assert (getAVDNameFromProcesses w emulatorName = Returns false) as Hps.
  { unfold getAVDNameFromProcesses.
    destruct (if String.eqb (os_platform w) "win32" then _ else _) as [command args].
    destruct (executeCommand_fails command args (with_timeout 3000))
      as (r & -> & Hs). cbn. by rewrite Hs. }
  destruct (_ && _); cbn.
  - by rewrite Hps.
  - destruct (resolve_serials_spec adbCmd
                (emulator_serials (CLICommandResult.stdout result)) [])
      as (m & -> & _ & Hnone).
    rewrite Hnone; [cbn; by rewrite Hps|].
    intros serial status _. apply first_of_none.
    repeat constructor; apply attempt_fails.
Qed.
End Resolver.

(** C1, as stated: two emulators are attached, the AVD name of neither
    can be found out, and the process table shows the requested AVD; the
    resolver answers Starting, not Stopped. *)
Lemma two_unnamed_devices_starting :
  (exists result,
     await (executeCommand two_unnamed_devices "adb" ["devices"; "-l"] no_options)
     = Returns result
     /\ emulator_serials (CLICommandResult.stdout result)
        = [("emulator-5554", "device"); ("emulator-5556", "device")])
  /\ getEmulatorAVDName two_unnamed_devices "adb" "emulator-5554" = Returns None
  /\ getEmulatorAVDName two_unnamed_devices "adb" "emulator-5556" = Returns None
  /\ getAVDNameFromProcesses two_unnamed_devices "Pixel_5" = Returns true
  /\ getAndroidEmulatorStatus two_unnamed_devices "Pixel_5" = Returns starting
  /\ getAndroidEmulatorStatus two_unnamed_devices "Pixel_5" <> Returns stopped.
Proof.
  split; [eexists; split; vm_compute; reflexivity|].
  repeat split; try (vm_compute; reflexivity).
  vm_compute. discriminate.
Qed.

(** C1, amended.  The resolver counts the entries of the name-to-status
    map, that is the attached emulators whose AVD name was found out.
    When the requested name is not in the map and the process scan finds
    it: a map of exactly one entry gives that entry's status; an empty map
    gives Starting; a map of two entries or more gives Stopped.  The map
    is empty when no emulator is attached, and also when emulators are
    attached but none tells its AVD name; every entry of the map comes
    from an attached emulator that told this name. *)
Theorem status_of_avd_seen_only_in_processes :
  forall (w : World) (emulatorName adbCmd : string)
         (runningEmulators : list (string * Status)),
    adb_command w = Returns adbCmd ->
    getAllRunningEmulators w adbCmd = Returns runningEmulators ->
    map_get emulatorName runningEmulators = None ->
    getAVDNameFromProcesses w emulatorName = Returns true ->
    (forall name status,
       runningEmulators = [(name, status)] ->
       getAndroidEmulatorStatus w emulatorName = Returns status)
    /\ (runningEmulators = [] ->
        getAndroidEmulatorStatus w emulatorName = Returns starting)
    /\ (2 <= length runningEmulators ->
        getAndroidEmulatorStatus w emulatorName = Returns stopped)
    /\ (forall result,
          await (executeCommand w adbCmd ["devices"; "-l"] no_options) = Returns result ->
          let attached := emulator_serials (CLICommandResult.stdout result) in
          (attached = [] -> runningEmulators = [])
          /\ ((forall serial status,
                 In (serial, status) attached ->
                 getEmulatorAVDName w adbCmd serial = Returns None) ->
              runningEmulators = [])
          /\ (forall name,
                map_get name runningEmulators <> None ->
                exists serial status,
                  In (serial, status) attached
                  /\ getEmulatorAVDName w adbCmd serial = Returns (Some name))).
Proof.
  intros w emulatorName adbCmd runningEmulators Hadb Hmap Hget Hps.
  assert (getAndroidEmulatorStatus w emulatorName
          = Returns match runningEmulators with
                    | [(_, onlyStatus)] => onlyStatus
                    | [] => starting
                    | _ :: _ :: _ => stopped
                    end) as Hstatus.
  { unfold getAndroidEmulatorStatus. rewrite Hadb. cbn. rewrite Hmap. cbn.
    rewrite Hget, Hps. cbn. by destruct runningEmulators as [|[? ?] [|? ?]]. }
  split; [intros name status ->; exact Hstatus|].
  split; [intros ->; exact Hstatus|].
  split.
  { intros Hlen. rewrite Hstatus.
    destruct runningEmulators as [|[? ?] [|? ?]]; cbn in Hlen; try lia; done. }
  intros result Hresult attached.
  unfold getAllRunningEmulators in Hmap. rewrite Hresult in Hmap.
  destruct (resolve_serials_spec w adbCmd attached []) as (m & Hm & Hin & Hnone).
  destruct (_ && _).
  - injection Hmap as <-. repeat split; try done.
  - fold attached in Hmap. rewrite Hm in Hmap. injection Hmap as <-.
    split; [|split].
    + intros Hatt. apply Hnone. rewrite Hatt. intros ? ? [].
    + exact Hnone.
    + intros name Hname. destruct (Hin name Hname) as [H|H]; [done | exact H].
Qed.

(** The amended C1 on a machine: one emulator attached that names itself
    [Nexus_6] and is booted, [Pixel_5] seen in the process table only; the
    status reported for [Pixel_5] is that of the one device. *)
Lemma one_named_device_status :
  getAndroidEmulatorStatus one_named_device "Pixel_5" = Returns running.
Proof.
  refine (proj1 (status_of_avd_seen_only_in_processes one_named_device "Pixel_5" "adb"
                   [("Nexus_6", running)] _ _ _ _) "Nexus_6" running eq_refl);
    vm_compute; reflexivity.
Defined.

(** C9, as stated: no device bridge can be located, and yet the status
    is Starting, because the process table shows the AVD. *)
Lemma no_device_bridge_starting :
  getAndroidAdbPath no_device_bridge = Returns None
  /\ getAllRunningEmulators no_device_bridge "adb" = Returns []
  /\ getAndroidEmulatorStatus no_device_bridge "Pixel_5" = Returns starting
  /\ getAndroidEmulatorStatus no_device_bridge "Pixel_5" <> Returns stopped.
Proof.
  repeat split; try (vm_compute; reflexivity). vm_compute. discriminate.
Qed.

(** C9, amended.  The resolver never raises; whenever the lookup of the
    device bridge settles it returns one of the three states; and when
    every child process fails it returns Stopped.  (A device bridge that
    cannot be located is not enough for Stopped: the process scan may
    still answer Starting.) *)
Theorem getAndroidEmulatorStatus_total :
  forall (w : World) (emulatorName : string),
    (forall e, getAndroidEmulatorStatus w emulatorName <> Throws e)
    /\ (getAndroidAdbPath w <> Hangs ->
        exists status, getAndroidEmulatorStatus w emulatorName = Returns status)
    /\ (all_queries_fail w ->
        getAndroidEmulatorStatus w emulatorName = Returns stopped).
Proof.
  intros w emulatorName.
  assert (forall adbCmd (handler : JSError -> Run Status),
            exists status,
              try_catch
                (let* runningEmulators := getAllRunningEmulators w adbCmd in
                 match map_get emulatorName runningEmulators with
                 | Some status => Returns status
                 | None =>
                     let* foundInProcesses := getAVDNameFromProcesses w emulatorName in
                     if foundInProcesses
                     then match runningEmulators with
                          | [(_, onlyStatus)] => Returns onlyStatus
                          | [] => Returns starting
                          | _ :: _ :: _ => Returns stopped
                          end
                     else Returns stopped
                 end) handler = Returns status) as Hbody.
  { intros adbCmd handler.
    destruct (getAllRunningEmulators_returns w adbCmd) as [m ->]. cbn.
    destruct (map_get emulatorName m); [eauto|].
    destruct (getAVDNameFromProcesses_returns w emulatorName) as [found ->]. cbn.
    destruct found; [|eauto]. destruct m as [|[? ?] [|? ?]]; eauto. }
  split; [|split].
  - intros e. unfold getAndroidEmulatorStatus.
    destruct (adb_command w) as [adbCmd| |]; try done.
    destruct (Hbody adbCmd (fun _ => Returns stopped)) as [status Hstatus].
    cbn [bind]. rewrite Hstatus. done.
  - intros Hadb. unfold getAndroidEmulatorStatus, adb_command.
    destruct (getAndroidAdbPath w) as [found| |]; [|cbn; eauto|done].
    cbn [bind]. apply Hbody.
  - intros Hfail. by apply status_when_failing.
Qed.

(** ** The heap of the provider *)

Lemma lookup_alter_heap (f : EmulatorItem -> EmulatorItem) (r r' : ref) (h : Heap) :
  alter f r h !! r' = if decide (r = r') then f <$> h !! r' else h !! r'.
Proof.
  rewrite list_lookup_alter. by destruct (decide (r = r')) as [->|Hne].
Qed.

Lemma shape_alter (f : EmulatorItem -> EmulatorItem) (r r' : ref) (h : Heap) :
  (forall e, shape (f e) = shape e) ->
  shape <$> alter f r h !! r' = shape <$> h !! r'.
Proof.
  intros Hf. rewrite lookup_alter_heap. destruct (decide (r = r')); [|done].
  destruct (h !! r'); cbn; [by rewrite Hf | done].
Qed.

Lemma group_children_ext (h h' : Heap) (g : ref) :
  shape <$> h !! g = shape <$> h' !! g ->
  group_children h g = group_children h' g.
Proof.
  unfold group_children, shape.
  destruct (h !! g) as [e|], (h' !! g) as [e'|]; cbn; try done.
  intros [= Hid Hsub Hch]. by rewrite Hsub, Hch.
Qed.

Lemma find_by_id_ext (h h' : Heap) (id : string) (items : list ref) :
  (forall r, In r items -> shape <$> h !! r = shape <$> h' !! r) ->
  find_by_id h id items = find_by_id h' id items.
Proof.
  unfold find_by_id. induction items as [|r items IH]; intros Hsame; [done|].
  cbn. pose proof (Hsame r (or_introl eq_refl)) as Hr.
  assert (match h !! r with
          | Some e => String.eqb (EmulatorItem.id e) id
          | None => false
          end
          = match h' !! r with
            | Some e => String.eqb (EmulatorItem.id e) id
            | None => false
            end) as ->.
  { unfold shape in Hr. destruct (h !! r), (h' !! r); cbn in Hr; try done.
    injection Hr as -> _ _. done. }
  rewrite IH; [done|]. intros r' Hr'. apply Hsame. by right.
Qed.

Lemma find_by_id_found (h : Heap) (id : string) (items : list ref) (r : ref) :
  find_by_id h id items = Some r ->
  In r items /\ exists e, h !! r = Some e /\ EmulatorItem.id e = id.
Proof.
  unfold find_by_id. intros H. apply List.find_some in H as [Hin Hr].
  split; [done|]. destruct (h !! r) as [e|]; [|done].
  exists e. split; [done|]. by apply String.eqb_eq.
Qed.

Lemma first_some_found {A B : Type} (f : A -> option B) (xs : list A) (b : B) :
  first_some f xs = Some b -> exists x, In x xs /\ f x = Some b.
Proof.
  induction xs as [|x xs IH]; cbn; [done|].
  destruct (f x) eqn:Hx.
  - intros [= <-]. exists x. split; [by left | done].
  - intros H. destruct (IH H) as (x' & Hin & Hx'). exists x'. split; [by right | done].
Qed.

Lemma first_some_ext {A B : Type} (f f' : A -> option B) (xs : list A) :
  (forall x, In x xs -> f x = f' x) -> first_some f xs = first_some f' xs.
Proof.
  induction xs as [|x xs IH]; intros H; cbn; [done|].
  rewrite (H x (or_introl eq_refl)), IH; [done|]. intros x' Hx'. apply H. by right.
Qed.

(** Two stores with the same lists, and heaps that agree in shape, find
    the same records. *)
Lemma find_record_ext (st st' : Store) (item : EmulatorItem) :
  iosEmulators st' = iosEmulators st ->
  androidEmulators st' = androidEmulators st ->
  (forall r, shape <$> heap st' !! r = shape <$> heap st !! r) ->
  find_record st' item = find_record st item.
Proof.
  intros Hios Handroid Hshape. unfold find_record, findIOSEmulator, findAndroidEmulator.
  rewrite Hios, Handroid. destruct (EmulatorItem.platform item).
  - apply first_some_ext. intros g _.
    rewrite (group_children_ext (heap st') (heap st) g (Hshape g)).
    apply find_by_id_ext. intros r _. apply Hshape.
  - apply find_by_id_ext. intros r _. apply Hshape.
Qed.

Lemma find_record_found (st : Store) (item : EmulatorItem) (r : ref) :
  find_record st item = Some r ->
  exists e, heap st !! r = Some e /\ EmulatorItem.id e = EmulatorItem.id item.
Proof.
  unfold find_record, findIOSEmulator, findAndroidEmulator.
  destruct (EmulatorItem.platform item); intros H.
  - apply first_some_found in H as (g & _ & H). by apply find_by_id_found in H as [_ H].
  - by apply find_by_id_found in H as [_ H].
Qed.

Lemma find_record_mark (s : Status) (i : string) (r : ref) (st : Store)
    (item : EmulatorItem) :
  find_record (mark s i r st) item = find_record st item.
Proof.
  apply find_record_ext; try done. intros r'. cbn. by apply shape_alter.
Qed.

Lemma status_at_mark (s : Status) (i : string) (r : ref) (st : Store) :
  is_Some (heap st !! r) -> status_at (mark s i r st) r = Some s.
Proof.
  intros [e He]. unfold status_at, mark. cbn.
  rewrite lookup_alter_heap. destruct (decide (r = r)); [|done]. by rewrite He.
Qed.

(** ** Booting an iOS simulator *)

Lemma validateUDID_truthy (udid : string) :
  validateUDID udid = true -> truthy udid = true.
Proof.
  destruct udid; [|done]. vm_compute. discriminate.
Qed.

(** C6.  Take an item of the tree that stands for an iOS simulator with
    a valid UDID (not a group, not seen as running) whose record the store
    holds, on a machine where the toolchain is available and the boot
    command reports a failure.  If the command's error output contains
    "already booted", [bootIOSSimulator] returns normally and
    [startEmulator] ends with the record still Starting, no message shown
    and the follow-up check scheduled.  If it does not,
    [bootIOSSimulator] raises an error, and [startEmulator] shows it to
    the user and puts the record back to Stopped. *)
Theorem boot_failure_is_benign_only_when_already_booted :
  forall (w : World) (st : Store) (item record : ref) (it : EmulatorItem)
         (udid : string) (result : CLICommandResult),
    heap st !! item = Some it ->
    EmulatorItem.isCategory it = false ->
    EmulatorItem.isSubtype it = false ->
    EmulatorItem.status it <> running ->
    EmulatorItem.platform it = ios ->
    EmulatorItem.udid it = Some udid ->
    validateUDID udid = true ->
    findIOSEmulator st (EmulatorItem.id it) = Some record ->
    checkXcodeAvailable w = Returns true ->
    await (executeCommand w "xcrun" ["simctl"; "boot"; udid] no_options) = Returns result ->
    CLICommandResult.success result = false ->
    (includes (CLICommandResult.stderr result) "already booted" = true ->
     bootIOSSimulator w udid = Returns tt
     /\ fst (startEmulator w item st) = Returns tt
     /\ shown (snd (startEmulator w item st)) = shown st
     /\ status_at (snd (startEmulator w item st)) record = Some starting
     /\ fired (snd (startEmulator w item st)) = S (fired st)
     /\ timers (snd (startEmulator w item st)) = timers st ++ [2000])
    /\ (includes (CLICommandResult.stderr result) "already booted" = false ->
        bootIOSSimulator w udid
        = Throws (Error ("Failed to boot simulator: " +:+ failure_text result))
        /\ fst (startEmulator w item st) = Returns tt
        /\ shown (snd (startEmulator w item st))
           = shown st
             ++ ["Failed to start emulator: Failed to boot simulator: "
                 +:+ failure_text result]
        /\ status_at (snd (startEmulator w item st)) record = Some stopped
        /\ fired (snd (startEmulator w item st)) = S (S (fired st))).
Proof.
  intros w st item record it udid result Hitem Hcat Hsub Hstatus Hplatform Hudid
    Hvalid Hfind Hxcode Hboot Hfailed.
  assert (find_record st it = Some record) as Hrecord
    by (unfold find_record; by rewrite Hplatform).
  destruct (find_record_found st it record Hrecord) as (e & He & _).
  assert (forall already,
            includes (CLICommandResult.stderr result) "already booted" = already ->
            bootIOSSimulator w udid
            = if already then Returns tt
              else Throws (Error ("Failed to boot simulator: " +:+ failure_text result)))
    as Hbooted.
  { intros already Halready. unfold bootIOSSimulator.
    rewrite Hvalid, Hxcode. cbn. rewrite Hboot. cbn. by rewrite Hfailed, Halready. }
  assert (forall already,
            includes (CLICommandResult.stderr result) "already booted" = already ->
            startEmulator w item st
            = if already
              then (Returns tt,
                    schedule_check 2000 (fire (mark starting sync_spin record st)))
              else (Returns tt,
                    fire (mark stopped circle_outline record
                            (showErrorMessage
                               ("Failed to start emulator: Failed to boot simulator: "
                                +:+ failure_text result)
                               (fire (mark starting sync_spin record st))))))
    as Hstart.
  { intros already Halready. unfold startEmulator.
    rewrite Hitem, Hcat, Hsub. cbn [orb].
    rewrite bool_decide_eq_false_2 by done.
    unfold sbind, stry, exec, boot, mark_starting, lift, sbind.
    rewrite Hrecord, Hplatform, Hudid, (validateUDID_truthy udid Hvalid).
    rewrite (Hbooted already Halready). destruct already; [done|].
    assert (forall msg,
              find_record
                (showErrorMessage msg (fire (mark starting sync_spin record st))) it
              = Some record) as Hagain.
    { intros msg. rewrite <- Hrecord.
      etransitivity; [|apply (find_record_mark starting sync_spin record)].
      by apply find_record_ext. }
    unfold reset_status. rewrite Hagain. reflexivity. }
  split; intros Halready; rewrite (Hstart _ Halready), (Hbooted _ Halready); cbn.
  - repeat split; try done. apply (status_at_mark starting sync_spin record st). eauto.
  - repeat split; try done.
    unfold status_at. cbn. rewrite !lookup_alter_heap.
    destruct (decide (record = record)); [|done]. by rewrite He.
Qed.

(** The C6 theorem on a machine: the store after a first refresh of a Mac
    that lists one phone, shut down; the phone is asked to boot and
    [simctl] answers that it is already booted. *)
Lemma boot_already_booted_phone :
  let w := mac_with_phone "Shutdown" already_booted in
  let st := refresh w empty_store in
  status_at st 0 = Some stopped
  /\ bootIOSSimulator w example_udid = Returns tt
  /\ status_at (snd (startEmulator w 0 st)) 0 = Some starting
  /\ shown (snd (startEmulator w 0 st)) = [].
Proof.
  intros w st. split; [vm_compute; reflexivity|].
  edestruct (boot_failure_is_benign_only_when_already_booted w st 0 0)
    as [Hbenign _];
    [vm_compute; reflexivity | reflexivity | reflexivity | vm_compute; discriminate
    | reflexivity | reflexivity | vm_compute; reflexivity | vm_compute; reflexivity
    | vm_compute; reflexivity | vm_compute; reflexivity | reflexivity |].
  destruct Hbenign as (Hboot & _ & Hshown & Hstatus & _); [vm_compute; reflexivity|].
  split; [exact Hboot|]. split; [exact Hstatus|]. exact Hshown.
Defined.

(** ** Run-state transitions *)

Section Moves.
Variable P : string -> Status -> Prop.

Lemma moves_refl (h : Heap) : moves P h h.
Proof. intros r e He. exists e. by repeat split; [|left]. Qed.

Lemma moves_trans (h1 h2 h3 : Heap) :
  moves P h1 h2 -> moves P h2 h3 -> moves P h1 h3.
Proof.
  intros H12 H23 r e1 He1.
  destruct (H12 r e1 He1) as (e2 & He2 & Hid2 & Hs2).
  destruct (H23 r e2 He2) as (e3 & He3 & Hid3 & Hs3).
  exists e3. split; [done|]. split; [congruence|].
  destruct Hs3 as [Hs3|Hs3]; [rewrite Hs3; exact Hs2 | right; by rewrite <- Hid2].
Qed.

Lemma moves_alloc (h : Heap) (x : EmulatorItem) : moves P h (fst (alloc h x)).
Proof.
  intros r e He. exists e. cbn. split; [by apply lookup_app_l_Some|].
  by split; [|left].
Qed.

Lemma moves_alter_status (h : Heap) (r : ref) (s : Status) (i : string) :
  (forall e, h !! r = Some e -> P (EmulatorItem.id e) s) ->
  moves P h (alter (EmulatorItem.set_status_icon s i) r h).
Proof.
  intros HP r' e He. rewrite lookup_alter_heap.
  destruct (decide (r = r')) as [->|_].
  - rewrite He. eexists. split; [done|]. split; [done|]. right. by apply HP.
  - exists e. by repeat split; [|left].
Qed.

Lemma moves_alter_version (h : Heap) (r : ref) (v : option string) :
  moves P h (alter (EmulatorItem.set_iosVersion v) r h).
Proof.
  intros r' e He. rewrite lookup_alter_heap.
  destruct (decide (r = r')) as [->|_].
  - rewrite He. eexists. split; [done|]. by split; [|left].
  - exists e. by repeat split; [|left].
Qed.

Lemma update_status_moves (h : Heap) (r : ref) (s : Status) (i : string) :
  (forall e, h !! r = Some e -> P (EmulatorItem.id e) s) ->
  moves P h (fst (update_status s i r h)).
Proof.
  intros HP. unfold update_status. destruct (h !! r) as [e|] eqn:He.
  - destruct (_ && _); [apply moves_refl|].
    apply moves_alter_status. intros e' He'. apply HP. congruence.
  - apply moves_refl.
Qed.

Lemma update_version_moves (h : Heap) (r : ref) (v : option string) :
  moves P h (fst (update_version v r h)).
Proof.
  unfold update_version. destruct (h !! r) as [e|].
  - destruct (bool_decide _); [apply moves_refl | apply moves_alter_version].
  - apply moves_refl.
Qed.

Lemma mark_moves (st : Store) (r : ref) (s : Status) (i : string) :
  (forall e, heap st !! r = Some e -> P (EmulatorItem.id e) s) ->
  moves P (heap st) (heap (mark s i r st)).
Proof. apply moves_alter_status. Qed.
End Moves.

Lemma index_items_keyed (h : Heap) (items : list ref) :
  forall m, keyed_by_id h m -> keyed_by_id h (index_items h items m).
Proof.
  unfold index_items. induction items as [|r items IH]; intros m Hm; [done|].
  cbn. apply IH. destruct (h !! r) as [e|] eqn:He; [|done].
  intros k r'. rewrite lookup_insert. destruct (decide (EmulatorItem.id e = k)) as [<-|_].
  - intros [= <-]. eauto.
  - apply Hm.
Qed.

Lemma existingIOS_keyed (st : Store) : keyed_by_id (heap st) (existingIOS st).
Proof.
  unfold existingIOS.
  assert (forall gs m,
            keyed_by_id (heap st) m ->
            keyed_by_id (heap st)
              (foldl (fun m r => index_items (heap st) (group_children (heap st) r) m)
                 m gs)) as H.
  { induction gs as [|g gs IH]; intros m Hm; [done|].
    cbn. apply IH. by apply index_items_keyed. }
  apply H. intros k r. by rewrite lookup_empty.
Qed.

Lemma existingAndroid_keyed (st : Store) : keyed_by_id (heap st) (existingAndroid st).
Proof.
  apply index_items_keyed. intros k r. by rewrite lookup_empty.
Qed.

(** Invariants through code that awaits. *)
Section Preserves.
Context {S : Type} (I : S -> Prop).

Lemma preserves_sret {A : Type} (a : A) : preserves I (sret a).
Proof. by intros s Hs. Qed.

Lemma preserves_lift {A : Type} (m : Run A) : preserves I (lift (S := S) m).
Proof. by intros s Hs. Qed.

Lemma preserves_exec (f : S -> S) :
  (forall s, I s -> I (f s)) -> preserves I (exec f).
Proof. intros Hf s Hs. by apply Hf. Qed.

Lemma preserves_sbind {A B : Type} (m : Step S A) (k : A -> Step S B) :
  preserves I m -> (forall a, preserves I (k a)) -> preserves I (sbind m k).
Proof.
  intros Hm Hk s Hs. unfold sbind. specialize (Hm s Hs).
  destruct (m s) as [[a|e|] s']; cbn in *; [by apply Hk | done | done].
Qed.

(** The continuation of an awaited call runs on what the call returned. *)
Lemma preserves_await {A B : Type} (m : Run A) (k : A -> Step S B) :
  (forall a, m = Returns a -> preserves I (k a)) ->
  preserves I (sbind (lift m) k).
Proof.
  intros Hk s Hs. unfold sbind, lift.
  destruct m as [a|e|]; cbn; [by apply Hk | done | done].
Qed.

Lemma preserves_stry {A : Type} (m : Step S A) (h : JSError -> Step S A) :
  preserves I m -> (forall e, preserves I (h e)) -> preserves I (stry m h).
Proof.
  intros Hm Hh s Hs. unfold stry. specialize (Hm s Hs).
  destruct (m s) as [[a|e|] s']; cbn in *; [done | by apply Hh | done].
Qed.
End Preserves.

Section RefreshMoves.
Variable w : World.
Variable st : Store.

Let P := probed w.
Let I (f : LoadFrame) : Prop := moves P (heap st) (heap (store f)).

Lemma ios_step_moves (existing : gmap string ref) (simulators : list IOSSimulator)
    (sim : IOSSimulator) (acc : Heap * SubtypeMap * bool) :
  keyed_by_id (heap st) existing ->
  listIOSSimulators w = Returns simulators -> In sim simulators ->
  moves P (heap st) (fst (fst acc)) ->
  moves P (heap st) (fst (fst (ios_step existing acc sim))).
Proof.
  intros Hkeyed Hlist Hin Hacc. destruct acc as [[h m] c]. cbn in Hacc.
  unfold ios_step.
  destruct (existing !! ("ios-" +:+ IOSSimulator.udid sim)) as [r|] eqn:Hr.
  - destruct (Hkeyed _ _ Hr) as (e & He & Hid).
    destruct (Hacc r e He) as (e' & He' & Hid' & _).
    pose proof (update_status_moves P h r
                  (if isSimulatorBooted sim then running else stopped)
                  (if isSimulatorBooted sim then circle_filled else circle_outline))
      as H1.
    destruct (update_status _ _ r h) as [h1 c1]. cbn in H1.
    pose proof (update_version_moves P h1 r
                  (extractIOSVersion (IOSSimulator.runtime sim))) as H2.
    destruct (update_version _ r h1) as [h2 c2]. cbn in *.
    apply (moves_trans P _ h); [done|]. apply (moves_trans P _ h1); [|done].
    apply H1. intros e0 He0. assert (e0 = e') as -> by congruence.
    rewrite Hid', Hid. left. exists simulators, sim. by repeat split.
  - cbn. apply (moves_trans P _ h); [done|]. apply (moves_alloc P h).
Qed.

Lemma ios_loop_moves (existing : gmap string ref) (simulators : list IOSSimulator) :
  keyed_by_id (heap st) existing ->
  listIOSSimulators w = Returns simulators ->
  forall rest acc,
    (forall sim, In sim rest -> In sim simulators) ->
    moves P (heap st) (fst (fst acc)) ->
    moves P (heap st) (fst (fst (foldl (ios_step existing) acc rest))).
Proof.
  intros Hkeyed Hlist. induction rest as [|sim rest IH]; intros acc Hsub Hacc; [done|].
  cbn. apply IH.
  - intros sim' Hsim'. apply Hsub. by right.
  - apply (ios_step_moves existing simulators); try done. apply Hsub. by left.
Qed.

Lemma add_groups_moves (subtypeMap : SubtypeMap) :
  forall subtypes acc,
    moves P (heap st) (fst acc) ->
    moves P (heap st) (fst (foldl (add_group subtypeMap) acc subtypes)).
Proof.
  induction subtypes as [|subtype subtypes IH]; intros [h items] Hacc; [done|].
  cbn. apply IH. unfold add_group.
  destruct (subtype_get subtype subtypeMap) as [[|r rs]|]; try done.
  cbn. apply (moves_trans P _ h); [done|]. apply (moves_alloc P h).
Qed.

Lemma ios_listed_moves (existing : gmap string ref) (simulators : list IOSSimulator)
    (f : LoadFrame) :
  keyed_by_id (heap st) existing ->
  listIOSSimulators w = Returns simulators ->
  I f -> I (ios_listed existing simulators f).
Proof.
  intros Hkeyed Hlist Hf. unfold I, ios_listed.
  pose proof (ios_loop_moves existing simulators Hkeyed Hlist simulators
                (heap (store f), [], hasChanges f) (fun _ H => H) Hf) as Hloop.
  destruct (foldl (ios_step existing) _ simulators) as [[h m] c]. cbn in Hloop.
  pose proof (add_groups_moves m subtypeOrder (h, iosItems f) Hloop) as Hgroups.
  destruct (foldl (add_group m) _ subtypeOrder) as [h' items]. done.
Qed.

Lemma push_ios_moves (x : EmulatorItem) (f : LoadFrame) : I f -> I (push_ios x f).
Proof.
  intros Hf. unfold I, push_ios. cbn.
  apply (moves_trans P _ (heap (store f))); [done|]. apply (moves_alloc P).
Qed.

Lemma push_android_moves (x : EmulatorItem) (f : LoadFrame) :
  I f -> I (push_android x f).
Proof.
  intros Hf. unfold I, push_android. cbn.
  apply (moves_trans P _ (heap (store f))); [done|]. apply (moves_alloc P).
Qed.

Lemma load_ios_moves : preserves I (load_ios w (existingIOS st)).
Proof.
  unfold load_ios. apply preserves_await. intros [|] _.
  - apply preserves_stry.
    + apply preserves_await. intros simulators Hlist. apply preserves_exec.
      intros f. apply ios_listed_moves; [apply existingIOS_keyed | done].
    + intros e. apply preserves_exec. intros f. apply push_ios_moves.
  - apply preserves_exec. intros f. apply push_ios_moves.
Qed.

Lemma android_step_moves (existing : gmap string ref)
    (emulators : list AndroidEmulator) (emu : AndroidEmulator) (newStatus : Status)
    (f : LoadFrame) :
  keyed_by_id (heap st) existing ->
  listAndroidEmulators w = Returns emulators -> In emu emulators ->
  getAndroidEmulatorStatus w (AndroidEmulator.name emu) = Returns newStatus ->
  I f -> I (android_step existing emu newStatus f).
Proof.
  intros Hkeyed Hlist Hin Hstatus Hf. unfold I, android_step.
  destruct (existing !! ("android-" +:+ AndroidEmulator.name emu)) as [r|] eqn:Hr.
  - destruct (Hkeyed _ _ Hr) as (e & He & Hid).
    destruct (Hf r e He) as (e' & He' & Hid' & _).
    pose proof (update_status_moves P (heap (store f)) r newStatus
                  (android_icon newStatus)) as H1.
    destruct (update_status _ _ r (heap (store f))) as [h1 c1]. cbn in *.
    apply (moves_trans P _ (heap (store f))); [done|].
    apply H1. intros e0 He0. assert (e0 = e') as -> by congruence.
    rewrite Hid', Hid. right. exists emulators, emu. by repeat split.
  - by apply push_android_moves.
Qed.

Lemma android_loop_moves (existing : gmap string ref)
    (emulators : list AndroidEmulator) :
  keyed_by_id (heap st) existing ->
  listAndroidEmulators w = Returns emulators ->
  forall rest,
    (forall emu, In emu rest -> In emu emulators) ->
    preserves I (android_loop w existing rest).
Proof.
  intros Hkeyed Hlist. induction rest as [|emu rest IH]; intros Hsub.
  - apply preserves_sret.
  - cbn [android_loop]. apply preserves_await. intros newStatus Hstatus.
    apply preserves_sbind.
    + apply preserves_exec. intros f.
      apply (android_step_moves existing emulators); try done. apply Hsub. by left.
    + intros _. apply IH. intros emu' Hemu'. apply Hsub. by right.
Qed.

Lemma load_android_moves : preserves I (load_android w (existingAndroid st)).
Proof.
  unfold load_android. apply preserves_await. intros [|] _.
  - apply preserves_stry.
    + apply preserves_await. intros emulators Hlist.
      apply (android_loop_moves _ emulators); [apply existingAndroid_keyed | done | done].
    + intros e. apply preserves_exec. intros f. apply push_android_moves.
  - apply preserves_exec. intros f. apply push_android_moves.
Qed.

(** A refresh leaves every object its run state or gives it the state
    the probe reports for its id. *)
Lemma loadEmulators_moves :
  moves (probed w) (heap st) (heap (snd (loadEmulators w st))).
Proof.
  unfold loadEmulators, load_frame. cbn [snd].
  match goal with
  | |- context [stry ?m ?h ?f] =>
      assert (preserves I (stry m h)) as Hload
  end.
  { apply preserves_stry.
    - apply preserves_sbind; [apply load_ios_moves|]. intros _.
      apply preserves_sbind; [apply load_android_moves|]. intros _.
      apply preserves_exec. intros f Hf. unfold I, commit in *.
      by destruct (_ || _).
    - intros e. apply preserves_exec. intros f Hf. exact Hf. }
  apply Hload. apply moves_refl.
Qed.
End RefreshMoves.

Lemma findIOSEmulator_found (st : Store) (id : string) (r : ref) :
  findIOSEmulator st id = Some r ->
  exists e, heap st !! r = Some e /\ EmulatorItem.id e = id.
Proof.
  unfold findIOSEmulator. intros H.
  apply first_some_found in H as (g & _ & H). by apply find_by_id_found in H as [_ H].
Qed.

Lemma findAndroidEmulator_found (st : Store) (id : string) (r : ref) :
  findAndroidEmulator st id = Some r ->
  exists e, heap st !! r = Some e /\ EmulatorItem.id e = id.
Proof.
  unfold findAndroidEmulator. intros H. by apply find_by_id_found in H as [_ H].
Qed.

Section CheckMoves.
Variable w : World.
Variable st : Store.

Let P := probed w.
Let I (acc : CheckFrame) : Prop := moves P (heap st) (heap (fst acc)).

Lemma check_ios_step_moves (simulators : list IOSSimulator) (sim : IOSSimulator)
    (acc : CheckFrame) :
  listIOSSimulators w = Returns simulators -> In sim simulators ->
  I acc -> I (check_ios_step acc sim).
Proof.
  intros Hlist Hin Hacc. destruct acc as [st' c]. unfold I, check_ios_step in *.
  destruct (findIOSEmulator st' _) as [existing|] eqn:Hfind; [|done].
  destruct (findIOSEmulator_found _ _ _ Hfind) as (e & He & Hid).
  rewrite He. destruct (bool_decide _); [done|]. cbn [fst] in *.
  apply (moves_trans P _ (heap st')); [done|].
  apply mark_moves. intros e0 He0. assert (e0 = e) as -> by congruence.
  rewrite Hid. left. exists simulators, sim. by repeat split.
Qed.

Lemma check_ios_loop_moves (simulators : list IOSSimulator) :
  listIOSSimulators w = Returns simulators ->
  forall rest acc,
    (forall sim, In sim rest -> In sim simulators) ->
    I acc -> I (foldl check_ios_step acc rest).
Proof.
  intros Hlist. induction rest as [|sim rest IH]; intros acc Hsub Hacc; [done|].
  cbn. apply IH.
  - intros sim' Hsim'. apply Hsub. by right.
  - apply (check_ios_step_moves simulators); try done. apply Hsub. by left.
Qed.

Lemma check_ios_moves : preserves I (check_ios w).
Proof.
  unfold check_ios. apply preserves_await. intros [|] _; [|apply preserves_sret].
  apply preserves_stry; [|intros e; apply preserves_sret].
  apply preserves_await. intros simulators Hlist. apply preserves_exec.
  intros acc. by apply (check_ios_loop_moves simulators).
Qed.

Lemma check_android_step_moves (emulators : list AndroidEmulator)
    (emu : AndroidEmulator) :
  listAndroidEmulators w = Returns emulators -> In emu emulators ->
  preserves I (check_android_step w emu).
Proof.
  intros Hlist Hin acc Hacc. unfold check_android_step.
  destruct (findAndroidEmulator (fst acc) _) as [existing|] eqn:Hfind; [|done].
  destruct (findAndroidEmulator_found _ _ _ Hfind) as (e & He & Hid).
  unfold stry, sbind, lift, exec, sret.
  destruct (getAndroidEmulatorStatus w (AndroidEmulator.name emu))
    as [newStatus| |] eqn:Hstatus; cbn; try done.
  destruct acc as [st' c]. unfold I, check_android_update in *. cbn [fst] in *.
  rewrite He. destruct (bool_decide _); [done|]. cbn [fst].
  apply (moves_trans P _ (heap st')); [done|].
  apply mark_moves. intros e0 He0. assert (e0 = e) as -> by congruence.
  rewrite Hid. right. exists emulators, emu. by repeat split.
Qed.

Lemma check_android_loop_moves (emulators : list AndroidEmulator) :
  listAndroidEmulators w = Returns emulators ->
  forall rest,
    (forall emu, In emu rest -> In emu emulators) ->
    preserves I (check_android_loop w rest).
Proof.
  intros Hlist. induction rest as [|emu rest IH]; intros Hsub.
  - apply preserves_sret.
  - cbn [check_android_loop]. apply preserves_sbind.
    + apply (check_android_step_moves emulators); [done|]. apply Hsub. by left.
    + intros _. apply IH. intros emu' Hemu'. apply Hsub. by right.
Qed.

Lemma check_android_moves : preserves I (check_android w).
Proof.
  unfold check_android. apply preserves_await. intros [|] _; [|apply preserves_sret].
  apply preserves_stry; [|intros e; apply preserves_sret].
  apply preserves_await. intros emulators Hlist.
  by apply (check_android_loop_moves emulators).
Qed.

(** A status re-check leaves every object its run state or gives it the
    state the probe reports for its id. *)
Lemma checkStatusChanges_moves :
  moves (probed w) (heap st) (heap (snd (checkStatusChanges w st))).
Proof.
  unfold checkStatusChanges, check_frame. cbn [snd].
  match goal with
  | |- context [stry ?m ?h ?f] =>
      assert (preserves I (stry m h)) as Hcheck
  end.
  { apply preserves_stry; [|intros e; apply preserves_sret].
    apply preserves_sbind; [apply check_ios_moves|]. intros _.
    apply preserves_sbind; [apply check_android_moves|]. intros _.
    apply preserves_exec. intros acc Hacc. unfold I, fire_if_changed in *.
    by destruct (snd acc). }
  apply (Hcheck (st, false)). apply moves_refl.
Qed.
End CheckMoves.

Section BootMoves.
Variable w : World.
Variable st : Store.

Let I (st' : Store) : Prop := moves boot_marks (heap st) (heap st').

Lemma mark_found_moves (item : EmulatorItem) (s : Status) (i : string) (st' : Store) :
  boot_marks "" s ->
  I st' ->
  I (match find_record st' item with
     | Some r => fire (mark s i r st')
     | None => st'
     end).
Proof.
  intros Hs Hst'. destruct (find_record st' item) as [r|]; [|done].
  unfold I. cbn. apply (moves_trans boot_marks _ (heap st')); [done|].
  apply moves_alter_status. intros e _. exact Hs.
Qed.

(** A boot request leaves every object its run state or sets it to
    Starting or Stopped. *)
Lemma startEmulator_moves (item : ref) :
  moves boot_marks (heap st) (heap (snd (startEmulator w item st))).
Proof.
  unfold startEmulator. destruct (heap st !! item) as [it|]; [|apply moves_refl].
  destruct (_ || _); [apply moves_refl|].
  destruct (bool_decide _); [apply moves_refl|].
  match goal with
  | |- context [sbind ?m ?k st] => assert (preserves I (sbind m k)) as Hstart
  end.
  { apply preserves_sbind.
    { apply preserves_exec. intros st'. apply mark_found_moves. by left. }
    intros _. apply preserves_stry.
    - unfold boot. apply preserves_sbind.
      + destruct (EmulatorItem.platform it), (EmulatorItem.udid it) as [udid|],
          (EmulatorItem.name it) as [name|];
          repeat first [ apply preserves_sret
                       | apply preserves_lift
                       | match goal with
                         | |- preserves _ (if ?b then _ else _) => destruct b
                         end
                       | apply preserves_sbind; [|intros _]
                       | apply preserves_exec; by intros st' Hst' ].
      + intros _. apply preserves_exec. by intros st' Hst'.
    - intros e. apply preserves_sbind.
      + apply preserves_exec. by intros st' Hst'.
      + intros _. apply preserves_exec. intros st'. apply mark_found_moves. by right. }
  apply Hstart. apply moves_refl.
Qed.

(** An item seen as running is not started again. *)
Lemma startEmulator_running (item : ref) (it : EmulatorItem) :
  heap st !! item = Some it -> EmulatorItem.status it = running ->
  startEmulator w item st = (Returns tt, st).
Proof.
  intros Hitem Hrunning. unfold startEmulator. rewrite Hitem.
  destruct (_ || _); [done|]. by rewrite bool_decide_eq_true_2.
Qed.
End BootMoves.

(** C4, as stated: a record that is Stopped goes straight to Running
    when a probe finds its device booted, in the status re-check and in the
    full refresh alike. *)
Lemma stopped_to_running_by_probe :
  let st := refresh (mac_with_phone "Shutdown" already_booted) empty_store in
  let w := mac_with_phone "Booted" already_booted in
  status_at st 0 = Some stopped
  /\ status_at (snd (checkStatusChanges w st)) 0 = Some running
  /\ status_at (snd (loadEmulators w st)) 0 = Some running.
Proof.
  repeat split; vm_compute; reflexivity.
Qed.

(** C4, amended.  There is no transition guard.  A boot request leaves
    every record its run state or sets it to Starting (the optimistic
    mark) or to Stopped (the mark taken back when the boot fails), and does
    nothing at all for an item seen as Running.  A full refresh and a
    status re-check leave every record its run state or set it to the state
    the probe reports for the record's id, whatever the state was: Stopped
    goes straight to Running when the device is found booted. *)
Theorem transitions_performed :
  forall (w : World) (st : Store),
    (forall item, moves boot_marks (heap st) (heap (snd (startEmulator w item st))))
    /\ (forall item it,
          heap st !! item = Some it -> EmulatorItem.status it = running ->
          startEmulator w item st = (Returns tt, st))
    /\ moves (probed w) (heap st) (heap (snd (loadEmulators w st)))
    /\ moves (probed w) (heap st) (heap (snd (checkStatusChanges w st))).
Proof.
  intros w st. split; [|split; [|split]].
  - apply startEmulator_moves.
  - apply startEmulator_running.
  - apply loadEmulators_moves.
  - apply checkStatusChanges_moves.
Qed.

(** ** Refreshing twice *)

Lemma subtype_get_push (k k' : IOSDeviceSubtype) (r : ref) (m : SubtypeMap) :
  subtype_get k' (subtype_push k r m)
  = if decide (k = k')
    then Some (match subtype_get k m with Some rs => rs | None => [] end ++ [r])
    else subtype_get k' m.
Proof.
  induction m as [|[k0 v] m IH]; cbn.
  - destruct (decide (k = k')) as [->|Hne].
    + by rewrite bool_decide_eq_true_2.
    + by rewrite bool_decide_eq_false_2.
  - destruct (decide (k0 = k)) as [->|Hk0].
    + rewrite bool_decide_eq_true_2 by done. cbn.
      destruct (decide (k = k')) as [->|Hne].
      * by rewrite bool_decide_eq_true_2.
      * by rewrite bool_decide_eq_false_2.
    + rewrite (bool_decide_eq_false_2 (k0 = k)) by done. cbn.
      destruct (decide (k0 = k')) as [->|Hk0'].
      * rewrite bool_decide_eq_true_2 by done.
        destruct (decide (k = k')); [congruence | done].
      * rewrite bool_decide_eq_false_2 by done. exact IH.
Qed.

Lemma has_group_push (k k' : IOSDeviceSubtype) (r : ref) (m : SubtypeMap) :
  has_group (subtype_push k r m) k' = has_group m k' || bool_decide (k = k').
Proof.
  unfold has_group. rewrite subtype_get_push.
  destruct (decide (k = k')) as [->|Hne].
  - rewrite bool_decide_eq_true_2 by done. rewrite orb_true_r.
    by destruct (subtype_get k' m) as [[|? ?]|].
  - rewrite bool_decide_eq_false_2 by done. by rewrite orb_false_r.
Qed.

Section Keeps.
Variable Q : string -> Prop.

Lemma keeps_refl (h : Heap) : keeps Q h h.
Proof. intros r e He. exists e. by repeat split; [|left]. Qed.

Lemma keeps_trans (h1 h2 h3 : Heap) :
  keeps Q h1 h2 -> keeps Q h2 h3 -> keeps Q h1 h3.
Proof.
  intros H12 H23 r e1 He1.
  destruct (H12 r e1 He1) as (e2 & He2 & Hshape2 & Hsame2).
  destruct (H23 r e2 He2) as (e3 & He3 & Hshape3 & Hsame3).
  exists e3. split; [done|]. split; [congruence|].
  destruct Hsame2 as [->|HQ]; [|by right].
  destruct Hsame3 as [->|HQ]; [by left | by right].
Qed.

Lemma keeps_alloc (h : Heap) (x : EmulatorItem) : keeps Q h (fst (alloc h x)).
Proof.
  intros r e He. exists e. cbn. split; [by apply lookup_app_l_Some|].
  by split; [|left].
Qed.

Lemma keeps_alter (h : Heap) (r : ref) (f : EmulatorItem -> EmulatorItem) :
  (forall e, shape (f e) = shape e) ->
  (forall e, h !! r = Some e -> Q (EmulatorItem.id e)) ->
  keeps Q h (alter f r h).
Proof.
  intros Hf HQ r' e He. rewrite lookup_alter_heap.
  destruct (decide (r = r')) as [->|_].
  - rewrite He. eexists. split; [done|]. split; [apply Hf|]. right. by apply HQ.
  - exists e. by repeat split; [|left].
Qed.
End Keeps.

Lemma keeps_weaken (Q Q' : string -> Prop) (h h' : Heap) :
  (forall id, Q id -> Q' id) -> keeps Q h h' -> keeps Q' h h'.
Proof.
  intros HQ Hkeeps r e He. destruct (Hkeeps r e He) as (e' & He' & Hshape & Hsame).
  exists e'. split; [done|]. split; [done|]. destruct Hsame; [by left | right; eauto].
Qed.

Lemma shape_id (e e' : EmulatorItem) :
  shape e' = shape e -> EmulatorItem.id e' = EmulatorItem.id e.
Proof. unfold shape. by intros [= -> _ _]. Qed.

(** The two kinds of id never meet. *)
Lemma ios_id_not_android (id : string) : is_ios_id id -> is_android_id id -> False.
Proof. intros [u ->] [n Hn]. discriminate. Qed.

Lemma ios_id_inj (u1 u2 : string) : "ios-" +:+ u1 = "ios-" +:+ u2 -> u1 = u2.
Proof. cbn. by intros [=]. Qed.

Lemma android_id_inj (n1 n2 : string) : "android-" +:+ n1 = "android-" +:+ n2 -> n1 = n2.
Proof. cbn. by intros [=]. Qed.

(** What the two updates of an existing object do. *)
Lemma update_status_spec (s : Status) (i : string) (r : ref) (h : Heap) (e : EmulatorItem) :
  h !! r = Some e ->
  exists e',
    fst (update_status s i r h) !! r = Some e'
    /\ EmulatorItem.status e' = s
    /\ EmulatorItem.icon e' = Some i
    /\ shape e' = shape e
    /\ EmulatorItem.iosVersion e' = EmulatorItem.iosVersion e
    /\ (forall r', r' <> r -> fst (update_status s i r h) !! r' = h !! r')
    /\ (snd (update_status s i r h) = false ->
        fst (update_status s i r h) = h
        /\ EmulatorItem.status e = s /\ EmulatorItem.icon e = Some i)
    /\ (EmulatorItem.status e = s -> EmulatorItem.icon e = Some i ->
        update_status s i r h = (h, false)).
Proof.
  intros He. unfold update_status. rewrite He.
  destruct (bool_decide (EmulatorItem.status e = s)) eqn:Hs;
    destruct (bool_decide (EmulatorItem.icon e = Some i)) eqn:Hi; cbn [andb fst snd].
  - apply bool_decide_eq_true_1 in Hs, Hi. exists e. by repeat split.
  - apply bool_decide_eq_false_1 in Hi.
    exists (EmulatorItem.set_status_icon s i e).
    split; [by rewrite lookup_alter_heap, decide_True, He|].
    repeat split; try done.
    intros r' Hr'. by rewrite lookup_alter_heap, decide_False.
  - apply bool_decide_eq_false_1 in Hs.
    exists (EmulatorItem.set_status_icon s i e).
    split; [by rewrite lookup_alter_heap, decide_True, He|].
    repeat split; try done.
    intros r' Hr'. by rewrite lookup_alter_heap, decide_False.
  - apply bool_decide_eq_false_1 in Hs.
    exists (EmulatorItem.set_status_icon s i e).
    split; [by rewrite lookup_alter_heap, decide_True, He|].
    repeat split; try done.
    intros r' Hr'. by rewrite lookup_alter_heap, decide_False.
Qed.

Lemma update_version_spec (v : option string) (r : ref) (h : Heap) (e : EmulatorItem) :
  h !! r = Some e ->
  exists e',
    fst (update_version v r h) !! r = Some e'
    /\ EmulatorItem.status e' = EmulatorItem.status e
    /\ EmulatorItem.icon e' = EmulatorItem.icon e
    /\ shape e' = shape e
    /\ EmulatorItem.iosVersion e' = v
    /\ (forall r', r' <> r -> fst (update_version v r h) !! r' = h !! r')
    /\ (snd (update_version v r h) = false ->
        fst (update_version v r h) = h /\ EmulatorItem.iosVersion e = v)
    /\ (EmulatorItem.iosVersion e = v -> update_version v r h = (h, false)).
Proof.
  intros He. unfold update_version. rewrite He.
  destruct (bool_decide (EmulatorItem.iosVersion e = v)) eqn:Hv; cbn [fst snd].
  - apply bool_decide_eq_true_1 in Hv. exists e. by repeat split.
  - apply bool_decide_eq_false_1 in Hv.
    exists (EmulatorItem.set_iosVersion v e).
    split; [by rewrite lookup_alter_heap, decide_True, He|].
    repeat split; try done.
    intros r' Hr'. by rewrite lookup_alter_heap, decide_False.
Qed.

Lemma update_status_keeps (Q : string -> Prop) (s : Status) (i : string) (r : ref)
    (h : Heap) :
  (forall e, h !! r = Some e -> Q (EmulatorItem.id e)) ->
  keeps Q h (fst (update_status s i r h)).
Proof.
  intros HQ. unfold update_status. destruct (h !! r) as [e|] eqn:He; [|apply keeps_refl].
  destruct (_ && _); [apply keeps_refl|].
  apply keeps_alter; [done|]. intros e' He'. apply HQ. congruence.
Qed.

Lemma update_version_keeps (Q : string -> Prop) (v : option string) (r : ref)
    (h : Heap) :
  (forall e, h !! r = Some e -> Q (EmulatorItem.id e)) ->
  keeps Q h (fst (update_version v r h)).
Proof.
  intros HQ. unfold update_version. destruct (h !! r) as [e|] eqn:He; [|apply keeps_refl].
  destruct (bool_decide _); [apply keeps_refl|].
  apply keeps_alter; [done|]. intros e' He'. apply HQ. congruence.
Qed.

Lemma subtype_push_in (k k' : IOSDeviceSubtype) (r r' : ref) (m : SubtypeMap)
    (rs' : list ref) :
  subtype_get k' (subtype_push k r m) = Some rs' -> In r' rs' ->
  r' = r \/ exists rs, subtype_get k' m = Some rs /\ In r' rs.
Proof.
  rewrite subtype_get_push. destruct (decide (k = k')) as [->|_].
  - intros [= <-] Hin. apply in_app_or in Hin as [Hin|[->|[]]]; [|by left].
    destruct (subtype_get k' m) as [rs|]; [|done]. right. eauto.
  - intros Hget Hin. right. eauto.
Qed.

Lemma subtype_push_keeps (k k' : IOSDeviceSubtype) (r r' : ref) (m : SubtypeMap)
    (rs : list ref) :
  subtype_get k' m = Some rs -> In r' rs ->
  exists rs', subtype_get k' (subtype_push k r m) = Some rs' /\ In r' rs'.
Proof.
  intros Hget Hin. rewrite subtype_get_push. destruct (decide (k = k')) as [->|_].
  - rewrite Hget. eexists. split; [done|]. apply in_or_app. by left.
  - eauto.
Qed.

Lemma subtype_push_new (k : IOSDeviceSubtype) (r : ref) (m : SubtypeMap) :
  exists rs, subtype_get k (subtype_push k r m) = Some rs /\ In r rs.
Proof.
  rewrite subtype_get_push, decide_True by done.
  eexists. split; [done|]. apply in_or_app. right. by left.
Qed.

Lemma listed_subtype_snoc (done : list IOSSimulator) (sim : IOSSimulator)
    (k : IOSDeviceSubtype) :
  listed_subtype (done ++ [sim]) k
  = listed_subtype done k || bool_decide (getIOSDeviceSubtype sim = k).
Proof.
  unfold listed_subtype. rewrite existsb_app. cbn. by rewrite orb_false_r.
Qed.

Section IosLoop.
Variable simulators : list IOSSimulator.
Variable existing : gmap string ref.
Variable h0 : Heap.
Hypothesis Hkeyed : keyed_by_id h0 existing.

Lemma ios_inv_init : ios_inv simulators existing h0 [] (h0, [], false).
Proof.
  unfold ios_inv. cbn. split; [apply keeps_refl|]. split; [done|]. split; [done|].
  split; [done|]. intros _. split; [done|]. by intros sim [].
Qed.

Lemma ios_inv_step (done : list IOSSimulator) (sim : IOSSimulator)
    (acc : Heap * SubtypeMap * bool) :
  In sim simulators ->
  ios_inv simulators existing h0 done acc ->
  ios_inv simulators existing h0 (done ++ [sim]) (ios_step existing acc sim).
Proof.
  intros Hsim (Hkeeps & Hfresh & Hdone & Hgroups & Hsynced).
  destruct acc as [[h m] c]. cbn [fst snd] in *. unfold ios_step.
  set (s := if isSimulatorBooted sim then running else stopped).
  set (i := if isSimulatorBooted sim then circle_filled else circle_outline).
  set (v := extractIOSVersion (IOSSimulator.runtime sim)).
  set (k := getIOSDeviceSubtype sim).
  destruct (existing !! ("ios-" +:+ IOSSimulator.udid sim)) as [r|] eqn:Hr.
  - destruct (Hkeyed _ _ Hr) as (e0 & He0 & Hid0).
    destruct (Hkeeps r e0 He0) as (e & He & Hshape & _).
    assert (EmulatorItem.id e = "ios-" +:+ IOSSimulator.udid sim) as Hid
      by (rewrite (shape_id _ _ Hshape); exact Hid0).
    destruct (update_status_spec s i r h e He)
      as (e1 & He1 & Hs1 & Hi1 & Hshape1 & Hv1 & Hother1 & Hsame1 & _).
    pose proof (update_status_keeps is_ios_id s i r h) as Hkeeps1.
    destruct (update_status s i r h) as [h1 c1]. cbn [fst snd] in *.
    destruct (update_version_spec v r h1 e1 He1)
      as (e2 & He2 & Hs2 & Hi2 & Hshape2 & Hv2 & Hother2 & Hsame2 & _).
    pose proof (update_version_keeps is_ios_id v r h1) as Hkeeps2.
    destruct (update_version v r h1) as [h2 c2]. cbn [fst snd] in *.
    assert (EmulatorItem.id e2 = "ios-" +:+ IOSSimulator.udid sim) as Hid2.
    { rewrite (shape_id _ _ Hshape2), (shape_id _ _ Hshape1). exact Hid. }
    assert (fresh_ios simulators e2) as Hfresh2.
    { exists sim. split; [done|]. split; [done|]. unfold shows_ios.
      rewrite Hs2, Hi2, Hs1, Hi1, Hv2. done. }
    assert (forall r', r' <> r -> h2 !! r' = h !! r') as Hother.
    { intros r' Hr'. rewrite Hother2, Hother1; done. }
    unfold ios_inv. cbn [fst snd]. split; [|split; [|split; [|split]]].
    + apply (keeps_trans _ _ h); [done|]. apply (keeps_trans _ _ h1).
      * apply Hkeeps1. intros e' He'. assert (e' = e) as -> by congruence.
        rewrite Hid. by eexists.
      * apply Hkeeps2. intros e' He'. assert (e' = e1) as -> by congruence.
        rewrite (shape_id _ _ Hshape1), Hid. by eexists.
    + intros k' rs' r' Hget Hin.
      destruct (decide (r' = r)) as [->|Hne]; [eauto|].
      destruct (subtype_push_in _ _ _ _ _ _ Hget Hin) as [->|(rs & Hrs & Hin')];
        [done|].
      rewrite (Hother r' Hne). eauto.
    + intros sim' Hsim'. apply in_app_or in Hsim' as [Hsim'|[<-|[]]].
      * destruct (Hdone sim' Hsim') as (rs & r' & e' & Hrs & Hin' & He' & Hid').
        destruct (subtype_push_keeps k _ r _ _ _ Hrs Hin') as (rs' & Hrs' & Hin'').
        destruct (decide (r' = r)) as [->|Hne].
        -- exists rs', r, e2. repeat split; try done.
           assert (e' = e) as -> by congruence. congruence.
        -- exists rs', r', e'. repeat split; try done. by rewrite (Hother r' Hne).
      * destruct (subtype_push_new k r m) as (rs & Hrs & Hin).
        exists rs, r, e2. by repeat split.
    + intros k'. rewrite has_group_push, listed_subtype_snoc, Hgroups. done.
    + intros Hc. apply orb_false_iff in Hc as [Hc Hc2].
      apply orb_false_iff in Hc as [Hc Hc1]. subst c c1 c2.
      destruct (Hsynced eq_refl) as [-> Hsync].
      destruct (Hsame1 eq_refl) as (-> & Hs & Hi).
      destruct (Hsame2 eq_refl) as (-> & Hv).
      split; [done|]. intros sim' Hsim'. apply in_app_or in Hsim' as [Hsim'|[<-|[]]].
      * by apply Hsync.
      * exists r, e. assert (e1 = e) as -> by congruence. by repeat split.
  - cbn [alloc fst snd].
    assert ((h ++ [ios_item sim]) !! length h = Some (ios_item sim)) as Hnew.
    { rewrite lookup_app_r by lia. by rewrite Nat.sub_diag. }
    assert (fresh_ios simulators (ios_item sim)) as Hfresh_new.
    { exists sim. by repeat split. }
    unfold ios_inv. cbn [fst snd]. split; [|split; [|split; [|split]]].
    + apply (keeps_trans _ _ h); [done|]. apply (keeps_alloc _ h).
    + intros k' rs' r' Hget Hin.
      destruct (subtype_push_in _ _ _ _ _ _ Hget Hin) as [->|(rs & Hrs & Hin')];
        [eauto|].
      destruct (Hfresh k' rs r' Hrs Hin') as (e' & He' & Hfresh').
      exists e'. split; [by apply lookup_app_l_Some | done].
    + intros sim' Hsim'. apply in_app_or in Hsim' as [Hsim'|[<-|[]]].
      * destruct (Hdone sim' Hsim') as (rs & r' & e' & Hrs & Hin' & He' & Hid').
        destruct (subtype_push_keeps k _ (length h) _ _ _ Hrs Hin')
          as (rs' & Hrs' & Hin'').
        exists rs', r', e'. repeat split; try done. by apply lookup_app_l_Some.
      * destruct (subtype_push_new k (length h) m) as (rs & Hrs & Hin).
        exists rs, (length h), (ios_item sim). by repeat split.
    + intros k'. rewrite has_group_push, listed_subtype_snoc, Hgroups. done.
    + done.
Qed.

Lemma ios_inv_fold :
  forall rest done acc,
    (forall sim, In sim rest -> In sim simulators) ->
    ios_inv simulators existing h0 done acc ->
    ios_inv simulators existing h0 (done ++ rest) (foldl (ios_step existing) acc rest).
Proof.
  induction rest as [|sim rest IH]; intros done acc Hsub Hinv.
  - by rewrite app_nil_r.
  - cbn [foldl]. replace (done ++ sim :: rest) with ((done ++ [sim]) ++ rest)
      by (by rewrite <- app_assoc).
    apply IH.
    + intros sim' Hsim'. apply Hsub. by right.
    + apply ios_inv_step; [|done]. apply Hsub. by left.
Qed.

(** A loop over simulators that are all in step changes nothing. *)
Lemma ios_fold_synced (h : Heap) :
  forall rest m c,
    ios_synced existing h rest ->
    fst (fst (foldl (ios_step existing) (h, m, c) rest)) = h
    /\ snd (foldl (ios_step existing) (h, m, c) rest) = c
    /\ forall k,
         has_group (snd (fst (foldl (ios_step existing) (h, m, c) rest))) k
         = has_group m k || listed_subtype rest k.
Proof.
  induction rest as [|sim rest IH]; intros m c Hsync.
  - cbn. split; [done|]. split; [done|]. intros k. by rewrite orb_false_r.
  - destruct (Hsync sim (or_introl eq_refl)) as (r & e & Hr & He & Hs & Hi & Hv).
    assert (ios_step existing (h, m, c) sim
            = (h, subtype_push (getIOSDeviceSubtype sim) r m, c)) as Hstep.
    { unfold ios_step. rewrite Hr.
      destruct (update_status_spec
                  (if isSimulatorBooted sim then running else stopped)
                  (if isSimulatorBooted sim then circle_filled else circle_outline)
                  r h e He) as (_ & _ & _ & _ & _ & _ & _ & _ & Hu1).
      rewrite (Hu1 Hs Hi).
      destruct (update_version_spec (extractIOSVersion (IOSSimulator.runtime sim))
                  r h e He) as (_ & _ & _ & _ & _ & _ & _ & _ & Hu2).
      rewrite (Hu2 Hv). by rewrite !orb_false_r. }
    cbn [foldl]. rewrite Hstep.
    destruct (IH (subtype_push (getIOSDeviceSubtype sim) r m) c) as (Hh & Hc & Hg).
    { intros sim' Hsim'. apply Hsync. by right. }
    split; [done|]. split; [done|].
    intros k. rewrite Hg, has_group_push. cbn [listed_subtype existsb].
    by rewrite orb_assoc.
Qed.
End IosLoop.

(** The group items of a refresh: one new object for each subtype that has
    emulators, holding the list the map has for it. *)
Lemma add_groups_spec (m : SubtypeMap) :
  forall subtypes h items,
    keeps (fun _ => False) h (fst (foldl (add_group m) (h, items) subtypes))
    /\ length (snd (foldl (add_group m) (h, items) subtypes))
       = length items + length (List.filter (has_group m) subtypes)
    /\ (forall g,
          In g (snd (foldl (add_group m) (h, items) subtypes)) ->
          In g items
          \/ exists ge k rs,
               fst (foldl (add_group m) (h, items) subtypes) !! g = Some ge
               /\ EmulatorItem.isSubtype ge = true
               /\ EmulatorItem.children ge = Some rs
               /\ subtype_get k m = Some rs)
    /\ (forall k rs,
          In k subtypes -> subtype_get k m = Some rs -> rs <> [] ->
          exists g ge,
            In g (snd (foldl (add_group m) (h, items) subtypes))
            /\ fst (foldl (add_group m) (h, items) subtypes) !! g = Some ge
            /\ EmulatorItem.isSubtype ge = true
            /\ EmulatorItem.children ge = Some rs)
    /\ (forall g, In g items -> In g (snd (foldl (add_group m) (h, items) subtypes))).
Proof.
  induction subtypes as [|k subtypes IH]; intros h items.
  - cbn. split; [apply keeps_refl|]. split; [lia|]. split; [by left|]. split; [|done].
    by intros k rs [].
  - cbn [foldl List.filter].
    assert (exists h1 items1,
              add_group m (h, items) k = (h1, items1)
              /\ keeps (fun _ => False) h h1
              /\ length items1 = length items + (if has_group m k then 1 else 0)
              /\ (forall g, In g items1 ->
                    In g items
                    \/ exists ge rs,
                         h1 !! g = Some ge /\ EmulatorItem.isSubtype ge = true
                         /\ EmulatorItem.children ge = Some rs
                         /\ subtype_get k m = Some rs)
              /\ (forall rs, subtype_get k m = Some rs -> rs <> [] ->
                    exists g ge,
                      In g items1 /\ h1 !! g = Some ge
                      /\ EmulatorItem.isSubtype ge = true
                      /\ EmulatorItem.children ge = Some rs)
              /\ (forall g, In g items -> In g items1))
      as (h1 & items1 & -> & Hkeeps1 & Hlen1 & Hnew1 & Hall1 & Hold1).
    { unfold add_group, has_group.
      destruct (subtype_get k m) as [[|r rs]|] eqn:Hget.
      - exists h, items. split; [done|]. split; [apply keeps_refl|]. split; [lia|].
        split; [by left|]. split; [|done]. by intros rs [= <-].
      - eexists _, _. split; [reflexivity|].
        split; [apply (keeps_alloc _ h)|].
        split; [rewrite length_app; cbn; lia|].
        assert ((h ++ [EmulatorItem.mk ("ios-subtype-" +:+ subtype_label k)
                         (subtype_label k) ios stopped None None None false true
                         (Some k) None (Some (r :: rs))]) !! length h
                = Some (EmulatorItem.mk ("ios-subtype-" +:+ subtype_label k)
                          (subtype_label k) ios stopped None None None false true
                          (Some k) None (Some (r :: rs)))) as Hnew.
        { rewrite lookup_app_r by lia. by rewrite Nat.sub_diag. }
        split; [|split].
        + intros g Hg. apply in_app_or in Hg as [Hg|[<-|[]]]; [by left|].
          right. eexists _, _. split; [exact Hnew|]. by repeat split.
        + intros rs' [= <-] _. eexists _, _. split; [|split; [exact Hnew|done]].
          apply in_or_app. right. by left.
        + intros g Hg. apply in_or_app. by left.
      - exists h, items. split; [done|]. split; [apply keeps_refl|]. split; [lia|].
        split; [by left|]. split; [|done]. by intros rs [=]. }
    destruct (IH h1 items1) as (Hkeeps & Hlen & Hnew & Hall & Hold).
    set (res := foldl (add_group m) (h1, items1) subtypes) in *.
    split; [by apply (keeps_trans _ _ h1)|].
    split.
    { rewrite Hlen, Hlen1. destruct (has_group m k); cbn [length]; lia. }
    split; [|split].
    + intros g Hg. destruct (Hnew g Hg) as [Hg1|Hg1].
      * destruct (Hnew1 g Hg1) as [Hg0|(ge & rs & Hge & Hsub & Hch & Hget)];
          [by left|].
        right. destruct (Hkeeps g ge Hge) as (ge' & Hge' & _ & [->|[]]).
        exists ge, k, rs. by repeat split.
      * by right.
    + intros k' rs [<-|Hk'] Hget Hne.
      * destruct (Hall1 rs Hget Hne) as (g & ge & Hg & Hge & Hsub & Hch).
        destruct (Hkeeps g ge Hge) as (ge' & Hge' & _ & [->|[]]).
        exists g, ge. split; [by apply Hold|]. by repeat split.
      * by apply (Hall k' rs).
    + intros g Hg. apply Hold. by apply Hold1.
Qed.

Lemma keyed_keeps (Q : string -> Prop) (h h' : Heap) (m : gmap string ref) :
  keeps Q h h' -> keyed_by_id h m -> keyed_by_id h' m.
Proof.
  intros Hkeeps Hkeyed k r Hr. destruct (Hkeyed k r Hr) as (e & He & Hid).
  destruct (Hkeeps r e He) as (e' & He' & Hshape & _).
  exists e'. split; [done|]. by rewrite (shape_id _ _ Hshape).
Qed.

Lemma same_fields_refl (st : Store) : same_fields st st.
Proof. by repeat split. Qed.

Lemma same_fields_with_heap (st st' : Store) (h : Heap) :
  same_fields st st' -> same_fields st (with_heap h st').
Proof. by intros (? & ? & ? & ? & ? & ?). Qed.

Section AndroidLoop.
Variable w : World.
Variable emulators : list AndroidEmulator.
Variable existing : gmap string ref.
Variable f0 : LoadFrame.
Hypothesis Hkeyed : keyed_by_id (heap (store f0)) existing.

Hypothesis Hempty : androidItems f0 = [].

Lemma android_inv_init : android_inv w emulators existing f0 [] f0.
Proof.
  unfold android_inv. split; [apply keeps_refl|].
  split; [rewrite Hempty; by intros a []|].
  split; [by intros emu []|]. split; [cbn; lia|].
  split; [|split; [done | apply same_fields_refl]].
  intros Hc. split; [done|]. split; [done|]. by intros emu [].
Qed.

Lemma android_inv_step (done : list AndroidEmulator) (emu : AndroidEmulator)
    (f : LoadFrame) :
  In emu emulators ->
  android_inv w emulators existing f0 done f ->
  android_inv w emulators existing f0 (done ++ [emu])
    (android_step existing emu (resolved w (AndroidEmulator.name emu)) f).
Proof.
  intros Hemu (Hkeeps & Hfresh & Hdone & Hlen & Hsynced & Hios & Hfields).
  unfold android_step.
  set (s := resolved w (AndroidEmulator.name emu)).
  destruct (existing !! ("android-" +:+ AndroidEmulator.name emu)) as [r|] eqn:Hr.
  - destruct (Hkeyed _ _ Hr) as (e0 & He0 & Hid0).
    destruct (Hkeeps r e0 He0) as (e & He & Hshape & _).
    assert (EmulatorItem.id e = "android-" +:+ AndroidEmulator.name emu) as Hid
      by (rewrite (shape_id _ _ Hshape); exact Hid0).
    destruct (update_status_spec s (android_icon s) r (heap (store f)) e He)
      as (e1 & He1 & Hs1 & Hi1 & Hshape1 & _ & Hother1 & Hsame1 & _).
    pose proof (update_status_keeps is_android_id s (android_icon s) r (heap (store f)))
      as Hkeeps1.
    destruct (update_status s (android_icon s) r (heap (store f))) as [h1 c1].
    cbn [fst snd] in *.
    assert (EmulatorItem.id e1 = "android-" +:+ AndroidEmulator.name emu) as Hid1
      by (rewrite (shape_id _ _ Hshape1); exact Hid).
    assert (fresh_android w emulators e1) as Hfresh1.
    { exists emu. split; [done|]. split; [done|]. by split. }
    unfold android_inv. cbn [store androidItems iosItems hasChanges with_heap heap].
    split; [|split; [|split; [|split; [|split; [|split]]]]].
    + apply (keeps_trans _ _ (heap (store f))); [done|].
      apply Hkeeps1. intros e' He'. assert (e' = e) as -> by congruence.
      rewrite Hid. by eexists.
    + intros a Ha. destruct (decide (a = r)) as [->|Hne]; [eauto|].
      apply in_app_or in Ha as [Ha|[->|[]]]; [|done].
      rewrite (Hother1 a Hne). by apply Hfresh.
    + intros emu' Hemu'. apply in_app_or in Hemu' as [Hemu'|[<-|[]]].
      * destruct (Hdone emu' Hemu') as (a & e' & Ha & He' & Hid').
        destruct (decide (a = r)) as [->|Hne].
        -- exists r, e1. split; [apply in_or_app; by left|]. split; [done|].
           assert (e' = e) as -> by congruence. congruence.
        -- exists a, e'. split; [apply in_or_app; by left|].
           split; [by rewrite (Hother1 a Hne) | done].
      * exists r, e1. split; [apply in_or_app; right; by left | done].
    + rewrite !length_app. cbn. lia.
    + intros Hc. apply orb_false_iff in Hc as [Hc Hc1]. subst c1.
      destruct (Hsynced Hc) as (Hc0 & Hheap & Hsync).
      destruct (Hsame1 eq_refl) as (-> & Hs & Hi).
      split; [done|]. split; [done|].
      intros emu' Hemu'. apply in_app_or in Hemu' as [Hemu'|[<-|[]]].
      * by apply Hsync.
      * exists r, e. rewrite <- Hheap. by repeat split.
    + done.
    + by apply same_fields_with_heap.
  - unfold push_android. cbn [alloc].
    set (x := EmulatorItem.mk ("android-" +:+ AndroidEmulator.name emu)
                (AndroidEmulator.name emu) android s None
                (Some (AndroidEmulator.name emu)) (Some (android_icon s))
                false false None None None).
    assert ((heap (store f) ++ [x]) !! length (heap (store f)) = Some x) as Hnew.
    { rewrite lookup_app_r by lia. by rewrite Nat.sub_diag. }
    assert (fresh_android w emulators x) as Hfresh_new.
    { exists emu. by repeat split. }
    unfold android_inv. cbn [store androidItems iosItems hasChanges with_heap heap].
    split; [|split; [|split; [|split; [|split; [|split]]]]].
    + apply (keeps_trans _ _ (heap (store f))); [done|].
      apply (keeps_alloc _ (heap (store f))).
    + intros a Ha. apply in_app_or in Ha as [Ha|[<-|[]]]; [|eauto].
      destruct (Hfresh a Ha) as (e' & He' & Hfresh').
      exists e'. split; [by apply lookup_app_l_Some | done].
    + intros emu' Hemu'. apply in_app_or in Hemu' as [Hemu'|[<-|[]]].
      * destruct (Hdone emu' Hemu') as (a & e' & Ha & He' & Hid').
        exists a, e'. split; [apply in_or_app; by left|].
        split; [by apply lookup_app_l_Some | done].
      * exists (length (heap (store f))), x.
        split; [apply in_or_app; right; by left | done].
    + rewrite !length_app. cbn. lia.
    + done.
    + done.
    + by apply same_fields_with_heap.
Qed.

Lemma android_inv_fold :
  forall rest done f,
    (forall emu, In emu rest -> In emu emulators) ->
    android_inv w emulators existing f0 done f ->
    android_inv w emulators existing f0 (done ++ rest)
      (android_listed w existing rest f).
Proof.
  unfold android_listed.
  induction rest as [|emu rest IH]; intros done f Hsub Hinv.
  - by rewrite app_nil_r.
  - cbn [foldl]. replace (done ++ emu :: rest) with ((done ++ [emu]) ++ rest)
      by (by rewrite <- app_assoc).
    apply IH.
    + intros emu' Hemu'. apply Hsub. by right.
    + apply android_inv_step; [|done]. apply Hsub. by left.
Qed.
End AndroidLoop.

(** A loop over AVDs that are all in step changes nothing but the list
    of items. *)
Lemma android_listed_synced (w : World) (existing : gmap string ref) :
  forall rest f,
    android_synced w existing (heap (store f)) rest ->
    store (android_listed w existing rest f) = store f
    /\ hasChanges (android_listed w existing rest f) = hasChanges f
    /\ iosItems (android_listed w existing rest f) = iosItems f
    /\ length (androidItems (android_listed w existing rest f))
       = length (androidItems f) + length rest.
Proof.
  unfold android_listed.
  induction rest as [|emu rest IH]; intros f Hsync.
  - cbn. repeat split; lia.
  - destruct (Hsync emu (or_introl eq_refl)) as (r & e & Hr & He & Hs & Hi).
    assert (android_step existing emu (resolved w (AndroidEmulator.name emu)) f
            = mkFrame (store f) (iosItems f) (androidItems f ++ [r]) (hasChanges f))
      as Hstep.
    { unfold android_step. rewrite Hr.
      destruct (update_status_spec (resolved w (AndroidEmulator.name emu))
                  (android_icon (resolved w (AndroidEmulator.name emu)))
                  r (heap (store f)) e He) as (_ & _ & _ & _ & _ & _ & _ & _ & Hu).
      rewrite (Hu Hs Hi). rewrite orb_false_r. by destruct f as [[] ? ? ?]. }
    cbn [foldl]. rewrite Hstep.
    destruct (IH (mkFrame (store f) (iosItems f) (androidItems f ++ [r]) (hasChanges f)))
      as (Hstore & Hc & Hios & Hlen).
    { intros emu' Hemu'. apply Hsync. by right. }
    cbn [store hasChanges iosItems androidItems] in *.
    repeat split; try done. rewrite Hlen, length_app. cbn. lia.
Qed.

(** The maps of existing items, looked up. *)
Lemma index_items_lookup (h : Heap) (items : list ref) :
  forall m k r,
    index_items h items m !! k = Some r ->
    m !! k = Some r
    \/ (In r items /\ exists e, h !! r = Some e /\ EmulatorItem.id e = k).
Proof.
  unfold index_items. induction items as [|a items IH]; intros m k r; cbn; [by left|].
  intros H. apply IH in H as [H|(Hin & e & He & Hid)].
  - destruct (h !! a) as [ea|] eqn:Ha; [|by left].
    rewrite lookup_insert in H. destruct (decide (EmulatorItem.id ea = k)) as [<-|_].
    + injection H as <-. right. split; [by left | eauto].
    + by left.
  - right. split; [by right | eauto].
Qed.

Lemma index_items_mono (h : Heap) (items : list ref) :
  forall m k, is_Some (m !! k) -> is_Some (index_items h items m !! k).
Proof.
  unfold index_items. induction items as [|a items IH]; intros m k Hk; cbn; [done|].
  apply IH. destruct (h !! a) as [ea|]; [|done].
  rewrite lookup_insert. by destruct (decide (EmulatorItem.id ea = k)).
Qed.

Lemma index_items_some (h : Heap) (items : list ref) :
  forall m r e,
    In r items -> h !! r = Some e ->
    is_Some (index_items h items m !! EmulatorItem.id e).
Proof.
  induction items as [|a items IH]; intros m r e [].
  - subst a. intros He. unfold index_items. cbn. rewrite He.
    apply (index_items_mono h items). rewrite lookup_insert, decide_True; done.
  - intros He. unfold index_items. cbn. by apply (IH _ r e).
Qed.

Lemma index_items_ext (h h' : Heap) (items : list ref) :
  (forall r, In r items -> h' !! r = h !! r) ->
  forall m, index_items h' items m = index_items h items m.
Proof.
  unfold index_items. induction items as [|a items IH]; intros Hsame m; [done|].
  cbn. rewrite (Hsame a (or_introl eq_refl)). apply IH.
  intros r Hr. apply Hsame. by right.
Qed.

Lemma existingIOS_lookup (st : Store) (k : string) (r : ref) :
  existingIOS st !! k = Some r ->
  exists g,
    In g (iosEmulators st) /\ In r (group_children (heap st) g)
    /\ exists e, heap st !! r = Some e /\ EmulatorItem.id e = k.
Proof.
  unfold existingIOS.
  assert (forall gs m,
            foldl (fun m g => index_items (heap st) (group_children (heap st) g) m)
              m gs !! k = Some r ->
            m !! k = Some r
            \/ exists g,
                 In g gs /\ In r (group_children (heap st) g)
                 /\ exists e, heap st !! r = Some e /\ EmulatorItem.id e = k) as H.
  { induction gs as [|g gs IH]; intros m; cbn; [by left|].
    intros Hk. apply IH in Hk as [Hk|(g' & Hg' & Hr & He)].
    - apply index_items_lookup in Hk as [Hk|[Hin He]]; [by left|].
      right. exists g. split; [by left | done].
    - right. exists g'. split; [by right | done]. }
  intros Hk. apply H in Hk as [Hk|Hk]; [|done]. by rewrite lookup_empty in Hk.
Qed.

Lemma existingIOS_some (st : Store) (g r : ref) (e : EmulatorItem) :
  In g (iosEmulators st) -> In r (group_children (heap st) g) ->
  heap st !! r = Some e ->
  is_Some (existingIOS st !! EmulatorItem.id e).
Proof.
  unfold existingIOS. intros Hg Hr He.
  assert (forall gs m,
            (is_Some (m !! EmulatorItem.id e) \/ In g gs) ->
            is_Some (foldl (fun m g =>
                              index_items (heap st) (group_children (heap st) g) m)
                       m gs !! EmulatorItem.id e)) as H.
  { induction gs as [|g' gs IH]; intros m; cbn; [by intros [H|[]]|].
    intros [Hm|[->|Hin]]; apply IH.
    - left. by apply index_items_mono.
    - left. by apply (index_items_some _ _ _ r).
    - by right. }
  apply H. by right.
Qed.

Lemma existingAndroid_lookup (st : Store) (k : string) (a : ref) :
  existingAndroid st !! k = Some a ->
  In a (androidEmulators st)
  /\ exists e, heap st !! a = Some e /\ EmulatorItem.id e = k.
Proof.
  unfold existingAndroid. intros H.
  apply index_items_lookup in H as [H|H]; [|done]. by rewrite lookup_empty in H.
Qed.

Lemma existingAndroid_some (st : Store) (a : ref) (e : EmulatorItem) :
  In a (androidEmulators st) -> heap st !! a = Some e ->
  is_Some (existingAndroid st !! EmulatorItem.id e).
Proof. apply index_items_some. Qed.

(** The maps depend on the objects the lists reach, and on nothing else. *)
Lemma existingIOS_ext (st st' : Store) :
  iosEmulators st' = iosEmulators st ->
  (forall g, In g (iosEmulators st) ->
     heap st' !! g = heap st !! g
     /\ forall r, In r (group_children (heap st) g) -> heap st' !! r = heap st !! r) ->
  existingIOS st' = existingIOS st.
Proof.
  unfold existingIOS. intros -> Hsame.
  assert (forall gs m,
            (forall g, In g gs -> In g (iosEmulators st)) ->
            foldl (fun m g => index_items (heap st') (group_children (heap st') g) m) m gs
            = foldl (fun m g => index_items (heap st) (group_children (heap st) g) m) m gs)
    as H.
  { induction gs as [|g gs IH]; intros m Hsub; [done|]. cbn.
    destruct (Hsame g (Hsub g (or_introl eq_refl))) as [Hg Hchildren].
    assert (group_children (heap st') g = group_children (heap st) g) as ->
      by (unfold group_children; by rewrite Hg).
    rewrite (index_items_ext (heap st) (heap st')) by done.
    apply IH. intros g' Hg'. apply Hsub. by right. }
  by apply H.
Qed.

Lemma existingAndroid_ext (st st' : Store) :
  androidEmulators st' = androidEmulators st ->
  (forall a, In a (androidEmulators st) -> heap st' !! a = heap st !! a) ->
  existingAndroid st' = existingAndroid st.
Proof.
  unfold existingAndroid. intros -> Hsame. by apply index_items_ext.
Qed.

Lemma keeps_all_lookup (h h' : Heap) (r : ref) :
  keeps (fun _ => False) h h' -> r < length h -> h' !! r = h !! r.
Proof.
  intros Hkeeps Hr. destruct (lookup_lt_is_Some_2 h r Hr) as [e He].
  destruct (Hkeeps r e He) as (e' & He' & _ & [->|[]]). by rewrite He, He'.
Qed.

Lemma keeps_all_some (h h' : Heap) (r : ref) (e : EmulatorItem) :
  keeps (fun _ => False) h h' -> h !! r = Some e -> h' !! r = Some e.
Proof.
  intros Hkeeps He. by destruct (Hkeeps r e He) as (e' & He' & _ & [->|[]]).
Qed.

Lemma ios_synced_keeps (existing : gmap string ref) (h h' : Heap)
    (simulators : list IOSSimulator) :
  keeps (fun _ => False) h h' ->
  ios_synced existing h simulators -> ios_synced existing h' simulators.
Proof.
  intros Hkeeps Hsync sim Hsim. destruct (Hsync sim Hsim) as (r & e & Hr & He & Hshows).
  exists r, e. split; [done|]. split; [by apply (keeps_all_some h) | done].
Qed.

Lemma android_synced_keeps (w : World) (existing : gmap string ref) (h h' : Heap)
    (emulators : list AndroidEmulator) :
  keeps (fun _ => False) h h' ->
  android_synced w existing h emulators -> android_synced w existing h' emulators.
Proof.
  intros Hkeeps Hsync emu Hemu. destruct (Hsync emu Hemu) as (r & e & Hr & He & Hshows).
  exists r, e. split; [done|]. split; [by apply (keeps_all_some h) | done].
Qed.

Lemma group_children_of (h : Heap) (g : ref) (ge : EmulatorItem) (rs : list ref) :
  h !! g = Some ge -> EmulatorItem.isSubtype ge = true ->
  EmulatorItem.children ge = Some rs ->
  group_children h g = rs.
Proof. intros Hg Hsub Hch. unfold group_children. by rewrite Hg, Hsub, Hch. Qed.

Lemma in_subtypeOrder (k : IOSDeviceSubtype) : In k subtypeOrder.
Proof. destruct k; cbn; tauto. Qed.

Lemma group_count_filter (simulators : list IOSSimulator) (m : SubtypeMap) :
  (forall k, has_group m k = listed_subtype simulators k) ->
  length (List.filter (has_group m) subtypeOrder) = group_count simulators.
Proof.
  intros H. unfold group_count. f_equal. apply List.filter_ext. exact H.
Qed.

(** The frame after the loop over the listed simulators. *)
Lemma ios_listed_frame (existing : gmap string ref) (simulators : list IOSSimulator)
    (st : Store) :
  exists h1 m c h1' items,
    foldl (ios_step existing) (heap st, [], false) simulators = (h1, m, c)
    /\ foldl (add_group m) (h1, []) subtypeOrder = (h1', items)
    /\ ios_listed existing simulators (mkFrame st [] [] false)
       = mkFrame (mkStore h1' (iosEmulators st) m (androidEmulators st)
                    (fired st) (shown st) (timers st))
           items [] c.
Proof.
  unfold ios_listed. cbn [store heap hasChanges iosItems androidItems].
  destruct (foldl (ios_step existing) (heap st, [], false) simulators)
    as [[h1 m] c].
  destruct (foldl (add_group m) (h1, []) subtypeOrder) as [h1' items] eqn:Hgroups.
  by exists h1, m, c, h1', items.
Qed.

(** What a refresh leaves is in step with the listings it read. *)
Lemma synced_after_refresh (w : World) (st : Store) (simulators : list IOSSimulator)
    (emulators : list AndroidEmulator) :
  well_formed st -> consistent simulators ->
  synced w simulators emulators (store (commit (listed_frame w simulators emulators st))).
Proof.
  intros [Hwf_ios Hwf_android] Hcons. unfold listed_frame.
  destruct (ios_listed_frame (existingIOS st) simulators st)
    as (h1 & m & c & h1' & items & Hfold & Hgfold & ->).
  pose proof (ios_inv_fold simulators (existingIOS st) (heap st) (existingIOS_keyed st)
                simulators [] (heap st, [], false) (fun _ H => H)
                (ios_inv_init simulators (existingIOS st) (heap st))) as Hinv.
  rewrite app_nil_l, Hfold in Hinv.
  destruct Hinv as (Hk1 & Hfresh1 & Hdone1 & Hgroups1 & Hsynced1).
  cbn [fst snd] in Hk1, Hfresh1, Hdone1, Hgroups1, Hsynced1.
  pose proof (add_groups_spec m subtypeOrder h1 []) as Hg. rewrite Hgfold in Hg.
  cbn [fst snd] in Hg. destruct Hg as (Hkg & Hlen & Hnewg & Hallg & _).
  set (f1 := mkFrame _ items [] c).
  assert (keyed_by_id (heap (store f1)) (existingAndroid st)) as Hkeyed.
  { apply (keyed_keeps (fun _ => False) h1); [exact Hkg|].
    apply (keyed_keeps is_ios_id (heap st)); [exact Hk1|]. apply existingAndroid_keyed. }
  pose proof (android_inv_fold w emulators (existingAndroid st) f1 Hkeyed
                emulators [] f1 (fun _ H => H)
                (android_inv_init w emulators (existingAndroid st) f1 eq_refl)) as Ha.
  rewrite app_nil_l in Ha.
  set (f2 := android_listed w (existingAndroid st) emulators f1) in *.
  destruct Ha as (Hka & Hfresha & Hdonea & Hlena & Hsynceda & Hiosa & Hfieldsa).
  cbn [f1 store heap iosItems androidItems hasChanges] in Hka, Hlena, Hsynceda, Hiosa.
  assert (forall k rs r e,
            subtype_get k m = Some rs -> In r rs -> h1 !! r = Some e ->
            heap (store f2) !! r = Some e /\ fresh_ios simulators e) as Hchild.
  { intros k rs r e Hrs Hr He.
    destruct (Hfresh1 k rs r Hrs Hr) as (e0 & He0 & Hfr).
    assert (e0 = e) as -> by congruence. split; [|done].
    apply (keeps_all_some h1 h1') in He; [|done].
    destruct (Hka r e He) as (e' & He' & _ & [->|Hand]); [done|].
    destruct Hfr as (sim & _ & Hid & _). exfalso.
    apply (ios_id_not_android (EmulatorItem.id e)); [|done].
    by exists (IOSSimulator.udid sim). }
  assert (forall g ge rs,
            h1' !! g = Some ge -> EmulatorItem.isSubtype ge = true ->
            EmulatorItem.children ge = Some rs ->
            group_children (heap (store f2)) g = rs) as Hchildren.
  { intros g ge rs Hge Hsub Hch.
    destruct (Hka g ge Hge) as (ge' & Hge' & Hshape & _).
    unfold shape in Hshape. injection Hshape as _ Hs Hc.
    apply (group_children_of _ _ ge'); congruence. }
  unfold commit.
  destruct (hasChanges f2
            || negb (Nat.eqb (length (iosEmulators (store f2))) (length (iosItems f2)))
            || negb (Nat.eqb (length (androidEmulators (store f2)))
                       (length (androidItems f2))))
    eqn:Hflag.
  - cbn [store].
    set (st1 := fire _).
    assert (heap st1 = heap (store f2)) as Hheap1 by done.
    assert (iosEmulators st1 = items) as Hios1 by done.
    assert (androidEmulators st1 = androidItems f2) as Handroid1 by done.
    split; [|split; [|split]].
    + intros sim Hsim.
      destruct (Hdone1 sim Hsim) as (rs & r & e & Hrs & Hr & He & Hid).
      destruct (Hchild _ rs r e Hrs Hr He) as [He2 _].
      destruct (Hallg (getIOSDeviceSubtype sim) rs (in_subtypeOrder _) Hrs)
        as (g & ge & Hg & Hge & Hsub & Hch).
      { intros ->. destruct Hr. }
      assert (is_Some (existingIOS st1 !! EmulatorItem.id e)) as [r' Hr'].
      { apply (existingIOS_some st1 g r e).
        - by rewrite Hios1.
        - rewrite Hheap1. by rewrite (Hchildren g ge rs).
        - by rewrite Hheap1. }
      rewrite Hid in Hr'.
      destruct (existingIOS_lookup st1 _ r' Hr')
        as (g' & Hg' & Hr'in & e' & He' & Hid').
      rewrite Hios1 in Hg'. rewrite Hheap1 in Hr'in, He'.
      destruct (Hnewg g' Hg') as [[]|(ge' & k' & rs' & Hge' & Hsub' & Hch' & Hrs')].
      rewrite (Hchildren g' ge' rs' Hge' Hsub' Hch') in Hr'in.
      destruct (Hfresh1 k' rs' r' Hrs' Hr'in) as (e1 & He1 & _).
      destruct (Hchild k' rs' r' e1 Hrs' Hr'in He1) as [He1' Hfr].
      assert (e1 = e') as -> by congruence.
      destruct Hfr as (sim' & Hsim' & Hid'' & Hs & Hi & Hv).
      assert (IOSSimulator.udid sim' = IOSSimulator.udid sim) as Hudid
        by (apply ios_id_inj; congruence).
      destruct (Hcons sim' sim Hsim' Hsim Hudid) as [Hbooted Hversion].
      exists r', e'. split; [done|]. split; [by rewrite Hheap1|].
      unfold shows_ios. by rewrite <- Hbooted, <- Hversion.
    + intros emu Hemu.
      destruct (Hdonea emu Hemu) as (a & e & Ha & He & Hid).
      assert (is_Some (existingAndroid st1 !! EmulatorItem.id e)) as [a' Ha'].
      { apply (existingAndroid_some st1 a e); [by rewrite Handroid1 | by rewrite Hheap1]. }
      rewrite Hid in Ha'.
      destruct (existingAndroid_lookup st1 _ a' Ha') as (Ha'in & e' & He' & Hid').
      rewrite Handroid1 in Ha'in. rewrite Hheap1 in He'.
      destruct (Hfresha a' Ha'in) as (e1 & He1 & emu' & Hemu' & Hid'' & Hs & Hi).
      assert (e1 = e') as -> by congruence.
      assert (AndroidEmulator.name emu' = AndroidEmulator.name emu) as Hname
        by (apply android_id_inj; congruence).
      exists a', e'. split; [done|]. split; [by rewrite Hheap1|].
      unfold shows_android. by rewrite <- Hname.
    + rewrite Hios1, Hlen. cbn [length Nat.add]. apply group_count_filter.
      intros k. by rewrite Hgroups1.
    + rewrite Handroid1, Hlena. done.
  - apply orb_false_elim in Hflag as [Hflag Handroid_len].
    apply orb_false_elim in Hflag as [Hchanged Hios_len].
    apply negb_false_iff, Nat.eqb_eq in Handroid_len, Hios_len.
    destruct (Hsynceda Hchanged) as (Hc & Hheap & Hasync).
    destruct (Hsynced1 Hc) as (-> & Hisync).
    destruct Hfieldsa as (Hios2 & _ & Handroid2 & _).
    cbn [f1 store iosEmulators androidEmulators] in Hios2, Handroid2.
    assert (existingIOS (store f2) = existingIOS st) as Hexisting_ios.
    { apply existingIOS_ext; [done|]. intros g Hg.
      destruct (Hwf_ios g Hg) as [Hlt Hchildren_lt]. rewrite Hheap.
      split; [by apply keeps_all_lookup|].
      intros r Hr. apply keeps_all_lookup; [done | by apply Hchildren_lt]. }
    assert (existingAndroid (store f2) = existingAndroid st) as Hexisting_android.
    { apply existingAndroid_ext; [done|]. intros a Ha. rewrite Hheap.
      apply keeps_all_lookup; [done | by apply Hwf_android]. }
    split; [|split; [|split]].
    + rewrite Hexisting_ios, Hheap. by apply (ios_synced_keeps _ (heap st)).
    + by rewrite Hexisting_android, Hheap.
    + rewrite Hios_len, Hiosa, Hlen. cbn [length Nat.add]. apply group_count_filter.
      intros k. by rewrite Hgroups1.
    + rewrite Handroid_len, Hlena. done.
Qed.

(** A refresh of a provider in step with the listings changes nothing but
    the map of subtypes and the heap, where the group objects of the run
    are left behind. *)
Lemma refresh_when_synced (w : World) (st : Store) (simulators : list IOSSimulator)
    (emulators : list AndroidEmulator) :
  synced w simulators emulators st ->
  let st' := store (commit (listed_frame w simulators emulators st)) in
  fired st' = fired st
  /\ iosEmulators st' = iosEmulators st
  /\ androidEmulators st' = androidEmulators st
  /\ shown st' = shown st
  /\ timers st' = timers st
  /\ keeps (fun _ => False) (heap st) (heap st').
Proof.
  intros (Hisync & Hasync & Hios_len & Handroid_len). unfold listed_frame.
  destruct (ios_listed_frame (existingIOS st) simulators st)
    as (h1 & m & c & h1' & items & Hfold & Hgfold & ->).
  destruct (ios_fold_synced (existingIOS st) (heap st) simulators [] false Hisync)
    as (Hh1 & Hc & Hgroups).
  unfold SubtypeMap in *.
  rewrite Hfold in Hh1, Hc, Hgroups. cbn [fst snd] in Hh1, Hc, Hgroups. subst h1 c.
  pose proof (add_groups_spec m subtypeOrder (heap st) []) as Hg. rewrite Hgfold in Hg.
  cbn [fst snd] in Hg. destruct Hg as (Hkg & Hlen & _).
  set (f1 := mkFrame _ items [] false).
  assert (android_synced w (existingAndroid st) (heap (store f1)) emulators) as Hasync'
    by (by apply (android_synced_keeps _ _ (heap st))).
  destruct (android_listed_synced w (existingAndroid st) emulators f1 Hasync')
    as (Hstore & Hchanged & Hitems & Hlena).
  set (f2 := android_listed w (existingAndroid st) emulators f1) in *.
  assert (commit f2 = f2) as ->.
  { unfold commit. rewrite Hchanged, Hstore, Hitems, Hlena.
    cbn [f1 store iosEmulators androidEmulators hasChanges iosItems androidItems length
         Nat.add orb].
    rewrite Hlen, Hios_len, Handroid_len. cbn [length Nat.add].
    rewrite (group_count_filter simulators m) by (intros k; by rewrite Hgroups).
    by rewrite !Nat.eqb_refl. }
  rewrite Hstore. by cbn.
Qed.

(** The loop over the listed AVDs when every status resolves. *)
Lemma android_loop_listed (w : World) (existing : gmap string ref) :
  forall emulators f,
    (forall emu, In emu emulators ->
       exists s, getAndroidEmulatorStatus w (AndroidEmulator.name emu) = Returns s) ->
    android_loop w existing emulators f
    = (Returns tt, android_listed w existing emulators f).
Proof.
  unfold android_listed.
  induction emulators as [|emu rest IH]; intros f Hstatus; [done|].
  destruct (Hstatus emu (or_introl eq_refl)) as [s Hs].
  cbn [android_loop foldl]. unfold sbind at 1 2, lift, exec.
  unfold resolved. rewrite Hs. apply IH.
  intros emu' Hemu'. apply Hstatus. by right.
Qed.

(** A refresh when both toolchains answer. *)
Lemma load_frame_listed (w : World) (st : Store) (simulators : list IOSSimulator)
    (emulators : list AndroidEmulator) :
  checkXcodeAvailable w = Returns true ->
  listIOSSimulators w = Returns simulators ->
  checkAndroidAvailable w = Returns true ->
  listAndroidEmulators w = Returns emulators ->
  (forall emu, In emu emulators ->
     exists s, getAndroidEmulatorStatus w (AndroidEmulator.name emu) = Returns s) ->
  load_frame w st = (Returns tt, commit (listed_frame w simulators emulators st)).
Proof.
  intros Hxcode Hsims Handroid Hemus Hstatus.
  unfold load_frame, load_ios, load_android, listed_frame, stry, sbind, lift, exec.
  rewrite Hxcode, Hsims, Handroid, Hemus.
  by rewrite (android_loop_listed w (existingAndroid st) emulators _ Hstatus).
Qed.

(** A refresh when neither toolchain is there. *)
Lemma load_frame_unavailable (w : World) (st : Store) :
  checkXcodeAvailable w = Returns false ->
  checkAndroidAvailable w = Returns false ->
  fired (refresh w st) = S (fired st).
Proof.
  intros Hxcode Handroid.
  unfold refresh, loadEmulators, load_frame, load_ios, load_android, stry, sbind, lift, exec.
  by rewrite Hxcode, Handroid.
Qed.

(** C2, amended.  Two refreshes in a row over the same probe data.  When both
    toolchains are available, both listings succeed, every listed AVD has
    a status and the simulators listed under one UDID agree in state and
    version, the second refresh of a well-formed store completes, fires no
    event, shows no message, keeps the two lists of the provider and
    leaves every object of the heap as it was.  When neither toolchain is
    available the change flag is set without any comparison, and every
    refresh fires the event. *)
Theorem refresh_twice (w : World) (st : Store) :
  (forall simulators emulators,
     well_formed st ->
     checkXcodeAvailable w = Returns true ->
     listIOSSimulators w = Returns simulators ->
     consistent simulators ->
     checkAndroidAvailable w = Returns true ->
     listAndroidEmulators w = Returns emulators ->
     (forall emu, In emu emulators ->
        exists s, getAndroidEmulatorStatus w (AndroidEmulator.name emu) = Returns s) ->
     let st1 := refresh w st in
     let st2 := refresh w st1 in
     fst (loadEmulators w st1) = Returns tt
     /\ fired st2 = fired st1
     /\ shown st2 = shown st1
     /\ iosEmulators st2 = iosEmulators st1
     /\ androidEmulators st2 = androidEmulators st1
     /\ forall r e, heap st1 !! r = Some e -> heap st2 !! r = Some e)
  /\ (checkXcodeAvailable w = Returns false ->
      checkAndroidAvailable w = Returns false ->
      fired (refresh w st) = S (fired st)
      /\ fired (refresh w (refresh w st)) = S (S (fired st))).
Proof.
  split.
  - intros simulators emulators Hwf Hxcode Hsims Hcons Handroid Hemus Hstatus st1 st2.
    assert (forall st0, loadEmulators w st0
                        = (Returns tt,
                           store (commit (listed_frame w simulators emulators st0))))
      as Hload.
    { intros st0. unfold loadEmulators.
      by rewrite (load_frame_listed w st0 simulators emulators). }
    subst st2 st1. unfold refresh. rewrite !Hload. cbn [fst snd].
    pose proof (synced_after_refresh w st simulators emulators Hwf Hcons) as Hsynced.
    destruct (refresh_when_synced w _ simulators emulators Hsynced)
      as (Hfired & Hios & Handroid' & Hshown & _ & Hkeeps).
    repeat (split; [done|]).
    intros r e. by apply keeps_all_some.
  - intros Hxcode Handroid.
    rewrite !(load_frame_unavailable w) by done. done.
Qed.

(** C2, as stated: on a machine with neither toolchain the probe data
    never change, and the second of two refreshes in a row fires the event
    again and replaces the placeholder items by new objects. *)
Lemma second_refresh_fires_on_bare_linux :
  let st1 := refresh bare_linux empty_store in
  let st2 := refresh bare_linux st1 in
  checkXcodeAvailable bare_linux = Returns false
  /\ checkAndroidAvailable bare_linux = Returns false
  /\ fst (loadEmulators bare_linux st1) = Returns tt
  /\ fired st1 = 1
  /\ fired st2 = 2
  /\ fired st2 <> fired st1
  /\ iosEmulators st1 = [0]
  /\ iosEmulators st2 = [2].
Proof.
  repeat split; try (vm_compute; reflexivity). vm_compute. discriminate.
Qed.

Lemma well_formed_empty : well_formed empty_store.
Proof. split; intros r []. Qed.

(** On a Mac with one phone and one AVD the first refresh fires and the
    second does not; where nothing is installed both fire. *)
Lemma refresh_twice_on_samples :
  (let st1 := refresh mac_with_both empty_store in
   let st2 := refresh mac_with_both st1 in
   fst (loadEmulators mac_with_both st1) = Returns tt
   /\ fired st2 = fired st1
   /\ shown st2 = shown st1
   /\ iosEmulators st2 = iosEmulators st1
   /\ androidEmulators st2 = androidEmulators st1
   /\ forall r e, heap st1 !! r = Some e -> heap st2 !! r = Some e)
  /\ fired (refresh bare_linux empty_store) = 1
  /\ fired (refresh bare_linux (refresh bare_linux empty_store)) = 2.
Proof.
  split.
  - apply (proj1 (refresh_twice mac_with_both empty_store) [shut_phone] [pixel_avd]).
    + apply well_formed_empty.
    + vm_compute. reflexivity.
    + vm_compute. reflexivity.
    + intros s1 s2 [<-|[]] [<-|[]] _. split; reflexivity.
    + vm_compute. reflexivity.
    + vm_compute. reflexivity.
    + intros emu [<-|[]]. exists stopped. vm_compute. reflexivity.
  - apply (proj2 (refresh_twice bare_linux empty_store)); vm_compute; reflexivity.
Defined.

(* ===================================================================== *)
(** * Part IV: further properties of the sources *)
(* ===================================================================== *)

(** ** The matcher against the meaning of a pattern *)

Local Arguments String.append !_ _ / : simpl nomatch.

Lemma append_nil_r (s : string) : s +:+ "" = s.
Proof. induction s as [|c s IH]; cbn; [done | by rewrite IH]. Qed.

Lemma append_assoc (a b c : string) : (a +:+ b) +:+ c = a +:+ (b +:+ c).
Proof. induction a as [|x a IH]; cbn; [done | by rewrite IH]. Qed.

Lemma length_append (a b : string) :
  String.length (a +:+ b) = String.length a + String.length b.
Proof. induction a as [|x a IH]; cbn; [done | by rewrite IH]. Qed.

Lemma substring_prefix (t rest : string) :
  substring 0 (String.length t) (t +:+ rest) = t.
Proof.
  induction t as [|c t IH]; cbn.
  - by destruct rest.
  - by rewrite IH.
Qed.

Section MatcherMeaning.
Context {R : Type}.

Lemma plus_from_sound (p : ascii -> bool) (k : nat -> string -> option R) :
  forall s pos x,
    plus_from p pos s k = Some x ->
    exists t rest,
      s = t +:+ rest /\ t <> "" /\ all_chars (fun c => p c = true) t
      /\ k (pos + String.length t) rest = Some x.
Proof.
  induction s as [|c s IH]; intros pos x; cbn; [discriminate|].
  destruct (p c) eqn:Hc; [|discriminate].
  destruct (plus_from p (S pos) s k) eqn:Hrec.
  - intros [= <-]. apply IH in Hrec as (t & rest & -> & _ & Hall & Hk).
    exists (String c t), rest. cbn. repeat split; try done.
    by rewrite Nat.add_succ_r.
  - intros Hk. exists (String c ""), s. cbn. repeat split; try done.
    by rewrite Nat.add_1_r.
Qed.

Lemma plus_from_complete (p : ascii -> bool) (k : nat -> string -> option R) :
  forall t rest pos,
    t <> "" -> all_chars (fun c => p c = true) t ->
    is_Some (k (pos + String.length t) rest) ->
    is_Some (plus_from p pos (t +:+ rest) k).
Proof.
  induction t as [|c t IH]; intros rest pos Hne Hall Hk; [done|].
  destruct Hall as [Hc Hall]. cbn. rewrite Hc.
  destruct (plus_from p (S pos) (t +:+ rest) k) eqn:Hrec; [by eexists|].
  destruct t as [|c' t'].
  - cbn in Hk. by rewrite Nat.add_1_r in Hk.
  - assert (is_Some (plus_from p (S pos) (String c' t' +:+ rest) k)) as [x Hx].
    { apply IH; [done | done |]. cbn in Hk |- *. by rewrite Nat.add_succ_r in Hk. }
    congruence.
Qed.

(** Whatever a match returns, the continuation returned it after a text
    that the pattern consumes, with groups that the pattern can hold. *)
Lemma rmatch_sound (r : regex) :
  forall pos s g (k : nat -> string -> captures -> option R) x,
    rmatch r pos s g k = Some x ->
    exists t rest g',
      s = t +:+ rest
      /\ consumes r pos t rest
      /\ k (pos + String.length t) rest g' = Some x
      /\ forall n u, In (n, u) g' -> In (n, u) g \/ captured r n u.
Proof.
  induction r as [| | |p|r1 IH1 r2 IH2|r1 IH1 r2 IH2|r1 IH1|p|m r1 IH1];
    intros pos s g k x; cbn [rmatch consumes captured].
  - intros H. exists "", s, g. rewrite Nat.add_0_r. by repeat split; auto.
  - destruct (Nat.eqb pos 0) eqn:Hpos; [|discriminate]. apply Nat.eqb_eq in Hpos.
    intros H. exists "", s, g. rewrite Nat.add_0_r. by repeat split; auto.
  - destruct s; [|discriminate].
    intros H. exists "", "", g. rewrite Nat.add_0_r. by repeat split; auto.
  - destruct s as [|c s]; [discriminate|]. destruct (p c) eqn:Hc; [|discriminate].
    intros H. exists (String c ""), s, g. cbn. rewrite Nat.add_1_r.
    split; [done|]. split; [by exists c|]. split; [done | auto].
  - intros H. apply IH1 in H as (t1 & rest1 & g1 & -> & Hc1 & H & Hg1).
    apply IH2 in H as (t2 & rest2 & g2 & -> & Hc2 & H & Hg2).
    exists (t1 +:+ t2), rest2, g2. rewrite append_assoc, length_append, Nat.add_assoc.
    split; [done|]. split; [by exists t1, t2|]. split; [done|].
    intros n u Hin. destruct (Hg2 n u Hin) as [Hin1|Hcap]; [|tauto].
    destruct (Hg1 n u Hin1); tauto.
  - destruct (rmatch r1 pos s g k) eqn:H1.
    + intros [= <-]. apply IH1 in H1 as (t & rest & g' & -> & Hc & H & Hg).
      exists t, rest, g'. repeat split; try done; [by left|].
      intros n u Hin. destruct (Hg n u Hin); tauto.
    + intros H. apply IH2 in H as (t & rest & g' & -> & Hc & H & Hg).
      exists t, rest, g'. repeat split; try done; [by right|].
      intros n u Hin. destruct (Hg n u Hin); tauto.
  - destruct (rmatch r1 pos s g k) eqn:H1.
    + intros [= <-]. apply IH1 in H1 as (t & rest & g' & -> & Hc & H & Hg).
      exists t, rest, g'. repeat split; try done. by left.
    + intros H. exists "", s, g. rewrite Nat.add_0_r. repeat split; auto.
  - intros H. apply plus_from_sound in H as (t & rest & -> & Hne & Hall & H).
    exists t, rest, g. repeat split; auto.
  - intros H. apply IH1 in H as (t & rest & g' & -> & Hc & H & Hg).
    replace (pos + String.length t - pos) with (String.length t) in H by lia.
    rewrite substring_prefix in H.
    exists t, rest, ((m, t) :: g'). repeat split; try done.
    intros n u [[= <- <-]|Hin].
    + right. left. split; [done|]. by exists pos, rest.
    + destruct (Hg n u Hin); tauto.
Qed.

(** A text that the pattern consumes and after which the continuation
    succeeds makes the match succeed. *)
Lemma rmatch_complete (r : regex) :
  forall (k : nat -> string -> captures -> option R),
    blind k ->
    forall pos t rest g g0,
      consumes r pos t rest ->
      is_Some (k (pos + String.length t) rest g0) ->
      is_Some (rmatch r pos (t +:+ rest) g k).
Proof.
  induction r as [| | |p|r1 IH1 r2 IH2|r1 IH1 r2 IH2|r1 IH1|p|m r1 IH1];
    intros k Hk pos t rest g g0; cbn [rmatch consumes].
  - intros -> H. cbn in H |- *. rewrite Nat.add_0_r in H. by apply (Hk _ _ g0).
  - intros [-> ->] H. cbn in H |- *. by apply (Hk _ _ g0).
  - intros [-> ->] H. cbn in H |- *. rewrite Nat.add_0_r in H. by apply (Hk _ _ g0).
  - intros (c & -> & Hc) H. cbn in H |- *. rewrite Hc. rewrite Nat.add_1_r in H.
    by apply (Hk _ _ g0).
  - intros (t1 & t2 & -> & Hc1 & Hc2) H. rewrite append_assoc.
    apply (IH1 _) with (g0 := g0); [| done |].
    + intros pos' s' g1 g2 [x Hx].
      apply rmatch_sound in Hx as (t' & rest' & g' & -> & Hc' & Hx & _).
      apply (IH2 k Hk) with (g0 := g'); [done | by eexists].
    + apply (IH2 k Hk) with (g0 := g0); [done|].
      by rewrite length_append, Nat.add_assoc in H.
  - intros Hc H. destruct (rmatch r1 pos (t +:+ rest) g k) eqn:H1; [by eexists|].
    destruct Hc as [Hc|Hc].
    + assert (is_Some (rmatch r1 pos (t +:+ rest) g k)) as [x Hx] by eauto.
      congruence.
    + eauto.
  - intros Hc H. destruct (rmatch r1 pos (t +:+ rest) g k) eqn:H1; [by eexists|].
    destruct Hc as [Hc| ->].
    + assert (is_Some (rmatch r1 pos (t +:+ rest) g k)) as [x Hx] by eauto.
      congruence.
    + cbn in H |- *. rewrite Nat.add_0_r in H. by apply (Hk _ _ g0).
  - intros [Hne Hall] H. apply plus_from_complete; [done | done |].
    by apply (Hk _ _ g0).
  - intros Hc H.
    apply (IH1 _) with (g0 := g0); [| done |].
    + intros pos' s' g1 g2. apply Hk.
    + by apply (Hk _ _ g0).
Qed.
End MatcherMeaning.

(** A search finds a match exactly when the pattern consumes some part
    of the string. *)
Lemma regex_search_spec (r : regex) :
  forall s pos,
    is_Some (regex_search r pos s)
    <-> exists pre t rest,
          s = pre +:+ t +:+ rest
          /\ consumes r (pos + String.length pre) t rest.
Proof.
  assert (forall pos s,
            is_Some (rmatch r pos s []
                       (fun pos' _ g => Some (mkMatch pos (substring 0 (pos' - pos) s) g)))
            <-> exists t rest, s = t +:+ rest /\ consumes r pos t rest) as Hhere.
  { intros pos s. split.
    - intros [x Hx]. apply rmatch_sound in Hx as (t & rest & g' & -> & Hc & _).
      by exists t, rest.
    - intros (t & rest & -> & Hc).
      apply rmatch_complete with (g0 := []); [| done | by eexists].
      intros ? ? ? ? _. by eexists. }
  induction s as [|c s IH]; intros pos; cbn [regex_search].
  - destruct (rmatch r pos "" [] _) eqn:H.
    + split; [|by eexists]. intros _.
      assert (is_Some (rmatch r pos "" []
                (fun pos' _ g => Some (mkMatch pos (substring 0 (pos' - pos) "") g))))
        as Hs by (rewrite H; by eexists).
      apply Hhere in Hs as (t & rest & Hs & Hc). exists "", t, rest.
      cbn. by rewrite Nat.add_0_r.
    + split; [intros [x Hx]; discriminate|].
      intros (pre & t & rest & Hs & Hc). destruct pre; [|discriminate].
      cbn in Hs, Hc. rewrite Nat.add_0_r in Hc.
      assert (is_Some (rmatch r pos "" []
                (fun pos' _ g => Some (mkMatch pos (substring 0 (pos' - pos) "") g))))
        as [x Hx] by (apply Hhere; by exists t, rest).
      congruence.
  - destruct (rmatch r pos (String c s) [] _) eqn:H.
    + split; [|by eexists]. intros _.
      assert (is_Some (rmatch r pos (String c s) []
                (fun pos' _ g =>
                   Some (mkMatch pos (substring 0 (pos' - pos) (String c s)) g))))
        as Hs by (rewrite H; by eexists).
      apply Hhere in Hs as (t & rest & Hs & Hc). exists "", t, rest.
      cbn. by rewrite Nat.add_0_r.
    + rewrite IH. split.
      * intros (pre & t & rest & -> & Hc). exists (String c pre), t, rest.
        cbn. by rewrite Nat.add_succ_r.
      * intros (pre & t & rest & Hs & Hc). destruct pre as [|c' pre].
        -- cbn in Hs, Hc. rewrite Nat.add_0_r in Hc.
           assert (is_Some (rmatch r pos (String c s) []
                     (fun pos' _ g =>
                        Some (mkMatch pos (substring 0 (pos' - pos) (String c s)) g))))
             as [x Hx] by (apply Hhere; by exists t, rest).
           congruence.
        -- cbn in Hs. injection Hs as <- ->. exists pre, t, rest.
           cbn in Hc. by rewrite Nat.add_succ_r in Hc.
Qed.

Lemma regex_test_spec (r : regex) (s : string) :
  regex_test r s = true
  <-> exists pre t rest,
        s = pre +:+ t +:+ rest /\ consumes r (String.length pre) t rest.
Proof.
  unfold regex_test, regex_match. rewrite <- (regex_search_spec r s 0).
  destruct (regex_search r 0 s) as [m|].
  - split; [intros _; by eexists | done].
  - split; [discriminate | intros [x Hx]; discriminate].
Qed.

(** The groups of a match hold texts the pattern can capture. *)
Lemma regex_match_captured (r : regex) (s : string) (m : MatchResult) :
  regex_match r s = Some m ->
  forall n u, group n (groups m) = Some u -> captured r n u.
Proof.
  unfold regex_match.
  assert (forall g n u, group n g = Some u -> In (n, u) g) as Hgroup.
  { induction g as [|[i t] g IH]; intros n u; cbn; [discriminate|].
    destruct (Nat.eqb i n) eqn:Hi.
    - apply Nat.eqb_eq in Hi as ->. intros [= ->]. by left.
    - right. by apply IH. }
  generalize 0 as pos.
  induction s as [|c s IH]; intros pos; cbn [regex_search].
  - destruct (rmatch r pos "" [] _) eqn:H; [|discriminate].
    intros [= <-] n u Hu.
    apply rmatch_sound in H as (t & rest & g' & _ & _ & [= <-] & Hg).
    cbn in Hu. destruct (Hg n u (Hgroup _ _ _ Hu)) as [[]|]; done.
  - destruct (rmatch r pos (String c s) [] _) eqn:H.
    + intros [= <-] n u Hu.
      apply rmatch_sound in H as (t & rest & g' & _ & _ & [= <-] & Hg).
      cbn in Hu. destruct (Hg n u (Hgroup _ _ _ Hu)) as [[]|]; done.
    + apply IH.
Qed.

Lemma ascii_forall (p : ascii -> bool) :
  forallb p all_ascii = true -> forall c, p c = true.
Proof.
  intros H c. rewrite forallb_forall in H. apply H.
  unfold all_ascii. rewrite <- (ascii_nat_embedding c).
  apply in_map, in_seq. pose proof (nat_ascii_bounded c). lia.
Qed.

Lemma char_in_split (c : ascii) :
  forall s, char_in c s <-> exists pre rest, s = pre +:+ String c rest.
Proof.
  induction s as [|c' s IH]; cbn.
  - split; [done|]. intros (pre & rest & H). by destruct pre.
  - rewrite IH. split.
    + intros [->|(pre & rest & ->)]; [by exists "", s | by exists (String c' pre), rest].
    + intros (pre & rest & H). destruct pre as [|x pre]; cbn in H.
      * injection H as -> ->. by left.
      * injection H as -> ->. right. by exists pre, rest.
Qed.

Lemma all_chars_impl (P Q : ascii -> Prop) :
  (forall c, P c -> Q c) -> forall s, all_chars P s -> all_chars Q s.
Proof.
  intros HPQ. induction s as [|c s IH]; cbn; [done|]. intros [Hc Hs]. auto.
Qed.

Lemma all_chars_forall (P : ascii -> Prop) :
  forall s, all_chars P s <-> forall c, char_in c s -> P c.
Proof.
  induction s as [|c s IH]; cbn.
  - split; [intros _ c [] | done].
  - rewrite IH. split.
    + intros [Hc Hs] c' [<-|Hin]; auto.
    + intros H. split; [apply H; by left | intros c' Hin; apply H; by right].
Qed.

Lemma all_chars_append (P : ascii -> Prop) :
  forall a b, all_chars P (a +:+ b) <-> all_chars P a /\ all_chars P b.
Proof.
  induction a as [|c a IH]; intros b; cbn; [tauto|]. rewrite IH. tauto.
Qed.

(** ** cli.ts: the other two validators *)

Lemma validateCommandInput_spec (input : string) :
  validateCommandInput input = false
  <-> exists c, char_in c input /\ In c dangerous_chars.
Proof.
  unfold validateCommandInput. rewrite negb_false_iff, regex_test_spec.
  cbn [consumes]. split.
  - intros (pre & t & rest & -> & c & -> & Hc).
    exists c. split; [apply char_in_split; by exists pre, rest|].
    apply existsb_exists in Hc as (c' & Hin & Heq).
    apply Ascii.eqb_eq in Heq as ->. exact Hin.
  - intros (c & Hin & Hc). apply char_in_split in Hin as (pre & rest & ->).
    exists pre, (String c ""), rest. split; [done|]. exists c. split; [done|].
    apply existsb_exists. exists c. split; [exact Hc | apply Ascii.eqb_refl].
Qed.

Lemma validateCommandInput_true (input : string) :
  validateCommandInput input = true
  <-> all_chars (fun c => ~ In c dangerous_chars) input.
Proof.
  rewrite all_chars_forall. split.
  - intros Htrue c Hin Hc.
    assert (validateCommandInput input = false) as Hfalse
      by (apply validateCommandInput_spec; by exists c).
    congruence.
  - intros Hall. destruct (validateCommandInput input) eqn:H; [done|].
    apply validateCommandInput_spec in H as (c & Hin & Hc). by destruct (Hall c Hin).
Qed.

(** X1.  [validateCommandInput] refuses exactly the strings that hold one
    of the characters [; & | ` $ ( ) { } [ ] < > \], a line feed or a
    carriage return; the empty string is accepted. *)
Theorem validateCommandInput_rejects_exactly :
  (forall input,
     validateCommandInput input = false
     <-> exists c, char_in c input /\ In c dangerous_chars)
  /\ (forall input,
        validateCommandInput input = true
        <-> all_chars (fun c => ~ In c dangerous_chars) input)
  /\ validateCommandInput "" = true.
Proof.
  split; [exact validateCommandInput_spec|]. split; [exact validateCommandInput_true|].
  by apply validateCommandInput_true.
Qed.

Lemma hexClass_spec (c : ascii) : hexClass c = true <-> is_hex_char c.
Proof.
  set (hex := fun c => (((48 <=? code c) && (code c <=? 57))
                        || ((65 <=? code c) && (code c <=? 70))
                        || ((97 <=? code c) && (code c <=? 102)))%N).
  assert (hexClass c = hex c) as ->.
  { apply Bool.eqb_prop.
    apply (ascii_forall (fun c => Bool.eqb (hexClass c) (hex c))). by vm_compute. }
  unfold hex, is_hex_char.
  rewrite !orb_true_iff, !andb_true_iff, !N.leb_le. tauto.
Qed.

Lemma consumes_rep_class (p : ascii -> bool) :
  forall n pos t rest,
    consumes (rep n (Cls p)) pos t rest
    <-> String.length t = n /\ all_chars (fun c => p c = true) t.
Proof.
  induction n as [|n IH]; intros pos t rest; cbn [rep consumes].
  - split; [by intros -> | intros [H _]; by destruct t].
  - split.
    + intros (t1 & t2 & -> & (c & -> & Hc) & H2). apply IH in H2 as [<- Hall]. done.
    + intros [Hlen Hall]. destruct t as [|c t]; [done|]. destruct Hall as [Hc Hall].
      exists (String c ""), t. split; [done|]. split; [by exists c|].
      apply IH. split; [by injection Hlen | done].
Qed.

Lemma validateUDID_spec (udid : string) : validateUDID udid = true <-> uuid_shape udid.
Proof.
  unfold validateUDID, uuid_shape. rewrite regex_test_spec.
  unfold uuidRegex. cbn [seqs foldr consumes]. split.
  - intros (pre & t & rest & -> & t0 & u0 & -> & [-> Hpos] & H).
    destruct pre; [|done]. clear Hpos.
    destruct H as (a & u1 & -> & Ha & H). apply consumes_rep_class in Ha as [Hla Ha].
    destruct H as (? & u2 & -> & (? & -> & ->%Ascii.eqb_eq) & H).
    destruct H as (b & u3 & -> & Hb & H). apply consumes_rep_class in Hb as [Hlb Hb].
    destruct H as (? & u4 & -> & (? & -> & ->%Ascii.eqb_eq) & H).
    destruct H as (c & u5 & -> & Hc & H). apply consumes_rep_class in Hc as [Hlc Hc].
    destruct H as (? & u6 & -> & (? & -> & ->%Ascii.eqb_eq) & H).
    destruct H as (d & u7 & -> & Hd & H). apply consumes_rep_class in Hd as [Hld Hd].
    destruct H as (? & u8 & -> & (? & -> & ->%Ascii.eqb_eq) & H).
    destruct H as (e & u9 & -> & He & H). apply consumes_rep_class in He as [Hle He].
    destruct H as (? & ? & -> & [-> Hend] & ->). cbn in Hend. subst rest.
    exists a, b, c, d, e. cbn. rewrite !append_nil_r.
    repeat split; try done;
      eapply all_chars_impl; try eassumption; intros ?; apply hexClass_spec.
  - intros (a & b & c & d & e & -> & Hla & Hlb & Hlc & Hld & Hle & Ha & Hb & Hc & Hd & He).
    assert (forall n pos t rest,
              String.length t = n -> all_chars is_hex_char t ->
              consumes (rep n (Cls hexClass)) pos t rest) as Hrep.
    { intros n pos t rest Hl Hall. apply consumes_rep_class. split; [done|].
      eapply all_chars_impl; [|exact Hall]. intros ?. apply hexClass_spec. }
    exists "", (a +:+ "-" +:+ b +:+ "-" +:+ c +:+ "-" +:+ d +:+ "-" +:+ e), "".
    split; [by rewrite append_nil_r|].
    exists "", (a +:+ "-" +:+ b +:+ "-" +:+ c +:+ "-" +:+ d +:+ "-" +:+ e).
    split; [done|]. split; [done|].
    exists a, ("-" +:+ b +:+ "-" +:+ c +:+ "-" +:+ d +:+ "-" +:+ e).
    split; [done|]. split; [by apply Hrep|].
    exists "-", (b +:+ "-" +:+ c +:+ "-" +:+ d +:+ "-" +:+ e).
    split; [done|]. split; [by exists "-"%char|].
    exists b, ("-" +:+ c +:+ "-" +:+ d +:+ "-" +:+ e).
    split; [done|]. split; [by apply Hrep|].
    exists "-", (c +:+ "-" +:+ d +:+ "-" +:+ e).
    split; [done|]. split; [by exists "-"%char|].
    exists c, ("-" +:+ d +:+ "-" +:+ e).
    split; [done|]. split; [by apply Hrep|].
    exists "-", (d +:+ "-" +:+ e).
    split; [done|]. split; [by exists "-"%char|].
    exists d, ("-" +:+ e).
    split; [done|]. split; [by apply Hrep|].
    exists "-", e.
    split; [done|]. split; [by exists "-"%char|].
    exists e, "".
    split; [by rewrite append_nil_r|]. split; [by apply Hrep|].
    exists "", "". done.
Qed.

(** X2.  [validateUDID] accepts exactly the strings made of five runs of
    8, 4, 4, 4 and 12 hexadecimal digits, of either case, with a hyphen
    between two runs; such a string has 36 characters. *)
Theorem validateUDID_accepts_exactly :
  (forall udid, validateUDID udid = true <-> uuid_shape udid)
  /\ (forall udid, validateUDID udid = true -> String.length udid = 36)
  /\ validateUDID "" = false.
Proof.
  split; [exact validateUDID_spec|]. split; [|done].
  intros udid (a & b & c & d & e & -> & Ha & Hb & Hc & Hd & He & _)%validateUDID_spec.
  rewrite !length_append. cbn. lia.
Qed.

Lemma dangerous_codes (c : ascii) :
  In c dangerous_chars ->
  In (code c) [59; 38; 124; 96; 36; 40; 41; 123; 125; 91; 93; 60; 62; 92; 10; 13]%N.
Proof.
  intros Hin. apply (in_map code) in Hin. exact Hin.
Qed.

Lemma avd_char_not_dangerous (c : ascii) : is_avd_char c -> ~ In c dangerous_chars.
Proof.
  intros Hc Hin. apply dangerous_codes in Hin.
  assert (code c = 95 \/ code c = 45 \/ (97 <= code c <= 122) \/ (65 <= code c <= 90)
          \/ (48 <= code c <= 57))%N as Hcode.
  { destruct Hc as [H|[H|[H|[->| ->]]]]; auto. }
  cbn in Hin. lia.
Qed.

Lemma uuid_char_not_dangerous (c : ascii) :
  is_hex_char c \/ c = "-"%char -> ~ In c dangerous_chars.
Proof.
  intros Hc Hin. apply dangerous_codes in Hin.
  assert (code c = 45 \/ (48 <= code c <= 57) \/ (65 <= code c <= 70)
          \/ (97 <= code c <= 102))%N as Hcode.
  { destruct Hc as [[H|[H|H]]| ->]; auto. }
  cbn in Hin. lia.
Qed.

(** X3.  Both boot functions refuse an argument that fails its validator
    before they look at the machine, whatever the machine is, and an
    argument that passes holds none of the characters that
    [validateCommandInput] refuses. *)
Theorem boot_arguments_are_safe :
  (forall w udid,
     validateUDID udid = false ->
     bootIOSSimulator w udid = Throws (Error ("Invalid UDID format: " +:+ udid)))
  /\ (forall w avdName,
        validateAVDName avdName = false ->
        bootAndroidEmulator w avdName
        = Throws (Error ("Invalid AVD name format: " +:+ avdName)))
  /\ (forall udid, validateUDID udid = true -> validateCommandInput udid = true)
  /\ (forall avdName,
        validateAVDName avdName = true -> validateCommandInput avdName = true).
Proof.
  split; [|split; [|split]].
  - intros w udid H. unfold bootIOSSimulator. by rewrite H.
  - intros w avdName H. unfold bootAndroidEmulator. by rewrite H.
  - intros udid (a & b & c & d & e & -> & _ & _ & _ & _ & _ & Ha & Hb & Hc & Hd & He)
      %validateUDID_spec.
    apply validateCommandInput_true.
    assert (forall t, all_chars is_hex_char t ->
                      all_chars (fun c => ~ In c dangerous_chars) t) as Hhex.
    { apply all_chars_impl. intros x Hx. apply uuid_char_not_dangerous. by left. }
    assert (all_chars (fun c => ~ In c dangerous_chars) "-") as Hdash.
    { split; [|done]. apply uuid_char_not_dangerous. by right. }
    rewrite !all_chars_append. auto 20.
  - intros avdName H. unfold validateAVDName in H.
    apply andb_true_iff in H as [H _]. apply andb_true_iff in H as [H _].
    apply avdNameRegex_spec in H as [_ Hall].
    apply validateCommandInput_true.
    eapply all_chars_impl; [|exact Hall]. apply avd_char_not_dangerous.
Qed.

(** X4.  [executeCommand] reports success exactly for a child that is
    fulfilled by the deadline, and then hands on what the child wrote: a
    child fulfilled before the deadline gives a successful result with its
    two outputs and no error, at the time the child ended; a successful
    result always comes from such a child; and a call that [execFile]
    refuses at once gives a failure at once. *)
Theorem executeCommand_succeeds_exactly :
  forall (w : World) (command : string) (args : list string)
         (options : ExecFileOptions),
    (forall tc out,
       execFileAsync w command args (child_options options)
       = inr (Some (tc, Fulfilled out)) ->
       tc < deadline options ->
       executeCommand w command args options
       = Some (tc, Fulfilled (CLICommandResult.mk true (out_stdout out)
                                (out_stderr out) None)))
    /\ (forall t result,
          executeCommand w command args options = Some (t, Fulfilled result) ->
          CLICommandResult.success result = true ->
          exists out,
            execFileAsync w command args (child_options options)
            = inr (Some (t, Fulfilled out))
            /\ t <= deadline options
            /\ result = CLICommandResult.mk true (out_stdout out) (out_stderr out) None)
    /\ (forall e,
          execFileAsync w command args (child_options options) = inl e ->
          executeCommand w command args options
          = Some (0, Fulfilled (failure_result e))).
Proof.
  intros w command args options. unfold executeCommand, child_options, deadline.
  split; [|split].
  - intros tc out -> Hlt. unfold race, reject_after.
    destruct (Nat.leb_spec tc (timer_delay (effective_timeout options))); [done | lia].
  - intros t result.
    destruct (execFileAsync w command args _) as [e|[[tc [out|e]]|]];
      unfold race, reject_after.
    + by intros [= <- <-].
    + destruct (Nat.leb_spec tc (timer_delay (effective_timeout options))).
      * intros [= <- <-] _. by exists out.
      * by intros [= <- <-].
    + destruct (Nat.leb tc (timer_delay (effective_timeout options)));
        by intros [= <- <-].
    + by intros [= <- <-].
  - by intros e ->.
Qed.

(** ** platform.ts *)

(** X5.  [checkXcodeAvailable] never throws.  Off macOS it answers no
    without running anything; on macOS it answers yes exactly when
    [xcrun --version] is fulfilled, and it is left waiting only by a child
    that never ends. *)
Theorem checkXcodeAvailable_answers :
  forall w : World,
    (forall e, checkXcodeAvailable w <> Throws e)
    /\ (os_platform w <> "darwin" -> checkXcodeAvailable w = Returns false)
    /\ (checkXcodeAvailable w = Returns true
        <-> os_platform w = "darwin"
            /\ exists t out,
                 execFileAsync w "xcrun" ["--version"] (with_timeout 5000)
                 = inr (Some (t, Fulfilled out)))
    /\ (checkXcodeAvailable w = Hangs
        <-> os_platform w = "darwin"
            /\ execFileAsync w "xcrun" ["--version"] (with_timeout 5000) = inr None).
Proof.
  intros w. unfold checkXcodeAvailable, isMacOS, probe.
  destruct (String.eqb_spec (os_platform w) "darwin") as [Hmac|Hother]; cbn [negb].
  - destruct (execFileAsync w "xcrun" ["--version"] (with_timeout 5000))
      as [e|[[t [out|e]]|]]; cbn;
      (split; [done|]); (split; [done|]); split; split;
      try done; try (by intros [_ (? & ? & ?)]); try (by intros [_ ?]).
    intros _. split; [done|]. by exists t, out.
  - split; [done|]. split; [done|]. split; split; try done; by intros [? _].
Qed.

Lemma resolve_tool_found (w : World) (sub exe : string) (defaults : Run (list string))
    (p : string) :
  resolve_tool w sub exe defaults = Returns (Some p) ->
  fs_existsSync w p = true
  \/ (p = exe
      /\ probe w (if isWindows w then "where" else "which") [exe] = Returns tt).
Proof.
  unfold resolve_tool.
  destruct (env_or w "ANDROID_HOME" "ANDROID_SDK_ROOT") as [home|].
  - destruct (truthy home && fs_existsSync w (path_join w [home; sub; exe])) eqn:Henv.
    + intros [= <-]. left. by apply andb_true_iff in Henv as [_ ?].
    + destruct defaults as [paths|e|]; cbn [bind]; [|done|done].
      destruct (List.find (fs_existsSync w) paths) as [q|] eqn:Hfind.
      * intros [= <-]. left. by apply find_some in Hfind as [_ ?].
      * destruct (probe w _ [exe]) as [[]|e|]; cbn; [|done|done].
        intros [= <-]. by right.
  - destruct defaults as [paths|e|]; cbn [bind]; [|done|done].
    destruct (List.find (fs_existsSync w) paths) as [q|] eqn:Hfind.
    + intros [= <-]. left. by apply find_some in Hfind as [_ ?].
    + destruct (probe w _ [exe]) as [[]|e|]; cbn; [|done|done].
      intros [= <-]. by right.
Qed.

Lemma resolve_tool_from_env (w : World) (sub exe : string) (defaults : Run (list string))
    (home : string) :
  env_or w "ANDROID_HOME" "ANDROID_SDK_ROOT" = Some home ->
  home <> "" ->
  fs_existsSync w (path_join w [home; sub; exe]) = true ->
  resolve_tool w sub exe defaults = Returns (Some (path_join w [home; sub; exe])).
Proof.
  intros Henv Hhome Hexists. unfold resolve_tool. rewrite Henv, Hexists.
  assert (truthy home = true) as ->; [|done].
  unfold truthy. apply negb_true_iff. by apply String.eqb_neq.
Qed.

(** X6.  A path that [getAndroidEmulatorPath] or [getAndroidAdbPath]
    returns is a file that exists, or else the bare name of the tool, and
    then [which] (or [where]) found it.  The SDK root of the environment
    comes first: when the tool exists below it, that path is the answer
    whatever else the machine holds. *)
Theorem tool_paths_exist :
  forall (w : World),
    (forall p,
       getAndroidEmulatorPath w = Returns (Some p) ->
       fs_existsSync w p = true
       \/ (p = emulator_exe w
           /\ probe w (if isWindows w then "where" else "which") [emulator_exe w]
              = Returns tt))
    /\ (forall p,
          getAndroidAdbPath w = Returns (Some p) ->
          fs_existsSync w p = true
          \/ (p = adb_exe w
              /\ probe w (if isWindows w then "where" else "which") [adb_exe w]
                 = Returns tt))
    /\ (forall home,
          env_or w "ANDROID_HOME" "ANDROID_SDK_ROOT" = Some home -> home <> "" ->
          (fs_existsSync w (path_join w [home; "emulator"; emulator_exe w]) = true ->
           getAndroidEmulatorPath w
           = Returns (Some (path_join w [home; "emulator"; emulator_exe w])))
          /\ (fs_existsSync w (path_join w [home; "platform-tools"; adb_exe w]) = true ->
              getAndroidAdbPath w
              = Returns (Some (path_join w [home; "platform-tools"; adb_exe w])))).
Proof.
  intros w. split; [|split].
  - intros p. apply resolve_tool_found.
  - intros p. apply resolve_tool_found.
  - intros home Henv Hhome. split; intros Hexists; by apply resolve_tool_from_env.
Qed.

(** X7.  The two ways of finding the emulator agree on a file on disk:
    when [getAndroidEmulatorPath] returns a path other than the bare name
    of the tool, [checkAndroidAvailable] answers yes, unless it is left
    waiting by [emulator -version]. *)
Theorem emulator_on_disk_is_available :
  forall (w : World) (p : string),
    getAndroidEmulatorPath w = Returns (Some p) ->
    p <> emulator_exe w ->
    checkAndroidAvailable w <> Hangs ->
    checkAndroidAvailable w = Returns true.
Proof.
  intros w p Hpath Hbare. unfold checkAndroidAvailable, getAndroidEmulatorPath in *.
  fold (emulator_exe w) in *.
  destruct (probe w (emulator_exe w) ["-version"]) as [[]|e|]; cbn; [done| |done].
  intros _. unfold resolve_tool in Hpath.
  destruct (env_or w "ANDROID_HOME" "ANDROID_SDK_ROOT") as [home|].
  - destruct (truthy home && fs_existsSync w (path_join w [home; "emulator"; emulator_exe w]));
      [done|].
    destruct (getDefaultAndroidPaths w) as [paths|e'|]; cbn in Hpath |- *; [|done|done].
    destruct (List.find (fs_existsSync w) paths) as [q|] eqn:Hfind.
    + apply find_some in Hfind as [Hin Hq]. f_equal.
      apply existsb_exists. by exists q.
    + destruct (probe w _ [emulator_exe w]) as [[]|?|]; cbn in Hpath; [|done|done].
      by injection Hpath as <-.
  - destruct (getDefaultAndroidPaths w) as [paths|e'|]; cbn in Hpath |- *; [|done|done].
    destruct (List.find (fs_existsSync w) paths) as [q|] eqn:Hfind.
    + apply find_some in Hfind as [Hin Hq]. f_equal.
      apply existsb_exists. by exists q.
    + destruct (probe w _ [emulator_exe w]) as [[]|?|]; cbn in Hpath; [|done|done].
      by injection Hpath as <-.
Qed.

Lemma emulator_on_disk_on_linux :
  getAndroidEmulatorPath linux_with_sdk
  = Returns (Some "/home/dev/Android/Sdk/emulator/emulator")
  /\ checkAndroidAvailable linux_with_sdk = Returns true.
Proof.
  split; [vm_compute; reflexivity|].
  apply (emulator_on_disk_is_available linux_with_sdk
           "/home/dev/Android/Sdk/emulator/emulator").
  - vm_compute. reflexivity.
  - vm_compute. discriminate.
  - vm_compute. discriminate.
Defined.

(** ** Strings: [trim] and [split] *)

Lemma trimStart_head (s : string) : head_ok (trimStart s).
Proof.
  induction s as [|c s IH]; cbn [trimStart]; [done|].
  destruct (isWhiteSpace c) eqn:Hc; [done|]. exact Hc.
Qed.

Lemma trimStart_fixed (s : string) : head_ok s -> trimStart s = s.
Proof. destruct s as [|c s]; cbn [head_ok trimStart]; [done|]. by intros ->. Qed.

Lemma trimEnd_head (s : string) : head_ok s -> head_ok (trimEnd s).
Proof.
  destruct s as [|c s]; cbn [head_ok trimEnd]; [done|]. intros Hc.
  destruct (trimEnd s); [by rewrite Hc | done].
Qed.

Lemma trimEnd_idem (s : string) : trimEnd (trimEnd s) = trimEnd s.
Proof.
  induction s as [|c s IH]; cbn [trimEnd]; [done|].
  destruct (trimEnd s) as [|d t] eqn:Ht.
  - destruct (isWhiteSpace c) eqn:Hc; cbn [trimEnd]; [done|]. by rewrite Hc.
  - cbn [trimEnd] in IH |- *. by rewrite IH.
Qed.

Lemma trim_idem (s : string) : trim (trim s) = trim s.
Proof.
  unfold trim.
  rewrite (trimStart_fixed (trimEnd (trimStart s)))
    by apply trimEnd_head, trimStart_head.
  apply trimEnd_idem.
Qed.

Lemma trimStart_length (s : string) :
  trimStart s = s \/ String.length (trimStart s) < String.length s.
Proof.
  induction s as [|c s IH]; cbn [trimStart String.length]; [by left|].
  destruct (isWhiteSpace c); [|by left]. right. destruct IH as [->|]; lia.
Qed.

Lemma trimEnd_length (s : string) : String.length (trimEnd s) <= String.length s.
Proof.
  induction s as [|c s IH]; cbn [trimEnd String.length]; [done|].
  destruct (trimEnd s) as [|d t];
    [destruct (isWhiteSpace c); cbn [String.length]; lia|].
  cbn [String.length] in *. lia.
Qed.

Lemma trim_fixed (s : string) : trim s = s -> trimStart s = s /\ trimEnd s = s.
Proof.
  unfold trim. intros H.
  destruct (trimStart_length s) as [Hs|Hlt].
  - split; [done|]. by rewrite Hs in H.
  - pose proof (trimEnd_length (trimStart s)) as Hle. rewrite H in Hle. lia.
Qed.

Lemma char_in_trimStart (c : ascii) (s : string) :
  char_in c (trimStart s) -> char_in c s.
Proof.
  induction s as [|d s IH]; cbn [trimStart char_in]; [done|].
  destruct (isWhiteSpace d); [auto | done].
Qed.

Lemma char_in_trimEnd (c : ascii) (s : string) :
  char_in c (trimEnd s) -> char_in c s.
Proof.
  induction s as [|d s IH]; cbn [trimEnd char_in]; [done|].
  destruct (trimEnd s) as [|e t].
  - destruct (isWhiteSpace d); cbn [char_in]; [done | tauto].
  - cbn [char_in] in *. tauto.
Qed.

Lemma char_in_trim (c : ascii) (s : string) : char_in c (trim s) -> char_in c s.
Proof. intros H. by apply char_in_trimStart, char_in_trimEnd. Qed.

Lemma trimEnd_append (a b : string) :
  trimEnd (a +:+ b)
  = match trimEnd b with
    | "" => trimEnd a
    | t => a +:+ t
    end.
Proof.
  induction a as [|c a IH]; cbn [append trimEnd].
  - by destruct (trimEnd b).
  - rewrite IH. destruct (trimEnd b) as [|d t]; [done|]. by destruct a.
Qed.

Lemma split_pieces (sep : ascii) :
  forall s piece, In piece (split sep s) -> ~ char_in sep piece.
Proof.
  induction s as [|c s IH]; cbn [split In].
  - intros piece [<-|[]] [].
  - destruct (Ascii.eqb_spec c sep) as [->|Hc].
    + intros piece [<-|Hin]; [intros [] | by apply IH].
    + destruct (split sep s) as [|t ts] eqn:Hs.
      * intros piece [<-|[]] [|[]]. done.
      * intros piece [<-|Hin].
        -- intros [|Hin]; [done|]. apply (IH t); [by left | done].
        -- apply IH. by right.
Qed.

Lemma split_whole (sep : ascii) :
  forall s, ~ char_in sep s -> split sep s = [s].
Proof.
  induction s as [|c s IH]; cbn [split char_in]; [done|]. intros Hno.
  destruct (Ascii.eqb_spec c sep) as [->|Hc]; [tauto|].
  rewrite IH by tauto. done.
Qed.

Lemma split_append (sep : ascii) :
  forall a b, ~ char_in sep a -> split sep (a +:+ String sep b) = a :: split sep b.
Proof.
  induction a as [|c a IH]; intros b Hno; cbn [append split].
  - by rewrite Ascii.eqb_refl.
  - cbn [char_in] in Hno. destruct (Ascii.eqb_spec c sep) as [->|Hc]; [tauto|].
    rewrite IH by tauto. done.
Qed.

(** ** androidEmulator.ts: the listing parser *)

Lemma nonblank_trim (line : string) : nonblank line = true -> trim line <> "".
Proof.
  unfold nonblank. intros H Hempty. rewrite Hempty in H. done.
Qed.

Lemma trimEnd_blank (s : string) :
  string_forallb isWhiteSpace s = true -> trimEnd s = "".
Proof.
  induction s as [|c s IH]; cbn [string_forallb trimEnd]; [done|].
  intros [Hc Hs]%andb_true_iff. by rewrite (IH Hs), Hc.
Qed.

Lemma trim_blank (s : string) : string_forallb isWhiteSpace s = true -> trim s = "".
Proof.
  unfold trim. intros H.
  assert (trimStart s = "") as ->; [|done].
  induction s as [|c s IH]; cbn [trimStart]; [done|].
  cbn [string_forallb] in H. apply andb_true_iff in H as [-> Hs]. by apply IH.
Qed.

(** X8.  Every emulator that [parseAndroidEmulatorList] returns has a
    name that is not empty, has no white space at either end and holds no
    line feed; it is marked stopped and has no path.  An output of white
    space only gives no emulator at all. *)
Theorem parseAndroidEmulatorList_names :
  (forall output emu,
     In emu (parseAndroidEmulatorList output) ->
     line_name (AndroidEmulator.name emu)
     /\ AndroidEmulator.status emu = Some stopped
     /\ AndroidEmulator.path emu = None)
  /\ (forall output,
        string_forallb isWhiteSpace output = true ->
        parseAndroidEmulatorList output = []).
Proof.
  split.
  - intros output emu. unfold parseAndroidEmulatorList.
    intros (line & <- & Hline)%in_map_iff. apply filter_In in Hline as [Hin Hnb].
    cbn. split; [|done]. split; [by apply nonblank_trim|]. split; [apply trim_idem|].
    intros Hnl. apply char_in_trim in Hnl. by apply (split_pieces newline _ _ Hin).
  - intros output Hblank. unfold parseAndroidEmulatorList.
    by rewrite (trim_blank _ Hblank).
Qed.

Lemma text_cons (n : string) (names : list string) :
  text (n :: names) = n +:+ String newline (text names).
Proof.
  unfold text. cbn [List.map].
  destruct (List.map (fun l => l +:+ String newline "") names) as [|l ls];
    cbn [String.concat append]; [done|]. by rewrite append_assoc.
Qed.

Lemma concat_nonempty (sep n : string) (names : list string) :
  n <> "" -> String.concat sep (n :: names) <> "".
Proof.
  intros Hn. destruct names; cbn [String.concat]; [done|]. by destruct n.
Qed.

Lemma line_name_ends (n : string) :
  line_name n -> head_ok n /\ trimEnd n = n /\ nonblank n = true.
Proof.
  intros (Hne & Htrim & _). destruct (trim_fixed n Htrim) as [Hstart Hend].
  split; [rewrite <- Hstart; apply trimStart_head|]. split; [done|].
  unfold nonblank. rewrite Htrim. destruct n; [done|]. done.
Qed.

Lemma trimEnd_text :
  forall names,
    names <> [] -> Forall line_name names ->
    trimEnd (text names) = String.concat (String newline "") names.
Proof.
  induction names as [|n names IH]; [done|]. intros _ Hall.
  apply Forall_cons in Hall as [Hn Hall].
  destruct (line_name_ends n Hn) as (_ & Hend & _).
  rewrite text_cons, trimEnd_append. cbn [trimEnd].
  destruct names as [|m rest].
  - cbn. exact Hend.
  - rewrite IH by done.
    change (String.concat (String newline "") (n :: m :: rest))
      with (n +:+ String newline "" +:+ String.concat (String newline "") (m :: rest)).
    pose proof (concat_nonempty (String newline "") m rest) as Hne.
    destruct (String.concat (String newline "") (m :: rest)) as [|d t].
    + destruct Hne; [|done]. apply Forall_cons in Hall as [[? _] _]. done.
    + done.
Qed.

Lemma split_concat (sep : ascii) :
  forall names,
    names <> [] -> Forall (fun n => ~ char_in sep n) names ->
    split sep (String.concat (String sep "") names) = names.
Proof.
  induction names as [|n names IH]; [done|]. intros _ Hall.
  apply Forall_cons in Hall as [Hn Hall]. destruct names as [|m rest].
  - cbn [String.concat]. by apply split_whole.
  - change (String.concat (String sep "") (n :: m :: rest))
      with (n +:+ String sep (String.concat (String sep "") (m :: rest))).
    rewrite split_append by done. by rewrite IH.
Qed.

(** X9.  Listing and parsing are inverse to one another: the text that
    holds one name on each line parses back to those names, in order, each
    marked stopped, whenever every name is a non-empty line without white
    space at its ends. *)
Theorem parseAndroidEmulatorList_round_trip :
  forall names,
    Forall line_name names ->
    parseAndroidEmulatorList (text names)
    = List.map (fun name => AndroidEmulator.mk name None (Some stopped)) names.
Proof.
  intros names Hall. destruct names as [|n rest]; [done|].
  unfold parseAndroidEmulatorList, trim.
  assert (head_ok (text (n :: rest))) as Hhead.
  { rewrite text_cons. apply Forall_cons in Hall as [Hn _].
    destruct (line_name_ends n Hn) as (Hhead & _). destruct Hn as [Hne _].
    by destruct n. }
  rewrite (trimStart_fixed _ Hhead), trimEnd_text by done.
  rewrite split_concat; [|done|].
  2: { eapply Forall_impl; [exact Hall|]. by intros ? (_ & _ & ?). }
  assert (List.filter nonblank (n :: rest) = n :: rest) as ->.
  { apply forallb_filter_id. apply forallb_forall. intros x Hx.
    rewrite List.Forall_forall in Hall.
    by destruct (line_name_ends x (Hall x Hx)) as (_ & _ & ?). }
  apply map_ext_in. intros x Hx. rewrite List.Forall_forall in Hall.
  fold (trim x). by destruct (Hall x Hx) as (_ & -> & _).
Qed.

Lemma parse_two_names :
  parseAndroidEmulatorList (text ["Pixel_5"; "Nexus 6 API 34"])
  = [AndroidEmulator.mk "Pixel_5" None (Some stopped);
     AndroidEmulator.mk "Nexus 6 API 34" None (Some stopped)].
Proof.
  apply (parseAndroidEmulatorList_round_trip ["Pixel_5"; "Nexus 6 API 34"]).
  repeat constructor; try done; vm_compute; intuition discriminate.
Defined.

(** ** Strings: [startsWith], [includes] and [toLowerCase] *)

Lemma startsWith_spec (p : string) :
  forall s, startsWith s p = true <-> exists post, s = p +:+ post.
Proof.
  induction p as [|a p IH]; intros s.
  - destruct s; cbn [startsWith append]; (split; [intros _; by eexists | done]).
  - destruct s as [|b s]; cbn [startsWith append].
    + split; [done | by intros [post H]].
    + rewrite andb_true_iff, Ascii.eqb_eq, IH. split.
      * intros [-> [post ->]]. by exists post.
      * intros [post [= -> ->]]. split; [done | by exists post].
Qed.

Lemma includes_spec (sub : string) :
  forall s, includes s sub = true <-> exists pre post, s = pre +:+ sub +:+ post.
Proof.
  induction s as [|c s IH]; cbn [includes]; rewrite orb_true_iff, startsWith_spec.
  - split.
    + intros [[post H]|H]; [by exists "", post | done].
    + intros (pre & post & H). left. exists post. destruct pre; [done|done].
  - rewrite IH. split.
    + intros [[post H]|(pre & post & ->)]; [by exists "", post|].
      by exists (String c pre), post.
    + intros (pre & post & H). destruct pre as [|c' pre].
      * left. by exists post.
      * right. injection H as -> ->. by exists pre, post.
Qed.

Lemma includes_longer (s a b c : string) :
  includes s (a +:+ b +:+ c) = true -> includes s b = true.
Proof.
  rewrite !includes_spec. intros (pre & post & ->).
  exists (pre +:+ a), (c +:+ post). by rewrite !append_assoc.
Qed.

Lemma lower_char_idem (c : ascii) : lower_char (lower_char c) = lower_char c.
Proof.
  apply Ascii.eqb_eq.
  apply (ascii_forall (fun c => Ascii.eqb (lower_char (lower_char c)) (lower_char c))).
  by vm_compute.
Qed.

Lemma toLowerCase_idem (s : string) : toLowerCase (toLowerCase s) = toLowerCase s.
Proof.
  induction s as [|c s IH]; cbn [toLowerCase]; [done|].
  by rewrite lower_char_idem, IH.
Qed.

(** ** iosEmulator.ts: the derivations *)

(** X10.  [getIOSDeviceSubtype] is a table look-up: the subtype is that
    of the first of the keywords iphone, ipad, watch, vision, tv that the
    lower-cased device type identifier includes, else of the first that
    the lower-cased name includes, else Other.  The further tests for
    [apple watch], [vision pro] and [appletv] never decide anything, and
    the letter case of the two fields does not matter. *)
Theorem getIOSDeviceSubtype_by_keyword :
  forall simulator : IOSSimulator,
    getIOSDeviceSubtype simulator
    = match first_keyword (toLowerCase (IOSSimulator.deviceTypeIdentifier simulator))
              subtype_keywords with
      | Some subtype => subtype
      | None =>
          match first_keyword (toLowerCase (IOSSimulator.name simulator))
                  subtype_keywords with
          | Some subtype => subtype
          | None => Other
          end
      end
    /\ getIOSDeviceSubtype
         (IOSSimulator.mk (IOSSimulator.udid simulator)
            (toLowerCase (IOSSimulator.name simulator))
            (IOSSimulator.state simulator)
            (toLowerCase (IOSSimulator.deviceTypeIdentifier simulator))
            (IOSSimulator.runtime simulator))
       = getIOSDeviceSubtype simulator.
Proof.
  intros simulator. split.
  - unfold getIOSDeviceSubtype, subtype_keywords. cbn [first_keyword].
    set (identifier := toLowerCase (IOSSimulator.deviceTypeIdentifier simulator)).
    set (name := toLowerCase (IOSSimulator.name simulator)).
    assert (includes identifier "apple watch" = true -> includes identifier "watch" = true)
      as Hwatch by apply (includes_longer identifier "apple " "watch" "").
    assert (includes identifier "vision pro" = true -> includes identifier "vision" = true)
      as Hvision by apply (includes_longer identifier "" "vision" " pro").
    assert (includes identifier "appletv" = true -> includes identifier "tv" = true)
      as Htv by apply (includes_longer identifier "apple" "tv" "").
    destruct (includes identifier "iphone"); [done|].
    destruct (includes identifier "ipad"); [done|].
    destruct (includes identifier "watch"); [done|].
    destruct (includes identifier "apple watch"); [by discriminate Hwatch|].
    destruct (includes identifier "vision"); [done|].
    destruct (includes identifier "vision pro"); [by discriminate Hvision|].
    destruct (includes identifier "tv"); [done|].
    destruct (includes identifier "appletv"); [by discriminate Htv|].
    cbn [orb].
    destruct (includes name "iphone"); [done|].
    destruct (includes name "ipad"); [done|].
    destruct (includes name "watch"); [done|].
    destruct (includes name "vision"); [done|].
    by destruct (includes name "tv").
  - unfold getIOSDeviceSubtype. cbn [IOSSimulator.deviceTypeIdentifier IOSSimulator.name].
    by rewrite !toLowerCase_idem.
Qed.

Lemma consumes_dottedVersion (pos : nat) (v rest : string) :
  consumes dottedVersion pos v rest ->
  exists parts,
    (length parts = 2 \/ length parts = 3)
    /\ Forall digit_run parts
    /\ v = String.concat "." parts.
Proof.
  unfold dottedVersion. cbn [seqs foldr consumes].
  intros (a & ? & -> & Ha & ? & ? & -> & (? & -> & ->%Ascii.eqb_eq)
          & b & ? & -> & Hb & o & ? & -> & Ho & ->).
  destruct Ho as [(? & ? & -> & (? & -> & ->%Ascii.eqb_eq) & c & ? & -> & Hc & ->)| ->].
  - exists [a; b; c]. split; [by right|]. split; [repeat (constructor; [assumption|]); constructor|].
    cbn. by rewrite !append_nil_r.
  - exists [a; b]. split; [by left|]. split; [repeat (constructor; [assumption|]); constructor|].
    cbn. by rewrite !append_nil_r.
Qed.

Lemma dottedVersion_no_group (n : nat) (u : string) : ~ captured dottedVersion n u.
Proof. cbn. tauto. Qed.

Ltac break_up :=
  repeat match goal with
         | H : False |- _ => destruct H
         | H : _ \/ _ |- _ => destruct H
         | H : _ /\ _ |- _ => destruct H
         | H : exists _, _ |- _ => destruct H
         end.

(** X11.  A version that [extractIOSVersion] returns is two or three
    runs of decimal digits joined by dots, whichever of the three patterns
    gave it. *)
Theorem extractIOSVersion_format :
  forall runtime version,
    extractIOSVersion runtime = Some version ->
    exists parts,
      (length parts = 2 \/ length parts = 3)
      /\ Forall digit_run parts
      /\ version = String.concat "." parts.
Proof.
  intros runtime version. unfold extractIOSVersion.
  destruct (negb (truthy runtime)); [done|].
  destruct (regex_match simpleRegex runtime) as [m|] eqn:Hsimple.
  - intros Hgroup.
    pose proof (regex_match_captured _ _ _ Hsimple 1 version Hgroup) as Hcap.
    cbn [simpleRegex osName seqs alts foldr foldl lit captured] in Hcap.
    break_up; try discriminate;
      try (exfalso; by eapply dottedVersion_no_group).
    match goal with
    | H : consumes dottedVersion ?pos version ?rest |- _ =>
        by apply (consumes_dottedVersion pos version rest)
    end.
  - destruct (regex_match identifierRegex runtime) as [m|] eqn:Hidentifier.
    + destruct (group 1 (groups m)) as [major|] eqn:Hmajor; [|done].
      destruct (group 2 (groups m)) as [minor|] eqn:Hminor; [|done].
      intros [= <-].
      pose proof (regex_match_captured _ _ _ Hidentifier 1 major Hmajor) as Hcap1.
      pose proof (regex_match_captured _ _ _ Hidentifier 2 minor Hminor) as Hcap2.
      cbn in Hcap1, Hcap2.
      assert (digit_run major) as H1 by (unfold digit_run; break_up; done).
      assert (digit_run minor) as H2 by (unfold digit_run; break_up; done).
      exists [major; minor]. split; [by left|]. split; [repeat (constructor; [assumption|]); constructor|]. done.
    + destruct (regex_match versionRegex runtime) as [m|] eqn:Hversion; [|done].
      intros Hgroup.
      pose proof (regex_match_captured _ _ _ Hversion 1 version Hgroup) as Hcap.
      cbn [versionRegex captured] in Hcap.
      break_up; try discriminate;
        try (exfalso; by eapply dottedVersion_no_group).
      match goal with
      | H : consumes dottedVersion ?pos version ?rest |- _ =>
          by apply (consumes_dottedVersion pos version rest)
      end.
Qed.

Lemma watch_runtime_version_format :
  exists parts,
    (length parts = 2 \/ length parts = 3)
    /\ Forall digit_run parts
    /\ "10.2" = String.concat "." parts.
Proof.
  apply (extractIOSVersion_format "com.apple.CoreSimulator.SimRuntime.watchOS-10-2").
  vm_compute. reflexivity.
Defined.

(** ** androidEmulator.ts: the process scan *)

Lemma toLowerCase_append (a b : string) :
  toLowerCase (a +:+ b) = toLowerCase a +:+ toLowerCase b.
Proof. induction a as [|c a IH]; cbn [append toLowerCase]; [done | by rewrite IH]. Qed.

Lemma toLowerCase_length (s : string) : String.length (toLowerCase s) = String.length s.
Proof. induction s as [|c s IH]; cbn [toLowerCase String.length]; [done | by rewrite IH]. Qed.

Lemma append_inj_length (a a' b b' : string) :
  String.length a = String.length a' -> a +:+ b = a' +:+ b' -> a = a' /\ b = b'.
Proof.
  revert a'. induction a as [|c a IH]; intros [|c' a']; cbn [append String.length];
    try done.
  intros [= Hlen] [= -> H]. destruct (IH a' Hlen H) as [-> ->]. done.
Qed.

Ltac norm_append :=
  repeat (rewrite ?append_assoc; cbn [append]); rewrite ?append_nil_r.

(** A part of a lower-case text is in lower case. *)
Lemma lower_part (s pre t post : string) :
  toLowerCase s = pre +:+ t +:+ post -> toLowerCase t = t.
Proof.
  intros H. pose proof (f_equal toLowerCase H) as H2.
  rewrite toLowerCase_idem, H, !toLowerCase_append in H2.
  apply append_inj_length in H2 as [_ H2]; [|by rewrite toLowerCase_length].
  apply append_inj_length in H2 as [H2 _]; [|by rewrite toLowerCase_length].
  done.
Qed.

Lemma consumes_lit_i (s : string) :
  forall pos t rest,
    consumes (lit true s) pos t rest <-> toLowerCase t = toLowerCase s.
Proof.
  induction s as [|c s IH]; intros pos t rest; cbn [lit consumes toLowerCase].
  - split; [by intros -> | by destruct t].
  - split.
    + intros (? & t2 & -> & (x & -> & Hx) & H2). apply IH in H2.
      unfold chr_i in Hx. apply Ascii.eqb_eq in Hx. cbn [append toLowerCase].
      by rewrite Hx, H2.
    + destruct t as [|x t]; cbn [toLowerCase]; [done|]. intros [= Hx Ht].
      exists (String x ""), t. split; [done|]. split.
      * exists x. split; [done|]. unfold chr_i. by apply Ascii.eqb_eq.
      * by apply IH.
Qed.

Lemma avdPattern_spec (name output : string) :
  regex_test (avdPattern name) (toLowerCase output) = true
  <-> names_avd (toLowerCase output) (toLowerCase name).
Proof.
  rewrite regex_test_spec. unfold avdPattern, names_avd. cbn [seqs foldr].
  split.
  - intros (pre & t & post & Hout & H). cbn [consumes] in H.
    destruct H as (? & t1 & -> & (c & -> & Hc) & avd & t2 & -> & Havd
                   & sep & t3 & -> & [Hne Hsep] & n & ? & -> & Hn & ->).
    apply consumes_lit_i in Havd, Hn. rewrite toLowerCase_idem in Hn.
    rewrite append_nil_r in Hout.
    assert (toLowerCase avd = avd) as Havd'.
    { apply (lower_part output (pre +:+ String c "") avd (sep +:+ n +:+ post)).
      rewrite Hout. by norm_append. }
    assert (toLowerCase n = n) as Hn'.
    { apply (lower_part output (pre +:+ String c "" +:+ avd +:+ sep) n post).
      rewrite Hout. by norm_append. }
    rewrite Havd' in Havd. rewrite Hn' in Hn. subst avd n.
    exists pre, c, sep, post. split; [rewrite Hout; by norm_append|].
    split.
    { unfold cls_or, chr in Hc. apply orb_true_iff in Hc as [Hc|Hc];
        apply Ascii.eqb_eq in Hc; auto. }
    split; [done|].
    eapply all_chars_impl; [|exact Hsep]. intros x Hx. unfold cls_or, chr in Hx.
    apply orb_true_iff in Hx as [Hx|Hx]; [by left|]. apply Ascii.eqb_eq in Hx. by right.
  - intros (pre & c & sep & post & Hout & Hc & Hne & Hsep).
    exists pre, (String c "avd" +:+ sep +:+ toLowerCase name), post.
    split; [rewrite Hout; by norm_append|].
    cbn [consumes].
    exists (String c ""), ("avd" +:+ sep +:+ toLowerCase name). split; [done|].
    split.
    { exists c. split; [done|]. unfold cls_or, chr.
      destruct Hc as [-> | ->]; done. }
    exists "avd", (sep +:+ toLowerCase name). split; [done|].
    split; [by apply consumes_lit_i|].
    exists sep, (toLowerCase name). split; [done|]. split.
    { split; [done|]. eapply all_chars_impl; [|exact Hsep]. intros x [Hx| ->].
      - unfold cls_or. by rewrite Hx.
      - done. }
    exists (toLowerCase name), "". split; [by rewrite append_nil_r|].
    split; [|done]. apply consumes_lit_i. by rewrite toLowerCase_idem.
Qed.

(** X12.  [getAVDNameFromProcesses] always answers: it says yes exactly
    when the process listing succeeds and its lower-cased output holds
    [-avd] or [_avd], then white space or equals signs, then the
    lower-cased name.  The name stands in the pattern as a literal, and
    nothing is asked of what comes after it. *)
Theorem getAVDNameFromProcesses_answers :
  forall (w : World) (emulatorName : string),
    (exists found, getAVDNameFromProcesses w emulatorName = Returns found)
    /\ (getAVDNameFromProcesses w emulatorName = Returns true
        <-> exists result,
              await (executeCommand w (fst (process_listing w)) (snd (process_listing w))
                       (with_timeout 3000))
              = Returns result
              /\ CLICommandResult.success result = true
              /\ names_avd (toLowerCase (CLICommandResult.stdout result))
                   (toLowerCase emulatorName)).
Proof.
  intros w emulatorName. unfold getAVDNameFromProcesses, process_listing.
  destruct (if String.eqb (os_platform w) "win32" then _ else _) as [command args].
  cbn [fst snd].
  destruct (await_executeCommand w command args (with_timeout 3000)) as [result Hres].
  rewrite Hres. cbn [bind try_catch].
  destruct (CLICommandResult.success result) eqn:Hsuccess; cbn [try_catch].
  - split; [by eexists|]. split.
    + intros [= H]. exists result. split; [done|]. split; [done|].
      by apply avdPattern_spec.
    + intros (r & [= <-] & _ & H). f_equal. by apply avdPattern_spec.
  - split; [by eexists|]. split; [done|]. intros (r & [= <-] & ? & _). congruence.
Qed.

(** ** androidEmulator.ts: the map of running emulators *)

Lemma map_set_in {V : Type} (k : string) (v : V) :
  forall m k' v',
    In (k', v') (map_set k v m) -> (k' = k /\ v' = v) \/ In (k', v') m.
Proof.
  induction m as [|[k0 v0] m IH]; intros k' v'; cbn [map_set In].
  - intros [[= <- <-]|[]]. by left.
  - destruct (String.eqb_spec k0 k) as [->|Hk]; cbn [In].
    + intros [[= <- <-]|Hin]; [by left | right; by right].
    + intros [Heq|Hin]; [right; by left|].
      destruct (IH _ _ Hin); [by left | right; by right].
Qed.

Lemma map_set_keys {V : Type} (k : string) (v : V) :
  forall m k', In k' (List.map fst (map_set k v m)) -> k' = k \/ In k' (List.map fst m).
Proof.
  intros m k' (entry & <- & Hin)%in_map_iff. destruct entry as [k0 v0].
  destruct (map_set_in k v m k0 v0 Hin) as [[-> _]|Hin']; [by left|].
  right. apply in_map_iff. by exists (k0, v0).
Qed.

Lemma map_set_NoDup {V : Type} (k : string) (v : V) :
  forall m, List.NoDup (List.map fst m) -> List.NoDup (List.map fst (map_set k v m)).
Proof.
  induction m as [|[k0 v0] m IH]; cbn [map_set List.map fst].
  - intros _. repeat constructor. by intros [].
  - intros [Hnotin Hm]%List.NoDup_cons_iff.
    destruct (String.eqb_spec k0 k) as [->|Hk]; cbn [List.map fst].
    + by constructor.
    + constructor; [|by apply IH].
      intros [->|Hin]%map_set_keys; done.
Qed.

Lemma map_get_in {V : Type} :
  forall (m : list (string * V)) k v,
    List.NoDup (List.map fst m) -> (In (k, v) m <-> map_get k m = Some v).
Proof.
  induction m as [|[k0 v0] m IH]; intros k v; cbn [map_get In List.map fst].
  - intros _. split; [done | discriminate].
  - intros [Hnotin Hm]%List.NoDup_cons_iff.
    destruct (String.eqb_spec k0 k) as [->|Hk].
    + split.
      * intros [[= ->]|Hin]; [done|]. destruct Hnotin. apply in_map_iff. by exists (k, v).
      * intros [= ->]. by left.
    + rewrite <- (IH k v Hm). split; [intros [[= ? ?]|?]; done | by right].
Qed.

Lemma first_of_some {A : Type} (methods : list (Run (option A))) (a : A) :
  first_of methods = Returns (Some a) -> exists m, In m methods /\ m = Returns (Some a).
Proof.
  induction methods as [|m rest IH]; cbn [first_of]; [done|].
  destruct m as [[x|]|e|] eqn:Hm; cbn [bind]; try done.
  - intros [= ->]. exists (Returns (Some a)). split; [by left | done].
  - intros H. destruct (IH H) as (m' & Hin & ->). exists (Returns (Some a)).
    split; [by right | done].
Qed.

Lemma attempt_read {A : Type} (w : World) command args ms (read : string -> option A)
    (a : A) :
  attempt w command args ms read = Returns (Some a) ->
  exists stdout, read stdout = Some a.
Proof.
  unfold attempt.
  destruct (await (executeCommand w command args (with_timeout ms))) as [result|e|];
    cbn [bind try_catch]; try done.
  destruct (CLICommandResult.success result); cbn [try_catch]; [|done].
  intros [= H]. by eexists.
Qed.

Lemma truthy_name_some (s n : string) : truthy_name s = Some n -> n = s /\ n <> "".
Proof.
  unfold truthy_name, truthy. destruct (String.eqb_spec s ""); cbn [negb]; [done|].
  by intros [= <-].
Qed.

Lemma getEmulatorAVDName_trimmed (w : World) (adbCmd serial name : string) :
  getEmulatorAVDName w adbCmd serial = Returns (Some name) ->
  name <> "" /\ trim name = name.
Proof.
  unfold getEmulatorAVDName. intros (m & Hin & Hm)%first_of_some.
  destruct Hin as [<-|[<-|[<-|[]]]];
    apply attempt_read in Hm as (stdout & [-> Hne]%truthy_name_some);
    (split; [done | apply trim_idem]).
Qed.

Lemma resolve_serials_entries (w : World) (adbCmd : string) :
  forall emulatorSerials runningEmulators result,
    resolve_serials w adbCmd emulatorSerials runningEmulators = Returns result ->
    List.NoDup (List.map fst runningEmulators) ->
    Forall map_entry_ok runningEmulators ->
    List.NoDup (List.map fst result) /\ Forall map_entry_ok result.
Proof.
  assert (forall name status m,
            name <> "" -> trim name = name -> status <> stopped ->
            List.NoDup (List.map fst m) -> Forall map_entry_ok m ->
            List.NoDup (List.map fst (map_set name status m))
            /\ Forall map_entry_ok (map_set name status m)) as Hset.
  { intros name status m Hne Htrim Hstatus Hnodup Hall.
    split; [by apply map_set_NoDup|].
    apply List.Forall_forall. intros [k v] Hin.
    destruct (map_set_in _ _ _ _ _ Hin) as [[-> ->]|Hin']; [done|].
    rewrite List.Forall_forall in Hall. by apply Hall. }
  induction emulatorSerials as [|[serial status] rest IH];
    intros m result; cbn [resolve_serials].
  - by intros [= <-].
  - destruct (getEmulatorAVDName w adbCmd serial) as [[avdName|]|e|] eqn:Hname.
    + destruct (getEmulatorAVDName_trimmed _ _ _ _ Hname) as [Hne Htrim].
      destruct (String.eqb status "device").
      * destruct (isAndroidSystemRunning w adbCmd serial) as [isRunning|e|];
          [|by intros [= <-]|done].
        intros Hres Hnodup Hall.
        apply (IH _ _ Hres); apply Hset; try done; by destruct isRunning.
      * intros Hres Hnodup Hall. apply (IH _ _ Hres); by apply Hset.
    + apply IH.
    + by intros [= <-].
    + done.
Qed.

(** X13.  [getAllRunningEmulators] always returns a map.  No name stands
    in it twice, every name in it is non-empty and has no white space at
    its ends, no status in it is Stopped, and looking a name up gives the
    status it is listed with.  When [adb devices] fails and prints nothing
    the map is empty. *)
Theorem getAllRunningEmulators_map :
  forall (w : World) (adbCmd : string),
    exists runningEmulators,
      getAllRunningEmulators w adbCmd = Returns runningEmulators
      /\ List.NoDup (List.map fst runningEmulators)
      /\ Forall map_entry_ok runningEmulators
      /\ (forall name status,
            In (name, status) runningEmulators
            <-> map_get name runningEmulators = Some status)
      /\ (forall result,
            await (executeCommand w adbCmd ["devices"; "-l"] no_options) = Returns result ->
            CLICommandResult.success result = false ->
            trim (CLICommandResult.stdout result) = "" ->
            runningEmulators = []).
Proof.
  intros w adbCmd.
  destruct (getAllRunningEmulators_returns w adbCmd) as [m Hm].
  exists m. split; [done|].
  assert (List.NoDup (List.map fst m) /\ Forall map_entry_ok m) as [Hnodup Hall].
  { unfold getAllRunningEmulators in Hm.
    destruct (await (executeCommand w adbCmd ["devices"; "-l"] no_options))
      as [result|e|]; [| |done].
    - destruct (_ && _).
      + injection Hm as <-. split; constructor.
      + apply (resolve_serials_entries _ _ _ _ _ Hm); constructor.
    - injection Hm as <-. split; constructor. }
  split; [done|]. split; [done|]. split; [intros; by apply map_get_in|].
  intros result Hres Hfail Hblank. unfold getAllRunningEmulators in Hm.
  rewrite Hres, Hfail, Hblank in Hm. cbn in Hm. by injection Hm.
Qed.

(** ** androidEmulator.ts: the boot command *)

Lemma resolve_serials_spawn behaviour (w : World) (adbCmd : string) :
  forall emulatorSerials runningEmulators,
    resolve_serials (with_spawn behaviour w) adbCmd emulatorSerials runningEmulators
    = resolve_serials w adbCmd emulatorSerials runningEmulators.
Proof.
  induction emulatorSerials as [|[serial status] rest IH]; intros m;
    cbn [resolve_serials]; [done|].
  change (getEmulatorAVDName (with_spawn behaviour w) adbCmd serial)
    with (getEmulatorAVDName w adbCmd serial).
  change (isAndroidSystemRunning (with_spawn behaviour w) adbCmd serial)
    with (isAndroidSystemRunning w adbCmd serial).
  destruct (getEmulatorAVDName w adbCmd serial) as [[avdName|]|e|]; try done.
  destruct (String.eqb status "device"); [|done].
  by destruct (isAndroidSystemRunning w adbCmd serial) as [isRunning|e|].
Qed.

Lemma isAndroidEmulatorRunning_spawn behaviour (w : World) (emulatorName : string) :
  isAndroidEmulatorRunning (with_spawn behaviour w) emulatorName
  = isAndroidEmulatorRunning w emulatorName.
Proof.
  unfold isAndroidEmulatorRunning, getAndroidEmulatorStatus.
  change (adb_command (with_spawn behaviour w)) with (adb_command w).
  destruct (adb_command w) as [adbCmd|e|]; cbn [bind]; try done.
  unfold getAllRunningEmulators.
  change (executeCommand (with_spawn behaviour w)) with (executeCommand w).
  change (getAVDNameFromProcesses (with_spawn behaviour w))
    with (getAVDNameFromProcesses w).
  destruct (await (executeCommand w adbCmd ["devices"; "-l"] no_options))
    as [result|e|]; try done.
  destruct (_ && _); [done|]. by rewrite resolve_serials_spawn.
Qed.

(** X14.  What [bootAndroidEmulator] does with a valid name once the
    tools are found.  If the emulator already runs it returns without
    starting anything: the answer of [spawn] plays no part.  Otherwise it
    starts the emulator and waits 100 ms: a [spawn] that throws, or a
    child that reports an error within that time, makes it throw; an error
    that comes later goes unnoticed. *)
Theorem bootAndroidEmulator_outcomes :
  forall (w : World) (avdName emulatorPath : string),
    validateAVDName avdName = true ->
    checkAndroidAvailable w = Returns true ->
    getAndroidEmulatorPath w = Returns (Some emulatorPath) ->
    emulatorPath <> "" ->
    (isAndroidEmulatorRunning w avdName = Returns true ->
     forall behaviour, bootAndroidEmulator (with_spawn behaviour w) avdName = Returns tt)
    /\ (isAndroidEmulatorRunning w avdName = Returns false ->
        (forall e,
           spawn w emulatorPath ["-avd"; avdName] = inl e ->
           bootAndroidEmulator w avdName = Throws e)
        /\ (forall t e,
              spawn w emulatorPath ["-avd"; avdName] = inr (Some (t, e)) ->
              (t < 100 ->
               bootAndroidEmulator w avdName
               = Throws (Error ("Failed to start emulator: " +:+ message e)))
              /\ (100 <= t -> bootAndroidEmulator w avdName = Returns tt))
        /\ (spawn w emulatorPath ["-avd"; avdName] = inr None ->
            bootAndroidEmulator w avdName = Returns tt)).
Proof.
  intros w avdName emulatorPath Hvalid Havailable Hpath Hne.
  assert (truthy emulatorPath = true) as Htruthy.
  { unfold truthy. apply negb_true_iff. by apply String.eqb_neq. }
  split.
  - intros Hrunning behaviour. unfold bootAndroidEmulator. rewrite Hvalid. cbn [negb].
    change (checkAndroidAvailable (with_spawn behaviour w))
      with (checkAndroidAvailable w).
    change (getAndroidEmulatorPath (with_spawn behaviour w))
      with (getAndroidEmulatorPath w).
    rewrite isAndroidEmulatorRunning_spawn.
    rewrite Havailable. cbn [bind negb]. rewrite Hpath. cbn [bind].
    rewrite Htruthy. cbn [negb]. by rewrite Hrunning.
  - intros Hstopped.
    assert (bootAndroidEmulator w avdName = spawn_detached w emulatorPath avdName) as ->.
    { unfold bootAndroidEmulator. rewrite Hvalid. cbn [negb].
      rewrite Havailable. cbn [bind negb]. rewrite Hpath. cbn [bind].
      rewrite Htruthy. cbn [negb]. by rewrite Hstopped. }
    unfold spawn_detached. split; [|split].
    + by intros e ->.
    + intros t e ->. cbn [call bind]. split; intros Ht.
      * by apply Nat.ltb_lt in Ht as ->.
      * by apply Nat.ltb_ge in Ht as ->.
    + by intros ->.
Qed.

Lemma boot_pixel_on_mac :
  isAndroidEmulatorRunning mac_with_both "Pixel_5" = Returns false
  /\ bootAndroidEmulator mac_with_both "Pixel_5" = Returns tt.
Proof.
  split; [vm_compute; reflexivity|].
  refine (proj2 (proj2 (proj2 (bootAndroidEmulator_outcomes mac_with_both "Pixel_5"
                                 "emulator" _ _ _ _) _)) _);
    try (vm_compute; reflexivity).
  discriminate.
Defined.

(** ** emulatorProvider.ts: what a refresh does to the provider *)

Lemma keeps_lt (Q : string -> Prop) (h h' : Heap) (r : ref) :
  keeps Q h h' -> r < length h -> r < length h'.
Proof.
  intros Hkeeps Hr. destruct (lookup_lt_is_Some_2 h r Hr) as [e He].
  destruct (Hkeeps r e He) as (e' & He' & _). by apply (lookup_lt_Some h' r e').
Qed.

Lemma keeps_length (Q : string -> Prop) (h h' : Heap) :
  keeps Q h h' -> length h <= length h'.
Proof.
  intros Hkeeps. destruct (Nat.le_gt_cases (length h) (length h')) as [|Hlt]; [done|].
  pose proof (keeps_lt Q h h' (length h') Hkeeps Hlt). lia.
Qed.

Lemma keeps_children (Q : string -> Prop) (h h' : Heap) (g : ref) :
  keeps Q h h' -> g < length h -> group_children h' g = group_children h g.
Proof.
  intros Hkeeps Hg. destruct (lookup_lt_is_Some_2 h g Hg) as [e He].
  destruct (Hkeeps g e He) as (e' & He' & Hshape & _).
  apply group_children_ext. by rewrite He, He'; cbn; rewrite Hshape.
Qed.

Lemma valid_group_keeps (Q : string -> Prop) (h h' : Heap) (g : ref) :
  keeps Q h h' -> valid_group h g -> valid_group h' g.
Proof.
  intros Hkeeps [Hg Hchildren]. split; [by apply (keeps_lt Q h)|].
  rewrite (keeps_children Q h h' g Hkeeps Hg). intros r Hr.
  apply (keeps_lt Q h); auto.
Qed.

Lemma keeps_any (Q : string -> Prop) (h h' : Heap) :
  keeps Q h h' -> keeps (fun _ => True) h h'.
Proof. apply keeps_weaken. done. Qed.

Lemma frame_ok_init (st : Store) : frame_ok st (mkFrame st [] [] false).
Proof.
  unfold frame_ok. cbn. split; [apply keeps_refl|]. repeat (split; [done|]).
  by intros ? [].
Qed.

(** A step that changes the heap and adds items keeps the frame in
    order. *)
Lemma frame_ok_update (st0 : Store) (f : LoadFrame) (h' : Heap)
    (ios' android' : list ref) (c' : bool) (bySubtype : SubtypeMap) :
  frame_ok st0 f ->
  keeps (fun _ => True) (heap (store f)) h' ->
  (forall g, In g ios' -> In g (iosItems f) \/ valid_group h' g) ->
  (forall a, In a android' -> In a (androidItems f) \/ a < length h') ->
  frame_ok st0
    (mkFrame (mkStore h' (iosEmulators (store f)) bySubtype (androidEmulators (store f))
                (fired (store f)) (shown (store f)) (timers (store f)))
       ios' android' c').
Proof.
  intros (Hkeeps & Hios & Handroid & Hfired & Hshown & Htimers & Hgroups & Hitems)
    Hstep Hios' Handroid'.
  unfold frame_ok. cbn. split; [by apply (keeps_trans _ _ (heap (store f)))|].
  repeat (split; [done|]). split.
  - intros g Hg. destruct (Hios' g Hg) as [Hold|Hnew]; [|done].
    apply (valid_group_keeps (fun _ => True) (heap (store f))); auto.
  - intros a Ha. destruct (Handroid' a Ha) as [Hold|Hnew]; [|done].
    apply (keeps_lt (fun _ => True) (heap (store f))); auto.
Qed.

Lemma valid_leaf (h : Heap) (x : EmulatorItem) :
  EmulatorItem.isSubtype x = false -> valid_group (h ++ [x]) (length h).
Proof.
  intros Hleaf. split; [rewrite length_app; cbn; lia|].
  unfold group_children. rewrite lookup_app_r by lia.
  rewrite Nat.sub_diag. cbn. rewrite Hleaf. by intros r [].
Qed.

Lemma push_ios_ok (st0 : Store) (x : EmulatorItem) (f : LoadFrame) :
  EmulatorItem.isSubtype x = false -> frame_ok st0 f -> frame_ok st0 (push_ios x f).
Proof.
  intros Hleaf Hf. unfold push_ios, alloc, with_heap.
  apply frame_ok_update; [done | apply (keeps_alloc _ (heap (store f)) x) | |].
  - intros g [Hg|[<-|[]]]%in_app_or; [by left | right; by apply valid_leaf].
  - intros a Ha. by left.
Qed.

Lemma push_android_ok (st0 : Store) (x : EmulatorItem) (f : LoadFrame) :
  frame_ok st0 f -> frame_ok st0 (push_android x f).
Proof.
  intros Hf. unfold push_android, alloc, with_heap.
  apply frame_ok_update; [done | apply (keeps_alloc _ (heap (store f)) x) | |].
  - intros g Hg. by left.
  - intros a [Ha|[<-|[]]]%in_app_or; [by left | right].
    rewrite length_app. cbn. lia.
Qed.

Lemma ios_inv_start (simulators : list IOSSimulator) (existing : gmap string ref)
    (h0 : Heap) (c : bool) :
  ios_inv simulators existing h0 [] (h0, [], c).
Proof.
  unfold ios_inv. cbn. split; [apply keeps_refl|]. split; [done|]. split; [done|].
  split; [done|]. intros _. split; [done|]. by intros sim [].
Qed.

Lemma ios_listed_ok (st0 : Store) (simulators : list IOSSimulator) (f : LoadFrame) :
  frame_ok st0 f -> frame_ok st0 (ios_listed (existingIOS st0) simulators f).
Proof.
  intros Hf. pose proof Hf as (Hkeeps & _).
  assert (keyed_by_id (heap (store f)) (existingIOS st0)) as Hkeyed
    by (apply (keyed_keeps (fun _ => True) (heap st0)); [done | apply existingIOS_keyed]).
  unfold ios_listed.
  pose proof (ios_inv_fold simulators (existingIOS st0) (heap (store f)) Hkeyed
                simulators [] (heap (store f), [], hasChanges f) (fun _ H => H)
                (ios_inv_start _ _ _ _)) as Hinv.
  rewrite app_nil_l in Hinv.
  destruct (foldl (ios_step (existingIOS st0)) _ simulators) as [[h1 m] c].
  destruct Hinv as (Hk1 & Hrefs & _). cbn [fst snd] in Hk1, Hrefs.
  pose proof (add_groups_spec m subtypeOrder h1 (iosItems f)) as Hg.
  destruct (foldl (add_group m) (h1, iosItems f) subtypeOrder) as [h1' items].
  cbn [fst snd] in Hg. destruct Hg as (Hkg & _ & Hnew & _).
  apply frame_ok_update; [done | | |].
  - apply (keeps_trans _ _ h1); [by apply (keeps_any is_ios_id) | by apply (keeps_any (fun _ => False))].
  - intros g Hg. destruct (Hnew g Hg) as [Hold|(ge & k & rs & Hge & Hsub & Hch & Hrs)];
      [by left|]. right. split; [by apply (lookup_lt_Some h1' g ge)|].
    rewrite (group_children_of h1' g ge rs) by done. intros r Hr.
    destruct (Hrefs k rs r Hrs Hr) as (e & He & _).
    apply (keeps_lt (fun _ => False) h1 h1'); [exact Hkg | by apply (lookup_lt_Some h1 r e)].
  - intros a Ha. by left.
Qed.

Lemma android_step_ok (st0 : Store) (emu : AndroidEmulator) (newStatus : Status)
    (f : LoadFrame) :
  frame_ok st0 f -> frame_ok st0 (android_step (existingAndroid st0) emu newStatus f).
Proof.
  intros Hf. unfold android_step.
  destruct (existingAndroid st0 !! ("android-" +:+ AndroidEmulator.name emu))
    as [r|] eqn:Hr.
  - pose proof (update_status_keeps (fun _ => True) newStatus (android_icon newStatus) r
                  (heap (store f)) (fun _ _ => I)) as Hstep.
    destruct (update_status _ _ r (heap (store f))) as [h c]. cbn [fst] in Hstep.
    unfold with_heap. apply frame_ok_update; [done | done | by left |].
    intros a [Ha|[<-|[]]]%in_app_or; [by left | right].
    destruct (existingAndroid_keyed st0 _ _ Hr) as (e & He & _).
    destruct Hf as (Hkeeps & _).
    apply (keeps_lt (fun _ => True) (heap (store f))); [done|].
    apply (keeps_lt (fun _ => True) (heap st0)); [done | by apply (lookup_lt_Some _ r e)].
  - by apply push_android_ok.
Qed.

Section RefreshFrame.
Variable w : World.
Variable st : Store.

Lemma load_ios_ok : preserves (frame_ok st) (load_ios w (existingIOS st)).
Proof.
  unfold load_ios. apply preserves_await. intros [|] _.
  - apply preserves_stry.
    + apply preserves_await. intros simulators _. apply preserves_exec.
      intros f. apply ios_listed_ok.
    + intros e. apply preserves_exec. intros f. by apply push_ios_ok.
  - apply preserves_exec. intros f. by apply push_ios_ok.
Qed.

Lemma android_loop_ok (emulators : list AndroidEmulator) :
  preserves (frame_ok st) (android_loop w (existingAndroid st) emulators).
Proof.
  induction emulators as [|emu rest IH]; [apply preserves_sret|].
  cbn [android_loop]. apply preserves_await. intros newStatus _.
  apply preserves_sbind; [|done].
  apply preserves_exec. intros f. apply android_step_ok.
Qed.

Lemma load_android_ok : preserves (frame_ok st) (load_android w (existingAndroid st)).
Proof.
  unfold load_android. apply preserves_await. intros [|] _.
  - apply preserves_stry.
    + apply preserves_await. intros emulators _. apply android_loop_ok.
    + intros e. apply preserves_exec. intros f. apply push_android_ok.
  - apply preserves_exec. intros f. apply push_android_ok.
Qed.

Lemma load_frame_eq :
  load_frame w st
  = match load_ios w (existingIOS st) (mkFrame st [] [] false) with
    | (Returns _, f1) =>
        match load_android w (existingAndroid st) f1 with
        | (Returns _, f2) => (Returns tt, commit f2)
        | (Throws e, f2) =>
            (Returns tt, show_in_frame ("Failed to load emulators: " +:+ message e) f2)
        | (Hangs, f2) => (Hangs, f2)
        end
    | (Throws e, f1) =>
        (Returns tt, show_in_frame ("Failed to load emulators: " +:+ message e) f1)
    | (Hangs, f1) => (Hangs, f1)
    end.
Proof.
  unfold load_frame, stry, sbind, exec.
  destruct (load_ios w (existingIOS st) (mkFrame st [] [] false)) as [[[]|e|] f1];
    [|done|done].
  by destruct (load_android w (existingAndroid st) f1) as [[[]|e|] f2].
Qed.

(** The three ways a refresh ends: left waiting, at its last statement,
    or in its [catch]. *)
Lemma load_frame_cases :
  (fst (load_frame w st) = Hangs /\ frame_ok st (snd (load_frame w st)))
  \/ (fst (load_frame w st) = Returns tt
      /\ exists f, frame_ok st f /\ snd (load_frame w st) = commit f)
  \/ (fst (load_frame w st) = Returns tt
      /\ exists f e,
           frame_ok st f
           /\ snd (load_frame w st)
              = show_in_frame ("Failed to load emulators: " +:+ message e) f).
Proof.
  rewrite load_frame_eq.
  pose proof (load_ios_ok _ (frame_ok_init st)) as H1.
  destruct (load_ios w (existingIOS st) (mkFrame st [] [] false)) as [[[]|e|] f1];
    cbn [snd] in H1.
  - pose proof (load_android_ok _ H1) as H2.
    destruct (load_android w (existingAndroid st) f1) as [[[]|e|] f2];
      cbn [snd] in H2; cbn [fst snd].
    + right. left. split; [done|]. by exists f2.
    + right. right. split; [done|]. by exists f2, e.
    + by left.
  - cbn [fst snd]. right. right. split; [done|]. by exists f1, e.
  - by left.
Qed.
End RefreshFrame.

Lemma commit_cases (f : LoadFrame) :
  commit f = f
  \/ store (commit f)
     = fire (mkStore (heap (store f)) (iosItems f) (iosEmulatorsBySubtype (store f))
               (androidItems f) (fired (store f)) (shown (store f)) (timers (store f))).
Proof. unfold commit. destruct (_ || _); [by right | by left]. Qed.

(** X15.  A refresh never throws: whatever fails ends as one error
    message.  It schedules nothing and removes no object.  It ends in one
    of three ways: with the provider's lists, the change count and the
    messages untouched; with the change event fired once and no message;
    or with one message that starts with [Failed to load emulators: ], and
    then the lists are untouched and nothing is fired. *)
Theorem loadEmulators_effects :
  forall (w : World) (st : Store),
    let st' := snd (loadEmulators w st) in
    (forall e, fst (loadEmulators w st) <> Throws e)
    /\ timers st' = timers st
    /\ length (heap st) <= length (heap st')
    /\ ((fired st' = fired st /\ shown st' = shown st
         /\ iosEmulators st' = iosEmulators st
         /\ androidEmulators st' = androidEmulators st)
        \/ (fired st' = S (fired st) /\ shown st' = shown st
            /\ fst (loadEmulators w st) = Returns tt)
        \/ (fired st' = fired st
            /\ iosEmulators st' = iosEmulators st
            /\ androidEmulators st' = androidEmulators st
            /\ fst (loadEmulators w st) = Returns tt
            /\ exists e,
                 shown st'
                 = shown st ++ ["Failed to load emulators: " +:+ message e])).
Proof.
  intros w st. unfold loadEmulators. cbn [fst snd].
  destruct (load_frame_cases w st)
    as [[Hr Hf]|[[Hr (f & Hf & Hend)]|[Hr (f & e & Hf & Hend)]]]; rewrite Hr.
  - destruct Hf as (Hkeeps & Hios & Handroid & Hfired & Hshown & Htimers & _).
    split; [done|]. split; [done|]. split; [by apply (keeps_length _ _ _ Hkeeps)|].
    by left.
  - rewrite Hend. destruct Hf as (Hkeeps & Hios & Handroid & Hfired & Hshown & Htimers & _).
    pose proof (keeps_length _ _ _ Hkeeps) as Hlen.
    split; [done|]. destruct (commit_cases f) as [-> | ->].
    + split; [done|]. split; [done|]. by left.
    + cbn. split; [done|]. split; [done|]. right. left. by rewrite Hfired.
  - rewrite Hend. destruct Hf as (Hkeeps & Hios & Handroid & Hfired & Hshown & Htimers & _).
    cbn. split; [done|]. split; [done|]. split; [by apply (keeps_length _ _ _ Hkeeps)|].
    right. right. repeat (split; [done|]). exists e. by rewrite Hshown.
Qed.

(** ** emulatorProvider.ts: what a status re-check and a boot request do
    to the provider *)

Lemma restatused_refl (h : Heap) : restatused h h.
Proof. split; [done|]. intros r e He. exists e. split; [done | by left]. Qed.

Lemma restatused_trans (h1 h2 h3 : Heap) :
  restatused h1 h2 -> restatused h2 h3 -> restatused h1 h3.
Proof.
  intros [Hl12 H12] [Hl23 H23]. split; [congruence|]. intros r e He.
  destruct (H12 r e He) as (e2 & He2 & Hsame2).
  destruct (H23 r e2 He2) as (e3 & He3 & Hsame3).
  exists e3. split; [done|].
  destruct Hsame2 as [->|(s & i & ->)]; [done|].
  destruct Hsame3 as [->|(s' & i' & ->)]; right; eauto.
Qed.

Lemma restatused_alter (h : Heap) (r : ref) (s : Status) (i : string) :
  restatused h (alter (EmulatorItem.set_status_icon s i) r h).
Proof.
  split; [apply length_alter|]. intros r' e He. rewrite lookup_alter_heap.
  destruct (decide (r = r')) as [->|_].
  - rewrite He. eexists. split; [done|]. right. by exists s, i.
  - exists e. split; [done | by left].
Qed.

Lemma restatused_keeps (h h' : Heap) : restatused h h' -> keeps (fun _ => True) h h'.
Proof.
  intros [_ H] r e He. destruct (H r e He) as (e' & He' & Hsame).
  exists e'. split; [done|]. split; [|by right].
  by destruct Hsame as [->|(s & i & ->)].
Qed.

Lemma same_fields_trans (st1 st2 st3 : Store) :
  same_fields st1 st2 -> same_fields st2 st3 -> same_fields st1 st3.
Proof.
  intros (? & ? & ? & ? & ? & ?) (? & ? & ? & ? & ? & ?).
  repeat split; congruence.
Qed.

Lemma check_ok_mark (st0 st' : Store) (c : bool) (s : Status) (i : string) (r : ref) :
  check_ok st0 (st', c) -> check_ok st0 (mark s i r st', true).
Proof.
  intros (Hheap & Hfields & _). split; [|split; [|done]].
  - apply (restatused_trans _ (heap st')); [done|]. apply restatused_alter.
  - unfold mark. by apply same_fields_with_heap.
Qed.

Section CheckFrames.
Variable w : World.
Variable st : Store.

Lemma check_ios_step_ok (acc : CheckFrame) (sim : IOSSimulator) :
  check_ok st acc -> check_ok st (check_ios_step acc sim).
Proof.
  intros Hacc. destruct acc as [st' c]. unfold check_ios_step.
  destruct (findIOSEmulator st' _) as [existing|]; [|done].
  destruct (heap st' !! existing) as [e|]; [|done].
  destruct (bool_decide _); [done|]. by apply (check_ok_mark _ _ c).
Qed.

Lemma check_ios_ok : preserves (check_ok st) (check_ios w).
Proof.
  unfold check_ios. apply preserves_await. intros [|] _; [|apply preserves_sret].
  apply preserves_stry; [|intros e; apply preserves_sret].
  apply preserves_await. intros simulators _. apply preserves_exec.
  intros acc. revert acc.
  induction simulators as [|sim rest IH]; intros acc Hacc; [done|].
  cbn [foldl]. apply IH. by apply check_ios_step_ok.
Qed.

Lemma check_android_step_ok (emu : AndroidEmulator) :
  preserves (check_ok st) (check_android_step w emu).
Proof.
  intros acc Hacc. unfold check_android_step.
  destruct (findAndroidEmulator (fst acc) _) as [existing|]; [|done].
  unfold stry, sbind, lift, exec, sret.
  destruct (getAndroidEmulatorStatus w (AndroidEmulator.name emu))
    as [newStatus| |]; cbn [fst snd]; try done.
  destruct acc as [st' c]. unfold check_android_update.
  destruct (heap st' !! existing) as [e|]; [|done].
  destruct (bool_decide _); [done|]. by apply (check_ok_mark _ _ c).
Qed.

Lemma check_android_ok : preserves (check_ok st) (check_android w).
Proof.
  unfold check_android. apply preserves_await. intros [|] _; [|apply preserves_sret].
  apply preserves_stry; [|intros e; apply preserves_sret].
  apply preserves_await. intros emulators _.
  induction emulators as [|emu rest IH]; [apply preserves_sret|].
  cbn [check_android_loop]. apply preserves_sbind; [apply check_android_step_ok | done].
Qed.

Lemma check_frame_eq :
  check_frame w st
  = match check_ios w (st, false) with
    | (Returns _, acc1) =>
        match check_android w acc1 with
        | (Returns _, acc2) => (Returns tt, fire_if_changed acc2)
        | (Throws _, acc2) => (Returns tt, acc2)
        | (Hangs, acc2) => (Hangs, acc2)
        end
    | (Throws _, acc1) => (Returns tt, acc1)
    | (Hangs, acc1) => (Hangs, acc1)
    end.
Proof.
  unfold check_frame, stry, sbind, exec, sret.
  destruct (check_ios w (st, false)) as [[[]|e|] acc1]; [|done|done].
  by destruct (check_android w acc1) as [[[]|e|] acc2].
Qed.

(** The ways a status re-check ends: at its last statement, or in its
    [catch] or left waiting, and then nothing is fired. *)
Lemma check_frame_cases :
  (exists acc,
     check_ok st acc /\ check_frame w st = (Returns tt, fire_if_changed acc))
  \/ (check_ok st (snd (check_frame w st))
      /\ (fst (check_frame w st) = Returns tt \/ fst (check_frame w st) = Hangs)).
Proof.
  rewrite check_frame_eq.
  assert (check_ok st (st, false)) as H0.
  { split; [apply restatused_refl|]. split; [apply same_fields_refl | done]. }
  pose proof (check_ios_ok _ H0) as H1.
  destruct (check_ios w (st, false)) as [[[]|e|] acc1]; cbn [snd] in H1.
  - pose proof (check_android_ok _ H1) as H2.
    destruct (check_android w acc1) as [[[]|e|] acc2]; cbn [snd] in H2.
    + left. by exists acc2.
    + right. cbn. auto.
    + right. cbn. auto.
  - right. cbn. auto.
  - right. cbn. auto.
Qed.
End CheckFrames.

(** X16.  A status re-check never throws and tells the user nothing: it
    shows no message, schedules nothing and leaves the provider's lists as
    they are.  In the heap it changes statuses and icons at most, and it
    fires the change event at most once. *)
Theorem checkStatusChanges_effects :
  forall (w : World) (st : Store),
    let st' := snd (checkStatusChanges w st) in
    (forall e, fst (checkStatusChanges w st) <> Throws e)
    /\ iosEmulators st' = iosEmulators st
    /\ androidEmulators st' = androidEmulators st
    /\ shown st' = shown st
    /\ timers st' = timers st
    /\ restatused (heap st) (heap st')
    /\ (fired st' = fired st \/ fired st' = S (fired st)).
Proof.
  intros w st. unfold checkStatusChanges. cbn [fst snd].
  destruct (check_frame_cases w st) as [(acc & Hacc & ->)|[Hacc Hr]].
  - destruct acc as [st' c]. destruct Hacc as (Hheap & Hfields & _).
    destruct Hfields as (Hios & _ & Handroid & Hfired & Hshown & Htimers).
    cbn [fst snd] in *. unfold fire_if_changed. cbn [snd fst].
    destruct c; cbn [fst fire heap iosEmulators androidEmulators shown timers fired];
      repeat (split; [done|]); [right | left]; congruence.
  - destruct (check_frame w st) as [r [st' c]]. cbn [fst snd] in *.
    destruct Hacc as (Hheap & Hfields & _).
    destruct Hfields as (Hios & _ & Handroid & Hfired & Hshown & Htimers).
    cbn [fst] in *. split; [by destruct Hr as [-> | ->]|].
    repeat (split; [done|]). by left.
Qed.

Lemma mark_found_effects (item : EmulatorItem) (s : Status) (i : string) (st : Store) :
  let st1 := match find_record st item with
             | Some r => fire (mark s i r st)
             | None => st
             end in
  iosEmulators st1 = iosEmulators st
  /\ androidEmulators st1 = androidEmulators st
  /\ restatused (heap st) (heap st1)
  /\ shown st1 = shown st
  /\ timers st1 = timers st
  /\ fired st <= fired st1 <= S (fired st).
Proof.
  destruct (find_record st item) as [r|]; cbn.
  - repeat (split; [done|]). split; [apply restatused_alter|].
    repeat (split; [done|]). lia.
  - repeat (split; [done|]). split; [apply restatused_refl|].
    repeat (split; [done|]). lia.
Qed.

(** The body of the [try] of a boot request ends with the re-checks
    scheduled, or it throws or is left waiting with the provider as it
    was. *)
Lemma boot_cases (w : World) (item : EmulatorItem) (st : Store) :
  boot w item st = (Returns tt, schedule_check 2000 st)
  \/ boot w item st
     = (Returns tt,
        schedule_check 2000
          (schedule_check 5000 (schedule_check 3000 (schedule_check 1000 st))))
  \/ (exists e, boot w item st = (Throws e, st))
  \/ boot w item st = (Hangs, st).
Proof.
  unfold boot, sbind, lift, exec, sret.
  destruct (EmulatorItem.platform item), (EmulatorItem.udid item) as [udid|],
    (EmulatorItem.name item) as [name|]; auto.
  - destruct (truthy udid); [|by left].
    destruct (bootIOSSimulator w udid) as [[]|e|]; eauto.
  - destruct (truthy udid); [|by left].
    destruct (bootIOSSimulator w udid) as [[]|e|]; eauto.
  - destruct (truthy name); [|by left].
    destruct (bootAndroidEmulator w name) as [[]|e|]; eauto.
  - destruct (truthy name); [|by left].
    destruct (bootAndroidEmulator w name) as [[]|e|]; eauto.
Qed.

Lemma startEmulator_eq (w : World) (item : ref) (st : Store) (it : EmulatorItem) :
  heap st !! item = Some it ->
  EmulatorItem.isCategory it || EmulatorItem.isSubtype it = false ->
  EmulatorItem.status it <> running ->
  startEmulator w item st
  = match boot w it (mark_starting it st) with
    | (Throws e, st2) =>
        (Returns tt,
         reset_status it
           (showErrorMessage ("Failed to start emulator: " +:+ message e) st2))
    | other => other
    end.
Proof.
  intros Hitem Hleaf Hstatus. unfold startEmulator. rewrite Hitem, Hleaf.
  rewrite bool_decide_eq_false_2 by done.
  unfold sbind at 1, exec at 1, stry.
  by destruct (boot w it (mark_starting it st)) as [[[]|e|] st2].
Qed.

(** X17.  A boot request never throws: a failure ends as one message
    that starts with [Failed to start emulator: ].  It leaves the
    provider's lists as they are and changes statuses and icons at most.
    It fires the change event at most twice.  When it shows no message it
    schedules nothing, one re-check after 2 s, or re-checks after 1, 3, 5
    and 2 s; when it shows a message it schedules nothing.  A category
    or subtype item is not started at all. *)
Theorem startEmulator_effects :
  forall (w : World) (item : ref) (st : Store),
    let st' := snd (startEmulator w item st) in
    (forall e, fst (startEmulator w item st) <> Throws e)
    /\ iosEmulators st' = iosEmulators st
    /\ androidEmulators st' = androidEmulators st
    /\ restatused (heap st) (heap st')
    /\ fired st <= fired st' <= fired st + 2
    /\ ((shown st' = shown st
         /\ (timers st' = timers st
             \/ timers st' = timers st ++ [2000]
             \/ timers st' = timers st ++ [1000; 3000; 5000; 2000]))
        \/ (timers st' = timers st
            /\ fst (startEmulator w item st) = Returns tt
            /\ exists e,
                 shown st'
                 = shown st ++ ["Failed to start emulator: " +:+ message e]))
    /\ (forall it,
          heap st !! item = Some it ->
          EmulatorItem.isCategory it || EmulatorItem.isSubtype it = true ->
          startEmulator w item st = (Returns tt, st)).
Proof.
  intros w item st.
  assert (forall it,
            heap st !! item = Some it ->
            EmulatorItem.isCategory it || EmulatorItem.isSubtype it = true ->
            startEmulator w item st = (Returns tt, st)) as Hheader.
  { intros it Hitem Hhead. unfold startEmulator. by rewrite Hitem, Hhead. }
  assert (startEmulator w item st = (Returns tt, st) ->
          let st' := snd (startEmulator w item st) in
          (forall e, fst (startEmulator w item st) <> Throws e)
          /\ iosEmulators st' = iosEmulators st
          /\ androidEmulators st' = androidEmulators st
          /\ restatused (heap st) (heap st')
          /\ fired st <= fired st' <= fired st + 2
          /\ ((shown st' = shown st
               /\ (timers st' = timers st
                   \/ timers st' = timers st ++ [2000]
                   \/ timers st' = timers st ++ [1000; 3000; 5000; 2000]))
              \/ (timers st' = timers st
                  /\ fst (startEmulator w item st) = Returns tt
                  /\ exists e,
                       shown st'
                       = shown st ++ ["Failed to start emulator: " +:+ message e])))
    as Hnothing.
  { intros ->. cbn. repeat (split; [done|]). split; [apply restatused_refl|].
    split; [lia|]. left. auto. }
  destruct (heap st !! item) as [it|] eqn:Hitem.
  2: { cbn zeta. split_and!; try apply Hnothing; try done;
       unfold startEmulator; by rewrite Hitem. }
  destruct (EmulatorItem.isCategory it || EmulatorItem.isSubtype it) eqn:Hleaf.
  { cbn zeta. split_and!; try apply Hnothing; try done; by apply (Hheader it). }
  destruct (decide (EmulatorItem.status it = running)) as [Hrunning|Hstatus].
  { assert (startEmulator w item st = (Returns tt, st)) as Heq.
    { unfold startEmulator. rewrite Hitem, Hleaf. by rewrite bool_decide_eq_true_2. }
    cbn zeta. split_and!; try apply Hnothing; done. }
  cbn zeta. rewrite (startEmulator_eq w item st it Hitem Hleaf Hstatus).
  pose proof (mark_found_effects it starting sync_spin st) as Hmark.
  fold (mark_starting it st) in Hmark. cbn zeta in Hmark.
  destruct Hmark as (Hios & Handroid & Hheap & Hshown & Htimers & Hfired).
  set (st1 := mark_starting it st) in *.
  assert (forall X : Run unit * Store,
            forall it0 : EmulatorItem,
              Some it = Some it0 ->
              EmulatorItem.isCategory it0 || EmulatorItem.isSubtype it0 = true ->
              X = (Returns tt, st)) as Hno
    by (intros X it0 [= <-] Hhead; congruence).
  destruct (boot_cases w it st1) as [-> | [-> | [[e ->] | ->]]]; cbn [fst snd].
  - cbn. rewrite Hshown, Htimers. split_and!; try done; try lia; try apply Hno.
    left. split; [done|]. right. by left.
  - cbn. rewrite Hshown, Htimers. split_and!; try done; try lia; try apply Hno.
    left. split; [done|]. right. right. by rewrite <- !app_assoc.
  - pose proof (mark_found_effects it stopped circle_outline
                  (showErrorMessage ("Failed to start emulator: " +:+ message e) st1))
      as Hreset.
    fold (reset_status it
            (showErrorMessage ("Failed to start emulator: " +:+ message e) st1))
      in Hreset.
    cbn zeta in Hreset.
    destruct Hreset as (Hios2 & Handroid2 & Hheap2 & Hshown2 & Htimers2 & Hfired2).
    cbn [iosEmulators androidEmulators heap shown timers fired showErrorMessage]
      in Hios2, Handroid2, Hheap2, Hshown2, Htimers2, Hfired2.
    split_and!; try done; try congruence; try lia; try apply Hno.
    + by apply (restatused_trans _ (heap st1)).
    + right. split; [congruence|]. split; [done|]. exists e. congruence.
  - split_and!; try done; try lia; try apply Hno. left. auto.
Qed.

(** ** emulatorProvider.ts: the provider stays well-formed *)

Lemma well_formed_keeps (Q : string -> Prop) (st st' : Store) :
  well_formed st ->
  keeps Q (heap st) (heap st') ->
  iosEmulators st' = iosEmulators st ->
  androidEmulators st' = androidEmulators st ->
  well_formed st'.
Proof.
  intros [Hios Handroid] Hkeeps Hi Ha. split.
  - rewrite Hi. intros g Hg.
    apply (valid_group_keeps Q (heap st)); [done|]. by apply Hios.
  - rewrite Ha. intros a Hin. apply (keeps_lt Q (heap st)); [done|]. by apply Handroid.
Qed.

Lemma well_formed_frame (st : Store) (f : LoadFrame) :
  well_formed st -> frame_ok st f -> well_formed (store f).
Proof.
  intros Hwf (Hkeeps & Hios & Handroid & _).
  by apply (well_formed_keeps (fun _ => True) st).
Qed.

Lemma well_formed_commit (st : Store) (f : LoadFrame) :
  well_formed st -> frame_ok st f -> well_formed (store (commit f)).
Proof.
  intros Hwf Hf. destruct (commit_cases f) as [-> | ->];
    [by apply (well_formed_frame st)|].
  destruct Hf as (_ & _ & _ & _ & _ & _ & Hgroups & Hitems). by split.
Qed.

(** X18.  The provider is well-formed before its first refresh, and a
    refresh, a status re-check and a boot request keep it so, however
    they end: every reference in the provider's two lists, and every child
    of a group in the iOS list, is an object of the heap. *)
Theorem provider_stays_well_formed :
  well_formed empty_store
  /\ forall (w : World) (st : Store),
       well_formed st ->
       well_formed (refresh w st)
       /\ well_formed (snd (checkStatusChanges w st))
       /\ forall item, well_formed (snd (startEmulator w item st)).
Proof.
  split; [split; intros r []|]. intros w st Hwf. split; [|split].
  - unfold refresh, loadEmulators. cbn [snd].
    destruct (load_frame_cases w st)
      as [[_ Hf]|[[_ (f & Hf & ->)]|[_ (f & e & Hf & ->)]]].
    + by apply (well_formed_frame st).
    + by apply (well_formed_commit st).
    + apply (well_formed_keeps (fun _ => True) st); try done; by destruct Hf as (? & ? & ? & _).
  - unfold checkStatusChanges. cbn [snd].
    assert (forall acc, check_ok st acc -> well_formed (fst acc)) as Hok.
    { intros acc (Hheap & (Hios & _ & Handroid & _) & _).
      apply (well_formed_keeps (fun _ => True) st); try done.
      by apply restatused_keeps. }
    destruct (check_frame_cases w st) as [(acc & Hacc & ->)|[Hacc _]]; [|by apply Hok].
    cbn [snd]. unfold fire_if_changed. specialize (Hok acc Hacc).
    destruct (snd acc); [|done]. by destruct Hok.
  - intros item.
    assert (forall st1 : Store,
              restatused (heap st) (heap st1) ->
              iosEmulators st1 = iosEmulators st ->
              androidEmulators st1 = androidEmulators st ->
              well_formed st1) as Hok.
    { intros st1 Hheap Hios Handroid.
      apply (well_formed_keeps (fun _ => True) st); try done.
      by apply restatused_keeps. }
    destruct (heap st !! item) as [it|] eqn:Hitem.
    2: { unfold startEmulator. by rewrite Hitem. }
    destruct (EmulatorItem.isCategory it || EmulatorItem.isSubtype it) eqn:Hleaf.
    { unfold startEmulator. by rewrite Hitem, Hleaf. }
    destruct (decide (EmulatorItem.status it = running)) as [Hrunning|Hstatus].
    { unfold startEmulator. rewrite Hitem, Hleaf. by rewrite bool_decide_eq_true_2. }
    rewrite (startEmulator_eq w item st it Hitem Hleaf Hstatus).
    pose proof (mark_found_effects it starting sync_spin st) as Hmark.
    fold (mark_starting it st) in Hmark. cbn zeta in Hmark.
    destruct Hmark as (Hios & Handroid & Hheap & _).
    set (st1 := mark_starting it st) in *.
    destruct (boot_cases w it st1) as [-> | [-> | [[e ->] | ->]]]; cbn [snd];
      try by apply Hok.
    pose proof (mark_found_effects it stopped circle_outline
                  (showErrorMessage ("Failed to start emulator: " +:+ message e) st1))
      as Hreset.
    fold (reset_status it
            (showErrorMessage ("Failed to start emulator: " +:+ message e) st1))
      in Hreset.
    cbn zeta in Hreset. destruct Hreset as (Hios2 & Handroid2 & Hheap2 & _).
    cbn [iosEmulators androidEmulators heap showErrorMessage] in Hios2, Handroid2, Hheap2.
    apply Hok; [by apply (restatused_trans _ (heap st1)) | congruence | congruence].
Qed.

(** ** The provider's operations complete *)

Lemma bind_settles {A B : Type} (m : Run A) (k : A -> Run B) :
  m <> Hangs -> (forall a, m = Returns a -> k a <> Hangs) -> bind m k <> Hangs.
Proof. destruct m; cbn; auto. Qed.

Lemma try_catch_settles {A : Type} (m : Run A) (h : JSError -> Run A) :
  m <> Hangs -> (forall e, h e <> Hangs) -> try_catch m h <> Hangs.
Proof. destruct m; cbn; auto. Qed.

Lemma await_command_settles (w : World) command args options :
  await (executeCommand w command args options) <> Hangs.
Proof.
  destruct (await_executeCommand w command args options) as [result ->]. done.
Qed.

Section Settles.
Variable w : World.
Hypothesis Hsettle : children_settle w.

Lemma probe_settles command args : probe w command args <> Hangs.
Proof.
  unfold probe. pose proof (Hsettle command args (with_timeout 5000)) as H.
  destruct (execFileAsync w command args (with_timeout 5000)) as [e|[[t [o|e]]|]];
    cbn; done.
Qed.

Lemma checkXcodeAvailable_settles : checkXcodeAvailable w <> Hangs.
Proof.
  unfold checkXcodeAvailable. destruct (negb (isMacOS w)); [done|].
  apply try_catch_settles; [|done].
  apply bind_settles; [apply probe_settles | done].
Qed.

Lemma checkAndroidAvailable_settles : checkAndroidAvailable w <> Hangs.
Proof.
  unfold checkAndroidAvailable. apply try_catch_settles.
  - apply bind_settles; [apply probe_settles | done].
  - intros _. destruct (match env_or w _ _ with Some _ => _ | None => _ end); [done|].
    apply bind_settles; [apply default_tool_paths_settles | done].
Qed.

Lemma resolve_tool_settles sub exe defaults :
  defaults <> Hangs -> resolve_tool w sub exe defaults <> Hangs.
Proof.
  intros Hdefaults. unfold resolve_tool.
  destruct (match env_or w _ _ with Some _ => _ | None => _ end); [done|].
  apply bind_settles; [done|].
  intros paths _. destruct (List.find _ paths); [done|].
  apply try_catch_settles; [|done].
  apply bind_settles; [apply probe_settles | done].
Qed.

Lemma getAndroidEmulatorPath_settles : getAndroidEmulatorPath w <> Hangs.
Proof. apply resolve_tool_settles, default_tool_paths_settles. Qed.

Lemma getAndroidAdbPath_settles : getAndroidAdbPath w <> Hangs.
Proof. apply resolve_tool_settles, default_tool_paths_settles. Qed.

Lemma getAndroidEmulatorStatus_settles emulatorName :
  getAndroidEmulatorStatus w emulatorName <> Hangs.
Proof.
  unfold getAndroidEmulatorStatus. apply try_catch_settles; [|done].
  apply bind_settles.
  { unfold adb_command. apply bind_settles; [apply getAndroidAdbPath_settles | done]. }
  intros adbCmd _. destruct (getAllRunningEmulators_returns w adbCmd) as [m ->].
  cbn [bind]. destruct (map_get emulatorName m); [done|].
  destruct (getAVDNameFromProcesses_returns w emulatorName) as [found ->].
  cbn [bind]. destruct found; [|done]. by destruct m as [|[? ?] [|? ?]].
Qed.

Lemma mapM_settles {A B : Type} (f : A -> Run B) (xs : list A) :
  (forall x, f x <> Hangs) -> mapM f xs <> Hangs.
Proof.
  intros Hf. induction xs as [|x xs IH]; cbn [mapM]; [done|].
  apply bind_settles; [apply Hf|]. intros y _.
  apply bind_settles; [exact IH | done].
Qed.

Lemma parseIOSSimulatorList_settles jsonString :
  parseIOSSimulatorList w jsonString <> Hangs.
Proof.
  unfold parseIOSSimulatorList. apply try_catch_settles; [|done].
  apply bind_settles.
  { unfold JSON_parse. destruct (parse_value _ _) as [[v r]|]; [|done].
    by destruct (truthy (skip_ws r)). }
  intros data _. apply bind_settles; [by destruct data|].
  intros [by_runtime|] _; [|done].
  induction (own_properties by_runtime) as [|[runtime devices] rest IH];
    cbn [collect_devices]; [done|].
  apply bind_settles.
  { destruct devices; try done. apply mapM_settles. intros device.
    unfold with_runtime. apply bind_settles; [by destruct device | done]. }
  intros here _. apply bind_settles; [exact IH | done].
Qed.

Lemma listIOSSimulators_settles : listIOSSimulators w <> Hangs.
Proof.
  unfold listIOSSimulators. apply bind_settles; [apply checkXcodeAvailable_settles|].
  intros isAvailable _. destruct (negb isAvailable); [done|].
  apply bind_settles; [apply await_command_settles|].
  intros result _. destruct (negb (CLICommandResult.success result)); [done|].
  apply bind_settles.
  { apply try_catch_settles; [apply parseIOSSimulatorList_settles | done]. }
  intros objects _. by destruct (traverse_opt asIOSSimulator objects).
Qed.

Lemma listAndroidEmulators_settles : listAndroidEmulators w <> Hangs.
Proof.
  unfold listAndroidEmulators. apply bind_settles; [apply checkAndroidAvailable_settles|].
  intros isAvailable _. destruct (negb isAvailable); [done|].
  apply bind_settles; [apply getAndroidEmulatorPath_settles|].
  intros [emulatorPath|] _; [|done].
  destruct (negb (truthy emulatorPath)); [done|].
  apply bind_settles; [apply await_command_settles|].
  intros result _. by destruct (negb (CLICommandResult.success result)).
Qed.

Lemma bootIOSSimulator_settles udid : bootIOSSimulator w udid <> Hangs.
Proof.
  unfold bootIOSSimulator. destruct (negb (validateUDID udid)); [done|].
  apply bind_settles; [apply checkXcodeAvailable_settles|].
  intros isAvailable _. destruct (negb isAvailable); [done|].
  apply bind_settles; [apply await_command_settles|].
  intros result _. destruct (negb (CLICommandResult.success result)).
  - by destruct (includes _ _).
  - apply try_catch_settles; [|done].
    apply bind_settles; [apply await_command_settles | done].
Qed.

Lemma bootAndroidEmulator_settles avdName : bootAndroidEmulator w avdName <> Hangs.
Proof.
  unfold bootAndroidEmulator. destruct (negb (validateAVDName avdName)); [done|].
  apply bind_settles; [apply checkAndroidAvailable_settles|].
  intros isAvailable _. destruct (negb isAvailable); [done|].
  apply bind_settles; [apply getAndroidEmulatorPath_settles|].
  intros [emulatorPath|] _; [|done].
  destruct (negb (truthy emulatorPath)); [done|].
  apply bind_settles.
  { unfold isAndroidEmulatorRunning.
    apply bind_settles; [apply getAndroidEmulatorStatus_settles | done]. }
  intros [|] _; [done|]. unfold spawn_detached.
  destruct (spawn w emulatorPath ["-avd"; avdName]) as [e|[[t e]|]]; cbn [call bind];
    [done| |done].
  by destruct (Nat.ltb t 100).
Qed.
End Settles.

Section Finishes.
Context {S : Type}.

Lemma finishes_sret {A : Type} (a : A) : finishes (sret (S := S) a).
Proof. by intros s. Qed.

Lemma finishes_exec (f : S -> S) : finishes (exec f).
Proof. by intros s. Qed.

Lemma finishes_await {A B : Type} (m : Run A) (k : A -> Step S B) :
  m <> Hangs -> (forall a, finishes (k a)) -> finishes (sbind (lift m) k).
Proof.
  intros Hm Hk s. unfold sbind, lift. destruct m as [a|e|]; [apply Hk | done | done].
Qed.

Lemma finishes_sbind {A B : Type} (m : Step S A) (k : A -> Step S B) :
  finishes m -> (forall a, finishes (k a)) -> finishes (sbind m k).
Proof.
  intros Hm Hk s. unfold sbind. specialize (Hm s).
  destruct (m s) as [[a|e|] s']; [apply Hk | done | done].
Qed.

Lemma finishes_stry {A : Type} (m : Step S A) (h : JSError -> Step S A) :
  finishes m -> (forall e, finishes (h e)) -> finishes (stry m h).
Proof.
  intros Hm Hh s. unfold stry. specialize (Hm s).
  destruct (m s) as [[a|e|] s']; [done | apply Hh | done].
Qed.
End Finishes.

(** X19.  On a machine where every child process ends, a refresh, a
    status re-check and a boot request all run to their end: none of them
    throws and none is left waiting. *)
Theorem provider_completes :
  forall (w : World) (st : Store),
    children_settle w ->
    fst (loadEmulators w st) = Returns tt
    /\ fst (checkStatusChanges w st) = Returns tt
    /\ forall item, fst (startEmulator w item st) = Returns tt.
Proof.
  intros w st Hsettle. split; [|split].
  - unfold loadEmulators. cbn [fst].
    assert (finishes (stry (load_ios w (existingIOS st) ;;
                            load_android w (existingAndroid st) ;; exec commit)
                        (fun error =>
                           exec (show_in_frame
                                   ("Failed to load emulators: " +:+ message error)))))
      as Hfin.
    { apply finishes_stry; [|intros e; apply finishes_exec].
      apply finishes_sbind.
      { unfold load_ios.
        apply finishes_await; [by apply checkXcodeAvailable_settles|].
        intros [|]; [|apply finishes_exec].
        apply finishes_stry; [|intros e; apply finishes_exec].
        apply finishes_await; [by apply listIOSSimulators_settles|].
        intros simulators. apply finishes_exec. }
      intros _. apply finishes_sbind; [|intros _; apply finishes_exec].
      unfold load_android.
      apply finishes_await; [by apply checkAndroidAvailable_settles|].
      intros [|]; [|apply finishes_exec].
      apply finishes_stry; [|intros e; apply finishes_exec].
      apply finishes_await; [by apply listAndroidEmulators_settles|].
      intros emulators. induction emulators as [|emu rest IH]; [apply finishes_sret|].
      cbn [android_loop].
      apply finishes_await; [by apply getAndroidEmulatorStatus_settles|].
      intros newStatus. apply finishes_sbind; [apply finishes_exec | done]. }
    specialize (Hfin (mkFrame st [] [] false)). fold (load_frame w st) in Hfin.
    destruct (load_frame_cases w st) as [[Hr _]|[[Hr _]|[Hr _]]]; congruence.
  - unfold checkStatusChanges. cbn [fst].
    assert (finishes (stry (check_ios w ;; check_android w ;; exec fire_if_changed)
                        (fun _ => sret tt))) as Hfin.
    { apply finishes_stry; [|intros e; apply finishes_sret].
      apply finishes_sbind.
      { unfold check_ios.
        apply finishes_await; [by apply checkXcodeAvailable_settles|].
        intros [|]; [|apply finishes_sret].
        apply finishes_stry; [|intros e; apply finishes_sret].
        apply finishes_await; [by apply listIOSSimulators_settles|].
        intros simulators. apply finishes_exec. }
      intros _. apply finishes_sbind; [|intros _; apply finishes_exec].
      unfold check_android.
      apply finishes_await; [by apply checkAndroidAvailable_settles|].
      intros [|]; [|apply finishes_sret].
      apply finishes_stry; [|intros e; apply finishes_sret].
      apply finishes_await; [by apply listAndroidEmulators_settles|].
      intros emulators. induction emulators as [|emu rest IH]; [apply finishes_sret|].
      cbn [check_android_loop]. apply finishes_sbind; [|done].
      intros acc. unfold check_android_step.
      destruct (findAndroidEmulator (fst acc) _); [|done].
      apply finishes_stry; [|intros e; apply finishes_sret].
      apply finishes_await; [by apply getAndroidEmulatorStatus_settles|].
      intros newStatus. apply finishes_exec. }
    specialize (Hfin (st, false)). fold (check_frame w st) in Hfin.
    destruct (check_frame_cases w st) as [(acc & _ & Hr)|[_ [Hr|Hr]]];
      [by rewrite Hr | done | congruence].
  - intros item.
    destruct (heap st !! item) as [it|] eqn:Hitem.
    2: { unfold startEmulator. by rewrite Hitem. }
    destruct (EmulatorItem.isCategory it || EmulatorItem.isSubtype it) eqn:Hleaf.
    { unfold startEmulator. by rewrite Hitem, Hleaf. }
    destruct (decide (EmulatorItem.status it = running)) as [Hrunning|Hstatus].
    { unfold startEmulator. rewrite Hitem, Hleaf. by rewrite bool_decide_eq_true_2. }
    rewrite (startEmulator_eq w item st it Hitem Hleaf Hstatus).
    assert (finishes (boot w it)) as Hfin.
    { unfold boot. apply finishes_sbind; [|intros _; apply finishes_exec].
      destruct (EmulatorItem.platform it), (EmulatorItem.udid it) as [udid|],
        (EmulatorItem.name it) as [name|];
        try apply finishes_sret;
        match goal with |- finishes (if ?b then _ else _) => destruct b end;
        try apply finishes_sret.
      - intros s. unfold lift. by apply bootIOSSimulator_settles.
      - intros s. unfold lift. by apply bootIOSSimulator_settles.
      - apply finishes_await; [by apply bootAndroidEmulator_settles|]. intros _.
        repeat (apply finishes_sbind; [apply finishes_exec | intros _]).
        apply finishes_exec.
      - apply finishes_await; [by apply bootAndroidEmulator_settles|]. intros _.
        repeat (apply finishes_sbind; [apply finishes_exec | intros _]).
        apply finishes_exec. }
    specialize (Hfin (mark_starting it st)).
    destruct (boot w it (mark_starting it st)) as [[[]|e|] st2]; done.
Qed.

Lemma bare_linux_completes :
  fst (loadEmulators bare_linux empty_store) = Returns tt
  /\ fst (checkStatusChanges bare_linux empty_store) = Returns tt
  /\ forall item, fst (startEmulator bare_linux item empty_store) = Returns tt.
Proof.
  apply (provider_completes bare_linux empty_store).
  intros command args options. discriminate.
Defined.

(** ** emulatorProvider.ts: a second status re-check changes nothing *)

Lemma same_finds_refl (st : Store) : same_finds st st.
Proof. by split. Qed.

Lemma same_finds_trans (st1 st2 st3 : Store) :
  same_finds st1 st2 -> same_finds st2 st3 -> same_finds st1 st3.
Proof. intros [H1 H2] [H3 H4]. split; intros id; congruence. Qed.

Lemma same_finds_mark (s : Status) (i : string) (r : ref) (st : Store) :
  same_finds st (mark s i r st).
Proof.
  split; intros id.
  - apply (find_record_mark s i r st (placeholder id "" ios "")).
  - apply (find_record_mark s i r st (placeholder id "" android "")).
Qed.

Lemma ios_settled_moves (simulators : list IOSSimulator) (st st' : Store)
    (P : string -> Status -> Prop) :
  same_finds st st' ->
  moves P (heap st) (heap st') ->
  (forall sim s,
     In sim simulators -> P ("ios-" +:+ IOSSimulator.udid sim) s -> s = ios_status sim) ->
  ios_settled simulators st -> ios_settled simulators st'.
Proof.
  intros [Hfind _] Hmoves HP Hsettled sim r e' Hsim Hr He'.
  rewrite Hfind in Hr. destruct (findIOSEmulator_found _ _ _ Hr) as (e & He & Hid).
  destruct (Hmoves r e He) as (e2 & He2 & _ & Hstatus).
  assert (e2 = e') as -> by congruence.
  destruct Hstatus as [-> |Hp]; [by apply (Hsettled sim r)|].
  rewrite Hid in Hp. by apply HP.
Qed.

Lemma android_settled_moves (w : World) (emulators : list AndroidEmulator)
    (st st' : Store) (P : string -> Status -> Prop) :
  same_finds st st' ->
  moves P (heap st) (heap st') ->
  (forall emu s,
     In emu emulators -> P ("android-" +:+ AndroidEmulator.name emu) s ->
     s = resolved w (AndroidEmulator.name emu)) ->
  android_settled w emulators st -> android_settled w emulators st'.
Proof.
  intros [_ Hfind] Hmoves HP Hsettled emu r e' Hemu Hr He'.
  rewrite Hfind in Hr. destruct (findAndroidEmulator_found _ _ _ Hr) as (e & He & Hid).
  destruct (Hmoves r e He) as (e2 & He2 & _ & Hstatus).
  assert (e2 = e') as -> by congruence.
  destruct Hstatus as [-> |Hp]; [by apply (Hsettled emu r)|].
  rewrite Hid in Hp. by apply HP.
Qed.

(** One turn of either loop: the finds stay, only the record of the
    device can get another status, and it has the probed status
    afterwards. *)
Lemma check_ios_step_turn (sim : IOSSimulator) (st : Store) (c : bool) :
  let st' := fst (check_ios_step (st, c) sim) in
  same_finds st st'
  /\ moves (fun id s => id = "ios-" +:+ IOSSimulator.udid sim /\ s = ios_status sim)
       (heap st) (heap st')
  /\ ios_settled [sim] st'.
Proof.
  unfold check_ios_step.
  destruct (findIOSEmulator st ("ios-" +:+ IOSSimulator.udid sim)) as [r|] eqn:Hr.
  2: { cbn. split; [apply same_finds_refl|]. split; [apply moves_refl|].
       intros ? r e [<-|[]] Hr'. congruence. }
  destruct (findIOSEmulator_found _ _ _ Hr) as (e & He & Hid). rewrite He.
  destruct (bool_decide (EmulatorItem.status e = _)) eqn:Hsame.
  - cbn. split; [apply same_finds_refl|]. split; [apply moves_refl|].
    intros ? r' e' [<-|[]] Hr' He'.
    assert (r' = r) as -> by congruence. assert (e' = e) as -> by congruence.
    by apply bool_decide_eq_true_1 in Hsame.
  - cbn [fst]. split; [apply same_finds_mark|]. split.
    + apply mark_moves. intros e0 He0. assert (e0 = e) as -> by congruence. done.
    + intros ? r' e' [<-|[]] Hr' He'.
      rewrite (proj1 (same_finds_mark _ _ _ _)) in Hr'.
      assert (r' = r) as -> by congruence.
      pose proof (status_at_mark (ios_status sim)
                    (if isSimulatorBooted sim then circle_filled else circle_outline)
                    r st (ltac:(by eexists))) as Hat.
      unfold status_at in Hat. unfold ios_status in Hat, He'. rewrite He' in Hat.
      by injection Hat.
Qed.

Lemma check_android_pure_turn (w : World) (emu : AndroidEmulator) (st : Store)
    (c : bool) :
  let st' := fst (check_android_pure w (st, c) emu) in
  same_finds st st'
  /\ moves (fun id s => id = "android-" +:+ AndroidEmulator.name emu
                        /\ s = resolved w (AndroidEmulator.name emu))
       (heap st) (heap st')
  /\ android_settled w [emu] st'.
Proof.
  unfold check_android_pure, check_android_update. cbn [fst].
  destruct (findAndroidEmulator st ("android-" +:+ AndroidEmulator.name emu))
    as [r|] eqn:Hr.
  2: { cbn. split; [apply same_finds_refl|]. split; [apply moves_refl|].
       intros ? r e [<-|[]] Hr'. congruence. }
  destruct (findAndroidEmulator_found _ _ _ Hr) as (e & He & Hid). rewrite He.
  destruct (bool_decide (EmulatorItem.status e = _)) eqn:Hsame.
  - cbn. split; [apply same_finds_refl|]. split; [apply moves_refl|].
    intros ? r' e' [<-|[]] Hr' He'.
    assert (r' = r) as -> by congruence. assert (e' = e) as -> by congruence.
    by apply bool_decide_eq_true_1 in Hsame.
  - cbn [fst]. split; [apply same_finds_mark|]. split.
    + apply mark_moves. intros e0 He0. assert (e0 = e) as -> by congruence. done.
    + intros ? r' e' [<-|[]] Hr' He'.
      rewrite (proj2 (same_finds_mark _ _ _ _)) in Hr'.
      assert (r' = r) as -> by congruence.
      pose proof (status_at_mark (resolved w (AndroidEmulator.name emu))
                    (android_icon (resolved w (AndroidEmulator.name emu)))
                    r st (ltac:(by eexists))) as Hat.
      unfold status_at in Hat. rewrite He' in Hat. by injection Hat.
Qed.

Lemma ios_settled_app (a b : list IOSSimulator) (st : Store) :
  ios_settled a st -> ios_settled b st -> ios_settled (a ++ b) st.
Proof. intros Ha Hb sim r e [?|?]%in_app_or; eauto. Qed.

Lemma android_settled_app (w : World) (a b : list AndroidEmulator) (st : Store) :
  android_settled w a st -> android_settled w b st -> android_settled w (a ++ b) st.
Proof. intros Ha Hb emu r e [?|?]%in_app_or; eauto. Qed.

(** The loop over the listed simulators leaves all of them settled, and
    the finds as they were. *)
Lemma check_ios_fold (simulators : list IOSSimulator) :
  agree_on_state simulators ->
  forall rest done acc,
    simulators = done ++ rest ->
    ios_settled done (fst acc) ->
    ios_settled simulators (fst (foldl check_ios_step acc rest))
    /\ same_finds (fst acc) (fst (foldl check_ios_step acc rest))
    /\ moves (fun id s => exists udid, id = "ios-" +:+ udid)
         (heap (fst acc)) (heap (fst (foldl check_ios_step acc rest))).
Proof.
  intros Hagree. induction rest as [|sim rest IH]; intros done [st c] Hsplit Hdone.
  - rewrite app_nil_r in Hsplit. subst done. cbn [foldl].
    split; [done|]. split; [apply same_finds_refl | apply moves_refl].
  - cbn [foldl]. destruct (check_ios_step_turn sim st c) as (Hfind & Hmoves & Hsim).
    cbn zeta in Hfind, Hmoves, Hsim.
    destruct (check_ios_step (st, c) sim) as [st' c'] eqn:Hstep. cbn [fst] in *.
    destruct (IH (done ++ [sim]) (st', c')) as (Hall & Hfind' & Hmoves').
    + by rewrite <- app_assoc.
    + apply ios_settled_app; [|done].
      apply (ios_settled_moves _ st _ _ Hfind Hmoves); [|done].
      intros sim0 s Hsim0 [Hid ->]. apply ios_id_inj in Hid.
      unfold ios_status. rewrite (Hagree sim0 sim); try done.
      * subst simulators. apply in_or_app. by left.
      * subst simulators. apply in_or_app. right. by left.
    + split; [done|]. split; [by apply (same_finds_trans _ st')|].
      apply (moves_trans _ _ (heap st')); [|done].
      intros r e He. destruct (Hmoves r e He) as (e' & He' & Hid' & Hs).
      exists e'. split; [done|]. split; [done|].
      destruct Hs as [?|[Hid _]]; [by left | right; by eexists].
Qed.

Lemma check_android_fold (w : World) (emulators : list AndroidEmulator) :
  forall rest done acc,
    emulators = done ++ rest ->
    android_settled w done (fst acc) ->
    android_settled w emulators (fst (foldl (check_android_pure w) acc rest))
    /\ same_finds (fst acc) (fst (foldl (check_android_pure w) acc rest))
    /\ moves (fun id s => exists name, id = "android-" +:+ name)
         (heap (fst acc)) (heap (fst (foldl (check_android_pure w) acc rest))).
Proof.
  induction rest as [|emu rest IH]; intros done [st c] Hsplit Hdone.
  - rewrite app_nil_r in Hsplit. subst done. cbn [foldl].
    split; [done|]. split; [apply same_finds_refl | apply moves_refl].
  - cbn [foldl]. destruct (check_android_pure_turn w emu st c) as (Hfind & Hmoves & Hemu).
    cbn zeta in Hfind, Hmoves, Hemu.
    destruct (check_android_pure w (st, c) emu) as [st' c'] eqn:Hstep. cbn [fst] in *.
    destruct (IH (done ++ [emu]) (st', c')) as (Hall & Hfind' & Hmoves').
    + by rewrite <- app_assoc.
    + apply android_settled_app; [|done].
      apply (android_settled_moves _ _ st _ _ Hfind Hmoves); [|done].
      intros emu0 s Hemu0 [Hid ->]. apply android_id_inj in Hid. by rewrite Hid.
    + split; [done|]. split; [by apply (same_finds_trans _ st')|].
      apply (moves_trans _ _ (heap st')); [|done].
      intros r e He. destruct (Hmoves r e He) as (e' & He' & Hid' & Hs).
      exists e'. split; [done|]. split; [done|].
      destruct Hs as [?|[Hid _]]; [by left | right; by eexists].
Qed.

(** A loop over settled devices does nothing. *)
Lemma check_ios_quiet (simulators : list IOSSimulator) (st : Store) (c : bool) :
  ios_settled simulators st ->
  foldl check_ios_step (st, c) simulators = (st, c).
Proof.
  intros Hsettled.
  assert (forall rest, (forall sim, In sim rest -> In sim simulators) ->
                       foldl check_ios_step (st, c) rest = (st, c)) as H;
    [|by apply H].
  induction rest as [|sim rest IH]; intros Hsub; [done|]. cbn [foldl].
  assert (check_ios_step (st, c) sim = (st, c)) as ->.
  { unfold check_ios_step.
    destruct (findIOSEmulator st _) as [r|] eqn:Hr; [|done].
    destruct (heap st !! r) as [e|] eqn:He; [|done].
    rewrite bool_decide_eq_true_2; [done|].
    apply (Hsettled sim r e); [apply Hsub; by left | done | done]. }
  apply IH. intros sim' Hsim'. apply Hsub. by right.
Qed.

Lemma check_android_quiet (w : World) (emulators : list AndroidEmulator) (st : Store)
    (c : bool) :
  android_settled w emulators st ->
  foldl (check_android_pure w) (st, c) emulators = (st, c).
Proof.
  intros Hsettled.
  assert (forall rest, (forall emu, In emu rest -> In emu emulators) ->
                       foldl (check_android_pure w) (st, c) rest = (st, c)) as H;
    [|by apply H].
  induction rest as [|emu rest IH]; intros Hsub; [done|]. cbn [foldl].
  assert (check_android_pure w (st, c) emu = (st, c)) as ->.
  { unfold check_android_pure, check_android_update. cbn [fst].
    destruct (findAndroidEmulator st _) as [r|] eqn:Hr; [|done].
    destruct (heap st !! r) as [e|] eqn:He; [|done].
    rewrite bool_decide_eq_true_2; [done|].
    apply (Hsettled emu r e); [apply Hsub; by left | done | done]. }
  apply IH. intros emu' Hemu'. apply Hsub. by right.
Qed.

Lemma machine_settles (platform : string) (table : CommandTable) :
  Forall (fun row => snd row <> inr None) table ->
  children_settle (machine platform table).
Proof.
  intros Hrows command args options. cbn. unfold answer.
  destruct (List.find _ table) as [row|] eqn:Hfind; [|done].
  apply find_some in Hfind as [Hin _]. rewrite List.Forall_forall in Hrows.
  by apply Hrows.
Qed.

Lemma ios_pass_quiet (w : World) (st : Store) (c : bool) :
  (forall simulators,
     checkXcodeAvailable w = Returns true -> listIOSSimulators w = Returns simulators ->
     ios_settled simulators st) ->
  ios_pass w (st, c) = (st, c).
Proof.
  intros Hsettled. unfold ios_pass.
  destruct (checkXcodeAvailable w) as [[|]|e|]; try done.
  destruct (listIOSSimulators w) as [simulators|e|]; try done.
  apply check_ios_quiet. by apply Hsettled.
Qed.

Lemma android_pass_quiet (w : World) (st : Store) (c : bool) :
  (forall emulators,
     checkAndroidAvailable w = Returns true ->
     listAndroidEmulators w = Returns emulators ->
     android_settled w emulators st) ->
  android_pass w (st, c) = (st, c).
Proof.
  intros Hsettled. unfold android_pass.
  destruct (checkAndroidAvailable w) as [[|]|e|]; try done.
  destruct (listAndroidEmulators w) as [emulators|e|]; try done.
  apply check_android_quiet. by apply Hsettled.
Qed.

Section Recheck.
Variable w : World.
Hypothesis Hsettle : children_settle w.

Lemma checkXcodeAvailable_returns : exists b, checkXcodeAvailable w = Returns b.
Proof.
  pose proof (checkXcodeAvailable_settles w Hsettle) as H.
  unfold checkXcodeAvailable in *. destruct (negb (isMacOS w)); [by eexists|].
  destruct (probe w "xcrun" ["--version"]) as [[]|e|]; cbn in *;
    [by eexists | by eexists | done].
Qed.

Lemma status_resolved (name : string) :
  getAndroidEmulatorStatus w name = Returns (resolved w name).
Proof.
  pose proof (getAndroidEmulatorStatus_settles w Hsettle name) as H.
  unfold resolved. destruct (getAndroidEmulatorStatus w name) as [s|e|] eqn:Hs;
    [done| |done].
  exfalso. unfold getAndroidEmulatorStatus in Hs.
  by destruct (let* adbCmd := adb_command w in _).
Qed.

Lemma check_ios_eq (acc : CheckFrame) : check_ios w acc = (Returns tt, ios_pass w acc).
Proof.
  unfold check_ios, ios_pass, sbind, lift, stry, exec, sret.
  destruct checkXcodeAvailable_returns as [b ->]. destruct b; [|done].
  pose proof (listIOSSimulators_settles w Hsettle) as H.
  by destruct (listIOSSimulators w) as [simulators|e|].
Qed.

Lemma check_android_loop_eq (emulators : list AndroidEmulator) :
  forall acc,
    check_android_loop w emulators acc
    = (Returns tt, foldl (check_android_pure w) acc emulators).
Proof.
  induction emulators as [|emu rest IH]; intros acc; [done|].
  cbn [check_android_loop foldl]. unfold sbind at 1.
  assert (check_android_step w emu acc = (Returns tt, check_android_pure w acc emu))
    as ->; [|apply IH].
  unfold check_android_step, check_android_pure.
  destruct (findAndroidEmulator (fst acc) _) as [existing|]; [|done].
  unfold stry, sbind, lift, exec. by rewrite status_resolved.
Qed.

Lemma check_android_eq (acc : CheckFrame) :
  check_android w acc = (Returns tt, android_pass w acc)
  \/ exists e, check_android w acc = (Throws e, acc).
Proof.
  unfold check_android, android_pass, sbind at 1, lift at 1.
  pose proof (checkAndroidAvailable_settles w Hsettle) as Ha.
  destruct (checkAndroidAvailable w) as [[|]|e|]; [| by left | by right; eexists | done].
  left. unfold stry, sbind, lift.
  pose proof (listAndroidEmulators_settles w Hsettle) as Hl.
  destruct (listAndroidEmulators w) as [emulators|e|]; [|done|done].
  by rewrite check_android_loop_eq.
Qed.

Hypothesis Hagree :
  forall simulators, listIOSSimulators w = Returns simulators -> agree_on_state simulators.

Lemma ios_pass_result (acc : CheckFrame) :
  (forall simulators,
     checkXcodeAvailable w = Returns true -> listIOSSimulators w = Returns simulators ->
     ios_settled simulators (fst (ios_pass w acc)))
  /\ same_finds (fst acc) (fst (ios_pass w acc))
  /\ moves (fun id s => exists udid, id = "ios-" +:+ udid)
       (heap (fst acc)) (heap (fst (ios_pass w acc))).
Proof.
  unfold ios_pass.
  destruct (checkXcodeAvailable w) as [[|]|e|];
    try (split; [done|]; split; [apply same_finds_refl | apply moves_refl]).
  destruct (listIOSSimulators w) as [simulators|e|] eqn:Hlist;
    try (split; [done|]; split; [apply same_finds_refl | apply moves_refl]).
  destruct (check_ios_fold simulators (Hagree _ eq_refl) simulators [] acc eq_refl)
    as (Hall & Hfind & Hmoves); [by intros ? ? ? []|].
  split; [|done]. by intros ? _ [= <-].
Qed.

Lemma android_pass_result (acc : CheckFrame) :
  (forall emulators,
     checkAndroidAvailable w = Returns true ->
     listAndroidEmulators w = Returns emulators ->
     android_settled w emulators (fst (android_pass w acc)))
  /\ same_finds (fst acc) (fst (android_pass w acc))
  /\ moves (fun id s => exists name, id = "android-" +:+ name)
       (heap (fst acc)) (heap (fst (android_pass w acc))).
Proof.
  unfold android_pass.
  destruct (checkAndroidAvailable w) as [[|]|e|];
    try (split; [done|]; split; [apply same_finds_refl | apply moves_refl]).
  destruct (listAndroidEmulators w) as [emulators|e|] eqn:Hlist;
    try (split; [done|]; split; [apply same_finds_refl | apply moves_refl]).
  destruct (check_android_fold w emulators emulators [] acc eq_refl)
    as (Hall & Hfind & Hmoves); [by intros ? ? ? []|].
  split; [|done]. by intros ? _ [= <-].
Qed.

(** After a re-check every listed device is settled. *)
Lemma checkStatusChanges_settled (st : Store) :
  let st1 := snd (checkStatusChanges w st) in
  fst (checkStatusChanges w st) = Returns tt
  /\ (forall simulators,
        checkXcodeAvailable w = Returns true ->
        listIOSSimulators w = Returns simulators ->
        ios_settled simulators st1)
  /\ ((forall emulators,
         checkAndroidAvailable w = Returns true ->
         listAndroidEmulators w = Returns emulators ->
         android_settled w emulators st1)
      \/ exists e, checkAndroidAvailable w = Throws e).
Proof.
  unfold checkStatusChanges. rewrite check_frame_eq, check_ios_eq. cbn [fst snd].
  destruct (ios_pass_result (st, false)) as (Hios & Hfind1 & _).
  set (acc1 := ios_pass w (st, false)) in *.
  destruct (check_android_eq acc1) as [-> |[e Hthrow]].
  - destruct (android_pass_result acc1) as (Handroid & Hfind2 & Hmoves2).
    set (acc2 := android_pass w acc1) in *.
    assert (forall simulators,
              checkXcodeAvailable w = Returns true ->
              listIOSSimulators w = Returns simulators ->
              ios_settled simulators (fst acc2)) as Hios2.
    { intros simulators Ha Hl.
      apply (ios_settled_moves _ (fst acc1) _ _ Hfind2 Hmoves2); [|by apply Hios].
      intros sim s _ [name Hid]. exfalso.
      apply (ios_id_not_android ("ios-" +:+ IOSSimulator.udid sim));
        [by eexists | by exists name]. }
    cbn [fst snd]. split; [done|]. unfold fire_if_changed.
    destruct (snd acc2); cbn [fst]; split; try done; by left.
  - rewrite Hthrow. cbn [fst snd]. split; [done|]. split; [done|]. right.
    unfold check_android, sbind, lift in Hthrow.
    destruct (checkAndroidAvailable w) as [[|]|e'|] eqn:Ha; [| done | by eexists | done].
    exfalso. unfold stry in Hthrow.
    destruct (listAndroidEmulators w) as [emulators|?|]; [|done|done].
    by rewrite check_android_loop_eq in Hthrow.
Qed.
End Recheck.

(** X20.  On a machine where every child process ends and where the
    simulators listed under one UDID agree in whether they are booted, a
    status re-check leaves the provider settled: a second re-check right
    after it returns with the provider exactly as it found it, and so
    fires nothing, also when a platform is unavailable. *)
Theorem checkStatusChanges_twice :
  forall (w : World) (st : Store),
    children_settle w ->
    (forall simulators,
       listIOSSimulators w = Returns simulators -> agree_on_state simulators) ->
    let st1 := snd (checkStatusChanges w st) in
    checkStatusChanges w st1 = (Returns tt, st1).
Proof.
  intros w st Hsettle Hagree st1.
  destruct (checkStatusChanges_settled w Hsettle Hagree st) as (_ & Hios & Handroid).
  fold st1 in Hios, Handroid.
  unfold checkStatusChanges. rewrite check_frame_eq, (check_ios_eq w Hsettle).
  rewrite (ios_pass_quiet w st1 false Hios).
  destruct Handroid as [Handroid|[e He]].
  - destruct (check_android_eq w Hsettle (st1, false)) as [-> |[e Hthrow]].
    + by rewrite (android_pass_quiet w st1 false Handroid).
    + by rewrite Hthrow.
  - unfold check_android, sbind, lift. by rewrite He.
Qed.

Lemma recheck_twice_on_mac :
  let st1 := snd (checkStatusChanges mac_with_both (refresh mac_with_both empty_store)) in
  checkStatusChanges mac_with_both st1 = (Returns tt, st1).
Proof.
  apply (checkStatusChanges_twice mac_with_both (refresh mac_with_both empty_store)).
  - apply machine_settles. repeat constructor; discriminate.
  - intros simulators Hlist. vm_compute in Hlist. injection Hlist as <-.
    by intros s1 s2 [<-|[]] [<-|[]] _.
Defined.

(** ** emulatorProvider.ts: what a refresh puts into the lists *)

Lemma records_of_keeps {A : Type} (Q : string -> Prop) (h h' : Heap) (key : A -> string)
    (refs : list ref) (devices : list A) :
  keeps Q h h' -> records_of h key refs devices -> records_of h' key refs devices.
Proof.
  intros Hkeeps Hrefs. unfold records_of in *.
  eapply Forall2_impl; [exact Hrefs|].
  intros r x (e & He & Hid). destruct (Hkeeps r e He) as (e' & He' & Hshape & _).
  exists e'. split; [done|]. by rewrite (shape_id _ _ Hshape).
Qed.

Lemma records_of_snoc {A : Type} (h : Heap) (key : A -> string) (refs : list ref)
    (devices : list A) (r : ref) (e : EmulatorItem) (x : A) :
  records_of h key refs devices -> h !! r = Some e -> EmulatorItem.id e = key x ->
  records_of h key (refs ++ [r]) (devices ++ [x]).
Proof.
  intros Hrefs He Hid. apply Forall2_app; [done|]. repeat constructor. by exists e.
Qed.

Lemma Forall2_impl_in {A B : Type} (P Q : A -> B -> Prop) (l : list A) (k : list B) :
  Forall2 P l k ->
  (forall x y, In x l -> In y k -> P x y -> Q x y) ->
  Forall2 Q l k.
Proof.
  induction 1 as [|x y l k Hxy Hrest IH]; intros Himpl; constructor.
  - apply Himpl; [by left | by left | done].
  - apply IH. intros x' y' Hx' Hy'. apply Himpl; by right.
Qed.

Lemma of_subtype_snoc (k : IOSDeviceSubtype) (done : list IOSSimulator)
    (sim : IOSSimulator) :
  of_subtype k (done ++ [sim])
  = of_subtype k done ++ (if bool_decide (getIOSDeviceSubtype sim = k) then [sim] else []).
Proof. unfold of_subtype. by rewrite List.filter_app. Qed.

(** One turn of the loop over the listed simulators: the heap keeps its
    objects, and the simulator's record, with its id, goes to the end of
    the list of its subtype. *)
Lemma ios_step_record (existing : gmap string ref) (h0 : Heap) (sim : IOSSimulator)
    (h : Heap) (m : SubtypeMap) (c : bool) :
  keyed_by_id h0 existing -> keeps is_ios_id h0 h ->
  exists h' r e c',
    ios_step existing (h, m, c) sim
    = (h', subtype_push (getIOSDeviceSubtype sim) r m, c')
    /\ keeps is_ios_id h h'
    /\ h' !! r = Some e
    /\ EmulatorItem.id e = ios_id sim.
Proof.
  intros Hkeyed Hkeeps. unfold ios_step. fold (ios_id sim).
  destruct (existing !! ios_id sim) as [r|] eqn:Hr.
  - destruct (Hkeyed _ _ Hr) as (e0 & He0 & Hid0).
    destruct (Hkeeps r e0 He0) as (e & He & Hshape & _).
    assert (EmulatorItem.id e = ios_id sim) as Hid
      by (rewrite (shape_id _ _ Hshape); done).
    assert (forall (h1 : Heap) e1, h1 !! r = Some e1 -> EmulatorItem.id e1 = ios_id sim ->
                                   is_ios_id (EmulatorItem.id e1)) as Hq.
    { intros h1 e1 _ ->. by eexists. }
    set (newStatus := if isSimulatorBooted sim then running else stopped).
    set (newIcon := if isSimulatorBooted sim then circle_filled else circle_outline).
    pose proof (update_status_keeps is_ios_id newStatus newIcon r h) as Hk1.
    destruct (update_status_spec newStatus newIcon r h e He)
      as (e1 & He1 & _ & _ & Hshape1 & _).
    destruct (update_status newStatus newIcon r h) as [h1 c1]. cbn [fst] in *.
    pose proof (update_version_keeps is_ios_id
                  (extractIOSVersion (IOSSimulator.runtime sim)) r h1) as Hk2.
    destruct (update_version_spec (extractIOSVersion (IOSSimulator.runtime sim)) r h1 e1 He1)
      as (e2 & He2 & _ & _ & Hshape2 & _).
    destruct (update_version _ r h1) as [h2 c2]. cbn [fst] in *.
    assert (EmulatorItem.id e1 = ios_id sim) as Hid1
      by (rewrite (shape_id _ _ Hshape1); done).
    exists h2, r, e2, (c || c1 || c2). split; [done|]. split; [|split; [done|]].
    + apply (keeps_trans _ _ h1).
      * apply Hk1. intros e' He'. assert (e' = e) as -> by congruence. by eapply Hq.
      * apply Hk2. intros e' He'. assert (e' = e1) as -> by congruence. by eapply Hq.
    + rewrite (shape_id _ _ Hshape2). done.
  - exists (h ++ [ios_item sim]), (length h), (ios_item sim), true.
    split; [done|]. split; [apply (keeps_alloc _ h)|]. split; [|done].
    rewrite lookup_app_r by lia. by rewrite Nat.sub_diag.
Qed.

Lemma ios_order_fold (simulators : list IOSSimulator) (existing : gmap string ref)
    (h0 : Heap) :
  keyed_by_id h0 existing ->
  forall rest done acc,
    (forall sim, In sim rest -> In sim simulators) ->
    ios_inv simulators existing h0 done acc ->
    ios_order done acc ->
    ios_order (done ++ rest) (foldl (ios_step existing) acc rest).
Proof.
  intros Hkeyed. induction rest as [|sim rest IH]; intros done acc Hsub Hinv Horder.
  - by rewrite app_nil_r.
  - cbn [foldl]. replace (done ++ sim :: rest) with ((done ++ [sim]) ++ rest)
      by (by rewrite <- app_assoc).
    apply IH.
    + intros sim' Hsim'. apply Hsub. by right.
    + apply ios_inv_step; [done | apply Hsub; by left | done].
    + destruct acc as [[h m] c]. destruct Hinv as (Hkeeps & _). cbn [fst] in Hkeeps.
      destruct (ios_step_record existing h0 sim h m c Hkeyed Hkeeps)
        as (h' & r & e & c' & -> & Hstep & He & Hid).
      intros k. cbn [fst snd]. rewrite subtype_get_push, of_subtype_snoc.
      specialize (Horder k). cbn [fst snd] in Horder.
      apply (records_of_keeps _ _ _ _ _ _ Hstep) in Horder.
      destruct (decide (getIOSDeviceSubtype sim = k)) as [->|Hk].
      * rewrite bool_decide_eq_true_2 by done. by apply (records_of_snoc _ _ _ _ _ e).
      * rewrite bool_decide_eq_false_2 by done. by rewrite app_nil_r.
Qed.

Lemma add_group_eq (m : SubtypeMap) (h : Heap) (items : list ref)
    (k : IOSDeviceSubtype) :
  add_group m (h, items) k
  = match subtype_get k m with
    | Some (r :: rs) => (h ++ [group_item k (r :: rs)], items ++ [length h])
    | _ => (h, items)
    end.
Proof. unfold add_group. by destruct (subtype_get k m) as [[|r rs]|]. Qed.

(** The group items of a refresh stand for the subtypes that have
    emulators, in the fixed order. *)
Lemma add_groups_order (m : SubtypeMap) :
  forall subtypes h items,
    exists new,
      snd (foldl (add_group m) (h, items) subtypes) = items ++ new
      /\ Forall2 (fun g k =>
                    exists rs,
                      subtype_get k m = Some rs
                      /\ fst (foldl (add_group m) (h, items) subtypes) !! g
                         = Some (group_item k rs))
           new (List.filter (has_group m) subtypes).
Proof.
  induction subtypes as [|k subtypes IH]; intros h items.
  - exists []. cbn. rewrite app_nil_r. split; [done | constructor].
  - cbn [foldl List.filter]. rewrite add_group_eq. unfold has_group at 1.
    destruct (subtype_get k m) as [[|r rs]|] eqn:Hget; try apply IH.
    destruct (IH (h ++ [group_item k (r :: rs)]) (items ++ [length h]))
      as (new & Hitems & Hgroups).
    exists (length h :: new). split; [by rewrite Hitems, <- app_assoc|].
    constructor; [|done]. exists (r :: rs). split; [done|].
    destruct (add_groups_spec m subtypes (h ++ [group_item k (r :: rs)])
                (items ++ [length h])) as (Hkeeps & _).
    apply (keeps_all_some (h ++ [group_item k (r :: rs)])); [exact Hkeeps|].
    rewrite lookup_app_r by lia. by rewrite Nat.sub_diag.
Qed.

Lemma android_step_record (existing : gmap string ref) (h0 : Heap)
    (emu : AndroidEmulator) (newStatus : Status) (f : LoadFrame) :
  keyed_by_id h0 existing -> keeps is_android_id h0 (heap (store f)) ->
  exists a e,
    androidItems (android_step existing emu newStatus f) = androidItems f ++ [a]
    /\ keeps is_android_id (heap (store f))
         (heap (store (android_step existing emu newStatus f)))
    /\ heap (store (android_step existing emu newStatus f)) !! a = Some e
    /\ EmulatorItem.id e = android_id emu.
Proof.
  intros Hkeyed Hkeeps. unfold android_step. fold (android_id emu).
  destruct (existing !! android_id emu) as [r|] eqn:Hr.
  - destruct (Hkeyed _ _ Hr) as (e0 & He0 & Hid0).
    destruct (Hkeeps r e0 He0) as (e & He & Hshape & _).
    assert (EmulatorItem.id e = android_id emu) as Hid
      by (rewrite (shape_id _ _ Hshape); done).
    pose proof (update_status_keeps is_android_id newStatus (android_icon newStatus) r
                  (heap (store f))) as Hk1.
    destruct (update_status_spec newStatus (android_icon newStatus) r (heap (store f)) e He)
      as (e1 & He1 & _ & _ & Hshape1 & _).
    destruct (update_status newStatus (android_icon newStatus) r (heap (store f)))
      as [h1 c1]. cbn [fst] in *.
    exists r, e1. cbn. split; [done|]. split; [|split; [done|]].
    + apply Hk1. intros e' He'. assert (e' = e) as -> by congruence.
      rewrite Hid. by eexists.
    + by rewrite (shape_id _ _ Hshape1).
  - unfold push_android, alloc. cbn.
    eexists (length (heap (store f))), _. split; [done|].
    split; [apply (keeps_alloc _ (heap (store f)))|].
    split; [rewrite lookup_app_r by lia; by rewrite Nat.sub_diag | done].
Qed.

Lemma android_order_fold (w : World) (emulators : list AndroidEmulator)
    (existing : gmap string ref) (f0 : LoadFrame) :
  keyed_by_id (heap (store f0)) existing ->
  forall rest done f,
    (forall emu, In emu rest -> In emu emulators) ->
    android_inv w emulators existing f0 done f ->
    records_of (heap (store f)) android_id (androidItems f) done ->
    records_of (heap (store (android_listed w existing rest f))) android_id
      (androidItems (android_listed w existing rest f)) (done ++ rest).
Proof.
  intros Hkeyed. unfold android_listed.
  induction rest as [|emu rest IH]; intros done f Hsub Hinv Horder.
  - by rewrite app_nil_r.
  - cbn [foldl]. replace (done ++ emu :: rest) with ((done ++ [emu]) ++ rest)
      by (by rewrite <- app_assoc).
    apply IH.
    + intros emu' Hemu'. apply Hsub. by right.
    + apply android_inv_step; [done | apply Hsub; by left | done].
    + destruct Hinv as (Hkeeps & _).
      destruct (android_step_record existing (heap (store f0)) emu
                  (resolved w (AndroidEmulator.name emu)) f Hkeyed Hkeeps)
        as (a & e & -> & Hstep & He & Hid).
      apply (records_of_snoc _ _ _ _ _ e); [|done|done].
      by apply (records_of_keeps _ _ _ _ _ _ Hstep).
Qed.

Lemma group_id_not_android (k : IOSDeviceSubtype) (rs : list ref) :
  ~ is_android_id (EmulatorItem.id (group_item k rs)).
Proof.
  intros Hand. eapply ios_id_not_android; [|exact Hand].
  by exists ("subtype-" +:+ subtype_label k).
Qed.

Lemma of_subtype_in (k : IOSDeviceSubtype) (simulators : list IOSSimulator)
    (sim : IOSSimulator) :
  In sim (of_subtype k simulators) -> In sim simulators.
Proof. unfold of_subtype. by intros [? _]%List.filter_In. Qed.

(** What the loops of a refresh leave in its two local lists when both
    listings are there: a group for every subtype that has listed
    simulators, in the fixed order, each with the records of its
    simulators in listing order, and the records of the listed AVDs in
    listing order; every record shows what the listing says. *)
Lemma listed_frame_lists (w : World) (st : Store) (simulators : list IOSSimulator)
    (emulators : list AndroidEmulator) :
  consistent simulators ->
  let f := listed_frame w simulators emulators st in
  Forall2 (fun g k =>
             exists rs,
               heap (store f) !! g = Some (group_item k rs)
               /\ Forall2 (shows_simulator (heap (store f))) rs (of_subtype k simulators))
    (iosItems f) (List.filter (listed_subtype simulators) subtypeOrder)
  /\ Forall2 (shows_avd w (heap (store f))) (androidItems f) emulators
  /\ iosEmulators (store f) = iosEmulators st
  /\ androidEmulators (store f) = androidEmulators st
  /\ fired (store f) = fired st.
Proof.
  intros Hcons. unfold listed_frame.
  destruct (ios_listed_frame (existingIOS st) simulators st)
    as (h1 & m & c & h1' & items & Hfold & Hgfold & ->).
  pose proof (ios_inv_fold simulators (existingIOS st) (heap st) (existingIOS_keyed st)
                simulators [] (heap st, [], false) (fun _ H => H)
                (ios_inv_init simulators (existingIOS st) (heap st))) as Hinv.
  assert (ios_order [] (heap st, [], false)) as Horder0 by (intros k; constructor).
  pose proof (ios_order_fold simulators (existingIOS st) (heap st) (existingIOS_keyed st)
                simulators [] (heap st, [], false) (fun _ H => H)
                (ios_inv_init simulators (existingIOS st) (heap st)) Horder0) as Horder.
  rewrite app_nil_l, Hfold in Hinv, Horder.
  destruct Hinv as (Hk1 & Hfresh1 & _ & Hgroups1 & _).
  cbn [fst snd] in Hk1, Hfresh1, Hgroups1.
  pose proof (add_groups_spec m subtypeOrder h1 []) as Hg. rewrite Hgfold in Hg.
  cbn [fst snd] in Hg. destruct Hg as (Hkg & _).
  destruct (add_groups_order m subtypeOrder h1 []) as (new & Hnew & Hgroups).
  rewrite Hgfold in Hnew, Hgroups. cbn [fst snd app] in Hnew, Hgroups. subst new.
  set (f1 := mkFrame _ items [] c).
  assert (keyed_by_id (heap (store f1)) (existingAndroid st)) as Hkeyed.
  { apply (keyed_keeps (fun _ => False) h1); [exact Hkg|].
    apply (keyed_keeps is_ios_id (heap st)); [exact Hk1|]. apply existingAndroid_keyed. }
  pose proof (android_inv_fold w emulators (existingAndroid st) f1 Hkeyed
                emulators [] f1 (fun _ H => H)
                (android_inv_init w emulators (existingAndroid st) f1 eq_refl)) as Ha.
  assert (records_of (heap (store f1)) android_id (androidItems f1) []) as Harder0
    by constructor.
  pose proof (android_order_fold w emulators (existingAndroid st) f1 Hkeyed
                emulators [] f1 (fun _ H => H)
                (android_inv_init w emulators (existingAndroid st) f1 eq_refl) Harder0)
    as Harder.
  rewrite app_nil_l in Ha, Harder.
  set (f2 := android_listed w (existingAndroid st) emulators f1) in *.
  destruct Ha as (Hka & Hfresha & _ & _ & _ & Hiosa & Hfieldsa).
  cbn [f1 store heap iosItems androidItems hasChanges] in Hka, Hiosa.
  assert (forall r e, h1 !! r = Some e -> is_ios_id (EmulatorItem.id e) ->
                      heap (store f2) !! r = Some e) as Hstays.
  { intros r e He Hid. apply (keeps_all_some h1 h1') in He; [|done].
    destruct (Hka r e He) as (e' & He' & _ & [->|Hand]); [done|].
    by destruct (ios_id_not_android (EmulatorItem.id e)). }
  split; [|split].
  - rewrite Hiosa. rewrite (List.filter_ext _ (has_group m))
      by (intros k; by rewrite Hgroups1).
    eapply Forall2_impl; [exact Hgroups|].
    intros g k (rs & Hrs & Hg). exists rs. split.
    + destruct (Hka g _ Hg) as (e' & He' & _ & [->|Hand]); [done|].
      by destruct (group_id_not_android k rs).
    + specialize (Horder k). cbn [fst snd] in Horder. rewrite Hrs in Horder.
      eapply Forall2_impl_in; [exact Horder|].
      intros r sim Hr Hsim%of_subtype_in (e & He & Hid).
      destruct (Hfresh1 k rs r Hrs Hr) as (e0 & He0 & sim' & Hsim' & Hid' & Hs & Hi & Hv).
      assert (e0 = e) as -> by congruence.
      assert (IOSSimulator.udid sim' = IOSSimulator.udid sim) as Hudid
        by (apply ios_id_inj; unfold ios_id in Hid; congruence).
      destruct (Hcons sim' sim Hsim' Hsim Hudid) as [Hbooted Hversion].
      exists e. split; [|split; [done|]].
      * apply Hstays; [done|]. rewrite Hid. by eexists.
      * unfold shows_ios. by rewrite <- Hbooted, <- Hversion.
  - eapply Forall2_impl_in; [exact Harder|].
    intros a emu Ha Hemu (e & He & Hid).
    destruct (Hfresha a Ha) as (e0 & He0 & emu' & Hemu' & Hid' & Hs & Hi).
    assert (e0 = e) as -> by congruence.
    assert (AndroidEmulator.name emu' = AndroidEmulator.name emu) as Hname
      by (apply android_id_inj; unfold android_id in Hid; congruence).
    exists e. split; [done|]. split; [done|].
    unfold shows_android. by rewrite <- Hname.
  - by destruct Hfieldsa as (-> & _ & -> & -> & _).
Qed.

(** The lists a refresh leaves when it replaces them, or when there were
    none. *)
Lemma listed_refresh_lists (w : World) (st : Store)
    (simulators : list IOSSimulator) (emulators : list AndroidEmulator) :
  checkXcodeAvailable w = Returns true ->
  listIOSSimulators w = Returns simulators ->
  consistent simulators ->
  checkAndroidAvailable w = Returns true ->
  listAndroidEmulators w = Returns emulators ->
  (forall emu, In emu emulators ->
     exists s, getAndroidEmulatorStatus w (AndroidEmulator.name emu) = Returns s) ->
  fired (refresh w st) = S (fired st)
  \/ (iosEmulators st = [] /\ androidEmulators st = []) ->
  let st1 := refresh w st in
  Forall2 (fun g k =>
             exists rs,
               heap st1 !! g = Some (group_item k rs)
               /\ Forall2 (shows_simulator (heap st1)) rs (of_subtype k simulators))
    (iosEmulators st1) (List.filter (listed_subtype simulators) subtypeOrder)
  /\ Forall2 (shows_avd w (heap st1)) (androidEmulators st1) emulators.
Proof.
  intros Hxcode Hsims Hcons Handroid Hemus Hstatus Hwhen.
  unfold refresh, loadEmulators in *. cbn [snd] in *.
  rewrite (load_frame_listed w st simulators emulators) in * by done. cbn [snd] in *.
  destruct (listed_frame_lists w st simulators emulators Hcons)
    as (Hios & Handroid_list & Hios_same & Handroid_same & Hfired).
  set (f := listed_frame w simulators emulators st) in *.
  unfold commit in *.
  destruct (hasChanges f
            || negb (Nat.eqb (length (iosEmulators (store f))) (length (iosItems f)))
            || negb (Nat.eqb (length (androidEmulators (store f)))
                       (length (androidItems f))))
    eqn:Hflag; [done|].
  destruct Hwhen as [Hwhen|[Hno_ios Hno_android]]; [cbn in Hwhen; lia|].
  apply orb_false_elim in Hflag as [Hflag Handroid_len].
  apply orb_false_elim in Hflag as [_ Hios_len].
  apply negb_false_iff, Nat.eqb_eq in Handroid_len, Hios_len.
  rewrite Hios_same, Hno_ios in *. rewrite Handroid_same, Hno_android in *.
  destruct (iosItems f); [|done]. by destruct (androidItems f).
Qed.

(** X21.  What a refresh shows.  When both toolchains answer, both
    listings succeed and every status resolves, a refresh that fires the
    change event (or that starts from a provider with no items) leaves
    these lists: the iOS list holds one group per subtype that has listed
    simulators, in the order iPhone, iPad, Apple Watch, Apple Vision,
    Apple TV, Other, each group with the label and the id of its subtype
    and, as children, the records of its simulators in listing order; the
    Android list holds the records of the listed AVDs in listing order.
    Every record has the id of its device and shows the status, icon and
    version the listing gives. *)
Theorem refresh_shows_the_listings (w : World) (st : Store)
    (simulators : list IOSSimulator) (emulators : list AndroidEmulator) :
  checkXcodeAvailable w = Returns true ->
  listIOSSimulators w = Returns simulators ->
  consistent simulators ->
  checkAndroidAvailable w = Returns true ->
  listAndroidEmulators w = Returns emulators ->
  (forall emu, In emu emulators ->
     exists s, getAndroidEmulatorStatus w (AndroidEmulator.name emu) = Returns s) ->
  fired (refresh w st) = S (fired st)
  \/ (iosEmulators st = [] /\ androidEmulators st = []) ->
  let st1 := refresh w st in
  Forall2 (fun g k =>
             exists rs,
               heap st1 !! g = Some (group_item k rs)
               /\ Forall2 (shows_simulator (heap st1)) rs (of_subtype k simulators))
    (iosEmulators st1) (List.filter (listed_subtype simulators) subtypeOrder)
  /\ Forall2 (shows_avd w (heap st1)) (androidEmulators st1) emulators.
Proof.
  intros Hxcode Hsims Hcons Handroid Hemus Hstatus Hwhen.
  by apply listed_refresh_lists.
Qed.

(** On a Mac with one phone and one AVD the first refresh shows one
    group, iPhone, with the phone, and the AVD. *)
Lemma first_refresh_on_mac :
  let st1 := refresh mac_with_both empty_store in
  Forall2 (fun g k =>
             exists rs,
               heap st1 !! g = Some (group_item k rs)
               /\ Forall2 (shows_simulator (heap st1)) rs (of_subtype k [shut_phone]))
    (iosEmulators st1) (List.filter (listed_subtype [shut_phone]) subtypeOrder)
  /\ Forall2 (shows_avd mac_with_both (heap st1)) (androidEmulators st1) [pixel_avd].
Proof.
  apply (refresh_shows_the_listings mac_with_both empty_store [shut_phone] [pixel_avd]).
  - vm_compute. reflexivity.
  - vm_compute. reflexivity.
  - intros s1 s2 [<-|[]] [<-|[]] _. split; reflexivity.
  - vm_compute. reflexivity.
  - vm_compute. reflexivity.
  - intros emu [<-|[]]. exists stopped. vm_compute. reflexivity.
  - right. split; reflexivity.
Defined.

(** X22.  A simulator that is no longer listed stays in the view.  A
    refresh replaces the lists of the provider only when a record changed
    or the number of groups or of AVDs differs.  So when, after a
    refresh, the listing of simulators loses entries but still has as
    many subtypes, and the AVDs and their statuses are as before, the next
    refresh fires nothing and keeps the lists and every object: every
    simulator of the first listing, removed or not, still has its record
    in the iOS list. *)
Theorem removed_simulator_stays_listed (w w' : World) (st : Store)
    (simulators simulators' : list IOSSimulator) (emulators : list AndroidEmulator) :
  well_formed st ->
  checkXcodeAvailable w = Returns true ->
  listIOSSimulators w = Returns simulators ->
  consistent simulators ->
  checkAndroidAvailable w = Returns true ->
  listAndroidEmulators w = Returns emulators ->
  (forall emu, In emu emulators ->
     exists s, getAndroidEmulatorStatus w (AndroidEmulator.name emu) = Returns s) ->
  checkXcodeAvailable w' = Returns true ->
  listIOSSimulators w' = Returns simulators' ->
  checkAndroidAvailable w' = Returns true ->
  listAndroidEmulators w' = Returns emulators ->
  (forall emu, In emu emulators ->
     getAndroidEmulatorStatus w' (AndroidEmulator.name emu)
     = getAndroidEmulatorStatus w (AndroidEmulator.name emu)) ->
  (forall sim, In sim simulators' -> In sim simulators) ->
  group_count simulators' = group_count simulators ->
  let st1 := refresh w st in
  let st2 := refresh w' st1 in
  fired st2 = fired st1
  /\ shown st2 = shown st1
  /\ iosEmulators st2 = iosEmulators st1
  /\ androidEmulators st2 = androidEmulators st1
  /\ (forall r e, heap st1 !! r = Some e -> heap st2 !! r = Some e)
  /\ (forall sim, In sim simulators -> shown_simulator st2 sim).
Proof.
  intros Hwf Hxcode Hsims Hcons Handroid Hemus Hstatus Hxcode' Hsims' Handroid' Hemus'
    Hsame Hsub Hcount st1 st2.
  assert (forall emu, In emu emulators ->
            exists s, getAndroidEmulatorStatus w' (AndroidEmulator.name emu) = Returns s)
    as Hstatus'.
  { intros emu Hemu. rewrite (Hsame emu Hemu). by apply Hstatus. }
  subst st2 st1. unfold refresh, loadEmulators.
  rewrite (load_frame_listed w st simulators emulators) by done. cbn [snd].
  rewrite (load_frame_listed w' _ simulators' emulators) by done. cbn [snd].
  pose proof (synced_after_refresh w st simulators emulators Hwf Hcons)
    as (Hisync & Hasync & Hios_len & Handroid_len).
  set (st1 := store (commit (listed_frame w simulators emulators st))) in *.
  assert (synced w' simulators' emulators st1) as Hsynced'.
  { split; [|split; [|split]].
    - intros sim Hsim. apply Hisync. by apply Hsub.
    - intros emu Hemu. destruct (Hasync emu Hemu) as (r & e & Hr & He & Hs & Hi).
      exists r, e. split; [done|]. split; [done|].
      unfold shows_android, resolved. rewrite (Hsame emu Hemu). by split.
    - by rewrite Hcount.
    - done. }
  destruct (refresh_when_synced w' st1 simulators' emulators Hsynced')
    as (Hfired & Hios & Handroid_list & Hshown & _ & Hkeeps).
  repeat (split; [done|]). split; [intros r e; by apply keeps_all_some|].
  intros sim Hsim. destruct (Hisync sim Hsim) as (r & e & Hr & He & _).
  destruct (existingIOS_lookup st1 _ r Hr) as (g & Hg & Hin & e' & He' & Hid).
  assert (e' = e) as -> by congruence.
  exists g, r, e. rewrite Hios. split; [done|]. split; [|split; [|done]].
  - unfold group_children in *. destruct (heap st1 !! g) as [ge|] eqn:Hge; [|done].
    by rewrite (keeps_all_some _ _ g ge Hkeeps Hge).
  - by apply (keeps_all_some (heap st1)).
Qed.

(** A Mac lists two phones, then only the first: the second refresh
    fires nothing and the second phone is still shown. *)
Lemma deleted_phone_still_shown :
  let st1 := refresh mac_with_two_phones empty_store in
  let st2 := refresh mac_with_both st1 in
  fired st2 = fired st1
  /\ shown st2 = shown st1
  /\ iosEmulators st2 = iosEmulators st1
  /\ androidEmulators st2 = androidEmulators st1
  /\ (forall r e, heap st1 !! r = Some e -> heap st2 !! r = Some e)
  /\ (forall sim, In sim [shut_phone; second_phone] -> shown_simulator st2 sim).
Proof.
  apply (removed_simulator_stays_listed mac_with_two_phones mac_with_both empty_store
           [shut_phone; second_phone] [shut_phone] [pixel_avd]).
  - apply well_formed_empty.
  - vm_compute. reflexivity.
  - vm_compute. reflexivity.
  - intros s1 s2 [<-|[<-|[]]] [<-|[<-|[]]]; (discriminate || (intros _; split; reflexivity)).
  - vm_compute. reflexivity.
  - vm_compute. reflexivity.
  - intros emu [<-|[]]. exists stopped. vm_compute. reflexivity.
  - vm_compute. reflexivity.
  - vm_compute. reflexivity.
  - vm_compute. reflexivity.
  - vm_compute. reflexivity.
  - intros emu [<-|[]]. vm_compute. reflexivity.
  - intros sim [<-|[]]. by left.
  - vm_compute. reflexivity.
Defined.

(** ** emulatorProvider.ts: the items shown for a platform that fails *)

Lemma android_side_refl (f : LoadFrame) : android_side f f.
Proof.
  split; [apply keeps_refl|]. split; [done|]. split; [done | apply same_fields_refl].
Qed.

Lemma push_android_side (f1 : LoadFrame) (x : EmulatorItem) (f : LoadFrame) :
  android_side f1 f -> android_side f1 (push_android x f).
Proof.
  intros (Hkeeps & Hios & Hflag & Hfields). unfold push_android, alloc, with_heap.
  split; [|split; [done|split; [done|done]]].
  apply (keeps_trans _ _ (heap (store f))); [done|].
  apply (keeps_alloc _ (heap (store f)) x).
Qed.

Lemma android_step_side (existing : gmap string ref) (f1 : LoadFrame)
    (emu : AndroidEmulator) (newStatus : Status) (f : LoadFrame) :
  keyed_by_id (heap (store f1)) existing ->
  android_side f1 f -> android_side f1 (android_step existing emu newStatus f).
Proof.
  intros Hkeyed (Hkeeps & Hios & Hflag & Hfields).
  destruct (android_step_record existing (heap (store f1)) emu newStatus f Hkeyed Hkeeps)
    as (a & e & _ & Hstep & _).
  split; [by apply (keeps_trans _ _ (heap (store f)))|].
  unfold android_step in *.
  destruct (existing !! ("android-" +:+ AndroidEmulator.name emu)) as [r|].
  - destruct (update_status _ _ r (heap (store f))) as [h c]. cbn.
    split; [done|]. split; [|done]. intros H1. by rewrite (Hflag H1).
  - by split; [|split].
Qed.

Lemma load_android_side (w : World) (existing : gmap string ref) (f1 : LoadFrame) :
  keyed_by_id (heap (store f1)) existing ->
  preserves (android_side f1) (load_android w existing).
Proof.
  intros Hkeyed. unfold load_android. apply preserves_await. intros [|] _.
  - apply preserves_stry.
    + apply preserves_await. intros emulators _.
      induction emulators as [|emu rest IH]; [apply preserves_sret|].
      cbn [android_loop]. apply preserves_await. intros newStatus _.
      apply preserves_sbind; [|done].
      apply preserves_exec. intros f. by apply android_step_side.
    + intros e. apply preserves_exec. intros f. apply push_android_side.
  - apply preserves_exec. intros f. apply push_android_side.
Qed.

Lemma load_ios_no_android (w : World) (existing : gmap string ref) :
  preserves (fun f => androidItems f = []) (load_ios w existing).
Proof.
  unfold load_ios. apply preserves_await. intros [|] _.
  - apply preserves_stry.
    + apply preserves_await. intros simulators _. apply preserves_exec.
      intros f Hf. unfold ios_listed.
      destruct (foldl (ios_step existing) _ simulators) as [[h m] c].
      by destruct (foldl (add_group m) _ subtypeOrder).
    + intros e. by apply preserves_exec.
  - by apply preserves_exec.
Qed.

(** Only the availability check can make the Android half throw. *)
Lemma load_android_throws (w : World) (existing : gmap string ref) (f : LoadFrame)
    (e : JSError) :
  fst (load_android w existing f) = Throws e -> checkAndroidAvailable w = Throws e.
Proof.
  unfold load_android. unfold sbind at 1. unfold lift at 1.
  destruct (checkAndroidAvailable w) as [[|]|e'|]; cbv beta iota;
    [|discriminate|by intros [= ->]|discriminate].
  unfold stry. destruct (sbind _ _ f) as [[[]|e'|] f']; discriminate.
Qed.

(** The iOS half never throws. *)
Lemma load_ios_throws (w : World) (existing : gmap string ref) (f : LoadFrame)
    (e : JSError) :
  fst (load_ios w existing f) = Throws e -> checkXcodeAvailable w = Throws e.
Proof.
  unfold load_ios. unfold sbind at 1. unfold lift at 1.
  destruct (checkXcodeAvailable w) as [[|]|e'|]; cbv beta iota;
    [|discriminate|by intros [= ->]|discriminate].
  unfold stry. destruct (sbind _ _ f) as [[[]|e'|] f']; discriminate.
Qed.

Lemma commit_changed (f : LoadFrame) :
  hasChanges f = true ->
  store (commit f)
  = fire (mkStore (heap (store f)) (iosItems f) (iosEmulatorsBySubtype (store f))
            (androidItems f) (fired (store f)) (shown (store f)) (timers (store f))).
Proof. intros H. unfold commit. by rewrite H. Qed.

Section Placeholders.
Variable w : World.
Hypothesis Hsettle : children_settle w.
Variable st : Store.

Lemma load_ios_finishes : finishes (load_ios w (existingIOS st)).
Proof.
  unfold load_ios.
  apply finishes_await; [by apply checkXcodeAvailable_settles|].
  intros [|]; [|apply finishes_exec].
  apply finishes_stry; [|intros e; apply finishes_exec].
  apply finishes_await; [by apply listIOSSimulators_settles|].
  intros simulators. apply finishes_exec.
Qed.

Lemma load_android_finishes : finishes (load_android w (existingAndroid st)).
Proof.
  unfold load_android.
  apply finishes_await; [by apply checkAndroidAvailable_settles|].
  intros [|]; [|apply finishes_exec].
  apply finishes_stry; [|intros e; apply finishes_exec].
  apply finishes_await; [by apply listAndroidEmulators_settles|].
  intros emulators. induction emulators as [|emu rest IH]; [apply finishes_sret|].
  cbn [android_loop].
  apply finishes_await; [by apply getAndroidEmulatorStatus_settles|].
  intros newStatus. apply finishes_sbind; [apply finishes_exec | done].
Qed.

(** The iOS half ends in an item of its own. *)
Lemma ios_placeholder_shown (x : EmulatorItem) (b : bool) :
  load_ios w (existingIOS st) (mkFrame st [] [] false)
  = (Returns tt, push_ios x (mkFrame st [] [] false)) ->
  is_ios_id (EmulatorItem.id x) ->
  checkAndroidAvailable w = Returns b ->
  ios_replaced_by x st (refresh w st).
Proof.
  intros Hios Hid Hcheck. unfold refresh, loadEmulators. cbn [snd].
  rewrite load_frame_eq, Hios.
  set (f1 := push_ios x (mkFrame st [] [] false)).
  assert (keyed_by_id (heap (store f1)) (existingAndroid st)) as Hkeyed.
  { apply (keyed_keeps (fun _ => False) (heap st)); [|apply existingAndroid_keyed].
    apply (keeps_alloc _ (heap st) x). }
  pose proof (load_android_side w (existingAndroid st) f1 Hkeyed f1 (android_side_refl f1))
    as (Hkeeps & Hitems & Hflag & Hfields).
  pose proof (load_android_finishes f1) as Hfin.
  pose proof (load_android_throws w (existingAndroid st) f1) as Hthrows.
  destruct (load_android w (existingAndroid st) f1) as [[[]|e|] f2];
    cbn [fst snd] in *; [| |done].
  2: { specialize (Hthrows e eq_refl). congruence. }
  rewrite (commit_changed f2 (Hflag eq_refl)).
  destruct Hfields as (_ & _ & _ & Hfired & Hshown & _).
  unfold ios_replaced_by. cbn. rewrite Hfired, Hshown, Hitems.
  repeat (split; [done|]).
  assert (heap (store f1) !! length (heap st) = Some x) as Hx.
  { cbn. rewrite lookup_app_r by lia. by rewrite Nat.sub_diag. }
  destruct (Hkeeps _ _ Hx) as (x' & Hx' & _ & [->|Hand]); [done|].
  by destruct (ios_id_not_android (EmulatorItem.id x)).
Qed.

(** The Android half ends in an item of its own. *)
Lemma android_placeholder_shown (x : EmulatorItem) :
  (forall f, load_android w (existingAndroid st) f = (Returns tt, push_android x f)) ->
  android_replaced_by x st (refresh w st).
Proof.
  intros Handroid. unfold refresh, loadEmulators. cbn [snd].
  rewrite load_frame_eq.
  pose proof (load_ios_ok w st _ (frame_ok_init st)) as Hok.
  pose proof (load_ios_no_android w (existingIOS st) (mkFrame st [] [] false) eq_refl)
    as Hnone.
  pose proof (load_ios_finishes (mkFrame st [] [] false)) as Hfin.
  pose proof (load_ios_throws w (existingIOS st) (mkFrame st [] [] false)) as Hthrows.
  destruct (checkXcodeAvailable_returns w Hsettle) as [b Hb].
  destruct (load_ios w (existingIOS st) (mkFrame st [] [] false)) as [[[]|e|] f1];
    cbn [fst snd] in *; [| |done].
  2: { specialize (Hthrows e eq_refl). congruence. }
  rewrite Handroid. cbn [snd]. rewrite (commit_changed (push_android x f1) eq_refl).
  destruct Hok as (Hkeeps & _ & _ & Hfired & Hshown & _).
  unfold android_replaced_by. cbn. rewrite Hfired, Hshown, Hnone.
  repeat (split; [done|]). exists (length (heap (store f1))).
  split; [done|]. split; [by apply (keeps_length (fun _ => True))|].
  rewrite lookup_app_r by lia. by rewrite Nat.sub_diag.
Qed.
End Placeholders.

(** X23.  What a refresh shows for a platform that fails, on a machine
    where every child process ends.  Without Xcode the iOS list becomes
    one item, [ios-unavailable], labelled [Xcode not available]; when the
    listing of simulators throws it becomes one item, [ios-error],
    labelled with the message of the error (both if the Android check
    itself does not throw).  Without the Android tools the Android list
    becomes one item, [android-unavailable], labelled
    [Android Studio not available]; when the listing of AVDs throws, one
    item [android-error] labelled with the message.  In each case the
    item is a new object, the change event is fired and no message is
    shown: such a refresh fires every time. *)
Theorem refresh_shows_placeholders (w : World) (st : Store) :
  children_settle w ->
  (forall b,
     checkAndroidAvailable w = Returns b ->
     (checkXcodeAvailable w = Returns false ->
      ios_replaced_by (placeholder "ios-unavailable" "Xcode not available" ios "$(warning)")
        st (refresh w st))
     /\ (forall err,
           checkXcodeAvailable w = Returns true ->
           listIOSSimulators w = Throws err ->
           ios_replaced_by (placeholder "ios-error" (message err) ios "$(error)")
             st (refresh w st)))
  /\ (checkAndroidAvailable w = Returns false ->
      android_replaced_by
        (placeholder "android-unavailable" "Android Studio not available" android
           "$(warning)")
        st (refresh w st))
  /\ (forall err,
        checkAndroidAvailable w = Returns true ->
        listAndroidEmulators w = Throws err ->
        android_replaced_by (placeholder "android-error" (message err) android "$(error)")
          st (refresh w st)).
Proof.
  intros Hsettle. split; [|split].
  - intros b Hcheck. split.
    + intros Hxcode. apply (ios_placeholder_shown w Hsettle st _ b); [|by eexists|done].
      unfold load_ios, sbind, lift, exec. by rewrite Hxcode.
    + intros err Hxcode Hlist.
      apply (ios_placeholder_shown w Hsettle st _ b); [|by eexists|done].
      unfold load_ios, sbind, lift, stry, exec. by rewrite Hxcode, Hlist.
  - intros Hcheck. apply (android_placeholder_shown w Hsettle st). intros f.
    unfold load_android, sbind, lift, exec. by rewrite Hcheck.
  - intros err Hcheck Hlist. apply (android_placeholder_shown w Hsettle st). intros f.
    unfold load_android, sbind, lift, stry, exec. by rewrite Hcheck, Hlist.
Qed.

(** Where nothing is installed the first refresh shows the two warning
    items. *)
Lemma bare_linux_shows_warnings :
  ios_replaced_by (placeholder "ios-unavailable" "Xcode not available" ios "$(warning)")
    empty_store (refresh bare_linux empty_store)
  /\ android_replaced_by
       (placeholder "android-unavailable" "Android Studio not available" android
          "$(warning)")
       empty_store (refresh bare_linux empty_store).
Proof.
  assert (children_settle bare_linux) as Hsettle
    by (intros command args options; discriminate).
  split.
  - apply (proj1 (proj1 (refresh_shows_placeholders bare_linux empty_store Hsettle)
                    false eq_refl)).
    reflexivity.
  - apply (proj1 (proj2 (refresh_shows_placeholders bare_linux empty_store Hsettle))).
    reflexivity.
Defined.

(** ** emulatorProvider.ts: the poll after a refresh *)

Lemma Forall2_in_l {A B : Type} (P : A -> B -> Prop) (l : list A) (k : list B) (x : A) :
  Forall2 P l k -> In x l -> exists y, In y k /\ P x y.
Proof.
  induction 1 as [|x' y l k Hxy Hrest IH]; intros Hin; [done|].
  destruct Hin as [<-|Hin].
  - exists y. split; [by left | done].
  - destruct (IH Hin) as (y' & Hy' & HP). exists y'. split; [by right | done].
Qed.

(** X24.  The poll after a refresh is quiet.  On a machine where every
    child process ends, after a refresh that read both listings and
    replaced the lists (or started with none), a status re-check over the
    same probe data returns with the provider exactly as the refresh left
    it, and so fires nothing. *)
Theorem recheck_after_refresh_is_quiet (w : World) (st : Store)
    (simulators : list IOSSimulator) (emulators : list AndroidEmulator) :
  children_settle w ->
  checkXcodeAvailable w = Returns true ->
  listIOSSimulators w = Returns simulators ->
  consistent simulators ->
  checkAndroidAvailable w = Returns true ->
  listAndroidEmulators w = Returns emulators ->
  fired (refresh w st) = S (fired st)
  \/ (iosEmulators st = [] /\ androidEmulators st = []) ->
  let st1 := refresh w st in
  checkStatusChanges w st1 = (Returns tt, st1).
Proof.
  intros Hsettle Hxcode Hsims Hcons Handroid Hemus Hwhen st1.
  assert (forall emu, In emu emulators ->
            exists s, getAndroidEmulatorStatus w (AndroidEmulator.name emu) = Returns s)
    as Hstatus.
  { intros emu _. eexists. by apply status_resolved. }
  destruct (listed_refresh_lists w st simulators emulators Hxcode Hsims Hcons Handroid
              Hemus Hstatus Hwhen) as [Hios_list Handroid_list].
  fold st1 in Hios_list, Handroid_list.
  assert (ios_settled simulators st1) as Hios.
  { intros sim r e Hsim Hfind He.
    destruct (findIOSEmulator_found _ _ _ Hfind) as (e' & He' & Hid).
    assert (e' = e) as -> by congruence.
    unfold findIOSEmulator in Hfind.
    apply first_some_found in Hfind as (g & Hg & Hfind).
    apply find_by_id_found in Hfind as [Hr _].
    destruct (Forall2_in_l _ _ _ g Hios_list Hg) as (k & _ & rs & Hge & Hrs).
    rewrite (group_children_of _ _ _ rs Hge eq_refl eq_refl) in Hr.
    destruct (Forall2_in_l _ _ _ r Hrs Hr)
      as (sim' & Hsim'%of_subtype_in & e' & He'' & Hid' & Hs & _).
    assert (e' = e) as -> by congruence.
    assert (IOSSimulator.udid sim' = IOSSimulator.udid sim) as Hudid
      by (apply ios_id_inj; unfold ios_id in Hid'; congruence).
    destruct (Hcons sim' sim Hsim' Hsim Hudid) as [Hbooted _].
    unfold ios_status. by rewrite Hs, Hbooted. }
  assert (android_settled w emulators st1) as Handroid_settled.
  { intros emu r e Hemu Hfind He.
    unfold findAndroidEmulator in Hfind.
    apply find_by_id_found in Hfind as (Hr & e' & He' & Hid).
    assert (e' = e) as -> by congruence.
    destruct (Forall2_in_l _ _ _ r Handroid_list Hr)
      as (emu' & _ & e' & He'' & Hid' & Hs & _).
    assert (e' = e) as -> by congruence.
    assert (AndroidEmulator.name emu' = AndroidEmulator.name emu) as Hname
      by (apply android_id_inj; unfold android_id in Hid'; congruence).
    by rewrite Hs, Hname. }
  unfold checkStatusChanges. rewrite check_frame_eq, (check_ios_eq w Hsettle).
  rewrite (ios_pass_quiet w st1 false).
  2: { intros simulators' _ Hsims'. by assert (simulators' = simulators) as -> by congruence. }
  destruct (check_android_eq w Hsettle (st1, false)) as [-> |[e Hthrow]].
  - rewrite (android_pass_quiet w st1 false); [done|].
    intros emulators' _ Hemus'. by assert (emulators' = emulators) as -> by congruence.
  - by rewrite Hthrow.
Qed.

(** On a Mac with one phone and one AVD the poll after the first refresh
    changes nothing. *)
Lemma poll_after_first_refresh_on_mac :
  let st1 := refresh mac_with_both empty_store in
  checkStatusChanges mac_with_both st1 = (Returns tt, st1).
Proof.
  apply (recheck_after_refresh_is_quiet mac_with_both empty_store [shut_phone] [pixel_avd]).
  - apply machine_settles. repeat constructor; discriminate.
  - vm_compute. reflexivity.
  - vm_compute. reflexivity.
  - intros s1 s2 [<-|[]] [<-|[]] _. split; reflexivity.
  - vm_compute. reflexivity.
  - vm_compute. reflexivity.
  - right. split; reflexivity.
Defined.

(** ** androidEmulator.ts: the device lines [getAllRunningEmulators] reads *)

Lemma split_text :
  forall lines,
    Forall (fun l => ~ char_in newline l) lines ->
    split newline (text lines) = lines ++ [""].
Proof.
  induction lines as [|l lines IH]; intros Hall; [done|].
  apply List.Forall_cons_iff in Hall as [Hl Hall].
  rewrite text_cons, split_append by done. by rewrite IH.
Qed.

Lemma split_ws_from_cons (in_sep : bool) (s : string) :
  exists t ts, split_ws_from in_sep s = t :: ts.
Proof.
  revert in_sep. induction s as [|c s IH]; intros in_sep; cbn [split_ws_from].
  - by eexists _, _.
  - destruct (isWhiteSpace c).
    + destruct in_sep; [apply IH | by eexists _, _].
    + destruct (IH false) as (t & ts & ->). by eexists _, _.
Qed.

Lemma split_ws_word (in_sep : bool) (w rest : string) :
  w <> "" -> all_chars (fun c => isWhiteSpace c = false) w ->
  split_ws_from in_sep (w +:+ rest)
  = match split_ws_from false rest with
    | t :: ts => (w +:+ t) :: ts
    | [] => [w]
    end.
Proof.
  revert in_sep. induction w as [|c w IH]; intros in_sep Hne Hall; [done|].
  destruct Hall as [Hc Hall]. cbn [String.append split_ws_from]. rewrite Hc.
  destruct w as [|c' w'].
  - cbn [String.append]. by destruct (split_ws_from_cons false rest) as (t & ts & ->).
  - rewrite (IH false) by done.
    by destruct (split_ws_from_cons false rest) as (t & ts & ->).
Qed.

Lemma split_ws_gap (g rest : string) :
  all_chars (fun c => isWhiteSpace c = true /\ c <> newline) g ->
  split_ws_from true (g +:+ rest) = split_ws_from true rest.
Proof.
  induction g as [|c g IH]; intros Hall; [done|].
  destruct Hall as [[Hc _] Hall]. cbn [String.append split_ws_from]. rewrite Hc.
  by apply IH.
Qed.

Lemma split_ws_head_blank (s : string) :
  head_blank s -> exists ts, split_ws_from false s = "" :: ts.
Proof.
  destruct s as [|c s]; cbn [head_blank split_ws_from]; [by eexists|].
  intros ->. by eexists.
Qed.

Lemma char_in_append (c : ascii) :
  forall a b, char_in c (a +:+ b) -> char_in c a \/ char_in c b.
Proof.
  induction a as [|x a IH]; intros b; cbn [String.append char_in]; [by right|].
  intros [->|Hin]; [left; by left|]. destruct (IH b Hin); [left; by right | by right].
Qed.

Lemma word_head (w rest : string) : word w -> head_ok (w +:+ rest).
Proof. intros [Hne Hall]. destruct w as [|c w]; [done|]. by destruct Hall. Qed.

Lemma trimEnd_nonempty (s : string) : s <> "" -> head_ok s -> trimEnd s <> "".
Proof.
  destruct s as [|c s]; [done|]. intros _ Hc. cbn [head_ok] in Hc.
  cbn [trimEnd]. rewrite Hc. by destruct (trimEnd s).
Qed.

Lemma trimEnd_word (w : string) :
  all_chars (fun c => isWhiteSpace c = false) w -> trimEnd w = w.
Proof.
  induction w as [|c w IH]; intros Hall; [done|]. destruct Hall as [Hc Hall].
  cbn [trimEnd]. rewrite (IH Hall), Hc. by destruct w.
Qed.

Lemma trimEnd_head_blank (s : string) : head_blank s -> head_blank (trimEnd s).
Proof.
  destruct s as [|c s]; [done|]. cbn [head_blank trimEnd]. intros Hc. rewrite Hc.
  by destruct (trimEnd s).
Qed.

Lemma word_append_nonempty (w rest : string) : word w -> w +:+ rest <> "".
Proof. intros [Hne _]. by destruct w. Qed.

(** What the loop over the lines makes of a device line. *)
Lemma split_ws_row (row : AdbRow) :
  row_ok row ->
  exists more,
    split_ws (trim (row_line row)) = row_serial row :: row_state row :: more.
Proof.
  intros (Hserial & [Hgap_ne Hgap] & Hstate & Htail & _). unfold row_line, trim.
  rewrite trimStart_fixed by (by apply word_head).
  assert (exists tail', head_blank tail'
                        /\ trimEnd (row_state row +:+ row_tail row)
                           = row_state row +:+ tail') as (tail' & Htail' & Hend).
  { rewrite trimEnd_append. destruct (trimEnd (row_tail row)) as [|c t] eqn:Ht.
    - exists "". split; [done|]. rewrite append_nil_r. apply trimEnd_word, Hstate.
    - exists (String c t). split; [|done]. rewrite <- Ht. by apply trimEnd_head_blank. }
  assert (trimEnd (row_state row +:+ row_tail row) <> "") as Hne.
  { rewrite Hend. by apply word_append_nonempty. }
  rewrite trimEnd_append.
  replace (trimEnd (row_gap row +:+ row_state row +:+ row_tail row))
    with (row_gap row +:+ row_state row +:+ tail').
  2: { rewrite trimEnd_append, Hend.
       destruct (row_state row +:+ tail') eqn:Hs; [|done].
       by destruct (word_append_nonempty (row_state row) tail' Hstate). }
  assert (row_gap row +:+ row_state row +:+ tail' <> "") as Hne2
    by (by destruct (row_gap row)).
  destruct (row_gap row +:+ row_state row +:+ tail') as [|c0 s0] eqn:Hrest; [done|].
  rewrite <- Hrest. clear Hrest Hne2 c0 s0.
  unfold split_ws. destruct Hserial as [Hserial_ne Hserial].
  rewrite split_ws_word by done.
  destruct (row_gap row) as [|c g] eqn:Hg; [done|]. destruct Hgap as [[Hc _] Hgap].
  cbn [String.append split_ws_from]. rewrite Hc, append_nil_r.
  rewrite split_ws_gap by done.
  destruct Hstate as [Hstate_ne Hstate]. rewrite split_ws_word by done.
  destruct (split_ws_head_blank tail' Htail') as (ts & ->).
  rewrite append_nil_r. by eexists.
Qed.

Lemma row_nonblank (row : AdbRow) : row_ok row -> nonblank (row_line row) = true.
Proof.
  intros (Hserial & _). unfold nonblank, trim, row_line.
  set (rest := row_gap row +:+ row_state row +:+ row_tail row).
  rewrite trimStart_fixed by (by apply word_head).
  pose proof (trimEnd_nonempty _ (word_append_nonempty _ rest Hserial)
                (word_head _ rest Hserial)) as Hne.
  by destruct (trimEnd _).
Qed.

Lemma row_one_line (row : AdbRow) : row_ok row -> ~ char_in newline (row_line row).
Proof.
  intros ([_ Hserial] & [_ Hgap] & [_ Hstate] & _ & Htail). unfold row_line.
  assert (forall P s, all_chars P s -> (forall c, P c -> c <> newline) ->
                      ~ char_in newline s) as Hno.
  { intros P s Hall HP Hin. rewrite all_chars_forall in Hall.
    by apply (HP newline (Hall newline Hin)). }
  intros Hin. apply char_in_append in Hin as [Hin|Hin].
  { revert Hin. apply (Hno _ _ Hserial). by intros c Hc ->. }
  apply char_in_append in Hin as [Hin|Hin].
  { revert Hin. apply (Hno _ _ Hgap). by intros c [_ Hc]. }
  apply char_in_append in Hin as [Hin|Hin]; [|done].
  revert Hin. apply (Hno _ _ Hstate). by intros c Hc ->.
Qed.

(** X25.  Which lines of [adb devices -l] count as emulators.  Of an
    output made of a first line and device lines, each a serial, white
    space, a state and possibly more after white space, the emulators
    read are the serial and state of the lines whose serial starts with
    [emulator-], in order.  The first line that is not blank is never
    read as a device, so an output of a single line yields nothing.  When
    no serial starts with [emulator-] the map of running emulators is
    empty. *)
Theorem emulator_serials_reads_rows :
  (forall header rows,
     nonblank header = true -> ~ char_in newline header -> Forall row_ok rows ->
     emulator_serials (text (header :: List.map row_line rows))
     = List.map (fun row => (row_serial row, row_state row))
         (List.filter (fun row => startsWith (row_serial row) "emulator-") rows))
  /\ (forall line, ~ char_in newline line -> emulator_serials line = [])
  /\ (forall w adbCmd result header rows,
        await (executeCommand w adbCmd ["devices"; "-l"] no_options) = Returns result ->
        CLICommandResult.stdout result = text (header :: List.map row_line rows) ->
        nonblank header = true -> ~ char_in newline header -> Forall row_ok rows ->
        Forall (fun row => startsWith (row_serial row) "emulator-" = false) rows ->
        getAllRunningEmulators w adbCmd = Returns []).
Proof.
  assert (forall header rows,
            nonblank header = true -> ~ char_in newline header -> Forall row_ok rows ->
            emulator_serials (text (header :: List.map row_line rows))
            = List.map (fun row => (row_serial row, row_state row))
                (List.filter (fun row => startsWith (row_serial row) "emulator-") rows))
    as Hrows.
  { intros header rows Hheader Hone Hok. unfold emulator_serials.
    rewrite split_text.
    2: { constructor; [done|]. apply List.Forall_forall.
         intros l (row & <- & Hrow)%in_map_iff. apply row_one_line.
         rewrite List.Forall_forall in Hok. by apply Hok. }
    rewrite List.filter_app. cbn [List.filter]. rewrite Hheader.
    replace (nonblank "") with false by reflexivity. rewrite app_nil_r.
    cbn [List.tl]. clear Hheader Hone header.
    induction rows as [|row rows IH]; [done|].
    apply List.Forall_cons_iff in Hok as [Hrow Hok].
    cbn [List.map List.filter]. rewrite (row_nonblank row Hrow).
    cbn [List.tl flat_map]. destruct (split_ws_row row Hrow) as (more & ->).
    rewrite (IH Hok).
    by destruct (startsWith (row_serial row) "emulator-"). }
  split; [exact Hrows|]. split.
  - intros line Hone. unfold emulator_serials. rewrite split_whole by done.
    cbn [List.filter]. by destruct (nonblank line).
  - intros w adbCmd result header rows Hresult Hstdout Hheader Hone Hok Hnone.
    unfold getAllRunningEmulators. rewrite Hresult.
    destruct (_ && _); [done|].
    rewrite Hstdout, (Hrows header rows Hheader Hone Hok).
    replace (List.filter _ rows) with (@nil AdbRow); [done|].
    clear Hok Hstdout. induction Hnone as [|row rows Hrow _ IH]; [done|].
    cbn [List.filter]. by rewrite Hrow.
Qed.

(** An emulator and a phone on the bridge. *)
Lemma one_emulator_one_phone :
  emulator_serials
    (text ("List of devices attached"
           :: List.map row_line
                [mkRow "emulator-5554" "          " "device" " product:sdk_gphone64";
                 mkRow "R58M123ABC" " " "offline" ""]))
  = [("emulator-5554", "device")].
Proof.
  apply (proj1 emulator_serials_reads_rows "List of devices attached"
           [mkRow "emulator-5554" "          " "device" " product:sdk_gphone64";
            mkRow "R58M123ABC" " " "offline" ""]).
  - reflexivity.
  - vm_compute. intuition discriminate.
  - repeat constructor; try discriminate; vm_compute; intuition discriminate.
Defined.

(** ** iosEmulator.ts, androidEmulator.ts: the running devices *)

Lemma getAndroidEmulatorStatus_no_throw (w : World) (emulatorName : string) (e : JSError) :
  getAndroidEmulatorStatus w emulatorName <> Throws e.
Proof.
  unfold getAndroidEmulatorStatus.
  match goal with |- try_catch ?m _ <> _ => by destruct m end.
Qed.

(** The loop keeps what it had and adds, in order, the AVDs that resolve
    to Running, unless a status never arrives. *)
Lemma running_loop_spec (w : World) :
  forall allEmulators found,
    running_loop w allEmulators found
    = Returns (found
               ++ List.map (fun emulator =>
                              AndroidEmulator.mk (AndroidEmulator.name emulator)
                                (AndroidEmulator.path emulator) (Some running))
                    (List.filter (resolves_running w) allEmulators))
    \/ running_loop w allEmulators found = Hangs.
Proof.
  induction allEmulators as [|emulator rest IH]; intros found.
  - left. cbn. by rewrite app_nil_r.
  - cbn [running_loop List.filter]. unfold isAndroidEmulatorRunning, resolves_running.
    pose proof (getAndroidEmulatorStatus_no_throw w (AndroidEmulator.name emulator)) as Hno.
    destruct (getAndroidEmulatorStatus w (AndroidEmulator.name emulator)) as [s|e|];
      [|by destruct (Hno e)|by right].
    cbn [bind].
    destruct s; cbv beta iota;
      match goal with
      | |- context [running_loop w rest ?acc] => destruct (IH acc) as [-> | ->]
      end; try (by right); left; cbn [List.map]; by rewrite <- ?app_assoc.
Qed.

(** When every status arrives, the loop returns. *)
Lemma running_loop_returns (w : World) :
  forall allEmulators found,
    (forall emulator,
       In emulator allEmulators ->
       getAndroidEmulatorStatus w (AndroidEmulator.name emulator) <> Hangs) ->
    running_loop w allEmulators found
    = Returns (found
               ++ List.map (fun emulator =>
                              AndroidEmulator.mk (AndroidEmulator.name emulator)
                                (AndroidEmulator.path emulator) (Some running))
                    (List.filter (resolves_running w) allEmulators)).
Proof.
  induction allEmulators as [|emulator rest IH]; intros found Hsettle.
  - cbn. by rewrite app_nil_r.
  - cbn [running_loop List.filter]. unfold isAndroidEmulatorRunning, resolves_running.
    pose proof (getAndroidEmulatorStatus_no_throw w (AndroidEmulator.name emulator)) as Hno.
    pose proof (Hsettle emulator (or_introl eq_refl)) as Hnow.
    destruct (getAndroidEmulatorStatus w (AndroidEmulator.name emulator)) as [s|e|];
      [|by destruct (Hno e)|done].
    cbn [bind].
    destruct s; cbv beta iota; rewrite IH by (intros e He; apply Hsettle; by right);
      cbn [List.map]; by rewrite <- ?app_assoc.
Qed.

(** X26.  The running devices.  When the listing of simulators returns,
    [getRunningIOSSimulators] returns the listed simulators whose state is
    exactly [Booted], in listing order.  When the listing of AVDs returns
    and every status arrives (as it does where every child process ends),
    [getRunningAndroidEmulators] returns the listed AVDs for which the
    resolver answers Running, in listing order and marked Running: an AVD
    that is starting is left out.  Both throw exactly when the listing
    throws, with its error; the iOS one is left waiting exactly when the
    listing is; and neither returns anything else. *)
Theorem running_devices (w : World) :
  (forall simulators,
     listIOSSimulators w = Returns simulators ->
     getRunningIOSSimulators w = Returns (List.filter isSimulatorBooted simulators)
     /\ Forall (fun sim => IOSSimulator.state sim = "Booted")
          (List.filter isSimulatorBooted simulators))
  /\ (forall allEmulators,
        listAndroidEmulators w = Returns allEmulators ->
        (forall emulator,
           In emulator allEmulators ->
           getAndroidEmulatorStatus w (AndroidEmulator.name emulator) <> Hangs) ->
        getRunningAndroidEmulators w
        = Returns (List.map (fun emulator =>
                               AndroidEmulator.mk (AndroidEmulator.name emulator)
                                 (AndroidEmulator.path emulator) (Some running))
                     (List.filter (resolves_running w) allEmulators)))
  /\ (children_settle w ->
      forall allEmulators,
        listAndroidEmulators w = Returns allEmulators ->
        getRunningAndroidEmulators w
        = Returns (List.map (fun emulator =>
                               AndroidEmulator.mk (AndroidEmulator.name emulator)
                                 (AndroidEmulator.path emulator) (Some running))
                     (List.filter (resolves_running w) allEmulators)))
  /\ (forall e,
        (getRunningIOSSimulators w = Throws e <-> listIOSSimulators w = Throws e)
        /\ (getRunningAndroidEmulators w = Throws e <-> listAndroidEmulators w = Throws e))
  /\ (getRunningIOSSimulators w = Hangs <-> listIOSSimulators w = Hangs)
  /\ (forall found,
        getRunningIOSSimulators w = Returns found ->
        exists simulators,
          listIOSSimulators w = Returns simulators
          /\ found = List.filter isSimulatorBooted simulators)
  /\ (forall found,
        getRunningAndroidEmulators w = Returns found ->
        exists allEmulators,
          listAndroidEmulators w = Returns allEmulators
          /\ found
             = List.map (fun emulator =>
                           AndroidEmulator.mk (AndroidEmulator.name emulator)
                             (AndroidEmulator.path emulator) (Some running))
                 (List.filter (resolves_running w) allEmulators)).
Proof.
  assert (forall allEmulators,
            listAndroidEmulators w = Returns allEmulators ->
            (forall emulator,
               In emulator allEmulators ->
               getAndroidEmulatorStatus w (AndroidEmulator.name emulator) <> Hangs) ->
            getRunningAndroidEmulators w
            = Returns (List.map (fun emulator =>
                                   AndroidEmulator.mk (AndroidEmulator.name emulator)
                                     (AndroidEmulator.path emulator) (Some running))
                         (List.filter (resolves_running w) allEmulators))) as Handroid.
  { intros allEmulators Hlist Hsettle. unfold getRunningAndroidEmulators.
    rewrite Hlist. cbn [bind]. by rewrite running_loop_returns. }
  split; [|split; [|split; [|split; [|split; [|split]]]]].
  - intros simulators Hlist. unfold getRunningIOSSimulators. rewrite Hlist.
    split; [done|]. apply List.Forall_forall.
    intros sim [_ Hbooted]%List.filter_In. by apply String.eqb_eq.
  - exact Handroid.
  - intros Hsettle allEmulators Hlist. apply Handroid; [done|].
    intros emulator _. by apply getAndroidEmulatorStatus_settles.
  - intros e. split.
    + unfold getRunningIOSSimulators.
      by destruct (listIOSSimulators w) as [simulators|e'|].
    + unfold getRunningAndroidEmulators.
      destruct (listAndroidEmulators w) as [allEmulators|e'|]; [|done|done].
      cbn [bind]. by destruct (running_loop_spec w allEmulators []) as [-> | ->].
  - unfold getRunningIOSSimulators.
    by destruct (listIOSSimulators w) as [simulators|e'|].
  - intros found. unfold getRunningIOSSimulators.
    destruct (listIOSSimulators w) as [simulators|e|]; [|done|done].
    cbn [bind]. intros [= <-]. by exists simulators.
  - intros found. unfold getRunningAndroidEmulators.
    destruct (listAndroidEmulators w) as [allEmulators|e|]; [|done|done].
    cbn [bind]. destruct (running_loop_spec w allEmulators []) as [-> | ->]; [|done].
    intros [= <-]. by exists allEmulators.
Qed.

(** A booted phone is among the running simulators; an AVD that is not
    running is not among the running emulators. *)
Lemma booted_phone_is_running :
  getRunningIOSSimulators (mac_with_phone "Booted" already_booted)
  = Returns [IOSSimulator.mk example_udid "iPhone 15" "Booted"
               "com.apple.CoreSimulator.SimDeviceType.iPhone-15"
               "com.apple.CoreSimulator.SimRuntime.iOS-17-0"]
  /\ getRunningAndroidEmulators mac_with_both = Returns [].
Proof.
  split.
  - refine (proj1 (proj1 (running_devices (mac_with_phone "Booted" already_booted))
                     [IOSSimulator.mk example_udid "iPhone 15" "Booted"
                        "com.apple.CoreSimulator.SimDeviceType.iPhone-15"
                        "com.apple.CoreSimulator.SimRuntime.iOS-17-0"] _)).
    vm_compute. reflexivity.
  - refine (proj1 (proj2 (proj2 (running_devices mac_with_both)))
              _ [pixel_avd] _).
    + apply machine_settles. repeat constructor; discriminate.
    + vm_compute. reflexivity.
Defined.

(** ** emulatorProvider.ts: what a boot request does to the record *)

Lemma find_record_told (st : Store) (msg : string) (item : EmulatorItem) :
  find_record (showErrorMessage msg (fire st)) item = find_record st item.
Proof. by apply find_record_ext. Qed.

Lemma set_status_icon_twice (s s' : Status) (i i' : string) (e : option EmulatorItem) :
  EmulatorItem.set_status_icon s i <$> (EmulatorItem.set_status_icon s' i' <$> e)
  = EmulatorItem.set_status_icon s i <$> e.
Proof. by destruct e as [[]|]. Qed.

(** X27.  What a boot request does to the record it finds.  For an item
    that is a device, not seen as Running, and whose id finds a record [r]
    in the lists: no other object changes.  When the boot call returns,
    [r] is left Starting with the spinning icon, the change event has
    fired once, and re-checks are scheduled after 2 s for a simulator,
    after 1, 3, 5 and 2 s for an AVD.  When the boot call throws, [r] is
    left Stopped with the outline icon whatever its status was, the event
    has fired twice, nothing is scheduled and one message
    [Failed to start emulator: ...] is shown. *)
Theorem startEmulator_marks_the_record (w : World) (item : ref) (st : Store)
    (it : EmulatorItem) (r : ref) :
  heap st !! item = Some it ->
  EmulatorItem.isCategory it || EmulatorItem.isSubtype it = false ->
  EmulatorItem.status it <> running ->
  find_record st it = Some r ->
  let st' := snd (startEmulator w item st) in
  (forall r', r' <> r -> heap st' !! r' = heap st !! r')
  /\ (forall udid,
        EmulatorItem.platform it = ios -> EmulatorItem.udid it = Some udid ->
        truthy udid = true ->
        (bootIOSSimulator w udid = Returns tt -> boot_requested r [2000] st st')
        /\ (forall e, bootIOSSimulator w udid = Throws e -> boot_given_up r e st st'))
  /\ (forall name,
        EmulatorItem.platform it = android -> EmulatorItem.name it = Some name ->
        truthy name = true ->
        (bootAndroidEmulator w name = Returns tt ->
         boot_requested r [1000; 3000; 5000; 2000] st st')
        /\ (forall e, bootAndroidEmulator w name = Throws e -> boot_given_up r e st st')).
Proof.
  intros Hitem Hleaf Hstatus Hfind st'. subst st'.
  rewrite (startEmulator_eq w item st it Hitem Hleaf Hstatus).
  unfold mark_starting. rewrite Hfind.
  set (st1 := fire (mark starting sync_spin r st)).
  assert (forall msg, find_record (showErrorMessage msg st1) it = Some r) as Hfind1.
  { intros msg. unfold st1. by rewrite find_record_told, find_record_mark. }
  assert (forall r', heap st1 !! r'
                     = if decide (r = r')
                       then EmulatorItem.set_status_icon starting sync_spin <$> heap st !! r'
                       else heap st !! r') as Hheap1.
  { intros r'. apply lookup_alter_heap. }
  split; [|split].
  - intros r' Hne.
    destruct (boot_cases w it st1) as [-> |[-> |[[e ->]| ->]]]; cbn [snd];
      try (cbn; rewrite lookup_alter_heap; by destruct (decide (r = r'))).
    unfold reset_status. rewrite Hfind1. cbn. rewrite !lookup_alter_heap.
    by destruct (decide (r = r')).
  - intros udid Hplatform Hudid Htruthy. unfold boot. rewrite Hplatform, Hudid, Htruthy.
    unfold sbind, lift, exec. split.
    + intros ->. cbn. unfold boot_requested. cbn. rewrite lookup_alter_heap.
      by destruct (decide (r = r)).
    + intros e ->. cbn [snd]. unfold reset_status. rewrite Hfind1.
      unfold boot_given_up. cbn. rewrite !lookup_alter_heap.
      destruct (decide (r = r)); [|done]. by rewrite set_status_icon_twice.
  - intros name Hplatform Hname Htruthy. unfold boot. rewrite Hplatform, Hname, Htruthy.
    unfold sbind, lift, exec.
    split.
    + intros Hboot. destruct (EmulatorItem.udid it); rewrite Hboot; cbn;
        unfold boot_requested; cbn; rewrite lookup_alter_heap;
        destruct (decide (r = r)); try done; by rewrite <- !app_assoc.
    + intros e Hboot. destruct (EmulatorItem.udid it); rewrite Hboot; cbn [snd];
        unfold reset_status; rewrite Hfind1; unfold boot_given_up; cbn;
        rewrite !lookup_alter_heap; destruct (decide (r = r)); try done;
        by rewrite set_status_icon_twice.
Qed.

(** A phone whose boot is refused: its record, stopped, is marked
    Starting and then Stopped again. *)
Lemma refused_phone_is_stopped_again :
  let w := mac_with_phone "Shutdown" boot_refused in
  let st := refresh w empty_store in
  exists e,
    bootIOSSimulator w example_udid = Throws e
    /\ boot_given_up 0 e st (snd (startEmulator w 0 st)).
Proof.
  eexists. split; [vm_compute; reflexivity|].
  refine (proj2 (proj1 (proj2 (startEmulator_marks_the_record
                                 (mac_with_phone "Shutdown" boot_refused) 0
                                 (refresh (mac_with_phone "Shutdown" boot_refused)
                                    empty_store)
                                 (ios_item shut_phone) 0 _ _ _ _))
                   example_udid eq_refl eq_refl eq_refl) _ _).
  - vm_compute. reflexivity.
  - reflexivity.
  - discriminate.
  - vm_compute. reflexivity.
  - vm_compute. reflexivity.
Defined.

(** ** emulatorProvider.ts: what a status re-check achieves *)

(** X28.  What a status re-check achieves, on a machine where every
    child process ends and where the simulators listed under one UDID
    agree in whether they are booted.  After it, the record found for
    every listed simulator is Running if the simulator is booted and
    Stopped otherwise, and the record found for every listed AVD has the
    status the resolver answers for it.  And the event tells the truth:
    if the Android check did not throw and the event was not fired, the
    provider is exactly as it was. *)
Theorem checkStatusChanges_brings_up_to_date (w : World) (st : Store) :
  children_settle w ->
  (forall simulators,
     listIOSSimulators w = Returns simulators -> agree_on_state simulators) ->
  let st1 := snd (checkStatusChanges w st) in
  (forall simulators sim r e,
     checkXcodeAvailable w = Returns true ->
     listIOSSimulators w = Returns simulators ->
     In sim simulators ->
     findIOSEmulator st1 ("ios-" +:+ IOSSimulator.udid sim) = Some r ->
     heap st1 !! r = Some e ->
     EmulatorItem.status e = if isSimulatorBooted sim then running else stopped)
  /\ (forall emulators emu r e,
        checkAndroidAvailable w = Returns true ->
        listAndroidEmulators w = Returns emulators ->
        In emu emulators ->
        findAndroidEmulator st1 ("android-" +:+ AndroidEmulator.name emu) = Some r ->
        heap st1 !! r = Some e ->
        getAndroidEmulatorStatus w (AndroidEmulator.name emu)
        = Returns (EmulatorItem.status e))
  /\ (forall b,
        checkAndroidAvailable w = Returns b -> fired st1 = fired st -> st1 = st).
Proof.
  intros Hsettle Hagree st1.
  destruct (checkStatusChanges_settled w Hsettle Hagree st) as (_ & Hios & Handroid).
  fold st1 in Hios, Handroid. split; [|split].
  - intros simulators sim r e Hxcode Hlist Hsim Hfind He.
    by apply (Hios simulators Hxcode Hlist sim r e).
  - intros emulators emu r e Hcheck Hlist Hemu Hfind He.
    destruct Handroid as [Handroid|[err Herr]]; [|congruence].
    rewrite (Handroid emulators Hcheck Hlist emu r e Hemu Hfind He).
    by apply status_resolved.
  - intros b Hcheck. subst st1. unfold checkStatusChanges. cbn [snd].
    rewrite check_frame_eq.
    pose proof (check_ios_ok w st (st, false)) as Hok1.
    rewrite (check_ios_eq w Hsettle) in *. cbn [snd] in Hok1.
    set (acc1 := ios_pass w (st, false)) in *.
    pose proof (check_android_ok w st acc1) as Hok2.
    destruct (check_android_eq w Hsettle acc1) as [Heq|[err Hthrow]].
    + rewrite Heq in *. cbn [snd fst] in *.
      assert (check_ok st (st, false)) as H0.
      { split; [apply restatused_refl|]. split; [apply same_fields_refl | done]. }
      destruct (Hok2 (Hok1 H0)) as (_ & Hfields & Hsame).
      destruct Hfields as (_ & _ & _ & Hfired & _).
      unfold fire_if_changed. destruct (snd (android_pass w acc1)); cbn [fst].
      * cbn. lia.
      * intros _. by apply Hsame.
    + exfalso. unfold check_android, sbind, lift in Hthrow. rewrite Hcheck in Hthrow.
      destruct b; [|done]. unfold stry in Hthrow.
      destruct (listAndroidEmulators w) as [emulators|?|]; [|done|done].
      by rewrite (check_android_loop_eq w Hsettle) in Hthrow.
Qed.

(** On a Mac whose phone has been booted since the refresh, the re-check
    marks its record Running. *)
Lemma recheck_finds_booted_phone :
  let w := mac_with_phone "Booted" already_booted in
  let st := refresh (mac_with_phone "Shutdown" already_booted) empty_store in
  let st1 := snd (checkStatusChanges w st) in
  exists e, heap st1 !! 0 = Some e /\ EmulatorItem.status e = running.
Proof.
  eexists. split; [vm_compute; reflexivity|].
  refine (proj1 (checkStatusChanges_brings_up_to_date
                   (mac_with_phone "Booted" already_booted)
                   (refresh (mac_with_phone "Shutdown" already_booted) empty_store) _ _)
            [IOSSimulator.mk example_udid "iPhone 15" "Booted"
               "com.apple.CoreSimulator.SimDeviceType.iPhone-15"
               "com.apple.CoreSimulator.SimRuntime.iOS-17-0"]
            _ 0 _ _ _ (or_introl eq_refl) _ _).
  - apply machine_settles. repeat constructor; discriminate.
  - intros simulators Hlist. vm_compute in Hlist. injection Hlist as <-.
    by intros s1 s2 [<-|[]] [<-|[]] _.
  - vm_compute. reflexivity.
  - vm_compute. reflexivity.
  - vm_compute. reflexivity.
  - vm_compute. reflexivity.
Defined.

(** ** iosEmulator.ts: the three patterns of the version extractor *)















